(* ===== verification/_CoqProject ===== *)
-Q . S2P
Prelude.v
Steque.v
CLib.v
ShmChannel.v
ControlProtocol.v
World.v
CacheDaemon.v
WorkerChunks.v
ProxyHandler.v
System.v
Tokens.v
Termination.v
Liveness.v
Config.v
Options.v
CurlHandler.v
WebProxy.v
Transfer.v
FrontEnds.v
Concurrency.v
Lifecycle.v
Startup.v
Race.v
WorkerLoss.v
StalePost.v
Stalls.v
Scenarios.v
