(* ===== verification/Prelude.v ===== *)
(** * A verified model of the shared-memory content cache

    This development models the two-process content cache of the
    repository: the front-end proxy's request handler
    ([src/cache/handle_with_cache.c], [handle_with_cache]), and the cache
    daemon ([src/cache/simplecached.c]): a boss thread that reads one
    text request per connection on a local stream socket and queues a
    task, and a pool of worker threads that copy the requested file
    through a named shared-memory segment ([src/cache/shm_channel.c],
    [src/cache/shm_channel.h]) in chunks, handing each chunk to the
    handler with the two semaphores that the segment's header holds.

    ** Files, in dependency order

    - [Prelude] (this file): the C integer widths of the LP64 ABI as [Z]
      with their wrap-around ([to_size_t], [size_sub], [to_ushort],
      [to_int]), bytes, the hint databases [cache] and [cache_simpl], and
      list lemmas shared by the components.
    - [Steque]: the [steque_t] container (its header [steque.h] is not
      under [src/]; modelled from the spec) as a class of operations
      with a class of laws, implemented by lists.
    - [CLib]: the C library functions whose behaviour the code depends
      on: [atol], [strtok], [strcspn], the [%zu] conversion and the
      truncation of [snprintf].
    - [ShmChannel]: [shm_payload_t] and its size (88 bytes), the kernel's
      shared-memory namespace as a [gmap] from names to objects, the
      descriptors and mappings of a process, and [shm_segment_create],
      [shm_segment_attach], [shm_segment_destroy], [create_n_segments],
      with every failing system call an [os_fault] value.
    - [ControlProtocol]: [cache_task_t], the request line the handler
      formats (lines 35-36) and [boss_parse], what the boss does with
      one message (lines 252-272).
    - [World]: the state the threads of both processes share (namespace,
      segment pool, socket backlog, task queue, daemon descriptors,
      content store), the clients of the serving framework ([gfserver.h],
      not under [src/]: a client is the list of headers and bytes it
      received), the content store's lookup [simplecache_get]
      ([simplecache.h], not under [src/]: a key resolves to contents or
      to a miss), and the environment's answer [env] to a system call.
    - [CacheDaemon]: Module [Worker], [_worker_thread] as a program
      counter [wstate] and a step function [worker_step] with one step
      per synchronisation or shared access; Module [Boss], the accept
      loop of [main] as [boss_step], where a failing [accept] (no free
      descriptor, [accept_fails]) is a step that changes nothing, as the
      code's [continue].
    - [WorkerChunks]: the worker run alone against a handler that takes
      each chunk at once ([worker_chunks]), compared with the chunking
      of the spec's round-trip property ([spec_chunks]) through the
      read loop with the semaphores taken out ([chunks_from]).
    - [ProxyHandler]: [handle_with_cache] as a program counter [pstate]
      and a step function [proxy_step], each [goto error] an explicit
      transition to [PError].
    - [System]: threads together: [sys_step] moves one thread,
      [step] is the interleaving of all threads under any answers of the
      environment, [run] replays an explicit schedule and [coop] is the
      cooperative schedule (handlers first, then the boss, then the
      workers, every call succeeding); the conservation of the segment
      pool along [step].
    - [Config]: the option handling of both programs' [main]
      ([simplecached.c] lines 165-208, [webproxy.c] lines 37-97), with
      [getopt_long]'s return values as input, and the daemon's start
      (lines 218-228): [simplecache_init] (the store a loader gives for
      the index file, the store's code not being in the repository),
      [steque_init] and its idle workers.
    - [Options]: the two option tables [gLongOptions] and option
      strings ([simplecached.c] lines 150-158 and 175, [webproxy.c]
      lines 13-20 and 58) and glibc's [getopt_long] over [argv] (library
      code, modelled as documented), composed with [Config] into
      [daemon_argv] and [proxy_argv].
    - [CurlHandler]: [handle_with_curl] ([src/server/handle_with_curl.c]),
      the front end that fetches with libcurl: the URL, [write_callback],
      the header and the send loop, with libcurl's answers as input.
    - [WebProxy]: the rest of [webproxy.c]: the signal handler and its
      installation (lines 27-32, 47-55; [SERVER_FAILURE] of [gfserver.h]
      is a parameter), the framework's server as the record of the
      options [main] sets (lines 99-108), one argument per worker
      thread, the dispatch of a request to [handle_with_curl], and
      [handle_with_file].
    - [Tokens]: the tokens of a channel's hand-over (pending posts,
      threads holding its turn, messages and tasks in flight), a measure
      on system states that no step of any thread increases.
    - [Termination]: a potential on system states (each thread's place
      in its code, the bytes a worker's file has left past its offset,
      the posts pending on [sem_proxy_ready], a weight per message and
      task in flight) that every step of every thread lowers, but the
      boss's loop on a failing [accept], which changes nothing.
    - [Liveness]: the interleavings in which the daemon's system calls
      succeed ([ok_step]), and an invariant that follows one request
      (its message, its task, the worker that took it) and relates the
      handler's place in its code, the worker's stage and the
      channel's semaphores and flag ([phase]).
    - [Transfer]: one whole transfer under [coop], by symbolic execution
      with per-branch step lemmas, from the handler's [PStart] to its
      return: the loop over full chunks is an induction ([loop_rest]).
    - [FrontEnds]: what a client sees of [handle_with_cache] (the
      handler's return value and client record once the cooperative run
      ends) and of [handle_with_curl], side by side.
    - [Concurrency]: a run of one handler lifted into a system of
      several ([embed]; the others do not move), and [N] requests served
      through a pool of [N] segments, with the frame fact of [Transfer]
      (a transfer writes only its own object) keeping the other
      segments ready.
    - [Lifecycle]: the daemon's signal handlers: their installation in
      [main] (lines 209-216, [daemon_boot]), [_sig_handler] (lines 44-52)
      as a transformation of the world, and a shutdown that arrives
      while a handler waits for a chunk.
    - [Startup]: the state the start-up of both processes leaves (the
      proxy's [create_n_segments], the daemon's [daemon_boot]) meets
      the hypotheses of [Liveness].
    - [Race]: the race on [is_last_chunk] for every file: the
      cooperative run of [Transfer] up to each full chunk (an induction,
      [reach_body]), then single [System.step]s in the order in which
      the worker overtakes the handler between its [sem_post] and its
      read of the flag ([race_tail]); [race_run] adds that the run
      writes no shared object but the segment's.
    - [WorkerLoss]: the states reachable after that race once a second
      request starts, as an invariant ([lost], [lost_rtc]): the worker
      stays in its wait, the second handler writes nothing shared and
      never passes its wait for the first chunk.
    - [StalePost]: a transfer that starts with a post left on
      [sem_cache_ready] ([stale_first]), and its composition with a first
      transfer that leaves the post, on a pool of one segment.
    - [Stalls]: the worker's error paths and a full descriptor table,
      from the request to a state where no thread can move; a crash of
      the boss on a malformed message, from the message to the next
      request's [GF_ERROR].
    - [Scenarios]: concrete states (a pool made by [create_n_segments],
      a store of three files) on which the theorems are applied, and
      explicit schedules exhibiting the interleavings that break the
      protocol.

    ** What the theorems show

    - End to end ([Transfer]): a request for a non-empty file held by
      the store gets one [GF_OK] header with the file's size and exactly
      the file's bytes, and the segment goes back to the pool; a miss
      and an empty file get [GF_ERROR] (the spec asks for not-found on a
      miss); a file whose size is a multiple of the chunk size leaves a
      stale post on [sem_cache_ready]; every transfer leaks the worker's
      descriptor and mapping of the segment.  These hold for every fuel
      from the bound of [Bounds and fuel] on.  The cooperative run of
      such a request terminates: after [8 + transfer_steps] steps no
      thread can move, so any fuel above that bound gives the same
      final state (the fuel of [coop] is enough as soon as it reaches
      this bound, which is linear in the number of chunks).
    - Every interleaving ends or spins ([Termination]): from any state,
      with any number of handlers and workers and any answers of the
      system calls, the steps that change the state form a strongly
      normalising relation and a run of them has at most [potential]
      steps (the weights depend only on the longest file of the store,
      which no step changes); the one step that changes nothing is the
      boss going round its loop on a failing [accept] while a connection
      is pending and the descriptor table is full.
    - The handler always returns ([Liveness]): for one request on a
      clean segment, along every interleaving in which the daemon's
      calls succeed (the handler's may fail), every run is finite and
      ends with [handle_with_cache] returned, the race on
      [is_last_chunk] included; the ways it can wait forever are
      failures of the daemon ([Stalls], [Lifecycle]).
    - Start-up ([Startup]): after the proxy has made its segments and
      the daemon has started with any command line it accepts, a
      request is answered along every interleaving in which the
      daemon's calls succeed.
    - Concurrency ([Concurrency]): [N] requests through a pool of
      exactly [N] segments all complete (spec section 8): in an
      interleaving where every handler first takes its segment, every
      client then gets its whole file and the pool is whole again.
    - Shutdown ([Lifecycle]): after [SIGINT] or [SIGTERM] the daemon is
      gone with its socket's name; a handler that was waiting for a
      chunk waits forever, since no thread left can post
      [sem_proxy_ready] (along every interleaving).
    - The curl front end's server ([WebProxy]): every worker thread of
      every accepted configuration serves its requests from the origin
      given with [-s].
    - Equivalence ([FrontEnds]): on a file the cache holds and the
      origin serves with status 200, the cache front end and the curl
      front end give the client the same answer (size, one [GF_OK]
      header, the file's bytes); they differ on a miss.
    - Tokens ([Tokens]): along every interleaving the token count of
      a channel never grows; so one request has at most one post pending
      on its channel and the handler and a worker never hold the turn
      together (the spec's rendezvous of capacity one, for one request).
    - Chunking ([WorkerChunks]): the chunks the worker publishes are the
      spec's ([spec_chunks m c]) when [m] does not divide the size; when
      it does, the spec's last chunk loses its flag and an empty chunk
      flagged last follows.  They put together are the file.
    - Invariants ([System]): along every interleaving, the segments in
      the pool and those the handlers hold are the same multiset, and no
      segment is held by two handlers or held while in the pool; once
      the handlers hold every segment, a new request fails at once with
      [GF_ERROR].
    - Protocol ([ControlProtocol]): the boss parses the request line the
      handler formats back into the same task, and the boss queues the
      tasks of waiting requests in arrival order; a line with one token
      crashes the daemon; a malformed size becomes 0; a line that
      [snprintf] cuts inside the digits of the size gives a task whose
      size is divided by a power of ten.
    - Errors of the handler ([ProxyHandler]): an overflowing chunk, a
      failed or partial send.
    - Channels ([ShmChannel]): [create_n_segments] makes distinct,
      initialised segments named ["/proxy_shm_j"] (which discharges the
      distinctness the pool invariant assumes); destroying a fresh
      segment undoes its creation; the error paths of
      [shm_segment_attach].
    - Bounds ([CacheDaemon], [Config]): [max_chunk_size] wraps for a
      segment size below 88 bytes; both programs run only with
      configurations in their ranges, but the front end's [unsigned
      short] options wrap before the checks, and where [char] is
      unsigned the daemon never starts.
    - Command lines ([Options]): from [argv], the daemon runs exactly
      with the thread counts and delays of its documented ranges; every
      long option is spelled as its short one; some letters of the
      option strings have no [case] and some [case]s are never reached.
    - The curl handler ([CurlHandler]): a fetched body is delivered whole
      across partial sends; failures are reported as not found; a send
      that returns 0 spins the loop forever.
    - The race ([Race]): the handler reads [is_last_chunk] after its
      post, so for every file above the chunk size whose size is not a
      multiple of it an interleaving ends the transfer one chunk early,
      gives the segment back with a pending [sem_proxy_ready] post and
      leaves the worker blocked.
    - The lost worker ([WorkerLoss]): after that race the worker never
      leaves its [sem_wait] on [sem_cache_ready]; with one worker a
      second request, on another segment, gets neither a byte nor a
      [GF_OK] header along any interleaving.
    - The stale post ([StalePost]): after a file whose size is a
      multiple of the chunk size, the next transfer on the segment, for
      any file of more than one chunk, can forward its second chunk
      first.
    - Stalls ([Stalls]): for every file, a failing [dup], [fstat] or
      first [pread] of the worker drops the task without a post and no
      thread can move again: the handler waits for its first chunk
      forever; with a full descriptor table the boss's [accept] fails
      and the boss spins without taking the request, and the handler
      waits forever too; after a one-token message the daemon is dead
      and every request fails.
    - Witnesses ([Scenarios]): the theorems above on concrete states.

    ** Bounds and fuel

    [coop] takes fuel: the end-to-end theorems give the exact number of
    steps of each phase, and [10 * (size / chunk) + 20] steps are enough
    for a transfer of [size] bytes in chunks of [chunk] bytes (ten steps
    per full chunk, at most twelve for the last one and eight for the
    start); more fuel changes nothing once every thread is blocked.
    [dec_aux] prints at most 20 digits, enough for any [size_t].  The
    descriptor table holds 1024 descriptors ([RLIMIT_NOFILE]).

    ** Not modelled

    The serving framework [gfserver] and the content store
    [simplecache] (not under [src/]: a client is its received headers and
    bytes, the store a map from keys to contents, which [simplecache_get]
    looks up); libcurl's network
    behaviour (an input of [CurlHandler]); [gfserver_serve]'s accept
    loop and [gfserver_stop]; how [simplecache_init] reads its index
    (a loader from index to store is a parameter); the file-system name of the daemon's socket
    (an [unlink] shows only as the socket no longer accepting, which
    its exit implies too); the page granularity of [mmap] (a mapping
    covers exactly the object, so a [pread] into a buffer shorter than
    the chunk returns the bytes that fit, or [EFAULT] when none does); [EINTR] on the worker's [sem_wait] (the
    only signal handlers the daemon installs exit instead of returning,
    so the wait is never interrupted; the handler's waits can fail and
    do, as [EFail]); a partial [write] or [read] of a control message
    (one line of at most 1023 bytes on a local socket); the delay of
    [simplecache_get]; bytes of a name after a NUL; the usage texts and
    [Usage ()] (output only; the one place where the daemon's text and
    code disagree, the default index, is a finding); [getopt_long] under
    [POSIXLY_CORRECT] or with an option string starting with [':']. *)

From stdpp Require Export base list strings gmap relations.
From Stdlib Require Export ZArith Lia.


Declare Scope cache_scope.
Delimit Scope cache_scope with cache.
Open Scope cache_scope.
Local Open Scope Z_scope.

(** ** Bytes *)

(** A byte of shared memory or of a cached file ([char] in C). *)
Abbreviation byte := Byte.byte.

#[export] Instance byte_eq_dec : EqDecision byte := Byte.byte_eq_dec.

(** ** Machine integers of the LP64 ABI the code is compiled for *)

(** [size_t] is 64 bits wide; every [size_t] expression of the code is a
    [Z] taken modulo [2^64]. *)
Definition size_t_modulus : Z := 2 ^ 64.

Definition to_size_t (z : Z) : Z := z mod size_t_modulus.

(** Subtraction of two [size_t] values, with its wrap-around. *)
Definition size_sub (a b : Z) : Z := to_size_t (a - b).

Infix "-ₛ" := size_sub (at level 50, left associativity) : cache_scope.

(** A value that fits a [size_t]. *)
Definition in_size_t (z : Z) : Prop := 0 <= z < size_t_modulus.

(** [long] is 64 bits wide and signed. *)
Definition long_min : Z := - 2 ^ 63.
Definition long_max : Z := 2 ^ 63 - 1.

(** [unsigned short] is 16 bits wide. *)
Definition to_ushort (z : Z) : Z := z mod 2 ^ 16.

(** [char] on an ABI where it is signed (x86-64) or unsigned (AArch64). *)
Definition to_schar (z : Z) : Z := let m := z mod 2 ^ 8 in if m <? 2 ^ 7 then m else m - 2 ^ 8.
Definition to_uchar (z : Z) : Z := z mod 2 ^ 8.

(** [unsigned long]: 64 bits. *)
Definition to_ulong (z : Z) : Z := z mod 2 ^ 64.

(** [int] is 32 bits wide and signed: a [long] converted to [int] keeps
    its low 32 bits, read in two's complement. *)
Definition to_int (z : Z) : Z :=
  let m := z mod 2 ^ 32 in if Z_lt_dec m (2 ^ 31) then m else m - 2 ^ 32.

(** ** Automation shared by every component *)

Create HintDb cache discriminated.
Create Rewrite HintDb cache_simpl.

Ltac invc H := inversion H; subst; clear H.

(** Unfold a record update that the simplifier leaves folded. *)
Ltac simpl_rec := cbn [fmap] in *; simpl in *.

(** ** Generic lemmas on machine integers *)

Lemma size_t_modulus_pos : 0 < size_t_modulus.
Proof. unfold size_t_modulus. lia. Qed.

Lemma to_size_t_small z : in_size_t z -> to_size_t z = z.
Proof. intros H. unfold to_size_t. apply Z.mod_small. exact H. Qed.

Lemma to_size_t_range z : in_size_t (to_size_t z).
Proof.
  unfold in_size_t, to_size_t. apply Z.mod_pos_bound, size_t_modulus_pos.
Qed.

(** [a -ₛ b] is the mathematical difference when it does not go below
    zero, ... *)
Lemma size_sub_exact a b :
  in_size_t a -> 0 <= b <= a -> a -ₛ b = a - b.
Proof.
  intros Ha Hb. unfold size_sub. apply to_size_t_small.
  unfold in_size_t in *. lia.
Qed.

(** ... and wraps around to a value near [2^64] when it does. *)
Lemma size_sub_wrap a b :
  0 <= a < b -> b < size_t_modulus -> a -ₛ b = a - b + size_t_modulus.
Proof.
  intros Hab Hb. unfold size_sub, to_size_t.
  rewrite <- (Z.mod_add _ 1) by (pose proof size_t_modulus_pos; lia).
  apply Z.mod_small. lia.
Qed.

#[export] Hint Resolve to_size_t_range size_t_modulus_pos : cache.

(** ** Generic lemmas on lists *)

(** Splitting a list at [n] and gluing the two pieces back. *)
Lemma take_drop_length {A} (n : nat) (l : list A) :
  (n <= length l)%nat -> length (take n l) = n.
Proof. intros H. rewrite length_take. lia. Qed.

(** Overwriting the first [length b] elements of a buffer. *)
Definition overwrite_prefix {A} (b buf : list A) : list A :=
  b ++ drop (length b) buf.

Lemma overwrite_prefix_take {A} (b buf : list A) :
  take (length b) (overwrite_prefix b buf) = b.
Proof.
  unfold overwrite_prefix. rewrite take_app_length. reflexivity.
Qed.

Lemma overwrite_prefix_length {A} (b buf : list A) :
  (length b <= length buf)%nat -> length (overwrite_prefix b buf) = length buf.
Proof.
  intros H. unfold overwrite_prefix. rewrite length_app, length_drop. lia.
Qed.

#[export] Hint Rewrite @overwrite_prefix_take : cache_simpl.
