(* ===== verification/Steque.v ===== *)
(** * The stack-queue container ([steque.h])

    [steque_t] is the container of the course framework, used by the
    proxy for its pool of free segments and by the daemon for its task
    queue.  Its header is included by [src/cache/shm_channel.h] but its
    code is not under [src/]; it is modelled from the spec, which
    requires the task queue to be order preserving (FIFO).

    The interface is the class [Steque] of operations with the class
    [StequeLaws] of laws that the clients (the channel pool, the task
    queue) rely on; [list] is its implementation, and the world of the
    model holds the pool and the queue as lists. *)

From S2P Require Import Prelude.

Class Steque (Q : Type -> Type) := {
  steque_init {A} : Q A;
  steque_enqueue {A} : Q A -> A -> Q A;
  (** [steque_pop] of an empty steque is an assertion failure in C;
      callers test [steque_isempty] first. *)
  steque_pop {A} : Q A -> option (A * Q A);
  steque_isempty {A} : Q A -> bool;
  steque_size {A} : Q A -> nat;
  (** The abstraction: the elements from front to back. *)
  steque_elems {A} : Q A -> list A;
}.

Class StequeLaws (Q : Type -> Type) `{Steque Q} := {
  steque_elems_init {A} : steque_elems (@steque_init Q _ A) = [];
  steque_elems_enqueue {A} (q : Q A) x :
    steque_elems (steque_enqueue q x) = steque_elems q ++ [x];
  steque_pop_elems {A} (q : Q A) :
    match steque_pop q with
    | None => steque_elems q = []
    | Some (x, q') => steque_elems q = x :: steque_elems q'
    end;
  steque_isempty_elems {A} (q : Q A) :
    steque_isempty q = bool_decide (steque_elems q = []);
  steque_size_elems {A} (q : Q A) : steque_size q = length (steque_elems q);
}.

(** The implementation: front of the list is the front of the steque. *)
#[export] Instance list_steque : Steque list := {
  steque_init A := [];
  steque_enqueue A q x := q ++ [x];
  steque_pop A q := match q with [] => None | x :: q' => Some (x, q') end;
  steque_isempty A q := match q with [] => true | _ => false end;
  steque_size A q := length q;
  steque_elems A q := q;
}.

#[export] Instance list_steque_laws : StequeLaws list.
Proof.
  split; try reflexivity.
  - intros A [|x q]; reflexivity.
  - intros A [|x q]; reflexivity.
Qed.

Section Laws.
Context `{StequeLaws Q}.

(** Popping after enqueueing onto any steque yields the elements in
    FIFO order: the front is unchanged unless the steque was empty. *)
Lemma steque_pop_enqueue {A} (q : Q A) x :
  steque_elems q = [] ->
  match steque_pop (steque_enqueue q x) with
  | Some (y, q') => y = x /\ steque_elems q' = []
  | None => False
  end.
Proof.
  intros Hq. pose proof (steque_pop_elems (steque_enqueue q x)) as Hp.
  rewrite steque_elems_enqueue, Hq in Hp.
  destruct (steque_pop _) as [[y q']|]; [|discriminate].
  simpl in Hp. injection Hp as -> <-. auto.
Qed.

Lemma steque_isempty_false {A} (q : Q A) :
  steque_isempty q = false ->
  exists x q', steque_pop q = Some (x, q') /\ steque_elems q = x :: steque_elems q'.
Proof.
  intros He. rewrite steque_isempty_elems in He.
  pose proof (steque_pop_elems q) as Hp.
  destruct (steque_pop q) as [[x q']|]; [eauto|].
  rewrite Hp in He. discriminate.
Qed.
End Laws.
