(* ===== verification/CLib.v ===== *)
(** * The C library functions the code relies on

    The repository's C code parses and prints its control messages with
    the C library: [snprintf] with [%s], [%d] and [%zu], [strtok],
    [strcspn], [strncpy] and [atol].  This file gives their meaning on
    NUL-free C strings (Rocq [string]s), following the C standard and
    glibc, and the lemmas the control protocol needs: decimal printing
    and [atol] are inverse on the values of a [long], and [strtok] splits
    a string at its first delimiter.  These are not repository code; the
    definitions that translate repository lines use them. *)

From S2P Require Import Prelude.
From Stdlib Require Import Ascii String.

Local Open Scope Z_scope.

(** ** Character classes *)

Definition is_digit (c : ascii) : bool :=
  let n := N_of_ascii c in (48 <=? n)%N && (n <=? 57)%N.

Definition digit_val (c : ascii) : Z := Z.of_N (N_of_ascii c) - 48.

(** [isspace] in the C locale. *)
Definition is_space (c : ascii) : bool :=
  match nat_of_ascii c with 9 | 10 | 11 | 12 | 13 | 32 => true | _ => false end%nat.

Definition space : ascii := " "%char.
Definition newline : ascii := "010"%char.

(** [true] when [c] belongs to the delimiter set [ds]. *)
Fixpoint mem_char (ds : string) (c : ascii) : bool :=
  match ds with
  | EmptyString => false
  | String d ds' => if Ascii.eqb c d then true else mem_char ds' c
  end.

(** No character of [s] is in [ds]. *)
Fixpoint no_char_in (ds s : string) : bool :=
  match s with
  | EmptyString => true
  | String c s' => negb (mem_char ds c) && no_char_in ds s'
  end.

(** ** Decimal printing: [%d] and [%zu] of [snprintf] *)

Definition digit_char (d : N) : ascii := ascii_of_N (48 + d).

(** Digits of [n] prepended to [acc], least significant first; [fuel]
    bounds the number of digits. *)
Fixpoint dec_aux (fuel : nat) (n : N) (acc : string) : string :=
  match fuel with
  | O => acc
  | S fuel' =>
      let acc' := String (digit_char (n mod 10)) acc in
      match (n / 10)%N with
      | 0%N => acc'
      | q => dec_aux fuel' q acc'
      end
  end.

(** Twenty digits are enough for every [size_t] ([2^64 < 10^20]). *)
Definition dec (n : N) : string := dec_aux 20 n EmptyString.

(** [%d] of a non-negative [int]. *)
Definition dec_Z (z : Z) : string := dec (Z.to_N z).

(** ** [atol] (glibc: [strtol (s, NULL, 10)], saturating) *)

(** The value of the longest prefix of digits, accumulated onto [acc]. *)
Fixpoint digits_val (s : string) (acc : Z) : Z :=
  match s with
  | String c s' => if is_digit c then digits_val s' (acc * 10 + digit_val c) else acc
  | EmptyString => acc
  end.

(** A string of decimal digits only. *)
Fixpoint all_digits (s : string) : bool :=
  match s with
  | String c s' => is_digit c && all_digits s'
  | EmptyString => true
  end.

Fixpoint skip_spaces (s : string) : string :=
  match s with
  | String c s' => if is_space c then skip_spaces s' else s
  | EmptyString => EmptyString
  end.

Definition clamp_long (z : Z) : Z := Z.max long_min (Z.min long_max z).

Definition atol (s : string) : Z :=
  match skip_spaces s with
  | String c s' =>
      if Ascii.eqb c "-" then clamp_long (- digits_val s' 0)
      else if Ascii.eqb c "+" then clamp_long (digits_val s' 0)
      else clamp_long (digits_val (String c s') 0)
  | EmptyString => 0
  end.

(** [atoi] (glibc: [(int) strtol (s, NULL, 10)]). *)
Definition atoi (s : string) : Z := to_int (atol s).

(** ** [strtok] *)

(** One call of [strtok] on the string [s] (the argument, or the
    position saved by the previous call): skip leading delimiters; if
    nothing is left return [NULL] ([None]), saving the end of the string;
    otherwise return the token and save the position after the delimiter
    that ends it (the end of the string if none does). *)
Fixpoint strtok_skip (ds s : string) : string :=
  match s with
  | String c s' => if mem_char ds c then strtok_skip ds s' else s
  | EmptyString => EmptyString
  end.

Fixpoint strtok_token (ds s : string) : string * string :=
  match s with
  | String c s' =>
      if mem_char ds c then (EmptyString, s')
      else let '(t, r) := strtok_token ds s' in (String c t, r)
  | EmptyString => (EmptyString, EmptyString)
  end.

Definition strtok (ds s : string) : option string * string :=
  match strtok_skip ds s with
  | EmptyString => (None, EmptyString)
  | s' => let '(t, r) := strtok_token ds s' in (Some t, r)
  end.

(** ** [strcspn] and the truncation [s[strcspn (s, ds)] = '\0'] *)
Fixpoint cut_at (ds s : string) : string :=
  match s with
  | String c s' => if mem_char ds c then EmptyString else String c (cut_at ds s')
  | EmptyString => EmptyString
  end.

(** ** [snprintf] into a buffer of [n] bytes keeps at most [n - 1]. *)
Definition snprintf_trunc (n : nat) (s : string) : string := substring 0 (n - 1) s.

(** ** Lemmas *)

Lemma digit_char_digit d : (d < 10)%N -> is_digit (digit_char d) = true.
Proof.
  intros Hd. unfold is_digit, digit_char.
  rewrite N_ascii_embedding by lia.
  apply andb_true_intro; split; apply N.leb_le; lia.
Qed.

Lemma digit_char_val d : (d < 10)%N -> digit_val (digit_char d) = Z.of_N d.
Proof.
  intros Hd. unfold digit_val, digit_char.
  rewrite N_ascii_embedding by lia. lia.
Qed.

(** Reading back the digits printed by [dec_aux] in front of [acc]. *)
Lemma digits_val_dec_aux fuel n acc a :
  (n < 10 ^ N.of_nat fuel)%N ->
  exists k : nat,
    digits_val (dec_aux fuel n acc) a = digits_val acc (a * 10 ^ Z.of_nat k + Z.of_N n).
Proof.
  revert n acc a. induction fuel as [|fuel IH]; intros n acc a Hn.
  { exists 0%nat. simpl in Hn. f_equal. lia. }
  assert (Hm : (n mod 10 < 10)%N) by (apply N.mod_lt; discriminate).
  pose proof (N.div_mod n 10 ltac:(discriminate)) as Hdm.
  rewrite Nat2N.inj_succ, N.pow_succ_r' in Hn.
  simpl dec_aux. destruct (n / 10)%N as [|q] eqn:Hq.
  - exists 1%nat. simpl digits_val.
    rewrite digit_char_digit, digit_char_val by exact Hm. f_equal. lia.
  - destruct (IH (N.pos q) (String (digit_char (n mod 10)) acc) a) as [k Hk].
    { rewrite <- Hq. apply N.Div0.div_lt_upper_bound. exact Hn. }
    exists (S k). rewrite Hk. simpl digits_val.
    rewrite digit_char_digit, digit_char_val by exact Hm. f_equal.
    clear Hn Hk IH. rewrite Nat2Z.inj_succ, Z.pow_succ_r by lia.
    remember (10 ^ Z.of_nat k) as P. nia.
Qed.

(** The first character printed is a digit. *)
Lemma dec_aux_head_digit fuel n acc :
  (fuel > 0)%nat \/ (exists c s, acc = String c s /\ is_digit c = true) ->
  exists c s, dec_aux fuel n acc = String c s /\ is_digit c = true.
Proof.
  revert n acc. induction fuel as [|fuel IH]; intros n acc Hacc.
  - destruct Hacc as [Hf|Hacc]; [lia|exact Hacc].
  - assert (Hd : is_digit (digit_char (n mod 10)) = true)
      by (apply digit_char_digit, N.mod_lt; discriminate).
    simpl dec_aux. destruct (n / 10)%N; [eauto|apply IH; right; eauto].
Qed.

Lemma digit_not_space c : is_digit c = true -> is_space c = false.
Proof. destruct c as [[] [] [] [] [] [] [] []]; vm_compute; congruence. Qed.

(** [atol] reads back the decimal representation of every value of a
    [long]. *)
Lemma atol_dec (n : N) : (Z.of_N n <= long_max)%Z -> atol (dec n) = Z.of_N n.
Proof.
  intros Hn. unfold atol, dec.
  destruct (digits_val_dec_aux 20 n EmptyString 0) as [k Hk].
  { unfold long_max in Hn. simpl. lia. }
  change (digits_val EmptyString ?x) with x in Hk.
  replace (0 * 10 ^ Z.of_nat k + Z.of_N n) with (Z.of_N n) in Hk by lia.
  destruct (dec_aux_head_digit 20 n EmptyString) as (c & s & Hcs & Hc); [left; lia|].
  rewrite Hcs in *. simpl skip_spaces. rewrite digit_not_space by exact Hc.
  destruct (Ascii.eqb_spec c "-"); [subst; discriminate|].
  destruct (Ascii.eqb_spec c "+"); [subst; discriminate|].
  rewrite Hk. unfold clamp_long, long_min. lia.
Qed.

(** [atoi] reads back the decimal form of a non-negative [int]. *)
Lemma atoi_dec_Z z : (0 <= z < 2 ^ 31)%Z -> atoi (dec_Z z) = z.
Proof.
  intros Hz. unfold atoi, dec_Z. rewrite atol_dec by (rewrite Z2N.id; unfold long_max; lia).
  rewrite Z2N.id by lia. unfold to_int. rewrite Z.mod_small by lia.
  destruct (Z_lt_dec z (2 ^ 31)); lia.
Qed.

(** *** [strtok] on a token followed by a delimiter *)

Lemma strtok_token_app ds t d r :
  no_char_in ds t = true -> mem_char ds d = true ->
  strtok_token ds (t ++ String d r) = (t, r).
Proof.
  induction t as [|c t IH]; simpl; intros Ht Hd; [by rewrite Hd|].
  apply andb_prop in Ht as [Hc Ht]. apply negb_true_iff in Hc.
  rewrite Hc, IH by assumption. reflexivity.
Qed.

Lemma strtok_token_all ds t : no_char_in ds t = true -> strtok_token ds t = (t, EmptyString).
Proof.
  induction t as [|c t IH]; simpl; intros Ht; [reflexivity|].
  apply andb_prop in Ht as [Hc Ht]. apply negb_true_iff in Hc.
  rewrite Hc, IH by assumption. reflexivity.
Qed.

Lemma strtok_skip_nodelim ds c s :
  mem_char ds c = false -> strtok_skip ds (String c s) = String c s.
Proof. simpl. intros ->. reflexivity. Qed.

(** A call of [strtok] on [t ++ d ++ r], [t] a non-empty token and [d] a
    delimiter, returns [t] and saves [r]. *)
Lemma strtok_app ds t d r :
  t <> EmptyString -> no_char_in ds t = true -> mem_char ds d = true ->
  strtok ds (t ++ String d r) = (Some t, r).
Proof.
  intros Hne Ht Hd. destruct t as [|c t']; [congruence|].
  unfold strtok.
  pose proof Ht as Ht'. simpl in Ht'. apply andb_prop in Ht' as [Hc _].
  apply negb_true_iff in Hc.
  change ((String c t' ++ String d r)%string) with (String c (t' ++ String d r)).
  rewrite strtok_skip_nodelim by exact Hc.
  change (String c (t' ++ String d r)) with ((String c t' ++ String d r)%string).
  rewrite strtok_token_app by assumption. reflexivity.
Qed.

(** A call on a non-empty token with no delimiter returns it whole and
    saves the end of the string. *)
Lemma strtok_whole ds t :
  t <> EmptyString -> no_char_in ds t = true -> strtok ds t = (Some t, EmptyString).
Proof.
  intros Hne Ht. destruct t as [|c t']; [congruence|].
  unfold strtok. pose proof Ht as Ht'. simpl in Ht'. apply andb_prop in Ht' as [Hc _].
  apply negb_true_iff in Hc. rewrite strtok_skip_nodelim by exact Hc.
  rewrite strtok_token_all by exact Ht. reflexivity.
Qed.

Lemma cut_at_id ds s : no_char_in ds s = true -> cut_at ds s = s.
Proof.
  induction s as [|c s IH]; simpl; intros Hs; [reflexivity|].
  apply andb_prop in Hs as [Hc Hs]. apply negb_true_iff in Hc.
  rewrite Hc, IH by exact Hs. reflexivity.
Qed.

Lemma no_char_in_app ds s1 s2 :
  no_char_in ds (s1 ++ s2) = no_char_in ds s1 && no_char_in ds s2.
Proof.
  induction s1 as [|c s1 IH]; simpl; [reflexivity|]. rewrite IH. apply andb_assoc.
Qed.

(** The digits of [dec n] contain no space and no newline. *)
Lemma no_char_in_dec_aux ds fuel n acc :
  (forall c, is_digit c = true -> mem_char ds c = false) ->
  no_char_in ds acc = true -> no_char_in ds (dec_aux fuel n acc) = true.
Proof.
  intros Hds. revert n acc. induction fuel as [|fuel IH]; intros n acc Hacc; [exact Hacc|].
  assert (Hd : mem_char ds (digit_char (n mod 10)) = false)
    by (apply Hds, digit_char_digit, N.mod_lt; discriminate).
  simpl dec_aux.
  destruct (n / 10)%N; [|apply IH]; simpl; rewrite Hd, Hacc; reflexivity.
Qed.

(** [snprintf] and [strncpy] keep a string that fits whole. *)
Lemma substring_full n s : (String.length s <= n)%nat -> String.substring 0 n s = s.
Proof.
  revert n. induction s as [|c s IH]; intros n Hn; destruct n; simpl in *;
    try reflexivity; try lia.
  rewrite IH by lia. reflexivity.
Qed.

(** A string free of the characters of [ds2] is free of those of any
    smaller set [ds1]. *)
Lemma no_char_in_weaken ds1 ds2 s :
  (forall c, mem_char ds1 c = true -> mem_char ds2 c = true) ->
  no_char_in ds2 s = true -> no_char_in ds1 s = true.
Proof.
  intros Hsub. induction s as [|c s IH]; simpl; [reflexivity|].
  intros H. apply andb_prop in H as [Hc Hs]. rewrite IH by exact Hs.
  destruct (mem_char ds1 c) eqn:E; [|reflexivity].
  rewrite (Hsub c E) in Hc. discriminate.
Qed.

Lemma dec_aux_nonempty fuel n acc :
  (fuel > 0)%nat -> dec_aux fuel n acc <> EmptyString.
Proof.
  intros Hf. destruct (dec_aux_head_digit fuel n acc (or_introl Hf)) as (c & s & -> & _).
  discriminate.
Qed.

Lemma dec_aux_length fuel n acc :
  (String.length (dec_aux fuel n acc) <= fuel + String.length acc)%nat.
Proof.
  revert n acc. induction fuel as [|fuel IH]; intros n acc; simpl; [lia|].
  destruct (n / 10)%N; simpl; [lia|].
  specialize (IH (N.pos p) (String (digit_char (n mod 10)) acc)). simpl in IH. lia.
Qed.

Lemma string_length_app s1 s2 :
  String.length (s1 ++ s2) = (String.length s1 + String.length s2)%nat.
Proof. induction s1 as [|c s1 IH]; simpl; [reflexivity|]. rewrite IH. reflexivity. Qed.

#[export] Hint Rewrite string_length_app : cache_simpl.

(** Digits are neither spaces nor newlines. *)
Lemma digit_not_space_nl c :
  is_digit c = true -> mem_char (String " " (String newline EmptyString)) c = false.
Proof. destruct c as [[] [] [] [] [] [] [] []]; vm_compute; congruence. Qed.

Lemma dec_no_space_nl n : no_char_in (String " " (String newline EmptyString)) (dec n) = true.
Proof. apply no_char_in_dec_aux; [exact digit_not_space_nl|reflexivity]. Qed.

(** ** Cutting a decimal number *)

Lemma string_app_cons c s1 s2 : (String c s1 ++ s2)%string = String c (s1 ++ s2)%string.
Proof. reflexivity. Qed.

Lemma string_app_assoc s1 s2 s3 : ((s1 ++ s2) ++ s3)%string = (s1 ++ (s2 ++ s3))%string.
Proof. induction s1 as [|c s1 IH]; [reflexivity|]. rewrite !string_app_cons, IH. reflexivity. Qed.

Lemma string_app_nil_r s : (s ++ EmptyString)%string = s.
Proof. induction s as [|c s IH]; [reflexivity|]. rewrite string_app_cons, IH. reflexivity. Qed.

Lemma string_split_at k s :
  (k <= String.length s)%nat -> exists p q, s = (p ++ q)%string /\ String.length p = k.
Proof.
  revert k. induction s as [|c s IH]; intros k Hk.
  - exists EmptyString, EmptyString. simpl in *. split; [reflexivity|lia].
  - destruct k as [|k]; [exists EmptyString, (String c s); split; reflexivity|].
    simpl in Hk. destruct (IH k ltac:(lia)) as (p & q & -> & Hp).
    exists (String c p), q. split; [reflexivity|simpl; lia].
Qed.

Lemma substring_0_0 s : String.substring 0 0 s = EmptyString.
Proof. destruct s; reflexivity. Qed.

(** [snprintf] cuts a string [a ++ b] [j] bytes into [b]. *)
Lemma substring_app_prefix a b j :
  String.substring 0 (String.length a + j) (a ++ b) = (a ++ String.substring 0 j b)%string.
Proof. induction a as [|c a IH]; [reflexivity|]. cbn [String.length Nat.add]. rewrite string_app_cons.
  simpl. rewrite IH. reflexivity. Qed.

Lemma is_digit_val c : is_digit c = true -> 0 <= digit_val c < 10.
Proof.
  unfold is_digit, digit_val. intros H. apply andb_prop in H as [H1 H2].
  apply N.leb_le in H1, H2. lia.
Qed.

Lemma all_digits_app s1 s2 : all_digits (s1 ++ s2) = all_digits s1 && all_digits s2.
Proof. induction s1 as [|c s1 IH]; simpl; [reflexivity|]. rewrite IH. apply andb_assoc. Qed.

Lemma all_digits_dec_aux fuel n acc : all_digits acc = true -> all_digits (dec_aux fuel n acc) = true.
Proof.
  revert n acc. induction fuel as [|fuel IH]; intros n acc Hacc; [exact Hacc|].
  assert (Hd : is_digit (digit_char (n mod 10)) = true)
    by (apply digit_char_digit, N.mod_lt; discriminate).
  simpl dec_aux. destruct (n / 10)%N; [|apply IH]; simpl; rewrite Hd, Hacc; reflexivity.
Qed.

Lemma digits_val_app p q a : all_digits p = true -> digits_val (p ++ q) a = digits_val q (digits_val p a).
Proof.
  revert a. induction p as [|c p IH]; intros a H; [reflexivity|].
  simpl in H |- *. apply andb_prop in H as [Hc Hp]. rewrite Hc. apply IH, Hp.
Qed.

(** A string of [l] digits read onto [a] gives a value between
    [a * 10^l] and [(a + 1) * 10^l]. *)
Lemma digits_val_range q a :
  all_digits q = true -> 0 <= a ->
  a * 10 ^ Z.of_nat (String.length q) <= digits_val q a < (a + 1) * 10 ^ Z.of_nat (String.length q).
Proof.
  revert a. induction q as [|c q IH]; intros a H Ha; simpl in *; [lia|].
  apply andb_prop in H as [Hc Hq]. rewrite Hc. pose proof (is_digit_val c Hc).
  destruct (IH (a * 10 + digit_val c) Hq ltac:(lia)) as [H1 H2].
  rewrite Nat2Z.inj_succ, Z.pow_succ_r by lia. set (P := 10 ^ Z.of_nat (String.length q)) in *.
  assert (0 < P) by (apply Z.pow_pos_nonneg; lia). nia.
Qed.

Lemma digits_val_acc q a :
  all_digits q = true -> digits_val q a = a * 10 ^ Z.of_nat (String.length q) + digits_val q 0.
Proof.
  revert a. induction q as [|c q IH]; intros a H; simpl in *; [lia|].
  apply andb_prop in H as [Hc Hq]. rewrite Hc, (IH _ Hq), (IH (0 * 10 + _) Hq).
  rewrite Nat2Z.inj_succ, Z.pow_succ_r by lia. ring.
Qed.

(** The first digits of a number are its value divided by ten to the
    number of digits dropped. *)
Lemma digits_val_prefix p q :
  all_digits p = true -> all_digits q = true ->
  digits_val p 0 = digits_val (p ++ q) 0 / 10 ^ Z.of_nat (String.length q).
Proof.
  intros Hp Hq. rewrite (digits_val_app p q 0 Hp), (digits_val_acc q _ Hq).
  destruct (digits_val_range q 0 Hq ltac:(lia)) as [H1 H2].
  apply Z.div_unique with (digits_val q 0); [left; lia|ring].
Qed.

Lemma digits_val_dec n : (n < 10 ^ 20)%N -> digits_val (dec n) 0 = Z.of_N n.
Proof.
  intros Hn. destruct (digits_val_dec_aux 20 n EmptyString 0 Hn) as [k Hk].
  unfold dec. rewrite Hk. cbn [digits_val]. lia.
Qed.

(** [atol] of a non-empty string of digits whose value fits a [long]. *)
Lemma atol_digits p :
  p <> EmptyString -> all_digits p = true -> digits_val p 0 <= long_max -> atol p = digits_val p 0.
Proof.
  intros Hne Hp Hle. destruct p as [|c p']; [congruence|].
  pose proof (digits_val_range _ 0 Hp ltac:(lia)) as [H0 _].
  pose proof Hp as Hp'. simpl in Hp'. apply andb_prop in Hp' as [Hc _].
  unfold atol. simpl skip_spaces. rewrite digit_not_space by exact Hc.
  destruct (Ascii.eqb_spec c "-"); [subst; discriminate|].
  destruct (Ascii.eqb_spec c "+"); [subst; discriminate|].
  unfold clamp_long, long_min. lia.
Qed.
