(* ===== verification/ShmChannel.v ===== *)
(** * Shared channel: named shared-memory segments ([src/cache/shm_channel.c])

    The kernel's POSIX shared-memory namespace is a [gmap] from names to
    objects; an object has the size set by [ftruncate] and the contents
    of [shm_payload_t] laid over it (two semaphores, [datalen],
    [is_last_chunk], [total_file_size] and the trailing [data] buffer).
    A process's open descriptors and live mappings are counted in
    [proc], because the code leaks both and the descriptor table is
    bounded.  Every system call that can fail takes an [os_fault] saying
    which one fails, so that every error path of [shm_segment_create]
    and [shm_segment_attach] is a value of the model. *)

From S2P Require Import Prelude CLib.

Local Open Scope Z_scope.

(** ** The layout of [shm_payload_t] (LP64, glibc: [sizeof (sem_t) = 32]) *)

Definition align_up (off a : Z) : Z := (off + a - 1) / a * a.

(** Fields as (size, alignment), in declaration order. *)
Definition payload_fields : list (Z * Z) :=
  [(32, 8); (32, 8); (8, 8); (4, 4); (8, 8)].

Fixpoint fields_end (off : Z) (fs : list (Z * Z)) : Z :=
  match fs with
  | [] => off
  | (sz, al) :: fs' => fields_end (align_up off al + sz) fs'
  end.

(** [sizeof (shm_payload_t)]: the flexible array [data] adds nothing. *)
Definition sizeof_payload : Z := align_up (fields_end 0 payload_fields) 8.

Lemma sizeof_payload_val : sizeof_payload = 88.
Proof. reflexivity. Qed.

Definition SHM_NAME_LEN : nat := 64.
Definition SHM_SEGMENT_SIZE : Z := 5712.

(** ** The payload and the kernel objects *)

Record payload := mkPayload {
  sem_proxy_ready : nat;
  sem_cache_ready : nat;
  datalen : Z;
  is_last_chunk : Z;
  total_file_size : Z;
  data : list byte;
}.

(** Bytes of [data] in an object of [size] bytes. *)
Definition data_capacity (size : Z) : nat := Z.to_nat (size - sizeof_payload).

(** The zero-filled contents of a fresh object ([ftruncate] fills with
    zero bytes; a zero [sem_t] is a semaphore of value 0). *)
Definition zero_payload (cap : nat) : payload :=
  mkPayload 0 0 0 0 0 (repeat Byte.x00 cap).

Record shm_object := mkObj { obj_size : Z; obj_pay : payload }.

Abbreviation shm_ns := (gmap string shm_object).

(** Field updates of a payload. *)
Definition set_sems (pr cr : nat) (p : payload) : payload :=
  mkPayload pr cr (datalen p) (is_last_chunk p) (total_file_size p) (data p).
Definition set_datalen (n : Z) (p : payload) : payload :=
  mkPayload (sem_proxy_ready p) (sem_cache_ready p) n (is_last_chunk p) (total_file_size p) (data p).
Definition set_is_last (b : Z) (p : payload) : payload :=
  mkPayload (sem_proxy_ready p) (sem_cache_ready p) (datalen p) b (total_file_size p) (data p).
Definition set_total (t : Z) (p : payload) : payload :=
  mkPayload (sem_proxy_ready p) (sem_cache_ready p) (datalen p) (is_last_chunk p) t (data p).
Definition set_data (d : list byte) (p : payload) : payload :=
  mkPayload (sem_proxy_ready p) (sem_cache_ready p) (datalen p) (is_last_chunk p) (total_file_size p) d.

(** [ftruncate (fd, size)]: bytes beyond [size] are dropped, new ones are
    zero. *)
Definition ftruncate_obj (size : Z) (o : shm_object) : shm_object :=
  let cap := data_capacity size in
  let d := data (obj_pay o) in
  mkObj size (set_data (take cap d ++ repeat Byte.x00 (cap - length d)) (obj_pay o)).

(** Update the payload of the object named [name], if there is one. *)
Definition update_pay (f : payload -> payload) (name : string) (ns : shm_ns) : shm_ns :=
  alter (fun o => mkObj (obj_size o) (f (obj_pay o))) name ns.

(** ** A process: its open descriptors and live mappings *)

Record proc := mkProc { open_fds : nat; mappings : nat }.

(** [RLIMIT_NOFILE] of a default Linux process. *)
Definition fd_limit : nat := 1024.

(** [open] returns the lowest free descriptor; with no descriptor ever
    closed in between, that is the number of open ones. *)
Definition next_fd (p : proc) : Z := Z.of_nat (open_fds p).

Definition proc_open (p : proc) : proc := mkProc (S (open_fds p)) (mappings p).
Definition proc_close (p : proc) : proc := mkProc (pred (open_fds p)) (mappings p).
Definition proc_map (p : proc) : proc := mkProc (open_fds p) (S (mappings p)).
Definition proc_unmap (p : proc) : proc := mkProc (open_fds p) (pred (mappings p)).

(** Which system call of an operation fails (by an error of the
    environment: no memory, interrupted call, ...). *)
Inductive os_fault := NoFault | FailOpen | FailTruncate | FailMmap.

#[export] Instance os_fault_eq_dec : EqDecision os_fault.
Proof. solve_decision. Defined.

(** ** [shm_segment_t] *)

Record segment := mkSeg {
  shm_name : string;
  seg_size : Z;
  seg_addr : option string;  (** the object it maps, or [MAP_FAILED] *)
  seg_fd : Z;
}.

#[export] Instance segment_eq_dec : EqDecision segment.
Proof. solve_decision. Defined.

(** [strncpy (seg->shm_name, name, SHM_NAME_LEN)] keeps at most 64 bytes. *)
Definition strncpy_name (name : string) : string := String.substring 0 SHM_NAME_LEN name.

(** The result of an operation of a process on the namespace. *)
Record seg_result := mkSegRes {
  sr_ret : Z;
  sr_seg : segment;
  sr_ns : shm_ns;
  sr_proc : proc;
}.

(** [shm_segment_create (seg, name, size)] (lines 26-44): [shm_open] with
    [O_CREAT], [ftruncate], [mmap], then the two [sem_init] to 0 and
    [datalen = 0].  A failure returns [-1] at once: the descriptor and
    the object created so far stay. *)
Definition shm_segment_create (f : os_fault) (name : string) (size : Z)
    (ns : shm_ns) (p : proc) : seg_result :=
  let seg0 := mkSeg (strncpy_name name) size None (-1) in
  if bool_decide (f = FailOpen) || (fd_limit <=? open_fds p)%nat then mkSegRes (-1) seg0 ns p
  else
    let fd := next_fd p in
    let p1 := proc_open p in
    let o := match ns !! name with Some o => o | None => mkObj 0 (zero_payload 0) end in
    let seg1 := mkSeg (strncpy_name name) size None fd in
    if bool_decide (f = FailTruncate) then mkSegRes (-1) seg1 (<[name := o]> ns) p1
    else
      let ns2 := <[name := ftruncate_obj size o]> ns in
      if bool_decide (f = FailMmap) || (size =? 0) then mkSegRes (-1) seg1 ns2 p1
      else
        let ns3 := update_pay (fun pl => set_datalen 0 (set_sems 0 0 pl)) name ns2 in
        mkSegRes 0 (mkSeg (strncpy_name name) size (Some name) fd) ns3 (proc_map p1).

(** [shm_segment_attach (seg, name, size)] (lines 46-57): [shm_open]
    without [O_CREAT] fails when no object has the name; nothing of the
    object is initialised. *)
Definition shm_segment_attach (f : os_fault) (name : string) (size : Z)
    (ns : shm_ns) (p : proc) : seg_result :=
  let seg0 := mkSeg (strncpy_name name) size None (-1) in
  match ns !! name with
  | None => mkSegRes (-1) seg0 ns p
  | Some _ =>
      if bool_decide (f = FailOpen) || (fd_limit <=? open_fds p)%nat then mkSegRes (-1) seg0 ns p
      else
        let fd := next_fd p in
        let seg1 := mkSeg (strncpy_name name) size None fd in
        if bool_decide (f = FailMmap) || (size =? 0) then mkSegRes (-1) seg1 ns (proc_open p)
        else mkSegRes 0 (mkSeg (strncpy_name name) size (Some name) fd) ns
               (proc_map (proc_open p))
  end.

(** [shm_segment_destroy (seg)] (lines 59-68): [sem_destroy] twice,
    [munmap], [close], [shm_unlink (seg->shm_name)]. *)
Definition shm_segment_destroy (seg : segment) (ns : shm_ns) (p : proc) : seg_result :=
  mkSegRes 0 seg (delete (shm_name seg) ns) (proc_close (proc_unmap p)).

(** ** [create_n_segments] (lines 10-24) *)

(** The name of segment [i]: [snprintf (shm_name, SHM_NAME_LEN,
    "/proxy_shm_%d", i)]. *)
Definition segment_name (i : nat) : string :=
  snprintf_trunc SHM_NAME_LEN ("/proxy_shm_" ++ dec (N.of_nat i))%string.

(** Iterations [i .. i + k - 1] of the loop; [faults i] is the fault of
    iteration [i].  A failed segment is freed and skipped. *)
Fixpoint create_segments_from (faults : nat -> os_fault) (i k : nat) (segsize : Z)
    (ns : shm_ns) (p : proc) (pool : list segment) : shm_ns * proc * list segment :=
  match k with
  | O => (ns, p, pool)
  | S k' =>
      let r := shm_segment_create (faults i) (segment_name i) segsize ns p in
      let pool' := if sr_ret r <? 0 then pool else pool ++ [sr_seg r] in
      create_segments_from faults (S i) k' segsize (sr_ns r) (sr_proc r) pool'
  end.

Definition create_n_segments (faults : nat -> os_fault) (n : nat) (segsize : Z)
    (ns : shm_ns) (p : proc) (pool : list segment) : shm_ns * proc * list segment :=
  create_segments_from faults 0 n segsize ns p pool.

(** ** Lemmas *)

(** [shm_segment_attach] succeeds on an existing object when no call
    fails, a descriptor is free and the size is not zero. *)
Lemma attach_ok name size ns p o :
  ns !! name = Some o -> (open_fds p < fd_limit)%nat -> size <> 0 ->
  shm_segment_attach NoFault name size ns p =
    mkSegRes 0 (mkSeg (strncpy_name name) size (Some name) (next_fd p)) ns
      (proc_map (proc_open p)).
Proof.
  intros Hn Hfd Hs. unfold shm_segment_attach. rewrite Hn.
  destruct (Nat.leb_spec fd_limit (open_fds p)); [lia|].
  destruct (Z.eqb_spec size 0); [lia|]. reflexivity.
Qed.

(** ** [create_n_segments] when no call fails *)

Lemma fd_limit_Z : Z.of_nat fd_limit = 1024.
Proof. reflexivity. Qed.

(** The name fits [SHM_NAME_LEN]: [snprintf] cuts nothing. *)
Lemma segment_name_eq i : segment_name i = ("/proxy_shm_" ++ dec (N.of_nat i))%string.
Proof.
  unfold segment_name, snprintf_trunc. apply substring_full.
  rewrite string_length_app. pose proof (dec_aux_length 20 (N.of_nat i) EmptyString).
  unfold dec. simpl in *. unfold SHM_NAME_LEN. lia.
Qed.

Lemma strncpy_segment_name i : strncpy_name (segment_name i) = segment_name i.
Proof.
  unfold strncpy_name. apply substring_full. rewrite segment_name_eq, string_length_app.
  pose proof (dec_aux_length 20 (N.of_nat i) EmptyString). unfold dec. simpl in *.
  unfold SHM_NAME_LEN. lia.
Qed.

Lemma string_app_inv_l (s a b : string) : (s ++ a)%string = (s ++ b)%string -> a = b.
Proof. induction s as [|c s IH]; simpl; [auto|]. intros H. injection H. exact IH. Qed.

(** Segment names are distinct, as far as [%d] prints distinct numbers. *)
Lemma segment_name_inj i j :
  Z.of_nat i <= long_max -> Z.of_nat j <= long_max -> segment_name i = segment_name j -> i = j.
Proof.
  intros Hi Hj H. rewrite !segment_name_eq in H. apply string_app_inv_l in H.
  apply (f_equal atol) in H. rewrite !atol_dec in H by lia. lia.
Qed.

(** What [shm_segment_create] leaves in an object: the size set, both
    semaphores and [datalen] at 0, the buffer of the object's size. *)
Definition seg_initialised (size : Z) (o : shm_object) : Prop :=
  obj_size o = size /\ sem_proxy_ready (obj_pay o) = 0%nat /\ sem_cache_ready (obj_pay o) = 0%nat /\
  datalen (obj_pay o) = 0 /\ length (data (obj_pay o)) = data_capacity size.

(** The segment [create_n_segments] makes in iteration [j] with the
    descriptor [fd]. *)
Definition expected_seg (size : Z) (j fd : nat) : segment :=
  mkSeg (segment_name j) size (Some (segment_name j)) (Z.of_nat fd).

Lemma create_ok name size ns p :
  (open_fds p < fd_limit)%nat -> size <> 0 ->
  exists o,
    shm_segment_create NoFault name size ns p =
      mkSegRes 0 (mkSeg (strncpy_name name) size (Some name) (next_fd p))
        (<[name := o]> ns) (proc_map (proc_open p)) /\ seg_initialised size o.
Proof.
  intros Hfd Hs. unfold shm_segment_create.
  destruct (Nat.leb_spec fd_limit (open_fds p)); [lia|].
  destruct (Z.eqb_spec size 0); [lia|]. simpl.
  set (o := match ns !! name with Some o => o | None => mkObj 0 (zero_payload 0) end).
  eexists. split.
  - unfold update_pay. rewrite alter_insert_eq. reflexivity.
  - unfold seg_initialised. simpl. rewrite length_app, length_take, repeat_length. lia.
Qed.

(** Iterations [i .. i + k - 1] of the loop when no call fails: segment
    [j] gets the name [segment_name j] and the descriptor [b + j], its
    object is initialised, and no other name changes. *)
Lemma create_segments_from_ok size k : forall i b ns p pool,
  size <> 0 -> open_fds p = (b + i)%nat -> (open_fds p + k <= fd_limit)%nat ->
  Z.of_nat (i + k) <= long_max ->
  let '(ns', p', pool') := create_segments_from (fun _ => NoFault) i k size ns p pool in
  pool' = pool ++ ((fun j => expected_seg size j (b + j)) <$> seq i k) /\
  p' = mkProc (open_fds p + k) (mappings p + k) /\
  (forall j, (i <= j < i + k)%nat -> exists o, ns' !! segment_name j = Some o /\ seg_initialised size o) /\
  (forall x, (forall j, (i <= j < i + k)%nat -> x <> segment_name j) -> ns' !! x = ns !! x).
Proof.
  induction k as [|k IH]; intros i b ns p pool Hs Hb Hfd Hmax; simpl.
  { rewrite app_nil_r, !Nat.add_0_r. destruct p.
    split; [reflexivity|split; [reflexivity|split; intros; [lia|reflexivity]]]. }
  destruct (create_ok (segment_name i) size ns p) as (o & Ho & Hinit); [lia|exact Hs|].
  rewrite Ho. cbn [sr_ret sr_seg sr_ns sr_proc Z.ltb Z.compare].
  specialize (IH (S i) b (<[segment_name i := o]> ns) (proc_map (proc_open p))
                (pool ++ [mkSeg (strncpy_name (segment_name i)) size (Some (segment_name i)) (next_fd p)])).
  destruct (create_segments_from _ _ _ _ _ _ _) as [[ns' p'] pool'].
  destruct IH as (Hpool & Hp & Hobj & Hother); [exact Hs|simpl; lia|simpl; lia|lia|].
  split; [|split; [|split]].
  - rewrite Hpool, <- (assoc (++)). f_equal. simpl. f_equal.
    unfold expected_seg, next_fd. rewrite strncpy_segment_name, Hb. reflexivity.
  - rewrite Hp. simpl. f_equal; lia.
  - intros j Hj. destruct (decide (j = i)) as [->|Hne]; [|apply Hobj; lia].
    exists o. split; [|exact Hinit]. rewrite Hother; [apply lookup_insert_eq|].
    intros j' Hj' Heq. apply segment_name_inj in Heq; lia.
  - intros x Hx. rewrite Hother by (intros j Hj; apply Hx; lia).
    apply lookup_insert_ne. intros <-. apply (Hx i); [lia|reflexivity].
Qed.

(** C7 (functional: the proxy's start-up).  When no system call fails,
    [n] descriptors are free and the size is not zero,
    [create_n_segments] puts in the pool, in order, segment [j] named
    ["/proxy_shm_j"] mapping the object of that name with descriptor
    [open_fds p + j]; the segments are pairwise distinct; each object
    has the requested size, both semaphores at 0, [datalen] 0 and a
    buffer of [size - sizeof (shm_payload_t)] bytes; the process holds
    [n] more descriptors and mappings. *)
Theorem create_n_segments_ok n size ns p :
  size <> 0 -> (open_fds p + n <= fd_limit)%nat ->
  let '(ns', p', pool) := create_n_segments (fun _ => NoFault) n size ns p [] in
  pool = (fun j => expected_seg size j (open_fds p + j)) <$> seq 0 n /\ NoDup pool /\
  p' = mkProc (open_fds p + n) (mappings p + n) /\
  (forall j, (j < n)%nat -> exists o, ns' !! segment_name j = Some o /\ seg_initialised size o).
Proof.
  intros Hs Hfd. assert (Hmax : Z.of_nat (0 + n) <= long_max).
  { apply Nat2Z.inj_le in Hfd. rewrite Nat2Z.inj_add, fd_limit_Z in Hfd. unfold long_max. lia. }
  pose proof (create_segments_from_ok size n 0 (open_fds p) ns p [] Hs ltac:(lia) Hfd Hmax) as H.
  unfold create_n_segments. destruct (create_segments_from _ _ _ _ _ _ _) as [[ns' p'] pool].
  destruct H as (-> & -> & Hobj & _). split; [reflexivity|split; [|split; [reflexivity|]]].
  - apply NoDup_fmap_2_strong; [|apply NoDup_seq].
    intros x y Hx Hy Heq. apply elem_of_seq in Hx, Hy.
    apply (f_equal shm_name) in Heq. unfold expected_seg in Heq. cbn [shm_name] in Heq.
    apply segment_name_inj in Heq; lia.
  - intros j Hj. apply Hobj. lia.
Qed.

Lemma create_n_segments_ok_witness :
  let '(ns', p', pool) := create_n_segments (fun _ => NoFault) 2 4088 ∅ (mkProc 3 0) [] in
  pool = (fun j => expected_seg 4088 j (open_fds (mkProc 3 0) + j)) <$> seq 0 2 /\ NoDup pool /\
  p' = mkProc (open_fds (mkProc 3 0) + 2) (mappings (mkProc 3 0) + 2) /\
  (forall j, (j < 2)%nat -> exists o, ns' !! segment_name j = Some o /\ seg_initialised 4088 o).
Proof. apply create_n_segments_ok; [discriminate|apply Nat.leb_le; reflexivity]. Defined.

(** C28 (error paths of [shm_segment_attach]).  The worker's attach
    succeeds exactly when an object of that name exists, a descriptor
    is free, neither [shm_open] nor [mmap] fails and the size is not 0
    ([mmap] of 0 bytes fails); when [mmap] fails the descriptor that
    [shm_open] returned stays open (lines 53-54 return without
    [close]). *)
Theorem attach_result f name size ns p :
  (sr_ret (shm_segment_attach f name size ns p) = 0 <->
   (exists o, ns !! name = Some o) /\ f <> FailOpen /\ (open_fds p < fd_limit)%nat /\
   f <> FailMmap /\ size <> 0) /\
  (sr_ret (shm_segment_attach f name size ns p) = 0 \/ sr_ret (shm_segment_attach f name size ns p) = -1) /\
  (f = FailMmap -> (exists o, ns !! name = Some o) -> (open_fds p < fd_limit)%nat ->
   sr_proc (shm_segment_attach f name size ns p) = proc_open p).
Proof.
  unfold shm_segment_attach.
  destruct f, (ns !! name) as [o|], (Nat.leb_spec fd_limit (open_fds p)), (Z.eqb_spec size 0);
    simpl; naive_solver lia.
Qed.

(** Create then destroy.  Destroying a segment just
    created under a fresh name that fits [SHM_NAME_LEN] gives back the
    namespace and the process's descriptors and mappings as they were:
    [shm_unlink] removes the object, [munmap] and [close] undo [mmap] and
    [shm_open]. *)
Lemma create_destroy_roundtrip name size ns p :
  ns !! name = None -> (String.length name < SHM_NAME_LEN)%nat ->
  (open_fds p < fd_limit)%nat -> size <> 0 ->
  let r := shm_segment_create NoFault name size ns p in
  sr_ret r = 0 /\
  shm_segment_destroy (sr_seg r) (sr_ns r) (sr_proc r) = mkSegRes 0 (sr_seg r) ns p.
Proof.
  intros Hn Hl Hfd Hs. destruct (create_ok name size ns p Hfd Hs) as (o & Ho & _).
  cbv zeta. rewrite Ho. split; [reflexivity|]. unfold shm_segment_destroy. simpl.
  unfold strncpy_name. rewrite substring_full by lia.
  rewrite delete_insert_id by exact Hn. destruct p. reflexivity.
Qed.
