(* ===== verification/ControlProtocol.v ===== *)
(** * Control socket protocol: the request line and its parsing

    The proxy formats one line [<shm-name> <path> <segsize>\n] with
    [snprintf] into a 1024-byte buffer ([src/cache/handle_with_cache.c],
    [handle_with_cache], lines 35-36) and writes it to the daemon's
    socket.  The daemon's boss thread reads at most [MAX_CACHE_REQUEST_LEN
    - 1] bytes, splits them with [strtok] and builds a [cache_task_t]
    ([src/cache/simplecached.c], [main], lines 252-272).  [boss_parse]
    returns what the boss does with one message: drop it, crash on a
    [NULL] key, or enqueue a task. *)

From S2P Require Import Prelude CLib ShmChannel.
From Stdlib Require Import Ascii String.

Local Open Scope Z_scope.

(** ** [cache_task_t] *)

(** The fields as C strings: what a later [printf] or [shm_open] reads
    from [task->shm_name] and [task->key]. *)
Record task := mkTask {
  task_shm_name : string;
  task_key : string;
  task_segment_size : Z;
}.

#[export] Instance task_eq_dec : EqDecision task.
Proof. solve_decision. Defined.

Definition TASK_NAME_LEN : nat := 64.
Definition TASK_KEY_LEN : nat := 1024.

(** [strncpy (task->key, key, 1024)]: a key of 1024 bytes or more is left
    without its terminating NUL; the model keeps its first 1024 bytes. *)
Definition task_key_field (k : string) : string := String.substring 0 TASK_KEY_LEN k.

(** [strncpy (task->shm_name, shm_name, 64)]: a name of 64 bytes or more
    has no NUL, so reading it as a C string runs on into [task->key],
    the next field of the struct. *)
Definition task_name_field (n k : string) : string :=
  if (String.length n <? TASK_NAME_LEN)%nat then n
  else String.substring 0 TASK_NAME_LEN n ++ task_key_field k.

(** ** The proxy's request line *)

Definition REQUEST_BUF_LEN : nat := 1024.

(** [snprintf (request, sizeof request, "%s %s %zu\n", seg->shm_name, path,
    segsize)]. *)
Definition request_line (name path : string) (segsize : Z) : string :=
  name ++ String " " (path ++ String " " (dec (Z.to_N segsize) ++ String newline EmptyString)).

Definition format_request (name path : string) (segsize : Z) : string :=
  snprintf_trunc REQUEST_BUF_LEN (request_line name path segsize).

(** ** The boss's parsing of one message *)

Definition MAX_CACHE_REQUEST_LEN : nat := 6100.

Inductive boss_result :=
  | BossSkip                (** [len <= 0] or a [NULL] name: [continue] *)
  | BossCrash               (** [key] is [NULL]: [strcspn (NULL, ...)] faults *)
  | BossTask (t : task).    (** the task to enqueue *)

#[export] Instance boss_result_eq_dec : EqDecision boss_result.
Proof. solve_decision. Defined.

Definition delim_space : string := " ".
Definition delim_space_nl : string := String " " (String newline EmptyString).
Definition delim_nl : string := String newline EmptyString.

(** Lines 253-272: [read] into [buf], [strtok] three times, the size
    defaults to [SHM_SEGMENT_SIZE] when absent and is [atol]'s value cast
    to [size_t] otherwise; the newline is cut from the key before the
    [NULL] checks. *)
Definition boss_parse (msg : string) : boss_result :=
  let buf := String.substring 0 (MAX_CACHE_REQUEST_LEN - 1) msg in
  if (String.length buf =? 0)%nat then BossSkip
  else
    let '(shm_name, r1) := strtok delim_space buf in
    let '(key, r2) := strtok delim_space r1 in
    let '(size_str, _) := strtok delim_space_nl r2 in
    let segment_size :=
      match size_str with
      | Some s => to_size_t (atol s)
      | None => SHM_SEGMENT_SIZE
      end in
    match key with
    | None => BossCrash
    | Some k =>
        let k' := cut_at delim_nl k in
        match shm_name with
        | None => BossSkip
        | Some n => BossTask (mkTask (task_name_field n k') (task_key_field k') segment_size)
        end
    end.

(** ** The round trip *)

(** Splitting [t ++ " " ++ r] at its first space. *)
Lemma strtok_space t r :
  t <> EmptyString -> no_char_in delim_space_nl t = true ->
  strtok delim_space (t ++ String " " r) = (Some t, r).
Proof.
  intros Hne Ht. apply strtok_app; [exact Hne| |reflexivity].
  revert Ht. apply no_char_in_weaken. unfold delim_space, delim_space_nl.
  simpl. intros c. destruct (Ascii.eqb c " "); [reflexivity|discriminate].
Qed.

Lemma cut_at_nl_id s : no_char_in delim_space_nl s = true -> cut_at delim_nl s = s.
Proof.
  intros Hs. apply cut_at_id. revert Hs. apply no_char_in_weaken.
  unfold delim_nl, delim_space_nl. simpl. intros c.
  destruct (Ascii.eqb c newline); [|discriminate].
  destruct (Ascii.eqb c " "); reflexivity.
Qed.

(** The conditions under which a request line crosses the socket
    intact: a non-empty name and path without blanks, a name that fits
    [task->shm_name], a line that fits the proxy's buffer, a size that
    fits a [long]. *)
Definition request_ok (name path : string) (segsize : Z) : Prop :=
  name <> EmptyString /\ path <> EmptyString /\
  no_char_in delim_space_nl name = true /\ no_char_in delim_space_nl path = true /\
  (String.length name < TASK_NAME_LEN)%nat /\
  (String.length (request_line name path segsize) < REQUEST_BUF_LEN)%nat /\
  0 <= segsize <= long_max.

Lemma parse_request_line name path segsize :
  request_ok name path segsize ->
  boss_parse (format_request name path segsize) = BossTask (mkTask name path segsize).
Proof.
  intros (Hn & Hp & Hnc & Hpc & Hnl & Hlen & Hsz).
  pose proof Hlen as Hlen'. unfold request_line in Hlen'.
  repeat (rewrite string_length_app in Hlen'; cbn [String.length] in Hlen').
  unfold format_request, snprintf_trunc, boss_parse.
  rewrite (substring_full (REQUEST_BUF_LEN - 1)) by (unfold REQUEST_BUF_LEN in *; lia).
  assert (Hmax : (REQUEST_BUF_LEN <= MAX_CACHE_REQUEST_LEN - 1)%nat)
    by (apply Nat.leb_le; reflexivity).
  rewrite (substring_full (MAX_CACHE_REQUEST_LEN - 1)) by lia.
  destruct (String.length (request_line name path segsize)) eqn:E.
  { unfold request_line in E. autorewrite with cache_simpl in E. simpl in E. lia. }
  unfold request_line. rewrite strtok_space by assumption.
  rewrite strtok_space by assumption.
  unfold delim_space_nl. rewrite strtok_app;
    [|apply dec_aux_nonempty; lia|apply dec_no_space_nl|reflexivity].
  rewrite atol_dec by lia. rewrite Z2N.id by lia.
  rewrite to_size_t_small by (unfold in_size_t, size_t_modulus, long_max in *; lia).
  rewrite cut_at_nl_id by exact Hpc.
  unfold task_name_field, task_key_field.
  rewrite (substring_full TASK_KEY_LEN path) by (unfold TASK_KEY_LEN, REQUEST_BUF_LEN in *; lia).
  apply Nat.ltb_lt in Hnl. rewrite Hnl. reflexivity.
Qed.

(** C11 (round trip).  A request line that the proxy formats from a
    segment name and a path without blanks, short enough not to be cut by
    [snprintf], and a segment size that fits a [long], is parsed by the
    boss into the task naming that same segment, key and size. *)
Theorem boss_parse_format name path segsize :
  name <> EmptyString -> path <> EmptyString ->
  no_char_in delim_space_nl name = true -> no_char_in delim_space_nl path = true ->
  (String.length name < TASK_NAME_LEN)%nat ->
  (String.length (request_line name path segsize) < REQUEST_BUF_LEN)%nat ->
  0 <= segsize <= long_max ->
  boss_parse (format_request name path segsize) = BossTask (mkTask name path segsize).
Proof. intros. apply parse_request_line. unfold request_ok. tauto. Qed.

Lemma boss_parse_format_witness :
  boss_parse (format_request "/proxy_shm_0" "a.txt" 4088) =
  BossTask (mkTask "/proxy_shm_0" "a.txt" 4088).
Proof.
  apply boss_parse_format;
    first [discriminate | reflexivity | apply Nat.ltb_lt; reflexivity | unfold long_max; lia].
Defined.

(** Reading a message of at most [MAX_CACHE_REQUEST_LEN - 1] bytes
    keeps it whole. *)
Lemma boss_buf_full msg :
  (String.length msg < MAX_CACHE_REQUEST_LEN)%nat ->
  String.substring 0 (MAX_CACHE_REQUEST_LEN - 1) msg = msg.
Proof. intros H. apply substring_full. lia. Qed.

Lemma boss_parse_one_token msg :
  msg <> EmptyString -> no_char_in delim_space msg = true ->
  (String.length msg < MAX_CACHE_REQUEST_LEN)%nat ->
  boss_parse msg = BossCrash.
Proof.
  intros Hne Hs Hl. unfold boss_parse. rewrite boss_buf_full by exact Hl.
  rewrite strtok_whole by assumption.
  destruct msg as [|c m]; [congruence|]. reflexivity.
Qed.

(** C13 (error: a crash on a one-token line).  A message with no blank,
    such as a bare segment name, makes the second [strtok] return [NULL];
    the boss then evaluates [key[strcspn (key, "\n")]] on the [NULL]
    pointer (line 266) before it tests [!key] (line 267): the daemon
    crashes instead of dropping the malformed line. *)
Theorem boss_crash_one_token msg :
  msg <> EmptyString -> no_char_in delim_space msg = true ->
  (String.length msg < MAX_CACHE_REQUEST_LEN)%nat ->
  boss_parse msg = BossCrash.
Proof. exact (boss_parse_one_token msg). Qed.

Lemma boss_crash_one_token_witness : boss_parse "/proxy_shm_0" = BossCrash.
Proof. apply boss_crash_one_token; [discriminate|reflexivity|apply Nat.ltb_lt; reflexivity]. Defined.

(** [atol] of a token that does not start with a digit, a sign or a
    blank is 0. *)
Lemma atol_non_numeric c s :
  is_digit c = false -> is_space c = false -> c <> "-"%char -> c <> "+"%char ->
  atol (String c s) = 0.
Proof.
  intros Hd Hsp Hm Hp. unfold atol. simpl. rewrite Hsp.
  apply Ascii.eqb_neq in Hm, Hp. rewrite Hm, Hp. simpl. rewrite Hd. reflexivity.
Qed.

(** C20 (spec divergence: a malformed size is 0, not the fallback).  A
    request line whose size token is not a number (it starts with a
    character that is neither a digit, a sign nor a blank) yields a task
    of segment size 0: [atol] returns 0 and the code falls back to
    [SHM_SEGMENT_SIZE] only when the token is absent, while the spec
    says the capacity defaults to the fallback when absent or
    malformed. *)
Theorem boss_size_malformed name key c s :
  name <> EmptyString -> key <> EmptyString ->
  no_char_in delim_space_nl name = true -> no_char_in delim_space_nl key = true ->
  no_char_in delim_space_nl (String c s) = true ->
  is_digit c = false -> is_space c = false -> c <> "-"%char -> c <> "+"%char ->
  (String.length name < TASK_NAME_LEN)%nat -> (String.length key <= TASK_KEY_LEN)%nat ->
  (String.length (name ++ String " " (key ++ String " " (String c s ++ String newline EmptyString)))
     < MAX_CACHE_REQUEST_LEN)%nat ->
  boss_parse (name ++ String " " (key ++ String " " (String c s ++ String newline EmptyString))) =
  BossTask (mkTask name key 0).
Proof.
  intros Hn Hk Hnc Hkc Hsc Hd Hsp Hm Hp Hnl Hkl Hl.
  unfold boss_parse. rewrite boss_buf_full by exact Hl.
  rewrite (proj2 (Nat.eqb_neq _ 0)) by (destruct name; [congruence|discriminate]).
  rewrite !strtok_space by assumption.
  rewrite strtok_app by first [discriminate | assumption | reflexivity].
  rewrite atol_non_numeric by assumption. rewrite cut_at_nl_id by exact Hkc.
  unfold task_name_field, task_key_field. rewrite (substring_full TASK_KEY_LEN key) by exact Hkl.
  apply Nat.ltb_lt in Hnl. rewrite Hnl. reflexivity.
Qed.

Lemma boss_size_malformed_witness :
  boss_parse ("/proxy_shm_0" ++ String " " ("a.txt" ++ String " " ("abc" ++ String newline EmptyString))) =
  BossTask (mkTask "/proxy_shm_0" "a.txt" 0).
Proof.
  apply boss_size_malformed;
    first [discriminate | reflexivity | apply Nat.ltb_lt; reflexivity | apply Nat.leb_le; reflexivity].
Defined.

(** A path of [n] bytes. *)
Definition long_path (n : nat) : string := String "/" (string_of_list_ascii (repeat "a"%char n)).

(** C22 (spec gap: the request line is cut silently).  [snprintf]
    keeps the first 1023 bytes of the request line.  When the segment
    name and the path fit but the line is cut inside the [d] digits of
    the segment size, [k] of them kept, the boss parses what is left: the
    task has the segment size with its last [d - k] digits dropped, i.e.
    divided by [10 ^ (d - k)], instead of the size the proxy allocated
    (4088 becomes 408 or 40, smaller than the payload header).  Nothing
    in the proxy checks the length that [snprintf] returns. *)
Theorem request_truncated_size name path segsize k :
  name <> EmptyString -> path <> EmptyString ->
  no_char_in delim_space_nl name = true -> no_char_in delim_space_nl path = true ->
  (String.length name < TASK_NAME_LEN)%nat -> 0 <= segsize <= long_max ->
  (0 < k <= String.length (dec (Z.to_N segsize)))%nat ->
  (String.length name + String.length path + 2 + k = REQUEST_BUF_LEN - 1)%nat ->
  boss_parse (format_request name path segsize) =
    BossTask (mkTask name path (segsize / 10 ^ Z.of_nat (String.length (dec (Z.to_N segsize)) - k))).
Proof.
  intros Hn Hp Hnc Hpc Hnl Hsz Hk Hlen.
  destruct (string_split_at k (dec (Z.to_N segsize)) ltac:(lia)) as (pre & post & HD & Hpre).
  pose proof (all_digits_dec_aux 20 (Z.to_N segsize) EmptyString eq_refl) as Hd.
  pose proof (dec_no_space_nl (Z.to_N segsize)) as Hsp.
  fold (dec (Z.to_N segsize)) in Hd. rewrite HD in Hd, Hsp.
  rewrite all_digits_app in Hd. apply andb_prop in Hd as [Hpd Hqd].
  rewrite no_char_in_app in Hsp. apply andb_prop in Hsp as [Hsp _].
  assert (Hpow : 0 < 10 ^ Z.of_nat (String.length (dec (Z.to_N segsize)) - k))
    by (apply Z.pow_pos_nonneg; lia).
  assert (Hval : digits_val pre 0 = segsize / 10 ^ Z.of_nat (String.length (dec (Z.to_N segsize)) - k)).
  { rewrite (digits_val_prefix pre post Hpd Hqd), <- HD, digits_val_dec, Z2N.id
      by (unfold long_max in Hsz; lia).
    rewrite HD, string_length_app, Hpre. do 3 f_equal. lia. }
  assert (Hv : 0 <= digits_val pre 0 <= segsize).
  { rewrite Hval. split; [apply Z.div_pos; lia|apply Z.div_le_upper_bound; nia]. }
  rewrite <- Hval. unfold format_request, snprintf_trunc, request_line. rewrite HD.
  replace (name ++ String " " (path ++ String " " ((pre ++ post) ++ String newline EmptyString)))%string
    with ((name ++ String " " (path ++ String " " pre)) ++ (post ++ String newline EmptyString))%string
    by (rewrite !string_app_assoc, !string_app_cons, !string_app_assoc; reflexivity).
  replace (REQUEST_BUF_LEN - 1)%nat with (String.length (name ++ String " " (path ++ String " " pre)) + 0)%nat
    by (repeat progress (rewrite ?string_length_app; cbn [String.length]); lia).
  rewrite substring_app_prefix, substring_0_0, string_app_nil_r. unfold boss_parse.
  assert (Hmax : (REQUEST_BUF_LEN <= MAX_CACHE_REQUEST_LEN - 1)%nat) by (apply Nat.leb_le; reflexivity).
  rewrite boss_buf_full by (repeat progress (rewrite ?string_length_app; cbn [String.length]); lia).
  rewrite (proj2 (Nat.eqb_neq _ 0)) by (destruct name; [congruence|discriminate]).
  rewrite !strtok_space by assumption.
  assert (Hpne : pre <> EmptyString) by (intros ->; cbn in Hpre; lia).
  rewrite strtok_whole by assumption. rewrite atol_digits by (auto; unfold long_max in *; lia).
  rewrite to_size_t_small by (unfold in_size_t, size_t_modulus, long_max in *; lia).
  rewrite cut_at_nl_id by exact Hpc.
  unfold task_name_field, task_key_field.
  rewrite (substring_full TASK_KEY_LEN path) by (unfold TASK_KEY_LEN, REQUEST_BUF_LEN in *; lia).
  apply Nat.ltb_lt in Hnl. rewrite Hnl. reflexivity.
Qed.

Lemma request_truncated_size_witness :
  boss_parse (format_request "/proxy_shm_0" (long_path 1005) 4088) =
    BossTask (mkTask "/proxy_shm_0" (long_path 1005) 408).
Proof.
  replace 408 with (4088 / 10 ^ Z.of_nat (String.length (dec (Z.to_N 4088)) - 3)) by (vm_compute; reflexivity).
  apply (request_truncated_size _ _ _ 3);
    first [ discriminate | vm_compute; reflexivity | apply Nat.ltb_lt; vm_compute; reflexivity
          | apply Nat.eqb_eq; vm_compute; reflexivity
          | split; [apply Nat.ltb_lt|apply Nat.leb_le]; vm_compute; reflexivity
          | unfold long_max; lia ].
Defined.
