(* ===== verification/World.v ===== *)
(** * The state shared by the proxy and the daemon

    [world] gathers what the threads of both processes read and write:
    the kernel's shared-memory namespace, the proxy's pool of free
    segments (a [steque_t] guarded by its mutex), the control messages
    written to the daemon's socket and not yet read, whether the daemon
    listens, the daemon's task queue (a [steque_t] guarded by
    [queue_lock]), the daemon's descriptors and mappings, and the content
    store that [simplecache_get] resolves keys against.  A client of the
    request-serving framework ([gfserver.h], not under [src/]) is the
    record of headers and body bytes it has been sent.  [env] is the
    environment's answer to the one system call a step makes. *)

From S2P Require Import Prelude Steque ShmChannel ControlProtocol.

Local Open Scope Z_scope.

(** ** The request-serving framework's client ([gfserver.h]) *)

Inductive gfstatus := GF_OK | GF_FILE_NOT_FOUND | GF_ERROR.

#[export] Instance gfstatus_eq_dec : EqDecision gfstatus.
Proof. solve_decision. Defined.

(** What the client has received: headers, in order, and body bytes. *)
Record client := mkClient { c_headers : list (gfstatus * Z); c_body : list byte }.

Definition client0 : client := mkClient [] [].

(** [gfs_sendheader (ctx, status, len)]. *)
Definition send_header (st : gfstatus) (len : Z) (c : client) : client :=
  mkClient (c_headers c ++ [(st, len)]) (c_body c).

(** [gfs_send] delivering the bytes [b]. *)
Definition send_body (b : list byte) (c : client) : client :=
  mkClient (c_headers c) (c_body c ++ b).

(** ** The environment's answer to a system call *)

Inductive env :=
  | EOk                    (** the call succeeds in full *)
  | EFail                  (** the call returns [-1] *)
  | EShort (n : nat)       (** [gfs_send] sends only [n] bytes *)
  | EFault (f : os_fault). (** the named call of an attach fails *)

Definition is_fail (e : env) : bool := match e with EFail => true | _ => false end.

(** The fault an attach sees. *)
Definition env_fault (e : env) : os_fault :=
  match e with EFault f => f | _ => NoFault end.

(** ** The world *)

Record world := mkWorld {
  w_ns : shm_ns;
  w_pool : list segment;
  w_backlog : list string;
  w_listening : bool;
  w_queue : list task;
  w_dproc : proc;
  w_store : gmap string (list byte);
  w_daemon_up : bool;
}.

Definition set_ns (ns : shm_ns) (w : world) : world :=
  mkWorld ns (w_pool w) (w_backlog w) (w_listening w) (w_queue w) (w_dproc w) (w_store w) (w_daemon_up w).
Definition set_pool (p : list segment) (w : world) : world :=
  mkWorld (w_ns w) p (w_backlog w) (w_listening w) (w_queue w) (w_dproc w) (w_store w) (w_daemon_up w).
Definition set_backlog (b : list string) (w : world) : world :=
  mkWorld (w_ns w) (w_pool w) b (w_listening w) (w_queue w) (w_dproc w) (w_store w) (w_daemon_up w).
Definition set_listening (l : bool) (w : world) : world :=
  mkWorld (w_ns w) (w_pool w) (w_backlog w) l (w_queue w) (w_dproc w) (w_store w) (w_daemon_up w).
Definition set_queue (q : list task) (w : world) : world :=
  mkWorld (w_ns w) (w_pool w) (w_backlog w) (w_listening w) q (w_dproc w) (w_store w) (w_daemon_up w).
Definition set_dproc (p : proc) (w : world) : world :=
  mkWorld (w_ns w) (w_pool w) (w_backlog w) (w_listening w) (w_queue w) p (w_store w) (w_daemon_up w).

(** [simplecache_get (key)] ([simplecache.h], not under [src/]): the
    store resolves a key to the contents of its file, whose descriptor
    the worker then duplicates, or to a miss, [-1] (spec section 6:
    open, size and read semantics only). *)
Definition simplecache_get (w : world) (key : string) : option (list byte) :=
  w_store w !! key.

(** The daemon process dies (a fatal signal): its socket stops
    accepting connections. *)
Definition crash_daemon (w : world) : world :=
  mkWorld (w_ns w) (w_pool w) (w_backlog w) false (w_queue w) (w_dproc w) (w_store w) false.

(** The payload mapped by a segment. *)
Definition seg_payload (w : world) (seg : segment) : option payload :=
  match seg_addr seg with
  | Some n => obj_pay <$> w_ns w !! n
  | None => None
  end.

(** A write through a segment's mapping. *)
Definition write_seg (f : payload -> payload) (seg : segment) (w : world) : world :=
  match seg_addr seg with
  | Some n => set_ns (update_pay f n (w_ns w)) w
  | None => w
  end.

(** ** Semaphores *)

Definition post_proxy_ready (p : payload) : payload :=
  set_sems (S (sem_proxy_ready p)) (sem_cache_ready p) p.
Definition post_cache_ready (p : payload) : payload :=
  set_sems (sem_proxy_ready p) (S (sem_cache_ready p)) p.
Definition take_proxy_ready (p : payload) : payload :=
  set_sems (pred (sem_proxy_ready p)) (sem_cache_ready p) p.
Definition take_cache_ready (p : payload) : payload :=
  set_sems (sem_proxy_ready p) (pred (sem_cache_ready p)) p.

(** ** Lemmas on the world's accessors *)

Lemma seg_payload_write f seg w p :
  seg_payload w seg = Some p -> seg_payload (write_seg f seg w) seg = Some (f p).
Proof.
  unfold seg_payload, write_seg. intros H. destruct (seg_addr seg) as [n|]; [|discriminate].
  simpl. unfold update_pay. rewrite lookup_alter, decide_True by reflexivity.
  destruct (w_ns w !! n); inversion H; subst; reflexivity.
Qed.

Lemma seg_payload_write_other f seg seg' w :
  seg_addr seg <> seg_addr seg' -> seg_payload (write_seg f seg w) seg' = seg_payload w seg'.
Proof.
  unfold seg_payload, write_seg. intros Hne.
  destruct (seg_addr seg) as [n|]; [|reflexivity].
  destruct (seg_addr seg') as [n'|]; [|reflexivity]. simpl.
  unfold update_pay. rewrite lookup_alter_ne; [reflexivity|congruence].
Qed.

(** Writes through a mapping touch only the namespace. *)
Section WriteSeg.
Variables (f : payload -> payload) (seg : segment) (w : world).

Lemma write_seg_pool : w_pool (write_seg f seg w) = w_pool w.
Proof. unfold write_seg. by destruct (seg_addr seg). Qed.
Lemma write_seg_backlog : w_backlog (write_seg f seg w) = w_backlog w.
Proof. unfold write_seg. by destruct (seg_addr seg). Qed.
Lemma write_seg_listening : w_listening (write_seg f seg w) = w_listening w.
Proof. unfold write_seg. by destruct (seg_addr seg). Qed.
Lemma write_seg_queue : w_queue (write_seg f seg w) = w_queue w.
Proof. unfold write_seg. by destruct (seg_addr seg). Qed.
Lemma write_seg_dproc : w_dproc (write_seg f seg w) = w_dproc w.
Proof. unfold write_seg. by destruct (seg_addr seg). Qed.
Lemma write_seg_store : w_store (write_seg f seg w) = w_store w.
Proof. unfold write_seg. by destruct (seg_addr seg). Qed.
Lemma write_seg_daemon_up : w_daemon_up (write_seg f seg w) = w_daemon_up w.
Proof. unfold write_seg. by destruct (seg_addr seg). Qed.
End WriteSeg.

(** The other setters leave the mapped payloads alone. *)
Lemma seg_payload_set_pool p w seg : seg_payload (set_pool p w) seg = seg_payload w seg.
Proof. reflexivity. Qed.
Lemma seg_payload_set_backlog b w seg : seg_payload (set_backlog b w) seg = seg_payload w seg.
Proof. reflexivity. Qed.
Lemma seg_payload_set_queue q w seg : seg_payload (set_queue q w) seg = seg_payload w seg.
Proof. reflexivity. Qed.
Lemma seg_payload_set_dproc p w seg : seg_payload (set_dproc p w) seg = seg_payload w seg.
Proof. reflexivity. Qed.

#[export] Hint Rewrite write_seg_pool write_seg_backlog write_seg_listening write_seg_queue
  write_seg_dproc write_seg_store write_seg_daemon_up seg_payload_set_pool
  seg_payload_set_backlog seg_payload_set_queue seg_payload_set_dproc : cache_simpl.

(** Two handles on the same mapping (the proxy's segment and the one
    the worker attached) read and write the same payload. *)
Lemma seg_payload_addr w s1 s2 : seg_addr s1 = seg_addr s2 -> seg_payload w s1 = seg_payload w s2.
Proof. unfold seg_payload. intros ->. reflexivity. Qed.

Lemma write_seg_addr f s1 s2 w : seg_addr s1 = seg_addr s2 -> write_seg f s1 w = write_seg f s2 w.
Proof. unfold write_seg. intros ->. reflexivity. Qed.

Arguments seg_payload : simpl never.
Arguments write_seg : simpl never.
