(* ===== verification/CacheDaemon.v ===== *)
(** * The cache daemon: boss and workers ([src/cache/simplecached.c])

    [Worker] is [_worker_thread] (lines 54-139) as a program counter
    [wstate] and a step function [worker_step]: one step per
    synchronisation ([pthread_cond_wait], [sem_post], [sem_wait]) and per
    access to the shared payload, so that the interleavings with the
    proxy that matter are all steps of the model.  [Boss] is the accept
    loop of [main] (lines 231-279): one step binds the socket, one step
    handles one connection.  [WorkerChunks] compares the chunks the
    worker publishes with the chunking the spec asks for. *)

From S2P Require Import Prelude Steque CLib ShmChannel ControlProtocol World.

Local Open Scope Z_scope.

Module Worker.

(** [n < (ssize_t) max_chunk_size]: a [size_t] read as a signed 64-bit
    integer. *)
Definition to_ssize (z : Z) : Z := if z <? 2 ^ 63 then z else z - 2 ^ 64.

(** [max_chunk_size = task->segment_size - sizeof (shm_payload_t)] (line 77). *)
Definition max_chunk (t : task) : Z := task_segment_size t -ₛ sizeof_payload.

(** The program counter of a worker.  [c] is the content of the file the
    worker's descriptor [my_fd] reads, [off] the read offset. *)
Inductive wstate :=
  | WIdle                                                     (** lines 58-65 *)
  | WAttach (t : task)                                        (** lines 69-74 *)
  | WGet (t : task) (seg : segment)                           (** lines 79-94 *)
  | WStat (t : task) (seg : segment) (c : list byte)          (** lines 96-103 *)
  | WRead (t : task) (seg : segment) (c : list byte) (off : Z)          (** 109-122 *)
  | WSetLen (t : task) (seg : segment) (c : list byte) (off n : Z)      (** line 124 *)
  | WSetLast (t : task) (seg : segment) (c : list byte) (off n : Z)     (** line 127 *)
  | WPost (t : task) (seg : segment) (c : list byte) (off : Z)          (** line 129 *)
  | WWaitCache (t : task) (seg : segment) (c : list byte) (off : Z)     (** line 131 *)
  | WCheckLast (t : task) (seg : segment) (c : list byte) (off : Z)     (** line 133 *)
  | WZeroLen (t : task) (seg : segment) (has_fd : bool)       (** lines 82, 117 *)
  | WZeroLast (t : task) (seg : segment) (has_fd : bool)      (** lines 83, 118 *)
  | WZeroPost (t : task) (seg : segment) (has_fd : bool).     (** lines 84-86, 119-120 *)

(** [close (my_fd)]. *)
Definition close_my_fd (w : world) : world := set_dproc (proc_close (w_dproc w)) w.

(** The bytes [pread (my_fd, payload->data, max_chunk_size, offset)]
    reads from the file [c] at offset [off]. *)
Definition pread_bytes (t : task) (c : list byte) (off : Z) : list byte :=
  let avail := drop (Z.to_nat off) c in
  take (Z.to_nat (Z.min (max_chunk t) (Z.of_nat (length avail)))) avail.

(** One step of a worker; [None] when it blocks (on an empty queue or on
    [sem_cache_ready]). *)
Definition worker_step (e : env) (ws : wstate) (w : world) : option (wstate * world) :=
  match ws with
  | WIdle =>
      match steque_pop (w_queue w) with
      | None => None
      | Some (t, q) => Some (WAttach t, set_queue q w)
      end
  | WAttach t =>
      let r := shm_segment_attach (env_fault e) (task_shm_name t) (task_segment_size t)
                 (w_ns w) (w_dproc w) in
      let w' := set_dproc (sr_proc r) w in
      if sr_ret r <? 0 then Some (WIdle, w') else Some (WGet t (sr_seg r), w')
  | WGet t seg =>
      match simplecache_get w (task_key t) with
      | None => Some (WZeroLen t seg false, w)
      | Some c =>
          if is_fail e || (fd_limit <=? open_fds (w_dproc w))%nat then Some (WIdle, w)
          else Some (WStat t seg c, set_dproc (proc_open (w_dproc w)) w)
      end
  | WStat t seg c =>
      if is_fail e then Some (WIdle, close_my_fd w)
      else Some (WRead t seg c 0, write_seg (set_total (Z.of_nat (length c))) seg w)
  | WRead t seg c off =>
      if is_fail e then Some (WIdle, close_my_fd w)
      else
        match seg_payload w seg with
        | None => None
        | Some p =>
            let b := pread_bytes t c off in
            let n := Z.of_nat (length b) in
            if (length (data p) <? length b)%nat then
              (* the copy stops at the end of the mapping: a short count,
                 or [EFAULT] when no byte fits (lines 111-113) *)
              let k := length (data p) in
              if (k =? 0)%nat then Some (WIdle, close_my_fd w)
              else Some (WSetLen t seg c (off + Z.of_nat k) (Z.of_nat k),
                         write_seg (set_data (overwrite_prefix (take k b) (data p))) seg w)
            else if n =? 0 then Some (WZeroLen t seg true, w)
            else Some (WSetLen t seg c (off + n) n,
                       write_seg (set_data (overwrite_prefix b (data p))) seg w)
        end
  | WSetLen t seg c off n => Some (WSetLast t seg c off n, write_seg (set_datalen n) seg w)
  | WSetLast t seg c off n =>
      let last := if n <? to_ssize (max_chunk t) then 1 else 0 in
      Some (WPost t seg c off, write_seg (set_is_last last) seg w)
  | WPost t seg c off => Some (WWaitCache t seg c off, write_seg post_proxy_ready seg w)
  | WWaitCache t seg c off =>
      match seg_payload w seg with
      | Some p =>
          if (sem_cache_ready p =? 0)%nat then None
          else Some (WCheckLast t seg c off, write_seg take_cache_ready seg w)
      | None => None
      end
  | WCheckLast t seg c off =>
      match seg_payload w seg with
      | Some p =>
          if is_last_chunk p =? 0 then Some (WRead t seg c off, w)
          else Some (WIdle, close_my_fd w)
      | None => None
      end
  | WZeroLen t seg b => Some (WZeroLast t seg b, write_seg (set_datalen 0) seg w)
  | WZeroLast t seg b => Some (WZeroPost t seg b, write_seg (set_is_last 1) seg w)
  | WZeroPost t seg b =>
      let w' := write_seg post_proxy_ready seg w in
      Some (WIdle, if b then close_my_fd w' else w')
  end.

(** ** The worker's steps, branch by branch *)

(** What [pread] reads when the chunk size is [m]. *)
Lemma pread_bytes_take t c (o m : nat) :
  max_chunk t = Z.of_nat m -> pread_bytes t c (Z.of_nat o) = take m (drop o c).
Proof.
  intros Hm. unfold pread_bytes. rewrite Hm, Nat2Z.id.
  destruct (Nat.le_ge_cases m (length (drop o c))) as [Hle|Hge].
  - rewrite Z.min_l by lia. rewrite Nat2Z.id. reflexivity.
  - rewrite Z.min_r by lia. rewrite Nat2Z.id, take_ge by lia. rewrite take_ge; [reflexivity|lia].
Qed.

Section WorkerSteps.
Variables (t : task) (seg : segment) (c : list byte) (w : world) (p : payload).
Hypothesis Hp : seg_payload w seg = Some p.

(** [pread] returned [n > 0] bytes that fit the buffer: they are written
    to [data] and the offset advances (lines 109-122). *)
Lemma worker_read_chunk (o m : nat) :
  max_chunk t = Z.of_nat m ->
  take m (drop o c) <> [] -> (length (take m (drop o c)) <= length (data p))%nat ->
  worker_step EOk (WRead t seg c (Z.of_nat o)) w =
    Some (WSetLen t seg c (Z.of_nat (o + length (take m (drop o c))))
            (Z.of_nat (length (take m (drop o c)))),
          write_seg (set_data (overwrite_prefix (take m (drop o c)) (data p))) seg w).
Proof.
  intros Hm Hne Hfit. simpl. rewrite Hp, (pread_bytes_take _ _ _ _ Hm).
  destruct (Nat.ltb_spec (length (data p)) (length (take m (drop o c)))); [lia|].
  destruct (take m (drop o c)) as [|x b] eqn:E; [congruence|].
  simpl length. rewrite Nat2Z.inj_add. reflexivity.
Qed.

(** A zero-byte read: the end of the file (lines 116-121). *)
Lemma worker_read_eof (o m : nat) :
  max_chunk t = Z.of_nat m -> drop o c = [] ->
  worker_step EOk (WRead t seg c (Z.of_nat o)) w = Some (WZeroLen t seg true, w).
Proof.
  intros Hm He. simpl. rewrite Hp, (pread_bytes_take _ _ _ _ Hm), He, take_nil.
  destruct (length (data p)); reflexivity.
Qed.

Lemma worker_wait_blocked e off :
  sem_cache_ready p = 0%nat -> worker_step e (WWaitCache t seg c off) w = None.
Proof. intros H. simpl. rewrite Hp, H. reflexivity. Qed.

Lemma worker_wait_go off k :
  sem_cache_ready p = S k ->
  worker_step EOk (WWaitCache t seg c off) w =
    Some (WCheckLast t seg c off, write_seg take_cache_ready seg w).
Proof. intros H. simpl. rewrite Hp, H. reflexivity. Qed.

Lemma worker_check_more off :
  is_last_chunk p = 0 -> worker_step EOk (WCheckLast t seg c off) w = Some (WRead t seg c off, w).
Proof. intros H. simpl. rewrite Hp, H. reflexivity. Qed.

Lemma worker_check_last off :
  is_last_chunk p <> 0 ->
  worker_step EOk (WCheckLast t seg c off) w = Some (WIdle, close_my_fd w).
Proof. intros H. simpl. rewrite Hp. destruct (Z.eqb_spec (is_last_chunk p) 0); [lia|reflexivity]. Qed.
End WorkerSteps.

Lemma to_ssize_small z : 0 <= z < 2 ^ 63 -> to_ssize z = z.
Proof. intros H. unfold to_ssize. destruct (Z.ltb_spec z (2 ^ 63)); lia. Qed.

(** The last-chunk flag the worker writes for a chunk of [n] bytes when
    the chunk size [m] fits a [ssize_t] (line 127). *)
Lemma worker_set_last t seg c w off n (m : nat) :
  max_chunk t = Z.of_nat m -> Z.of_nat m < 2 ^ 63 ->
  worker_step EOk (WSetLast t seg c off n) w =
    Some (WPost t seg c off, write_seg (set_is_last (if n <? Z.of_nat m then 1 else 0)) seg w).
Proof. intros Hm Hs. simpl. rewrite Hm, to_ssize_small by lia. reflexivity. Qed.

(** C21 (bounds: [max_chunk_size] wraps).  For a task whose segment size
    is below [sizeof (shm_payload_t)] (88 bytes), [task->segment_size -
    sizeof (shm_payload_t)] wraps around [2^64]: the worker asks [pread] for
    almost [2^64] bytes, and read back as an [ssize_t] at line 127 the
    chunk size is negative, so no chunk is ever marked last. *)
Theorem max_chunk_wraps t :
  0 <= task_segment_size t < sizeof_payload ->
  max_chunk t = task_segment_size t - sizeof_payload + 2 ^ 64 /\
  to_ssize (max_chunk t) = task_segment_size t - sizeof_payload /\
  (forall n, 0 <= n -> (n <? to_ssize (max_chunk t)) = false).
Proof.
  rewrite sizeof_payload_val. intros Hs.
  assert (Hm : max_chunk t = task_segment_size t - 88 + 2 ^ 64).
  { unfold max_chunk. rewrite sizeof_payload_val, size_sub_wrap by (unfold size_t_modulus; lia).
    reflexivity. }
  assert (Hss : to_ssize (max_chunk t) = task_segment_size t - 88).
  { unfold to_ssize. rewrite Hm. destruct (Z.ltb_spec (task_segment_size t - 88 + 2 ^ 64) (2 ^ 63)); lia. }
  split; [exact Hm|split; [exact Hss|]]. intros n Hn. rewrite Hss. apply Z.ltb_ge. lia.
Qed.

Lemma max_chunk_wraps_witness :
  max_chunk (mkTask "/proxy_shm_0" "a.txt" 40) = 40 - sizeof_payload + 2 ^ 64 /\
  to_ssize (max_chunk (mkTask "/proxy_shm_0" "a.txt" 40)) = 40 - sizeof_payload /\
  (forall n, 0 <= n -> (n <? to_ssize (max_chunk (mkTask "/proxy_shm_0" "a.txt" 40))) = false).
Proof. apply max_chunk_wraps. rewrite sizeof_payload_val. simpl. lia. Defined.

End Worker.

Module Boss.

(** The boss: before and after [bind]/[listen] (lines 231-246). *)
Inductive bstate := BStart | BServe.

(** One step of the boss; [None] when it blocks in [accept].  [EFail]
    is a [read] that returns [0] or [-1] (line 255): the connection is
    closed and its message lost.  A failing [accept] (line 250) only
    goes round the loop and is not a step. *)
(** [accept] needs a descriptor: with a full table it fails with
    [EMFILE], the connection stays queued and the loop goes on (line
    250).  The boss closes each connection it accepted after reading it
    (line 253), so the table is otherwise unchanged. *)
Definition accept_fails (w : world) : bool := (fd_limit <=? open_fds (w_dproc w))%nat.
#[global] Arguments accept_fails : simpl never.

Lemma accept_ok w : (open_fds (w_dproc w) < fd_limit)%nat -> accept_fails w = false.
Proof. intros H. unfold accept_fails. apply Nat.leb_gt, H. Qed.

Lemma accept_full w : (fd_limit <= open_fds (w_dproc w))%nat -> accept_fails w = true.
Proof. intros H. unfold accept_fails. apply Nat.leb_le, H. Qed.

Definition boss_step (e : env) (b : bstate) (w : world) : option (bstate * world) :=
  match b with
  | BStart =>
      if is_fail e then Some (BStart, crash_daemon w)
      else Some (BServe, set_listening true w)
  | BServe =>
      match w_backlog w with
      | [] => None
      | m :: ms =>
          if accept_fails w then Some (BServe, w) else
          let w1 := set_backlog ms w in
          if is_fail e then Some (BServe, w1)
          else
            match boss_parse m with
            | BossSkip => Some (BServe, w1)
            | BossCrash => Some (BServe, crash_daemon w1)
            | BossTask t => Some (BServe, set_queue (steque_enqueue (w_queue w1) t) w1)
            end
      end
  end.

(** The accept loop (lines 248-279) run [n] times with every call
    succeeding; it stops early when [accept] blocks. *)
Fixpoint boss_serve (n : nat) (w : world) : world :=
  match n with
  | O => w
  | S n' =>
      match boss_step EOk BServe w with
      | Some (_, w') => boss_serve n' w'
      | None => w
      end
  end.

(** A request as the proxy formats it, with its fields. *)
Definition req_line (r : string * string * Z) : string :=
  let '(n, p, s) := r in format_request n p s.
Definition req_task (r : string * string * Z) : task :=
  let '(n, p, s) := r in mkTask n p s.
Definition req_ok (r : string * string * Z) : Prop :=
  let '(n, p, s) := r in request_ok n p s.

(** C12 (functional: the task queue is FIFO).  Request lines that the
    proxy formatted, waiting in the socket's backlog, are turned by the
    boss into their tasks, appended to the queue in the order the
    requests arrived, as long as the daemon has a descriptor free for
    [accept] (the boss closes each connection after reading it). *)
Theorem boss_serve_fifo reqs w :
  w_backlog w = map req_line reqs -> Forall req_ok reqs -> (open_fds (w_dproc w) < fd_limit)%nat ->
  boss_serve (length reqs) w = set_backlog [] (set_queue (w_queue w ++ map req_task reqs) w).
Proof.
  revert w. induction reqs as [|[[n p] s] reqs IH]; intros w Hb Hok Hfd.
  - destruct w; simpl in *. rewrite Hb, app_nil_r. reflexivity.
  - apply Forall_cons in Hok as [Hr Hok]. cbn [boss_serve length boss_step]. rewrite Hb. cbn [map].
    rewrite (accept_ok _ Hfd). cbn [is_fail negb]. unfold req_line.
    rewrite parse_request_line by exact Hr. rewrite IH by (simpl; auto).
    simpl. rewrite <- (assoc (++)). reflexivity.
Qed.

Definition fifo_reqs : list (string * string * Z) :=
  [("/proxy_shm_0", "a.txt", 4088); ("/proxy_shm_1", "b.txt", 4088)].
Definition fifo_world : world :=
  mkWorld ∅ [] (map req_line fifo_reqs) true [] (mkProc 4 0) ∅ true.

Lemma boss_serve_fifo_witness :
  boss_serve (length fifo_reqs) fifo_world =
  set_backlog [] (set_queue (w_queue fifo_world ++ map req_task fifo_reqs) fifo_world).
Proof.
  apply boss_serve_fifo; [reflexivity| |apply Nat.ltb_lt; reflexivity].
  repeat constructor; first [discriminate | reflexivity | apply Nat.ltb_lt; reflexivity
                            | unfold long_max; lia].
Defined.

End Boss.
