(* ===== verification/WorkerChunks.v ===== *)
(** * The worker against the chunking specification

    [spec_chunks m c] is the chunking the spec asks of one transfer
    (its round-trip property): [ceil (|c| / m)] chunks of [m] bytes but
    the last, of [|c| mod m] bytes (or [m] when [m] divides [|c|]), and
    only the last flagged.  [worker_chunks] runs [worker_step] of
    [src/cache/simplecached.c] alone against a handler that takes each
    chunk at once (it takes [sem_proxy_ready] and posts
    [sem_cache_ready] after every chunk, as [handle_with_cache] does)
    and records each chunk the worker publishes with its [sem_post]:
    the data, [datalen] bytes of it, and the last-chunk flag.  The
    refinement theorem compares the two: they agree unless [m] divides
    [|c|], where the worker clears the flag of the spec's last chunk
    and publishes one more, empty, chunk flagged last.  [chunks_from],
    the read loop with the semaphores taken out, is the intermediate
    step of the proof. *)

From S2P Require Import Prelude Steque CLib ShmChannel ControlProtocol World CacheDaemon.

Local Open Scope Z_scope.

Import Worker.

(** A chunk as the proxy sees it: its bytes and its last-chunk flag. *)
Record chunk := mkChunk { ch_bytes : list byte; ch_last : bool }.

(** The spec's chunking of a content of [|c|] bytes with chunk capacity
    [m]: chunk [i] of the [ceil (|c| / m)] chunks holds the bytes from
    [i * m] on, at most [m] of them, and only the final one is flagged
    last. *)
Definition spec_chunks (m : nat) (c : list byte) : list chunk :=
  let n := ((length c + m - 1) / m)%nat in
  map (fun i => mkChunk (take m (drop (i * m) c)) (i =? n - 1)%nat) (seq 0 n).

Definition unflag (ch : chunk) : chunk := mkChunk (ch_bytes ch) false.

(** The read loop from offset [off] with the semaphores taken out:
    each [pread] returns up to [m] bytes; a short read is the last
    chunk; a zero-byte read yields a zero-length last chunk.  [fuel]
    bounds the iterations. *)
Fixpoint chunks_from (fuel : nat) (m : Z) (c : list byte) (off : nat) : list chunk :=
  match fuel with
  | O => []
  | S fuel' =>
      let b := take (Z.to_nat m) (drop off c) in
      if (length b =? 0)%nat then [mkChunk [] true]
      else if Z.of_nat (length b) <? m then [mkChunk b true]
      else mkChunk b false :: chunks_from fuel' m c (off + length b)
  end.

(** The chunk a worker has published in the payload [p]. *)
Definition published (p : payload) : chunk :=
  mkChunk (take (Z.to_nat (datalen p)) (data p)) (negb (is_last_chunk p =? 0)).

(** The handler's side of one chunk: [sem_wait (sem_proxy_ready)], then,
    after forwarding, [sem_post (sem_cache_ready)]. *)
Definition take_chunk (seg : segment) (w : world) : world :=
  write_seg post_cache_ready seg (write_seg take_proxy_ready seg w).

(** [fuel] steps of the worker alone, recording the chunk of every
    [sem_post (sem_proxy_ready)]; it stops when the worker blocks. *)
Fixpoint worker_chunks (fuel : nat) (ws : wstate) (w : world) : list chunk :=
  match fuel with
  | O => []
  | S f =>
      match worker_step EOk ws w with
      | None => []
      | Some (ws', w') =>
          match ws with
          | WPost _ seg _ _ | WZeroPost _ seg _ =>
              match seg_payload w' seg with
              | Some p => published p :: worker_chunks f ws' (take_chunk seg w')
              | None => []
              end
          | _ => worker_chunks f ws' w'
          end
      end
  end.

#[local] Arguments worker_step : simpl never.

Section Refinement.
Variables (t : task) (seg : segment) (c : list byte) (m : nat).
Hypothesis Hm : max_chunk t = Z.of_nat m.
Hypothesis Hm_pos : (0 < m)%nat.
Hypothesis Hm_small : Z.of_nat m < 2 ^ 63.

(** The segment as the loop needs it: mapped, with a buffer of the
    chunk size, and no task waiting in the queue. *)
Definition loop_ready (w : world) (p : payload) : Prop :=
  seg_payload w seg = Some p /\ length (data p) = m /\ w_queue w = [].

Lemma loop_ready_write f w p :
  loop_ready w p -> length (data (f p)) = m -> loop_ready (write_seg f seg w) (f p).
Proof.
  intros (Hp & Hl & Hq) Hl'. split; [apply seg_payload_write, Hp|split; [exact Hl'|]].
  rewrite write_seg_queue. exact Hq.
Qed.

Lemma worker_chunks_S f ws w ws' w' :
  worker_step EOk ws w = Some (ws', w') ->
  (forall t' s c' o, ws <> WPost t' s c' o) -> (forall t' s b, ws <> WZeroPost t' s b) ->
  worker_chunks (S f) ws w = worker_chunks f ws' w'.
Proof.
  intros H Hp Hz. cbn [worker_chunks]. rewrite H.
  destruct ws; try reflexivity; [exfalso; eapply Hp; reflexivity|exfalso; eapply Hz; reflexivity].
Qed.

Lemma worker_chunks_post f ws w ws' w' s p :
  worker_step EOk ws w = Some (ws', w') ->
  (exists t' c' o, ws = WPost t' s c' o) \/ (exists t' b, ws = WZeroPost t' s b) ->
  seg_payload w' s = Some p ->
  worker_chunks (S f) ws w = published p :: worker_chunks f ws' (take_chunk s w').
Proof.
  intros H [(t' & c' & o & ->)|(t' & b & ->)] Hp; cbn [worker_chunks]; rewrite H, Hp; reflexivity.
Qed.

(** The steps that do not look at the payload. *)
Lemma worker_setlen_step t' s c' off n w :
  worker_step EOk (WSetLen t' s c' off n) w = Some (WSetLast t' s c' off n, write_seg (set_datalen n) s w).
Proof. reflexivity. Qed.
Lemma worker_post_step t' s c' off w :
  worker_step EOk (WPost t' s c' off) w = Some (WWaitCache t' s c' off, write_seg post_proxy_ready s w).
Proof. reflexivity. Qed.
Lemma worker_zero_len_step t' s b w :
  worker_step EOk (WZeroLen t' s b) w = Some (WZeroLast t' s b, write_seg (set_datalen 0) s w).
Proof. reflexivity. Qed.
Lemma worker_zero_last_step t' s b w :
  worker_step EOk (WZeroLast t' s b) w = Some (WZeroPost t' s b, write_seg (set_is_last 1) s w).
Proof. reflexivity. Qed.
Lemma worker_zero_post_step t' s w :
  worker_step EOk (WZeroPost t' s true) w = Some (WIdle, close_my_fd (write_seg post_proxy_ready s w)).
Proof. reflexivity. Qed.

(** The last-chunk flag for a chunk of [n] bytes (line 127). *)
Definition flag_of (n : nat) : Z := if Z.of_nat n <? Z.of_nat m then 1 else 0.

Lemma worker_idle_stops f w : w_queue w = [] -> worker_chunks f WIdle w = [].
Proof. intros Hq. destruct f; [reflexivity|]. simpl. unfold worker_step. rewrite Hq. reflexivity. Qed.

(** A non-empty [pread]: the worker fills the buffer, sets [datalen] and
    the flag, posts, and once the handler has taken the chunk passes its
    [sem_wait (sem_cache_ready)]: five steps, one chunk published. *)
Lemma publish_chunk (o : nat) w p f :
  loop_ready w p -> take m (drop o c) <> [] ->
  exists w' p',
    worker_chunks (5 + f) (WRead t seg c (Z.of_nat o)) w =
      mkChunk (take m (drop o c)) (negb (flag_of (length (take m (drop o c))) =? 0)) ::
        worker_chunks f (WCheckLast t seg c (Z.of_nat (o + length (take m (drop o c))))) w' /\
    loop_ready w' p' /\ is_last_chunk p' = flag_of (length (take m (drop o c))).
Proof.
  intros Hr Hne. pose proof Hr as (Hp & Hl & Hq). cbn [Nat.add].
  set (b := take m (drop o c)) in *.
  assert (Hb : (length b <= m)%nat) by (subst b; rewrite length_take; lia).
  set (p1 := set_data (overwrite_prefix b (data p)) p).
  assert (Hr1 : loop_ready (write_seg (set_data (overwrite_prefix b (data p))) seg w) p1).
  { apply loop_ready_write; [exact Hr|simpl; rewrite overwrite_prefix_length; lia]. }
  rewrite (worker_chunks_S _ _ _ _ _ (worker_read_chunk t seg c w p Hp o m Hm Hne ltac:(rewrite Hl; exact Hb)))
    by discriminate.
  rewrite (worker_chunks_S _ _ _ _ _ (worker_setlen_step _ _ _ _ _ _)) by discriminate.
  rewrite (worker_chunks_S _ _ _ _ _ (worker_set_last t seg c _ _ _ m Hm Hm_small)) by discriminate.
  set (l := if Z.of_nat (length b) <? Z.of_nat m then 1 else 0).
  set (p3 := set_is_last l (set_datalen (Z.of_nat (length b)) p1)).
  assert (Hr3 : loop_ready (write_seg (set_is_last l) seg (write_seg (set_datalen (Z.of_nat (length b))) seg
                  (write_seg (set_data (overwrite_prefix b (data p))) seg w))) p3).
  { apply loop_ready_write; [apply loop_ready_write; [exact Hr1|exact (proj1 (proj2 Hr1))]|].
    exact (proj1 (proj2 Hr1)). }
  erewrite worker_chunks_post; [| apply worker_post_step | left; eauto | apply seg_payload_write, Hr3].
  pose proof (loop_ready_write post_proxy_ready _ _ Hr3 (proj1 (proj2 Hr3))) as Hr4.
  pose proof (loop_ready_write take_proxy_ready _ _ Hr4 (proj1 (proj2 Hr4))) as Hr5.
  pose proof (loop_ready_write post_cache_ready _ _ Hr5 (proj1 (proj2 Hr5))) as Hr6.
  rewrite (worker_chunks_S _ _ _ _ _ (worker_wait_go t seg c _ _ (proj1 Hr6) _ _ eq_refl)) by discriminate.
  pose proof (loop_ready_write take_cache_ready _ _ Hr6 (proj1 (proj2 Hr6))) as Hr7.
  do 2 eexists. split; [|split; [exact Hr7|reflexivity]].
  f_equal. unfold published. simpl. f_equal.
  rewrite Nat2Z.id. subst b. apply overwrite_prefix_take.
Qed.

(** The zero-byte [pread]: an empty last chunk, and the worker is idle. *)
Lemma publish_zero (o : nat) w p f :
  loop_ready w p -> drop o c = [] ->
  worker_chunks (4 + f) (WRead t seg c (Z.of_nat o)) w = [mkChunk [] true].
Proof.
  intros Hr He. pose proof Hr as (Hp & Hl & Hq). cbn [Nat.add].
  rewrite (worker_chunks_S _ _ _ _ _ (worker_read_eof t seg c w p Hp o m Hm He)) by discriminate.
  rewrite (worker_chunks_S _ _ _ _ _ (worker_zero_len_step _ _ _ _)) by discriminate.
  rewrite (worker_chunks_S _ _ _ _ _ (worker_zero_last_step _ _ _ _)) by discriminate.
  erewrite worker_chunks_post; [| apply worker_zero_post_step | right; eauto |
    unfold close_my_fd; rewrite seg_payload_set_dproc; do 3 apply seg_payload_write; exact Hp].
  rewrite worker_idle_stops; [reflexivity|].
  unfold take_chunk, close_my_fd. rewrite !write_seg_queue. simpl. rewrite !write_seg_queue. exact Hq.
Qed.

(** After a short chunk the worker checks the flag, closes [my_fd] and
    waits for the next task. *)
Lemma finish_short f w p off :
  loop_ready w p -> is_last_chunk p <> 0 -> worker_chunks (S f) (WCheckLast t seg c off) w = [].
Proof.
  intros Hr Hl. rewrite (worker_chunks_S _ _ _ _ _ (worker_check_last t seg c w p (proj1 Hr) _ Hl))
    by discriminate.
  apply worker_idle_stops. unfold close_my_fd. simpl. exact (proj2 (proj2 Hr)).
Qed.

Lemma flag_short n : (n < m)%nat -> flag_of n = 1.
Proof. intros H. unfold flag_of. destruct (Z.ltb_spec (Z.of_nat n) (Z.of_nat m)); lia. Qed.

Lemma flag_full : flag_of m = 0.
Proof. unfold flag_of. rewrite Z.ltb_irrefl. reflexivity. Qed.

(** The read loop from offset [o] with at most [q] full chunks left,
    against [chunks_from] with any iteration bound [g >= q]. *)
Lemma worker_loop q : forall (o g : nat) w p f,
  loop_ready w p -> (length (drop o c) < S q * m)%nat -> (q <= g)%nat -> (6 * q + 6 <= f)%nat ->
  worker_chunks f (WRead t seg c (Z.of_nat o)) w = chunks_from (S g) (Z.of_nat m) c o.
Proof.
  induction q as [|q IH]; intros o g w p f Hr Hlen Hg Hf;
    (destruct (decide (drop o c = [])) as [He|Hne0];
     [replace f with (4 + (f - 4))%nat by lia; rewrite (publish_zero o w p) by assumption;
      simpl; rewrite He, take_nil; reflexivity|]);
    (assert (Hne : take m (drop o c) <> [])
       by (destruct (drop o c); [congruence|destruct m; [lia|discriminate]]));
    replace f with (5 + (f - 5))%nat by lia;
    destruct (publish_chunk o w p (f - 5) Hr Hne) as (w' & p' & -> & Hr' & Hl');
    cbn [chunks_from]; rewrite Nat2Z.id;
    (destruct (Nat.eqb_spec (length (take m (drop o c))) 0) as [H0|_];
     [apply length_zero_iff_nil in H0; congruence|]);
    rewrite length_take in *; simpl in Hlen;
    destruct (Nat.le_gt_cases m (length (drop o c))) as [Hfull|Hshort];
    try lia; destruct (f - 5)%nat as [|f'] eqn:Ef; try lia.
  - (* the last chunk, short *)
    rewrite Nat.min_r in * by lia. rewrite flag_short in * by lia.
    destruct (Z.ltb_spec (Z.of_nat (length (drop o c))) (Z.of_nat m)); [|lia].
    rewrite take_ge by lia. cbn [negb Z.eqb Pos.eqb]. f_equal. apply (finish_short _ _ p'); [exact Hr'|rewrite Hl'; lia].
  - (* a full chunk: the loop goes on *)
    rewrite Nat.min_l in * by lia. rewrite flag_full in *. rewrite Z.ltb_irrefl. cbn [negb Z.eqb].
    destruct g as [|g]; [lia|]. f_equal.
    rewrite (worker_chunks_S _ _ _ _ _ (worker_check_more t seg c w' p' (proj1 Hr') _ Hl'))
      by discriminate.
    apply (IH (o + m)%nat g w' p'); [exact Hr'|rewrite <- drop_drop, length_drop; lia|lia|lia].
  - (* a short chunk before the bound *)
    rewrite Nat.min_r in * by lia. rewrite flag_short in * by lia.
    destruct (Z.ltb_spec (Z.of_nat (length (drop o c))) (Z.of_nat m)); [|lia].
    rewrite take_ge by lia. cbn [negb Z.eqb Pos.eqb]. f_equal. apply (finish_short _ _ p'); [exact Hr'|rewrite Hl'; lia].
Qed.
End Refinement.

(** ** The chunking specification *)

Section Spec.
Variables (c : list byte) (m : nat).
Hypothesis Hm_pos : (0 < m)%nat.

Lemma div_step n : (m <= n)%nat -> (n / m = S ((n - m) / m))%nat.
Proof.
  intros H. replace n with (1 * m + (n - m))%nat at 1 by lia.
  rewrite Nat.div_add_l by lia. reflexivity.
Qed.

(** From offset [o]: the chunks put together are the rest of the file;
    there is one chunk per full buffer plus one; only the last is
    flagged. *)
Lemma chunks_from_spec q : forall (o g : nat),
  (length (drop o c) < S q * m)%nat -> (q <= g)%nat ->
  concat (map ch_bytes (chunks_from (S g) (Z.of_nat m) c o)) = drop o c /\
  map ch_last (chunks_from (S g) (Z.of_nat m) c o) = repeat false (length (drop o c) / m) ++ [true].
Proof.
  induction q as [|q IH]; intros o g Hlen Hg; cbn [chunks_from]; rewrite Nat2Z.id, length_take;
    (destruct (Nat.le_gt_cases m (length (drop o c))) as [Hfull|Hshort]; [|
      rewrite Nat.div_small by lia; rewrite Nat.min_r by lia;
      destruct (Nat.eqb_spec (length (drop o c)) 0) as [H0|H0];
      [apply length_zero_iff_nil in H0; rewrite H0; split; reflexivity|];
      destruct (Z.ltb_spec (Z.of_nat (length (drop o c))) (Z.of_nat m)); [|lia];
      simpl; rewrite take_ge, app_nil_r by lia; split; reflexivity]).
  - simpl in Hlen. lia.
  - rewrite Nat.min_l by lia. destruct (Nat.eqb_spec m 0); [lia|].
    rewrite Z.ltb_irrefl. destruct g as [|g]; [lia|].
    destruct (IH (o + m)%nat g) as [Hb Hl]; [rewrite <- drop_drop, length_drop; simpl in Hlen; lia|lia|].
    rewrite ?length_take, ?Nat.min_l by lia.
    set (rest := chunks_from (S g) (Z.of_nat m) c (o + m)) in *. simpl. rewrite Hb, Hl, <- drop_drop, take_drop. split; [reflexivity|].
    rewrite (div_step (length (drop o c))) by lia. rewrite length_drop. simpl.
    f_equal.
Qed.

(** The loop from offset [o]: the full chunks, then what is left
    (empty when [m] divides the rest), flagged last. *)
Lemma chunks_from_shape q : forall (o g : nat),
  (length (drop o c) < S q * m)%nat -> (q <= g)%nat ->
  chunks_from (S g) (Z.of_nat m) c o =
    map (fun i => mkChunk (take m (drop (o + i * m) c)) false) (seq 0 (length (drop o c) / m)) ++
    [mkChunk (drop (o + length (drop o c) / m * m) c) true].
Proof.
  induction q as [|q IH]; intros o g Hlen Hg; cbn [chunks_from]; rewrite Nat2Z.id, length_take;
    (destruct (Nat.le_gt_cases m (length (drop o c))) as [Hfull|Hshort]; [|
      rewrite Nat.div_small, Nat.min_r, Nat.add_0_r by lia; cbn [seq map app];
      destruct (Nat.eqb_spec (length (drop o c)) 0) as [H0|H0];
      [apply length_zero_iff_nil in H0; rewrite H0; reflexivity|];
      destruct (Z.ltb_spec (Z.of_nat (length (drop o c))) (Z.of_nat m)); [|lia];
      rewrite take_ge by lia; reflexivity]).
  - simpl in Hlen. lia.
  - rewrite Nat.min_l by lia. destruct (Nat.eqb_spec m 0); [lia|].
    rewrite Z.ltb_irrefl. destruct g as [|g]; [lia|].
    rewrite (IH (o + m)%nat g) by first [lia|rewrite <- drop_drop, length_drop; simpl in Hlen; lia].
    assert (HL : length (drop (o + m) c) = (length (drop o c) - m)%nat)
      by (rewrite <- drop_drop, length_drop; reflexivity).
    rewrite HL, (div_step (length (drop o c))) by lia.
    cbn [seq map app]. rewrite <- seq_shift, map_map.
    f_equal; [do 3 f_equal; lia|]. f_equal; [apply map_ext; intros i|]; do 3 f_equal; lia.
Qed.

(** The spec's chunks when there are [S k] of them. *)
Lemma spec_chunks_last k :
  ((length c + m - 1) / m = S k)%nat ->
  spec_chunks m c =
    map (fun i => mkChunk (take m (drop (i * m) c)) false) (seq 0 k) ++
    [mkChunk (take m (drop (k * m) c)) true].
Proof.
  intros Hn. unfold spec_chunks. rewrite Hn, seq_S, map_app. f_equal.
  - apply map_ext_in. intros i Hi. apply in_seq in Hi.
    rewrite (proj2 (Nat.eqb_neq i (S k - 1))) by lia. reflexivity.
  - cbn. rewrite Nat.sub_0_r, Nat.eqb_refl. reflexivity.
Qed.

(** The worker's loop against the spec: the same chunks unless [m]
    divides [|c|]; then the spec's last chunk is not flagged and an
    empty chunk flagged last follows. *)
Lemma chunks_from_vs_spec :
  chunks_from (S (length c)) (Z.of_nat m) c 0 =
    if (length c mod m =? 0)%nat then map unflag (spec_chunks m c) ++ [mkChunk [] true]
    else spec_chunks m c.
Proof.
  pose proof (Nat.div_mod_eq (length c) m) as Hdm.
  pose proof (Nat.mod_upper_bound (length c) m ltac:(lia)) as Hr.
  rewrite (chunks_from_shape (length c / m) 0 (length c)); rewrite ?drop_0;
    [|nia|apply Nat.Div0.div_le_upper_bound; nia].
  cbn [Nat.add].
  destruct (Nat.eqb_spec (length c mod m) 0) as [H0|H0].
  - rewrite drop_ge by nia. destruct (length c / m)%nat as [|k] eqn:Hq.
    + assert (c = []) as -> by (apply length_zero_iff_nil; nia).
      unfold spec_chunks. cbn [length]. rewrite Nat.div_small by lia. reflexivity.
    + rewrite (spec_chunks_last k).
      2:{ symmetry. apply (Nat.div_unique _ _ _ (m - 1)); nia. }
      rewrite map_app, map_map, seq_S, map_app. cbn. reflexivity.
  - rewrite (spec_chunks_last (length c / m)).
    2:{ symmetry. apply (Nat.div_unique _ _ _ (length c mod m - 1)); nia. }
    rewrite take_ge by (rewrite length_drop; nia). reflexivity.
Qed.
End Spec.

(** ** The worker's chunks *)

(** C8 (refinement against the spec's chunking).  A worker whose
    task's chunk size is [m], reading the file [c] into a mapped buffer
    of [m] bytes from offset 0, publishes with its successive
    [sem_post (sem_proxy_ready)], when each chunk is taken by the
    handler, exactly the chunks [spec_chunks m c] of the spec when [m]
    does not divide [|c|]; when it does, it publishes those chunks with
    the flag of the last one cleared, then one more empty chunk flagged
    last (for the empty file: that empty chunk alone, where the spec has
    none).  [6 * (|c| / m) + 6] of its steps are enough. *)
Theorem worker_refines_chunks t seg c m w p f :
  max_chunk t = Z.of_nat m -> (0 < m)%nat -> Z.of_nat m < 2 ^ 63 ->
  loop_ready seg m w p -> (6 * (length c / m) + 6 <= f)%nat ->
  worker_chunks f (WRead t seg c 0) w =
    if (length c mod m =? 0)%nat then map unflag (spec_chunks m c) ++ [mkChunk [] true]
    else spec_chunks m c.
Proof.
  intros Hm Hpos Hsmall Hr Hf. rewrite <- (chunks_from_vs_spec c m Hpos).
  pose proof (Nat.div_mod_eq (length c) m). pose proof (Nat.mod_upper_bound (length c) m).
  apply (worker_loop t seg c m Hm Hpos Hsmall (length c / m) 0 (length c) w p f Hr);
    [rewrite drop_0; nia|apply Nat.Div0.div_le_upper_bound; nia|exact Hf].
Qed.

(** C9 (functional, against the spec's chunking).  Under the same
    conditions, the chunks the worker publishes put together are the
    file, and their flags are [false] for the [|c| / m] full chunks and
    [true] for one more: when [m] divides [|c|], the last chunk is an
    extra empty one. *)
Theorem worker_chunks_reassemble t seg c m w p f :
  max_chunk t = Z.of_nat m -> (0 < m)%nat -> Z.of_nat m < 2 ^ 63 ->
  loop_ready seg m w p -> (6 * (length c / m) + 6 <= f)%nat ->
  concat (map ch_bytes (worker_chunks f (WRead t seg c 0) w)) = c /\
  map ch_last (worker_chunks f (WRead t seg c 0) w) = repeat false (length c / m) ++ [true].
Proof.
  intros Hm Hpos Hsmall Hr Hf.
  pose proof (Nat.div_mod_eq (length c) m). pose proof (Nat.mod_upper_bound (length c) m).
  assert (Hq : (length c / m <= length c)%nat) by (apply Nat.Div0.div_le_upper_bound; nia).
  assert (E : worker_chunks f (WRead t seg c (Z.of_nat 0)) w = chunks_from (S (length c)) (Z.of_nat m) c 0)
    by (apply (worker_loop t seg c m Hm Hpos Hsmall (length c / m)) with (p := p);
        [exact Hr|rewrite drop_0; nia|exact Hq|exact Hf]).
  change (Z.of_nat 0) with 0 in E. rewrite E.
  destruct (chunks_from_spec c m Hpos (length c / m) 0 (length c)) as [Hb Hl];
    rewrite ?drop_0 in *; [nia|exact Hq|split; assumption].
Qed.
