(* ===== verification/ProxyHandler.v ===== *)
(** * The proxy's transfer handler ([src/cache/handle_with_cache.c])

    [handle_with_cache] serves one request: it takes a segment from the
    pool under the pool mutex, sends the control message (five connect
    attempts), waits for the first chunk, sends the header, then relays
    chunks to the client until the last one, and returns the segment to
    the pool on every path.  It is modelled as a program counter
    [pstate] and a step function [proxy_step]: one step per
    synchronisation and per access to the shared payload whose
    interleaving with the worker matters; the code between two such
    points is one step (the pool's critical sections are single steps,
    as the mutex makes them).  [segsize] is [*(size_t * ) args[1]]. *)

From S2P Require Import Prelude Steque CLib ShmChannel ControlProtocol World.

Local Open Scope Z_scope.

Definition MAX_RETRIES : nat := 5.

Inductive pstate :=
  | PStart (path : string)                          (** lines 24-32 *)
  | PConnect (path : string) (seg : segment) (i : nat)  (** lines 44-56 *)
  | PWrite (path : string) (seg : segment)           (** lines 58-63 *)
  | PWaitFirst (seg : segment)                       (** lines 66-70 *)
  | PFirst (seg : segment)                           (** lines 72-86 *)
  | PBody (seg : segment) (sent : Z)                 (** lines 91-105 *)
  | PPost (seg : segment) (sent : Z)                 (** line 107 *)
  | PCheckLast (seg : segment) (sent : Z)            (** lines 109-112 *)
  | PWaitNext (seg : segment) (sent : Z)             (** lines 114-117 *)
  | PRelease (seg : segment) (sent : Z)              (** lines 120-124 *)
  | PError (seg : segment)                           (** lines 126-131 *)
  | PDone (ret : Z).                                 (** returned *)

(** The value [gfs_sendheader] returns: its failure is [-1]; the model
    does not count header bytes and returns [0] on success. *)
Definition header_ret (e : env) : Z := if is_fail e then -1 else 0.

(** [gfs_sendheader]: the client gets the header unless the call fails. *)
Definition send_header_env (e : env) (st : gfstatus) (len : Z) (c : client) : client :=
  if is_fail e then c else send_header st len c.

(** The usable buffer as the proxy computes it: [segsize - sizeof (shm_payload_t)]. *)
Definition proxy_capacity (segsize : Z) : Z := segsize -ₛ sizeof_payload.

(** The bytes [gfs_send] delivers of the buffer [b]. *)
Definition sent_bytes (e : env) (b : list byte) : list byte :=
  match e with EShort k => take k b | _ => b end.

(** One step of the handler; [None] when it blocks on [sem_proxy_ready]
    or has returned. *)
Definition proxy_step (segsize : Z) (e : env) (ps : pstate) (c : client) (w : world)
    : option (pstate * client * world) :=
  match ps with
  | PStart path =>
      if steque_isempty (w_pool w) then
        Some (PDone (header_ret e), send_header_env e GF_ERROR 0 c, w)
      else
        match steque_pop (w_pool w) with
        | Some (seg, pool) => Some (PConnect path seg 0, c, set_pool pool w)
        | None => None
        end
  | PConnect path seg i =>
      if w_listening w && negb (is_fail e) then Some (PWrite path seg, c, w)
      else if (S i <? MAX_RETRIES)%nat then Some (PConnect path seg (S i), c, w)
      else Some (PError seg, c, w)
  | PWrite path seg =>
      if is_fail e then Some (PError seg, c, w)
      else Some (PWaitFirst seg, c,
                 set_backlog (w_backlog w ++ [format_request (shm_name seg) path segsize]) w)
  | PWaitFirst seg =>
      if is_fail e then Some (PError seg, c, w)
      else
        match seg_payload w seg with
        | Some p =>
            if (sem_proxy_ready p =? 0)%nat then None
            else Some (PFirst seg, c, write_seg take_proxy_ready seg w)
        | None => None
        end
  | PFirst seg =>
      match seg_payload w seg with
      | Some p =>
          if datalen p =? 0 then Some (PError seg, c, w)
          else if is_fail e then Some (PError seg, c, w)
          else Some (PBody seg 0, send_header GF_OK (total_file_size p) c, w)
      | None => None
      end
  | PBody seg sent =>
      match seg_payload w seg with
      | Some p =>
          if proxy_capacity segsize <? datalen p then Some (PError seg, c, w)
          else if is_fail e then Some (PError seg, c, w)
          else
            let b := sent_bytes e (take (Z.to_nat (datalen p)) (data p)) in
            Some (PPost seg (sent + Z.of_nat (length b)), send_body b c, w)
      | None => None
      end
  | PPost seg sent => Some (PCheckLast seg sent, c, write_seg post_cache_ready seg w)
  | PCheckLast seg sent =>
      match seg_payload w seg with
      | Some p =>
          if is_last_chunk p =? 0 then Some (PWaitNext seg sent, c, w)
          else Some (PRelease seg sent, c, w)
      | None => None
      end
  | PWaitNext seg sent =>
      if is_fail e then Some (PError seg, c, w)
      else
        match seg_payload w seg with
        | Some p =>
            if (sem_proxy_ready p =? 0)%nat then None
            else Some (PBody seg sent, c, write_seg take_proxy_ready seg w)
        | None => None
        end
  | PRelease seg sent =>
      Some (PDone sent, c, set_pool (steque_enqueue (w_pool w) seg) w)
  | PError seg =>
      Some (PDone (header_ret e), send_header_env e GF_ERROR 0 c,
            set_pool (steque_enqueue (w_pool w) seg) w)
  | PDone _ => None
  end.

(** The segment a handler holds: taken from the pool and not yet given
    back. *)
Definition held (ps : pstate) : option segment :=
  match ps with
  | PStart _ | PDone _ => None
  | PConnect _ seg _ | PWrite _ seg | PWaitFirst seg | PFirst seg | PError seg => Some seg
  | PBody seg _ | PPost seg _ | PCheckLast seg _ | PWaitNext seg _ | PRelease seg _ => Some seg
  end.

(** ** The handler's steps, branch by branch *)

Section ProxySteps.
Variables (segsize : Z) (seg : segment) (cl : client) (w : world) (p : payload).
Hypothesis Hp : seg_payload w seg = Some p.

Lemma proxy_wait_first_blocked :
  sem_proxy_ready p = 0%nat -> proxy_step segsize EOk (PWaitFirst seg) cl w = None.
Proof. intros H. simpl. rewrite Hp, H. reflexivity. Qed.

Lemma proxy_wait_first_go k :
  sem_proxy_ready p = S k ->
  proxy_step segsize EOk (PWaitFirst seg) cl w =
    Some (PFirst seg, cl, write_seg take_proxy_ready seg w).
Proof. intros H. simpl. rewrite Hp, H. reflexivity. Qed.

Lemma proxy_wait_next_blocked sent :
  sem_proxy_ready p = 0%nat -> proxy_step segsize EOk (PWaitNext seg sent) cl w = None.
Proof. intros H. simpl. rewrite Hp, H. reflexivity. Qed.

Lemma proxy_wait_next_go sent k :
  sem_proxy_ready p = S k ->
  proxy_step segsize EOk (PWaitNext seg sent) cl w =
    Some (PBody seg sent, cl, write_seg take_proxy_ready seg w).
Proof. intros H. simpl. rewrite Hp, H. reflexivity. Qed.

(** A first chunk with data: the success header carries the total size
    (lines 72-86). *)
Lemma proxy_first_ok :
  datalen p <> 0 ->
  proxy_step segsize EOk (PFirst seg) cl w =
    Some (PBody seg 0, send_header GF_OK (total_file_size p) cl, w).
Proof. intros H. simpl. rewrite Hp. destruct (Z.eqb_spec (datalen p) 0); [lia|reflexivity]. Qed.

(** An empty first chunk (a miss, an empty file, or a protocol
    violation) is an error. *)
Lemma proxy_first_empty e :
  datalen p = 0 -> proxy_step segsize e (PFirst seg) cl w = Some (PError seg, cl, w).
Proof. intros H. simpl. rewrite Hp, H. reflexivity. Qed.

(** A chunk within the buffer is forwarded whole when [gfs_send] sends
    it all (lines 91-105). *)
Lemma proxy_body_ok sent :
  0 <= datalen p <= proxy_capacity segsize ->
  proxy_step segsize EOk (PBody seg sent) cl w =
    Some (PPost seg (sent + Z.of_nat (length (take (Z.to_nat (datalen p)) (data p)))),
          send_body (take (Z.to_nat (datalen p)) (data p)) cl, w).
Proof.
  intros H. simpl. rewrite Hp.
  destruct (Z.ltb_spec (proxy_capacity segsize) (datalen p)); [lia|reflexivity].
Qed.

Lemma proxy_check_more sent :
  is_last_chunk p = 0 ->
  proxy_step segsize EOk (PCheckLast seg sent) cl w = Some (PWaitNext seg sent, cl, w).
Proof. intros H. simpl. rewrite Hp, H. reflexivity. Qed.

Lemma proxy_check_last sent :
  is_last_chunk p <> 0 ->
  proxy_step segsize EOk (PCheckLast seg sent) cl w = Some (PRelease seg sent, cl, w).
Proof.
  intros H. simpl. rewrite Hp. destruct (Z.eqb_spec (is_last_chunk p) 0); [lia|reflexivity].
Qed.
End ProxySteps.

(** ** The handler's error paths *)

(** [goto error] (lines 126-131): the segment goes back to the pool and
    the client gets a [GF_ERROR] header. *)
Lemma proxy_error_release segsize seg c w :
  proxy_step segsize EOk (PError seg) c w =
    Some (PDone 0, send_header GF_ERROR 0 c, set_pool (w_pool w ++ [seg]) w).
Proof. reflexivity. Qed.

(** C18 (error: a chunk that overflows the buffer).  A chunk whose
    [datalen] exceeds [segsize - sizeof (shm_payload_t)] is not
    forwarded (lines 94-97): the handler sends nothing of it, gives the
    segment back and sends [GF_ERROR]. *)
Theorem proxy_overflow_aborts segsize e seg sent c w p :
  seg_payload w seg = Some p -> proxy_capacity segsize < datalen p ->
  proxy_step segsize e (PBody seg sent) c w = Some (PError seg, c, w) /\
  proxy_step segsize EOk (PError seg) c w =
    Some (PDone 0, send_header GF_ERROR 0 c, set_pool (w_pool w ++ [seg]) w).
Proof.
  intros Hp Hlt. split; [|apply proxy_error_release].
  unfold proxy_step. rewrite Hp. destruct (Z.ltb_spec (proxy_capacity segsize) (datalen p)); [reflexivity|lia].
Qed.

(** C24 (spec divergence: two headers).  When [gfs_send] fails after the
    [GF_OK] header has gone out, the error path sends a second header,
    [GF_ERROR] (line 130), on a response whose header was already
    sent: the client's record shows both. *)
Theorem proxy_send_fail_second_header segsize seg sent c w p :
  seg_payload w seg = Some p -> 0 <= datalen p <= proxy_capacity segsize ->
  proxy_step segsize EFail (PBody seg sent) c w = Some (PError seg, c, w) /\
  proxy_step segsize EOk (PError seg) c w =
    Some (PDone 0, mkClient (c_headers c ++ [(GF_ERROR, 0)]) (c_body c),
          set_pool (w_pool w ++ [seg]) w).
Proof.
  intros Hp Hle. split; [|apply proxy_error_release].
  unfold proxy_step. rewrite Hp. destruct (Z.ltb_spec (proxy_capacity segsize) (datalen p)); [lia|reflexivity].
Qed.

(** C25 (spec gap: a partial send is not completed).  When [gfs_send]
    sends only [k] bytes of a chunk, the handler counts [k], posts
    [sem_cache_ready] and moves on: the rest of the chunk never reaches
    the client (lines 100-107 have no loop around [gfs_send]). *)
Theorem proxy_partial_send segsize seg sent c w p k :
  seg_payload w seg = Some p -> 0 <= datalen p <= proxy_capacity segsize ->
  proxy_step segsize (EShort k) (PBody seg sent) c w =
    Some (PPost seg (sent + Z.of_nat (length (take k (take (Z.to_nat (datalen p)) (data p))))),
          send_body (take k (take (Z.to_nat (datalen p)) (data p))) c, w).
Proof.
  intros Hp Hle. unfold proxy_step. rewrite Hp.
  destruct (Z.ltb_spec (proxy_capacity segsize) (datalen p)); [lia|reflexivity].
Qed.
