(* ===== verification/System.v ===== *)
(** * The two processes together: threads, interleaving, schedules

    A system state holds the world and the program counter of every
    thread: the proxy's request handlers (each with the client it
    serves), the daemon's workers and its boss.  [sys_step e t] is one
    step of thread [t] with the environment's answer [e]; the daemon's
    threads stop when the daemon has died.  [step] is the interleaving
    semantics: any thread that can move, moves.  [run] replays an
    explicit schedule, and [coop] is the cooperative schedule that always
    moves the first thread able to move, proxy handlers first, then the
    boss, then the workers, with every system call succeeding. *)

From S2P Require Import Prelude Steque CLib ShmChannel ControlProtocol World.
From S2P Require Import CacheDaemon ProxyHandler.

Local Open Scope Z_scope.

Import Worker Boss.

Record sys := mkSys {
  s_world : world;
  s_proxies : list (pstate * client);
  s_workers : list wstate;
  s_boss : bstate;
}.

Inductive tid := TProxy (i : nat) | TWorker (i : nat) | TBoss.

Section Steps.
(** [segsize], the size of every segment, is the proxy's configuration. *)
Variable segsize : Z.

Definition sys_step (e : env) (t : tid) (s : sys) : option sys :=
  match t with
  | TProxy i =>
      match s_proxies s !! i with
      | Some (ps, c) =>
          match proxy_step segsize e ps c (s_world s) with
          | Some (ps', c', w') =>
              Some (mkSys w' (<[i := (ps', c')]> (s_proxies s)) (s_workers s) (s_boss s))
          | None => None
          end
      | None => None
      end
  | TWorker i =>
      if w_daemon_up (s_world s) then
        match s_workers s !! i with
        | Some ws =>
            match worker_step e ws (s_world s) with
            | Some (ws', w') =>
                Some (mkSys w' (s_proxies s) (<[i := ws']> (s_workers s)) (s_boss s))
            | None => None
            end
        | None => None
        end
      else None
  | TBoss =>
      if w_daemon_up (s_world s) then
        match boss_step e (s_boss s) (s_world s) with
        | Some (b', w') => Some (mkSys w' (s_proxies s) (s_workers s) b')
        | None => None
        end
      else None
  end.

Inductive step : sys -> sys -> Prop :=
  | step_at e t s s' : sys_step e t s = Some s' -> step s s'.

(** A schedule: which thread moves and what its system call answers. *)
Fixpoint run (sched : list (env * tid)) (s : sys) : option sys :=
  match sched with
  | [] => Some s
  | (e, t) :: sched' =>
      match sys_step e t s with
      | Some s' => run sched' s'
      | None => None
      end
  end.

Lemma run_reachable sched s s' : run sched s = Some s' -> rtc step s s'.
Proof.
  revert s. induction sched as [|[e t] sched IH]; simpl; intros s H.
  - injection H as <-. apply rtc_refl.
  - destruct (sys_step e t s) as [s1|] eqn:E; [|discriminate].
    eapply rtc_l; [econstructor; exact E|]. apply IH, H.
Qed.

(** The threads in the cooperative order. *)
Definition threads (s : sys) : list tid :=
  map TProxy (seq 0 (length (s_proxies s))) ++ [TBoss] ++
  map TWorker (seq 0 (length (s_workers s))).

Fixpoint first_step (ts : list tid) (s : sys) : option sys :=
  match ts with
  | [] => None
  | t :: ts' =>
      match sys_step EOk t s with
      | Some s' => Some s'
      | None => first_step ts' s
      end
  end.

Definition coop_step (s : sys) : option sys := first_step (threads s) s.

(** [fuel] steps of the cooperative schedule, stopping early when no
    thread can move. *)
Fixpoint coop (fuel : nat) (s : sys) : sys :=
  match fuel with
  | O => s
  | S fuel' =>
      match coop_step s with
      | Some s' => coop fuel' s'
      | None => s
      end
  end.

Lemma first_step_reachable ts s s' : first_step ts s = Some s' -> step s s'.
Proof.
  induction ts as [|t ts IH]; simpl; [discriminate|].
  destruct (sys_step EOk t s) eqn:E; [intros [= <-]; econstructor; exact E|exact IH].
Qed.

Lemma coop_reachable fuel s : rtc step s (coop fuel s).
Proof.
  revert s. induction fuel as [|fuel IH]; intros s; simpl; [apply rtc_refl|].
  destruct (coop_step s) as [s'|] eqn:E; [|apply rtc_refl].
  eapply rtc_l; [apply (first_step_reachable _ _ _ E)|apply IH].
Qed.

(** More fuel after a state where no thread moves changes nothing. *)
Lemma coop_stuck fuel s : coop_step s = None -> coop fuel s = s.
Proof. destruct fuel; simpl; [reflexivity|]. intros ->. reflexivity. Qed.

(** A run that has reached a state where no thread moves stays there,
    whatever the fuel added. *)
Lemma coop_after_stuck n m s :
  coop_step (coop n s) = None -> coop (n + m) s = coop n s.
Proof.
  revert s. induction n as [|n IH]; intros s; simpl.
  - intros H. apply coop_stuck, H.
  - destruct (coop_step s) as [s'|] eqn:E; [apply IH|intros _; reflexivity].
Qed.

Lemma coop_add n m s : coop (n + m) s = coop m (coop n s) \/ coop_step (coop n s) = None.
Proof.
  revert s. induction n as [|n IH]; intros s; simpl; [left; reflexivity|].
  destruct (coop_step s) as [s'|] eqn:E; [apply IH|]. right. exact E.
Qed.
End Steps.

(** ** Conservation of the segment pool

    Every segment is, at any time, either in the pool or held by exactly
    one request handler: the pool's critical sections only move a
    segment between the two, and neither the daemon nor the payload
    writes touch the pool. *)

(** The segments the handlers hold, in handler order. *)
Definition held_segs (ps : list (pstate * client)) : list segment :=
  mjoin (map (fun pc => option_list (held pc.1)) ps).

(** One handler step: the pool and the handler's own segment together
    are the same multiset before and after. *)
Lemma proxy_step_pool segsize e ps c w ps' c' w' :
  proxy_step segsize e ps c w = Some (ps', c', w') ->
  w_pool w' ++ option_list (held ps') ≡ₚ w_pool w ++ option_list (held ps).
Proof.
  destruct ps; cbn [proxy_step]; intros H; repeat case_match; simplify_eq/=;
    rewrite ?write_seg_pool; try reflexivity.
  - destruct (w_pool w); simplify_eq. solve_Permutation.
  - rewrite app_nil_r. reflexivity.
  - rewrite app_nil_r. reflexivity.
Qed.

Lemma worker_step_pool e ws w ws' w' :
  worker_step e ws w = Some (ws', w') -> w_pool w' = w_pool w.
Proof.
  destruct ws; cbn [worker_step]; intros H; repeat case_match; simplify_eq/=;
    unfold close_my_fd; rewrite ?write_seg_pool; reflexivity.
Qed.

Lemma boss_step_pool e b w b' w' :
  boss_step e b w = Some (b', w') -> w_pool w' = w_pool w.
Proof. destruct b; cbn [boss_step]; intros H; repeat case_match; simplify_eq/=; reflexivity. Qed.

(** The boss writes no shared object. *)
Lemma boss_step_ns e b w b' w' :
  boss_step e b w = Some (b', w') -> w_ns w' = w_ns w.
Proof. destruct b; cbn [boss_step]; intros H; repeat case_match; simplify_eq/=; reflexivity. Qed.

(** Replacing one handler's state changes the held segments by the
    difference of what the two states hold. *)
Lemma held_segs_insert ps i x y :
  ps !! i = Some y ->
  held_segs (<[i := x]> ps) ++ option_list (held y.1) ≡ₚ held_segs ps ++ option_list (held x.1).
Proof.
  intros Hi. pose proof (take_drop_middle ps i y Hi) as Heq. unfold held_segs.
  rewrite (insert_take_drop ps i x) by (eapply lookup_lt_Some; eauto).
  set (l1 := take i ps) in *. set (l2 := drop (S i) ps) in *. rewrite <- Heq.
  rewrite !map_app, !join_app. simpl. solve_Permutation.
Qed.

Definition pool_and_held (s : sys) : list segment := w_pool (s_world s) ++ held_segs (s_proxies s).

Lemma sys_step_pool segsize e t s s' :
  sys_step segsize e t s = Some s' -> pool_and_held s' ≡ₚ pool_and_held s.
Proof.
  unfold pool_and_held. destruct t as [i|i|]; cbn [sys_step]; intros H;
    repeat case_match; simplify_eq/=.
  - rename select (s_proxies s !! i = Some _) into Hi.
    rename select (proxy_step _ _ _ _ _ = Some _) into Hs.
    match type of Hs with
    | _ = Some (?ps', ?c', _) => pose proof (held_segs_insert _ i (ps', c') _ Hi) as H1
    end.
    pose proof (proxy_step_pool _ _ _ _ _ _ _ _ Hs) as H2.
    simpl in H1. eapply Permutation_app_inv_r. rewrite <- (assoc (++)), H1.
    etransitivity; [|rewrite <- (assoc (++)), (comm (++) (held_segs _)), (assoc (++)), <- H2; reflexivity].
    solve_Permutation.
  - erewrite worker_step_pool by eassumption. reflexivity.
  - erewrite boss_step_pool by eassumption. reflexivity.
Qed.

Lemma elem_of_held_segs ps i p c seg :
  ps !! i = Some (p, c) -> held p = Some seg -> seg ∈ held_segs ps.
Proof.
  intros Hi Hh. apply list_elem_of_join. exists (option_list (held p)).
  split; [rewrite Hh; left|]. apply list_elem_of_lookup. exists i.
  rewrite list_lookup_fmap, Hi. reflexivity.
Qed.

(** Two handlers that hold the same segment, when no segment is listed
    twice, are the same handler. *)
Lemma held_segs_unique ps i j pi ci pj cj seg :
  NoDup (held_segs ps) -> ps !! i = Some (pi, ci) -> ps !! j = Some (pj, cj) ->
  held pi = Some seg -> held pj = Some seg -> i = j.
Proof.
  revert i j. induction ps as [|[p c] ps IH]; intros i j Hnd Hi Hj Hhi Hhj; [discriminate|].
  unfold held_segs in Hnd. cbn [map mjoin] in Hnd. fold (held_segs ps) in Hnd.
  destruct i as [|i], j as [|j]; simpl in Hi, Hj; simplify_eq/=; [reflexivity| | |].
  - rewrite Hhi in Hnd. apply NoDup_cons in Hnd as [Hn _].
    destruct Hn. eapply elem_of_held_segs; eassumption.
  - rewrite Hhj in Hnd. apply NoDup_cons in Hnd as [Hn _].
    destruct Hn. eapply elem_of_held_segs; eassumption.
  - f_equal. apply NoDup_app in Hnd as (_ & _ & Hnd). eapply IH; eassumption.
Qed.

Lemma step_pool_and_held segsize s s' : step segsize s s' -> pool_and_held s' ≡ₚ pool_and_held s.
Proof. intros [e t ? ? H]. eapply sys_step_pool, H. Qed.

Lemma rtc_pool_and_held segsize s0 s :
  rtc (step segsize) s0 s -> pool_and_held s ≡ₚ pool_and_held s0.
Proof.
  induction 1 as [|x y z Hxy _ IH]; [reflexivity|].
  rewrite IH. exact (step_pool_and_held _ _ _ Hxy).
Qed.

(** C2 (invariant).  Along any interleaving of the handlers, the
    workers and the boss, with any answers of the environment, the
    segments in the pool together with the segments the handlers hold
    stay the same multiset: every path of [handle_with_cache] that took a
    segment gives it back, and nothing else adds or removes one. *)
Theorem pool_conserved segsize s0 s :
  rtc (step segsize) s0 s -> pool_and_held s ≡ₚ pool_and_held s0.
Proof. exact (rtc_pool_and_held segsize s0 s). Qed.

(** C3 (safety).  Started from a pool of distinct segments (with no
    handler holding one), a segment is never held by two handlers at
    once, and a held segment is never in the pool: a channel carries one
    transfer at a time. *)
Theorem channel_exclusive segsize s0 s i j pi ci pj cj seg :
  rtc (step segsize) s0 s -> NoDup (pool_and_held s0) ->
  s_proxies s !! i = Some (pi, ci) -> s_proxies s !! j = Some (pj, cj) ->
  held pi = Some seg -> held pj = Some seg ->
  i = j /\ seg ∉ w_pool (s_world s).
Proof.
  intros Hr Hnd Hi Hj Hhi Hhj.
  assert (Hnd' : NoDup (pool_and_held s)) by (by rewrite (rtc_pool_and_held _ _ _ Hr)).
  apply NoDup_app in Hnd' as (_ & Hdis & Hnd'). split.
  - eapply held_segs_unique; eassumption.
  - intros Hin. eapply Hdis; [exact Hin|]. eapply elem_of_held_segs; eassumption.
Qed.

(** The pool is empty once the handlers hold as many segments as there
    were. *)
Lemma pool_empty_when_all_held segsize s0 s :
  rtc (step segsize) s0 s -> length (held_segs (s_proxies s)) = length (pool_and_held s0) ->
  w_pool (s_world s) = [].
Proof.
  intros Hr Hl. pose proof (Permutation_length (rtc_pool_and_held _ _ _ Hr)) as Hlen.
  unfold pool_and_held in Hlen at 1. rewrite length_app, Hl in Hlen.
  apply length_zero_iff_nil. lia.
Qed.

(** C36 (error path: the pool exhausted fails fast).  Along any
    interleaving, once the handlers hold all the segments there were, a
    new request is answered at its first step with [GF_ERROR]: no
    control message is sent and the handler does not wait. *)
Theorem pool_exhausted_fails_fast segsize s0 s i path cl :
  rtc (step segsize) s0 s -> length (held_segs (s_proxies s)) = length (pool_and_held s0) ->
  s_proxies s !! i = Some (PStart path, cl) ->
  sys_step segsize EOk (TProxy i) s =
    Some (mkSys (s_world s) (<[i := (PDone 0, send_header GF_ERROR 0 cl)]> (s_proxies s))
            (s_workers s) (s_boss s)).
Proof.
  intros Hr Hl Hi. pose proof (pool_empty_when_all_held _ _ _ Hr Hl) as He.
  unfold sys_step. rewrite Hi. cbn [proxy_step]. rewrite He. reflexivity.
Qed.
