(* ===== verification/Tokens.v ===== *)
(** * Tokens of a channel: no interleaving creates a chunk in flight

    The spec describes the two semaphores of a channel as a rendezvous of
    capacity one: exactly one side holds the turn, and a [sem_post] hands
    it to the other.  This file counts, for the channel object [X], the
    tokens of that hand-over: the posts pending on [X]'s
    [sem_proxy_ready] and [sem_cache_ready]; the request handler that is
    about to send its control message ([PStart] to [PWrite]) or holds
    the turn on [X] ([PFirst], [PBody], [PPost], lines 72-107 of
    [src/cache/handle_with_cache.c]); the control messages and tasks in
    flight; the worker that has a task to attach or holds the turn on
    [X] (from [WGet] to [WZeroPost], lines 79-135 of
    [src/cache/simplecached.c], [sem_wait] excepted).  Every step of every
    thread, with any answers of the environment, keeps the count or
    lowers it: a [sem_post] moves a token into a semaphore, a
    [sem_wait] moves one out, and error paths drop theirs.  So one
    request never has more than one chunk in flight on its channel, and
    the handler and the worker never hold its turn together; the stale
    post of [StalePost] is a token that outlives its transfer. *)

From S2P Require Import Prelude Steque CLib ShmChannel ControlProtocol World.
From S2P Require Import CacheDaemon ProxyHandler System.

Import Worker Boss.

Section Tokens.
Variable X : string.

Definition semsum (p : payload) : nat := sem_proxy_ready p + sem_cache_ready p.

(** The posts pending on the two semaphores of [X]. *)
Definition sems (w : world) : nat :=
  match w_ns w !! X with Some o => semsum (obj_pay o) | None => 0 end.

(** Whether a segment maps [X]. *)
Definition on (seg : segment) : nat := if decide (seg_addr seg = Some X) then 1 else 0.

Definition proxy_tok (ps : pstate) : nat :=
  match ps with
  | PStart _ | PConnect _ _ _ | PWrite _ _ => 1
  | PFirst seg | PBody seg _ | PPost seg _ => on seg
  | _ => 0
  end.

Definition worker_tok (ws : wstate) : nat :=
  match ws with
  | WIdle | WWaitCache _ _ _ _ => 0
  | WAttach _ => 1
  | WGet _ seg | WStat _ seg _ | WRead _ seg _ _ | WSetLen _ seg _ _ _ | WSetLast _ seg _ _ _
  | WPost _ seg _ _ | WCheckLast _ seg _ _ | WZeroLen _ seg _ | WZeroLast _ seg _
  | WZeroPost _ seg _ => on seg
  end.

(** Everything that holds or carries a token of [X]. *)
Definition tokens (s : sys) : nat :=
  sum_list_with (fun pc => proxy_tok pc.1) (s_proxies s) + sum_list_with worker_tok (s_workers s) +
  length (w_backlog (s_world s)) + length (w_queue (s_world s)) + sems (s_world s).

(** ** The semaphores under a write through a mapping *)

Lemma sems_write f seg w :
  sems (write_seg f seg w) + on seg * from_option semsum 0 (seg_payload w seg) =
  sems w + on seg * from_option (fun p => semsum (f p)) 0 (seg_payload w seg).
Proof.
  unfold sems, on, write_seg, seg_payload. destruct (seg_addr seg) as [n|]; [|simpl; lia].
  simpl. unfold update_pay. case_decide as Hn.
  - injection Hn as ->. rewrite lookup_alter.
    destruct (w_ns w !! X); simpl; rewrite ?decide_True by reflexivity; simpl; lia.
  - rewrite lookup_alter_ne by congruence. lia.
Qed.

Lemma on_le seg : on seg <= 1.
Proof. unfold on. case_decide; lia. Qed.

Lemma sems_set_pool q w : sems (set_pool q w) = sems w.
Proof. reflexivity. Qed.

Lemma sems_set_dproc d w : sems (set_dproc d w) = sems w.
Proof. reflexivity. Qed.
Lemma sems_set_queue q w : sems (set_queue q w) = sems w.
Proof. reflexivity. Qed.
Lemma sems_set_backlog b w : sems (set_backlog b w) = sems w.
Proof. reflexivity. Qed.
Lemma sems_set_listening l w : sems (set_listening l w) = sems w.
Proof. reflexivity. Qed.
Lemma sems_crash w : sems (crash_daemon w) = sems w.
Proof. reflexivity. Qed.
Lemma sems_close w : sems (close_my_fd w) = sems w.
Proof. reflexivity. Qed.

End Tokens.

(** Popping the list the daemon's queue is made of removes one task. *)
Lemma list_pop_length {A} (q q' : list A) x : steque_pop q = Some (x, q') -> length q = S (length q').
Proof. destruct q; simpl; intros H; simplify_eq; reflexivity. Qed.

Create Rewrite HintDb tokens.
#[export] Hint Rewrite sems_set_pool sems_set_dproc sems_set_queue sems_set_backlog
  sems_set_listening sems_crash sems_close : tokens.

(** Account for a write through a mapping in the goal: the equation of
    [sems_write], with the payload the step read. *)
Ltac tok_write :=
  match goal with
  | |- context [sems ?X (write_seg ?f ?seg ?w)] =>
      let H := fresh "Hw" in
      pose proof (sems_write X f seg w) as H;
      try (match goal with Hp : seg_payload w seg = Some _ |- _ => rewrite Hp in H end);
      try (match type of H with
           | context [seg_payload w seg] => destruct (seg_payload w seg); cbn [from_option] in H
           end);
      revert H; generalize (sems X (write_seg f seg w)); intros ? H
  end.

Ltac tok_solve :=
  repeat match goal with H : w_backlog ?w = _ |- context [w_backlog ?w] => rewrite H end;
  rewrite ?write_seg_backlog, ?write_seg_queue; autorewrite with tokens; repeat tok_write;
  repeat match goal with H : (_ =? _)%nat = false |- _ => apply Nat.eqb_neq in H end;
  repeat match goal with H : steque_pop _ = Some _ |- _ => apply list_pop_length in H end;
  cbn [proxy_tok worker_tok from_option length] in *;
  unfold on, semsum, post_proxy_ready, post_cache_ready, take_proxy_ready, take_cache_ready,
    set_sems, set_data, set_datalen, set_is_last, set_total in *;
  repeat case_decide; cbn [sem_proxy_ready sem_cache_ready w_backlog w_queue set_backlog set_queue
    set_pool set_dproc crash_daemon close_my_fd] in *; rewrite ?length_app in *; cbn [length] in *;
  lia.

Section Steps.
Variable X : string.

Lemma proxy_step_tokens segsize e ps c w ps' c' w' :
  proxy_step segsize e ps c w = Some (ps', c', w') ->
  proxy_tok X ps' + length (w_backlog w') + length (w_queue w') + sems X w' <=
  proxy_tok X ps + length (w_backlog w) + length (w_queue w) + sems X w.
Proof. destruct ps; cbn [proxy_step]; intros H; repeat case_match; simplify_eq/=; tok_solve. Qed.

Lemma worker_step_tokens e ws w ws' w' :
  worker_step e ws w = Some (ws', w') ->
  worker_tok X ws' + length (w_backlog w') + length (w_queue w') + sems X w' <=
  worker_tok X ws + length (w_backlog w) + length (w_queue w) + sems X w.
Proof.
  destruct ws; cbn [worker_step]; intros H;
    [destruct (w_queue w) as [|t q] eqn:Eq; simplify_eq/=; rewrite ?Eq; tok_solve|..];
    repeat case_match; simplify_eq/=; tok_solve.
Qed.

Lemma boss_step_tokens e b w b' w' :
  boss_step e b w = Some (b', w') ->
  length (w_backlog w') + length (w_queue w') + sems X w' <=
  length (w_backlog w) + length (w_queue w) + sems X w.
Proof. destruct b; cbn [boss_step]; intros H; repeat case_match; simplify_eq/=; tok_solve. Qed.

End Steps.

(** ** The count along every interleaving *)

(** Replacing one element of a list changes the sum of a measure by the
    difference of the two measures. *)
Lemma sum_list_insert {A} (f : A -> nat) (l : list A) i x y :
  l !! i = Some y -> sum_list_with f (<[i := x]> l) + f y = sum_list_with f l + f x.
Proof.
  intros Hi. pose proof (take_drop_middle l i y Hi) as Heq.
  rewrite (insert_take_drop l i x) by (eapply lookup_lt_Some; eauto).
  assert (E : sum_list_with f l = sum_list_with f (take i l ++ y :: drop (S i) l))
    by (rewrite Heq; reflexivity).
  rewrite E, !sum_list_with_app. simpl. lia.
Qed.

Lemma sys_step_tokens X segsize e t s s' :
  sys_step segsize e t s = Some s' -> tokens X s' <= tokens X s.
Proof.
  unfold tokens. destruct t as [i|i|]; cbn [sys_step]; intros H; repeat case_match; simplify_eq/=.
  - rename select (s_proxies s !! i = Some _) into Hi.
    rename select (proxy_step _ _ _ _ _ = Some _) into Hs.
    pose proof (proxy_step_tokens X _ _ _ _ _ _ _ _ Hs).
    match type of Hs with
    | proxy_step _ _ ?ps ?c _ = Some (?ps', ?c', _) =>
        pose proof (sum_list_insert (fun pc => proxy_tok X pc.1) _ i (ps', c') (ps, c) Hi)
    end.
    simpl in *. lia.
  - rename select (s_workers s !! i = Some _) into Hi.
    rename select (worker_step _ _ _ = Some _) into Hs.
    pose proof (worker_step_tokens X _ _ _ _ _ Hs).
    match type of Hs with
    | worker_step _ ?ws _ = Some (?ws', _) => pose proof (sum_list_insert (worker_tok X) _ i ws' ws Hi)
    end. lia.
  - rename select (boss_step _ _ _ = Some _) into Hs.
    pose proof (boss_step_tokens X _ _ _ _ _ Hs). lia.
Qed.

Lemma rtc_tokens X segsize s0 s : rtc (step segsize) s0 s -> tokens X s <= tokens X s0.
Proof.
  induction 1 as [|x y z [e t ? ? Hxy] _ IH]; [lia|].
  pose proof (sys_step_tokens X _ _ _ _ _ Hxy). lia.
Qed.

(** A measure of one element is bounded by the sum over the list. *)
Lemma sum_list_with_lookup_le {A} (f : A -> nat) (l : list A) i x :
  l !! i = Some x -> f x <= sum_list_with f l.
Proof.
  revert i. induction l as [|y l IH]; intros [|i] Hi; simplify_eq/=; [lia|].
  specialize (IH i Hi). lia.
Qed.

Lemma sum_list_with_idle (ws : list wstate) X :
  Forall (eq WIdle) ws -> sum_list_with (worker_tok X) ws = 0.
Proof. induction 1 as [|? ? <- _ IH]; simpl; [reflexivity|exact IH]. Qed.

(** C37 (invariant: no interleaving creates a token).  Along any
    interleaving of the handlers, the workers and the boss, with any
    answers of the environment, the posts pending on the semaphores of a
    channel object [X], together with the threads that hold its turn or
    have a request for it under way and the messages and tasks in flight,
    never grow in number. *)
Theorem tokens_never_increase X segsize s0 s :
  rtc (step segsize) s0 s -> tokens X s <= tokens X s0.
Proof. exact (rtc_tokens X segsize s0 s). Qed.

(** C38 (safety: one chunk in flight during a request).  Started with
    one request handler about to serve a path, idle workers, no message
    or task in flight and no post pending on [X], every interleaving
    keeps at most one post pending on [X]'s two semaphores together, and
    the handler and a worker never hold [X]'s turn at the same time: the
    rendezvous of capacity one the spec describes, for one request. *)
Theorem one_chunk_in_flight X segsize s0 s path cl :
  s_proxies s0 = [(PStart path, cl)] -> Forall (eq WIdle) (s_workers s0) ->
  w_backlog (s_world s0) = [] -> w_queue (s_world s0) = [] -> sems X (s_world s0) = 0 ->
  rtc (step segsize) s0 s ->
  sems X (s_world s) <= 1 /\
  forall i j ps cl' ws, s_proxies s !! i = Some (ps, cl') -> s_workers s !! j = Some ws ->
    proxy_tok X ps + worker_tok X ws <= 1.
Proof.
  intros Hp Hw Hb Hq Hs Hr. pose proof (rtc_tokens X segsize s0 s Hr) as Ht.
  unfold tokens in Ht at 2. rewrite Hp, Hb, Hq, Hs, (sum_list_with_idle _ X Hw) in Ht.
  simpl in Ht. unfold tokens in Ht. split; [lia|].
  intros i j ps cl' ws Hi Hj.
  pose proof (sum_list_with_lookup_le (fun pc => proxy_tok X pc.1) _ i _ Hi).
  pose proof (sum_list_with_lookup_le (worker_tok X) _ j _ Hj). simpl in *. lia.
Qed.
