(* ===== verification/Termination.v ===== *)
(** * Every interleaving ends or spins on a failing [accept]

    [Transfer.transfer_terminates] runs one request under the cooperative
    schedule.  This file shows more: from any state of the system, with
    any number of request handlers ([src/cache/handle_with_cache.c]),
    workers and a boss ([src/cache/simplecached.c]), and whatever the
    scheduler picks and the system calls answer, no interleaving of
    steps that change the state is infinite.  The handler's connect loop
    is bounded by [MAX_RETRIES] (lines 44-56), the worker's read loop
    advances its offset by the bytes [pread] returns (lines 109-135), the
    boss consumes one message per turn of its accept loop, and each
    chunk the handler takes is one the worker posted.  The one loop of
    the code that can spin is the boss's: when [accept] fails (line
    250, [EMFILE] with a full descriptor table) it goes round without
    consuming anything; that step leaves the state as it is
    ([step_stutter], [boss_spins]), and [moves] is the step relation
    without it.

    The proof is a potential that every other step lowers: a handler's
    position in its code, a worker's position and the bytes its file has
    left past the offset, one unit per post pending on a
    [sem_proxy_ready], a weight per control message and task in flight
    that pays for the work they cause, and one unit while the daemon is
    up.  The weights depend on the longest file of the store, which no
    step changes. *)

From S2P Require Import Prelude Steque CLib ShmChannel ControlProtocol World.
From S2P Require Import CacheDaemon ProxyHandler System Tokens.

Local Open Scope Z_scope.

Import Worker Boss.

(** ** Measures on the namespace and on the store *)

(** The posts pending on [sem_proxy_ready] over every object of the
    namespace. *)
Definition spr_total (ns : shm_ns) : nat :=
  sum_list_with (fun kv => sem_proxy_ready (obj_pay kv.2)) (map_to_list ns).

(** The length of the longest file of the store. *)
Definition store_bound (st : gmap string (list byte)) : nat :=
  max_list_with (fun kv => length kv.2) (map_to_list st).

Lemma max_list_with_in {A} (f : A -> nat) (l : list A) x : x ∈ l -> (f x <= max_list_with f l)%nat.
Proof. induction 1; simpl; lia. Qed.

Lemma store_bound_le st k c : st !! k = Some c -> (length c <= store_bound st)%nat.
Proof.
  intros H. apply (max_list_with_in (fun kv : string * list byte => length kv.2) _ (k, c)).
  apply elem_of_map_to_list. exact H.
Qed.

Lemma spr_total_insert_delete ns n o :
  spr_total (<[n := o]> (delete n ns)) = (sem_proxy_ready (obj_pay o) + spr_total (delete n ns))%nat.
Proof.
  unfold spr_total. rewrite (map_to_list_insert (delete n ns) n o) by apply lookup_delete_eq.
  reflexivity.
Qed.

(** A write through a mapping changes the total by what it changes in
    the mapped payload. *)
Lemma spr_write f seg w :
  (spr_total (w_ns (write_seg f seg w)) + from_option sem_proxy_ready 0 (seg_payload w seg) =
   spr_total (w_ns w) + from_option (fun p => sem_proxy_ready (f p)) 0 (seg_payload w seg))%nat.
Proof.
  unfold write_seg, seg_payload. destruct (seg_addr seg) as [n|]; [|simpl; lia].
  cbn [w_ns set_ns]. unfold update_pay. destruct (w_ns w !! n) as [o|] eqn:E; simpl.
  - rewrite <- (insert_delete_id (w_ns w) n o E).
    rewrite alter_insert_eq, !spr_total_insert_delete. simpl. lia.
  - rewrite alter_id by congruence. lia.
Qed.

(** The bytes of [c] past the offset [off]. *)
Definition left_to_read (c : list byte) (off : Z) : nat := Z.to_nat (Z.of_nat (length c) - off).

(** A read that returns [k > 0] of the bytes [pread] asked for lowers
    what is left by [k]. *)
Lemma left_to_read_prefix t c off k :
  (0 < k <= length (pread_bytes t c off))%nat -> (left_to_read c (off + Z.of_nat k) + k)%nat = left_to_read c off.
Proof.
  intros Hk. unfold left_to_read.
  assert (Hle : (k <= length c - Z.to_nat off)%nat).
  { unfold pread_bytes in Hk. rewrite length_take, length_drop in Hk. lia. }
  destruct (Z.le_gt_cases 0 off) as [H0|H0];
    [|rewrite Z2Nat.nonpos in Hle by lia]; lia.
Qed.

Lemma left_to_read_pread t c off :
  let n := length (pread_bytes t c off) in
  n <> 0%nat -> (left_to_read c (off + Z.of_nat n) + n)%nat = left_to_read c off.
Proof. intros n Hn. apply (left_to_read_prefix t c off n). subst n. lia. Qed.

Lemma left_to_read_0 c : left_to_read c 0 = length c.
Proof. unfold left_to_read. rewrite Z.sub_0_r. apply Nat2Z.id. Qed.

(** ** The potential *)

Section Potential.
(** A bound on the length of every file of the store. *)
Variable L : nat.

(** What a control message in flight may still cost: a task, its
    worker's attach, lookup, and every chunk of a file of at most [L]
    bytes. *)
Definition msg_pot : nat := 11 * L + 14.

Definition ppot (ps : pstate) : nat :=
  match ps with
  | PStart _ => 10 + msg_pot + MAX_RETRIES
  | PConnect _ _ i => 9 + msg_pot + (MAX_RETRIES - i)
  | PWrite _ _ => 8 + msg_pot
  | PWaitFirst _ => 7
  | PFirst _ => 6
  | PBody _ _ => 5
  | PPost _ _ => 4
  | PCheckLast _ _ => 3
  | PWaitNext _ _ => 2
  | PRelease _ _ | PError _ => 1
  | PDone _ => 0
  end.

(** In the read loop the offset of [WSetLen] to [WCheckLast] is already
    past the chunk just read. *)
Definition wpot (ws : wstate) : nat :=
  match ws with
  | WIdle => 0
  | WAttach _ => 11 * L + 12
  | WGet _ _ => 11 * L + 11
  | WStat _ _ c => 11 * length c + 10
  | WRead _ _ c off => 11 * left_to_read c off + 9
  | WSetLen _ _ c off _ => 11 * left_to_read c off + 19
  | WSetLast _ _ c off _ => 11 * left_to_read c off + 18
  | WPost _ _ c off => 11 * left_to_read c off + 17
  | WWaitCache _ _ c off => 11 * left_to_read c off + 11
  | WCheckLast _ _ c off => 11 * left_to_read c off + 10
  | WZeroLen _ _ _ => 8
  | WZeroLast _ _ _ => 7
  | WZeroPost _ _ _ => 6
  end.

Definition bpot (b : bstate) : nat := match b with BStart => 1 | BServe => 0 end.

(** Messages and tasks in flight, posts pending, and the daemon alive. *)
Definition world_pot (w : world) : nat :=
  msg_pot * length (w_backlog w) + (msg_pot - 1) * length (w_queue w) +
  5 * spr_total (w_ns w) + (if w_daemon_up w then 1 else 0).

End Potential.

Definition potential (s : sys) : nat :=
  let L := store_bound (w_store (s_world s)) in
  (sum_list_with (fun pc => ppot L pc.1) (s_proxies s) + sum_list_with (wpot L) (s_workers s) +
   bpot (s_boss s) + world_pot L (s_world s))%nat.

(** ** Every step lowers the potential *)

(** Account for each write through a mapping with [spr_write]. *)
Ltac pot_write :=
  match goal with
  | |- context [spr_total (w_ns (write_seg ?f ?seg ?w))] =>
      let H := fresh "Hw" in
      pose proof (spr_write f seg w) as H;
      try (match goal with Hp : seg_payload w seg = Some _ |- _ => rewrite Hp in H end);
      try (match type of H with
           | context [seg_payload w seg] => destruct (seg_payload w seg); cbn [from_option] in H
           end);
      revert H; generalize (spr_total (w_ns (write_seg f seg w))); intros ? H
  end.

Ltac pot_solve :=
  unfold world_pot, close_my_fd in *;
  cbn [w_ns w_backlog w_queue w_daemon_up set_dproc set_pool set_queue set_backlog set_listening
    crash_daemon] in *; autorewrite with cache_simpl;
  repeat match goal with
  | H : w_daemon_up ?w = true |- context [w_daemon_up ?w] => rewrite H
  | H : w_backlog ?w = _ |- context [w_backlog ?w] => rewrite H
  | H : w_queue ?w = _ |- context [w_queue ?w] => rewrite H
  end;
  repeat pot_write; rewrite ?left_to_read_0;
  repeat match goal with H : steque_pop _ = Some _ |- _ => apply list_pop_length in H end;
  repeat match goal with H : (_ <? _)%nat = true |- _ => apply Nat.ltb_lt in H end;
  repeat match goal with H : (_ =? _)%nat = false |- _ => apply Nat.eqb_neq in H end;
  cbn [ppot wpot bpot from_option length] in *; unfold msg_pot, MAX_RETRIES in *;
  unfold post_proxy_ready, post_cache_ready, take_proxy_ready, take_cache_ready,
    set_sems, set_data, set_datalen, set_is_last, set_total in *;
  cbn [sem_proxy_ready] in *; rewrite ?length_app in *; cbn [length] in *; lia.

Lemma proxy_step_pot L segsize e ps c w ps' c' w' :
  proxy_step segsize e ps c w = Some (ps', c', w') ->
  (ppot L ps' + world_pot L w' < ppot L ps + world_pot L w)%nat.
Proof. destruct ps; cbn [proxy_step]; intros H; repeat case_match; simplify_eq/=; pot_solve. Qed.

Lemma worker_step_pot L e ws w ws' w' :
  (forall k c, w_store w !! k = Some c -> (length c <= L)%nat) ->
  worker_step e ws w = Some (ws', w') ->
  (wpot L ws' + world_pot L w' < wpot L ws + world_pot L w)%nat.
Proof.
  intros HL. destruct ws; cbn [worker_step]; intros H;
    [destruct (w_queue w) as [|t q] eqn:Eq; simplify_eq/=; pot_solve|..];
    repeat case_match; simplify_eq/=;
    repeat match goal with
    | Hs : simplecache_get _ _ = Some ?c |- _ => specialize (HL _ _ Hs)
    | Hlt : (length ?d <? length (pread_bytes ?t ?c ?o))%nat = true,
      Hz : (length ?d =? 0)%nat = false |- _ =>
        apply Nat.ltb_lt in Hlt; apply Nat.eqb_neq in Hz;
        pose proof (left_to_read_prefix t c o (length d) ltac:(lia))
    | Hn : (Z.of_nat (length (pread_bytes ?t ?c ?o)) =? 0) = false |- _ =>
        apply Z.eqb_neq in Hn; pose proof (left_to_read_pread t c o ltac:(lia))
    end; pot_solve.
Qed.

(** The boss's step lowers the potential, except its spin on a failing
    [accept], which changes nothing. *)
Lemma boss_step_pot L e b w b' w' :
  w_daemon_up w = true -> boss_step e b w = Some (b', w') ->
  (b' = b /\ w' = w /\ b = BServe /\ w_backlog w <> [] /\ accept_fails w = true) \/
  (bpot b' + world_pot L w' < bpot b + world_pot L w)%nat.
Proof.
  intros Hup. destruct b; cbn [boss_step]; intros H; repeat case_match; simplify_eq/=;
    first [left; repeat split; first [assumption | congruence] | right; pot_solve].
Qed.

Ltac store_solve :=
  repeat case_match; simplify_eq/=; unfold close_my_fd in *;
  cbn [set_dproc set_pool set_queue set_backlog set_listening crash_daemon w_store] in *;
  autorewrite with cache_simpl; reflexivity.

Lemma proxy_step_store segsize e ps c w ps' c' w' :
  proxy_step segsize e ps c w = Some (ps', c', w') -> w_store w' = w_store w.
Proof. destruct ps; cbn [proxy_step]; intros H; store_solve. Qed.

Lemma worker_step_store e ws w ws' w' : worker_step e ws w = Some (ws', w') -> w_store w' = w_store w.
Proof. destruct ws; cbn [worker_step]; intros H; store_solve. Qed.

Lemma boss_step_store e b w b' w' : boss_step e b w = Some (b', w') -> w_store w' = w_store w.
Proof. destruct b; cbn [boss_step]; intros H; store_solve. Qed.

(** The boss spinning on [accept]: the only step that leaves the system
    as it was. *)
Definition boss_spins (s : sys) : Prop :=
  s_boss s = BServe /\ w_backlog (s_world s) <> [] /\ accept_fails (s_world s) = true.

Lemma sys_step_pot segsize e t s s' :
  sys_step segsize e t s = Some s' -> (s' = s /\ boss_spins s) \/ (potential s' < potential s)%nat.
Proof.
  unfold potential, boss_spins. destruct t as [i|i|]; cbn [sys_step]; intros H; repeat case_match; simplify_eq/=.
  - rename select (s_proxies s !! i = Some _) into Hi.
    rename select (proxy_step _ _ _ _ _ = Some _) into Hs.
    rewrite (proxy_step_store _ _ _ _ _ _ _ _ Hs).
    pose proof (proxy_step_pot (store_bound (w_store (s_world s))) _ _ _ _ _ _ _ _ Hs).
    match type of Hs with
    | proxy_step _ _ ?ps ?c _ = Some (?ps', ?c', _) =>
        pose proof (sum_list_insert (fun pc => ppot (store_bound (w_store (s_world s))) pc.1)
                      _ i (ps', c') (ps, c) Hi)
    end. simpl in *. right. lia.
  - rename select (s_workers s !! i = Some _) into Hi.
    rename select (worker_step _ _ _ = Some _) into Hs.
    rewrite (worker_step_store _ _ _ _ _ Hs).
    pose proof (worker_step_pot (store_bound (w_store (s_world s))) _ _ _ _ _
                  (store_bound_le _) Hs).
    match type of Hs with
    | worker_step _ ?ws _ = Some (?ws', _) =>
        pose proof (sum_list_insert (wpot (store_bound (w_store (s_world s)))) _ i ws' ws Hi)
    end. right. lia.
  - rename select (boss_step _ _ _ = Some _) into Hs. rename select (w_daemon_up _ = true) into Hu.
    destruct (boss_step_pot (store_bound (w_store (s_world s))) _ _ _ _ _ Hu Hs)
      as [(-> & -> & Hb & Hbl & Ha)|Hlt].
    + left. destruct s; cbn in *. auto.
    + right. rewrite (boss_step_store _ _ _ _ _ Hs). lia.
Qed.

(** A step that changes the system. *)
Definition moves segsize (s s' : sys) : Prop := step segsize s s' /\ s' <> s.

Lemma step_pot segsize s s' : moves segsize s s' -> (potential s' < potential s)%nat.
Proof.
  intros [[e t ? ? H] Hne]. destruct (sys_step_pot _ _ _ _ _ H) as [[-> _]|Hlt]; [congruence|exact Hlt].
Qed.

Lemma step_stutter segsize s : step segsize s s -> boss_spins s.
Proof.
  intros Hs. inversion Hs as [e t ? ? H]; subst.
  destruct (sys_step_pot _ _ _ _ _ H) as [[_ Hb]|Hlt]; [exact Hb|lia].
Qed.

(** ** No infinite interleaving *)

(** A relation that lowers a measure in [nat] is strongly normalising. *)
Lemma sn_measure {A} (R : relation A) (f : A -> nat) :
  (forall x y, R x y -> (f y < f x)%nat) -> forall x, sn R x.
Proof.
  intros Hf x. remember (f x) as n eqn:E. revert x E.
  induction n as [n IH] using lt_wf_ind. intros x ->. constructor. intros y Hy.
  exact (IH (f y) (Hf x y Hy) y eq_refl).
Qed.

(** The same on the states of an invariant the relation keeps. *)
Lemma sn_measure_inv {A} (R : relation A) (f : A -> nat) (P : A -> Prop) :
  (forall x y, P x -> R x y -> P y /\ (f y < f x)%nat) -> forall x, P x -> sn R x.
Proof.
  intros Hf x. remember (f x) as n eqn:E. revert x E.
  induction n as [n IH] using lt_wf_ind. intros x -> Hx. constructor. intros y Hy.
  destruct (Hf x y Hx Hy) as [Hy' Hlt]. exact (IH (f y) Hlt y eq_refl Hy').
Qed.

(** ... and has no run longer than the measure of its start. *)
Lemma nsteps_measure {A} (R : relation A) (f : A -> nat) :
  (forall x y, R x y -> (f y < f x)%nat) -> forall n x y, nsteps R n x y -> (n <= f x)%nat.
Proof. intros Hf n x y H. induction H as [|n x y z Hxy _ IH]; [lia|]. pose proof (Hf x y Hxy). lia. Qed.

(** C30 (termination: no interleaving runs forever, but for the boss's
    spin).  From any state of the system, with any number of request
    handlers and workers and any answers of the environment, every
    interleaving makes finitely many steps that change the system: the
    relation of such steps is strongly normalising and no run of them
    is longer than [potential] of its start.  The connect loop gives up
    after [MAX_RETRIES], the read loop advances its offset, the boss
    consumes a message per accepted connection, and the handler only
    takes chunks a worker has posted.  The one step that changes
    nothing is the boss's turn of its accept loop when [accept] fails
    for want of a descriptor while a connection is pending (line 250):
    it can repeat forever. *)
Theorem interleavings_terminate segsize s :
  sn (moves segsize) s /\
  (forall n s', nsteps (moves segsize) n s s' -> (n <= potential s)%nat) /\
  (forall s1, step segsize s1 s1 -> boss_spins s1).
Proof.
  split; [exact (sn_measure _ potential (step_pot segsize) s)|split].
  - intros n s'. exact (nsteps_measure _ potential (step_pot segsize) n s s').
  - apply step_stutter.
Qed.
