(* ===== verification/Liveness.v ===== *)
(** * The handler always returns when the daemon's calls succeed

    The spec (section 5) warns that "an unmatched signal blocks the
    waiting side forever".  [Stalls] and [Lifecycle] show the ways a
    request handler of [src/cache/handle_with_cache.c] can wait forever:
    a failing call of the worker, a full descriptor table, a crash of
    the boss, a shutdown of the daemon.  This file shows that these are
    the only ones: for one request on a clean segment, along every
    interleaving in which the daemon's system calls succeed (the
    handler's own calls may fail or send short), the handler never
    waits forever.  Every state a run reaches either lets some thread
    move or has the handler returned; with [Termination] every run ends,
    so every run ends with the handler returned.

    The proof is an invariant by rule induction on the steps.  It
    follows the request: its control message in the socket, its task in
    the queue, then the one worker that took the task ([DWork]), and
    relates the handler's place in its code, the worker's stage (about
    to post [sem_proxy_ready], waiting on [sem_cache_ready], checking
    [is_last_chunk], or gone) and the two semaphores and the flag of
    the channel ([phase]).  The race of [Race] is among the states the
    invariant allows: the worker may run ahead of a handler that has
    posted [sem_cache_ready] and not yet read the flag, and what the
    handler then reads either ends its loop or leads it to a chunk the
    worker is about to post. *)

From S2P Require Import Prelude Steque CLib ShmChannel ControlProtocol World.
From S2P Require Import CacheDaemon ProxyHandler System Tokens Termination.

Local Open Scope Z_scope.

Import Worker Boss.

(** The daemon's system calls succeed: no [-1], no failing part of an
    attach.  The handler's calls are not restricted. *)
Definition daemon_call_ok (e : env) : Prop := is_fail e = false /\ env_fault e = NoFault.

Inductive ok_step (segsize : Z) : sys -> sys -> Prop :=
  | ok_proxy e i s s' : sys_step segsize e (TProxy i) s = Some s' -> ok_step segsize s s'
  | ok_daemon e t s s' :
      daemon_call_ok e -> (forall i, t <> TProxy i) -> sys_step segsize e t s = Some s' ->
      ok_step segsize s s'.

(** Where the request is on the daemon's side: not sent, its message in
    the socket, its task in the queue, or with worker [j] (which stays
    there once idle again). *)
Inductive dpos := DNone | DMsg | DTask | DWork (j : nat) (ws : wstate).

(** The stage of the worker that has the request. *)
Inductive stage := SNone | SPre | SWait | SCheck | SGone.

Definition stage_of (d : dpos) : stage :=
  match d with
  | DNone => SNone
  | DMsg | DTask => SPre
  | DWork _ WIdle => SGone
  | DWork _ (WWaitCache _ _ _ _) => SWait
  | DWork _ (WCheckLast _ _ _ _) => SCheck
  | DWork _ _ => SPre
  end.

(** The task and the segment a worker state holds. *)
Definition wtask (ws : wstate) : option task :=
  match ws with
  | WIdle => None
  | WAttach t | WGet t _ | WStat t _ _ | WRead t _ _ _ | WSetLen t _ _ _ _ | WSetLast t _ _ _ _
  | WPost t _ _ _ | WWaitCache t _ _ _ | WCheckLast t _ _ _ | WZeroLen t _ _ | WZeroLast t _ _
  | WZeroPost t _ _ => Some t
  end.

Definition wseg (ws : wstate) : option segment :=
  match ws with
  | WIdle | WAttach _ => None
  | WGet _ s | WStat _ s _ | WRead _ s _ _ | WSetLen _ s _ _ _ | WSetLast _ s _ _ _
  | WPost _ s _ _ | WWaitCache _ s _ _ | WCheckLast _ s _ _ | WZeroLen _ s _ | WZeroLast _ s _
  | WZeroPost _ s _ => Some s
  end.

Section Live.
Variables (segsize : Z) (X path : string) (pseg : segment).
Hypothesis Hname : shm_name pseg = X.
Hypothesis Haddr : seg_addr pseg = Some X.
Hypothesis Hreq : request_ok X path segsize.
Hypothesis Hsize : sizeof_payload < segsize.

Definition msg0 : string := format_request X path segsize.
Definition task0 : task := mkTask X path segsize.

Definition daemon_at (b : list string) (q : list task) (ws : list wstate) (d : dpos) : Prop :=
  match d with
  | DNone => b = [] /\ q = [] /\ Forall (eq WIdle) ws
  | DMsg => b = [msg0] /\ q = [] /\ Forall (eq WIdle) ws
  | DTask => b = [] /\ q = [task0] /\ Forall (eq WIdle) ws
  | DWork j wj => b = [] /\ q = [] /\ ws !! j = Some wj /\ Forall (eq WIdle) (<[j := WIdle]> ws)
  end.

(** Descriptors enough for the attach and the [dup] still to come. *)
Definition fd_ok (d : dpos) (n : nat) : Prop :=
  match d with
  | DNone | DMsg | DTask | DWork _ (WAttach _) => (n + 2 <= fd_limit)%nat
  | DWork _ (WGet _ _) => (n + 1 <= fd_limit)%nat
  | DWork _ _ => True
  end.

(** The worker works on the request's task through a mapping of [X];
    after its end-of-file or miss signal the flag is set. *)
Definition work_ok (d : dpos) (p : payload) : Prop :=
  match d with
  | DWork _ wj =>
      (forall t, wtask wj = Some t -> t = task0) /\
      (forall s, wseg wj = Some s -> seg_addr s = Some X) /\
      (match wj with WZeroPost _ _ _ => is_last_chunk p <> 0 | _ => True end)
  | _ => True
  end.

(** The handler serves [path] through [pseg], which heads the pool
    before it starts. *)
Definition ps_ok (ps : pstate) (pool : list segment) : Prop :=
  match ps with
  | PStart q => q = path /\ head pool = Some pseg
  | PConnect q s _ | PWrite q s => q = path /\ s = pseg
  | PWaitFirst s | PFirst s | PError s => s = pseg
  | PBody s _ | PPost s _ | PCheckLast s _ | PWaitNext s _ | PRelease s _ => s = pseg
  | PDone _ => True
  end.

(** The handler's place, the worker's stage, the semaphores and the flag. *)
Definition phase (ps : pstate) (st : stage) (p : payload) : Prop :=
  let spr := sem_proxy_ready p in
  let scr := sem_cache_ready p in
  let L := is_last_chunk p in
  match ps with
  | PStart _ | PConnect _ _ _ | PWrite _ _ =>
      match st with SNone => spr = 0%nat /\ scr = 0%nat | _ => False end
  | PWaitFirst _ | PWaitNext _ _ =>
      match st with
      | SPre => spr = 0%nat /\ scr = 0%nat
      | SCheck => spr = 0%nat /\ scr = 0%nat /\ L = 0
      | SWait => (spr = 1%nat /\ scr = 0%nat) \/ (spr = 0%nat /\ scr = 1%nat /\ L = 0)
      | SGone => spr = 1%nat /\ L <> 0
      | SNone => False
      end
  | PFirst _ | PBody _ _ | PPost _ _ =>
      match st with SWait => spr = 0%nat /\ scr = 0%nat | SGone => L <> 0 | _ => False end
  | PCheckLast _ _ =>
      match st with
      | SWait => (spr = 0%nat /\ scr = 1%nat) \/ (spr = 1%nat /\ scr = 0%nat)
      | SCheck | SPre => spr = 0%nat /\ scr = 0%nat
      | SGone => L <> 0
      | SNone => False
      end
  | PRelease _ _ | PError _ | PDone _ => True
  end.

Record inv (w : world) (ps : pstate) (ws : list wstate) (d : dpos) (p : payload) : Prop := {
  inv_daemon : daemon_at (w_backlog w) (w_queue w) ws d;
  inv_up : w_daemon_up w = true;
  inv_pay : seg_payload w pseg = Some p;
  inv_len : length (data p) = Z.to_nat (segsize - sizeof_payload);
  inv_fds : fd_ok d (open_fds (w_dproc w));
  inv_ps : ps_ok ps (w_pool w);
  inv_work : work_ok d p;
  inv_phase : phase ps (stage_of d) p;
  inv_workers : ws <> [];
}.

Definition INV (s : sys) : Prop :=
  exists ps cl d p, s_proxies s = [(ps, cl)] /\ inv (s_world s) ps (s_workers s) d p.


(** ** The handler's steps keep the invariant *)

(** A step that keeps the daemon's side and the flag, and moves the
    handler to a place the phase allows. *)
Lemma inv_update w w' ps ps' ws d p p' :
  inv w ps ws d p ->
  w_backlog w' = w_backlog w -> w_queue w' = w_queue w -> w_daemon_up w' = w_daemon_up w ->
  w_dproc w' = w_dproc w -> seg_payload w' pseg = Some p' ->
  length (data p') = length (data p) -> is_last_chunk p' = is_last_chunk p ->
  ps_ok ps' (w_pool w') -> phase ps' (stage_of d) p' -> inv w' ps' ws d p'.
Proof.
  intros [Hd Hup Hp Hlen Hfd Hps Hwk Hph Hne] Hb Hq Hu Hdp Hp' Hl HL Hps' Hph'.
  split; [rewrite Hb, Hq; exact Hd|congruence|exact Hp'|congruence|rewrite Hdp; exact Hfd
          |exact Hps'| |exact Hph'|exact Hne].
  destruct d as [| | |j wj]; try exact I. destruct Hwk as (? & ? & Hz).
  split; [assumption|]. split; [assumption|]. destruct wj; try exact I. rewrite HL. exact Hz.
Qed.

Lemma stage_none d : stage_of d = SNone -> d = DNone.
Proof. destruct d as [| | |j []]; simpl; congruence. Qed.

(** The phase after a step of the handler, from the phase before it. *)
Ltac phase_tac :=
  match goal with
  | |- phase _ ?st _ =>
      unfold phase, post_cache_ready, take_proxy_ready, set_sems in *; cbn [sem_proxy_ready
        sem_cache_ready is_last_chunk] in *;
      repeat match goal with H : (_ =? _)%nat = false |- _ => apply Nat.eqb_neq in H end;
      repeat match goal with H : (_ =? _) = true |- _ => apply Z.eqb_eq in H end;
      repeat match goal with H : (_ =? _) = false |- _ => apply Z.eqb_neq in H end;
      first [exact I | destruct st; lia]
  end.

Ltac upd_tac :=
  first
  [ eapply inv_update;
      [eassumption|autorewrite with cache_simpl; reflexivity..| |reflexivity|reflexivity| |];
      [eassumption|cbn; auto|phase_tac]
  | eapply inv_update;
      [eassumption|autorewrite with cache_simpl; reflexivity..| | | | |];
      [apply seg_payload_write; eassumption|reflexivity|reflexivity|cbn; auto|phase_tac] ].

Lemma proxy_inv w ps ws d p e cl ps' cl' w' :
  inv w ps ws d p -> proxy_step segsize e ps cl w = Some (ps', cl', w') ->
  exists d' p', inv w' ps' ws d' p'.
Proof.
  intros I H. pose proof (inv_ps _ _ _ _ _ I) as Hps. pose proof (inv_pay _ _ _ _ _ I) as Hp.
  pose proof (inv_phase _ _ _ _ _ I) as Hph.
  destruct ps; cbn [ps_ok] in Hps; destruct_and?; subst; cbn [proxy_step] in H;
    repeat case_match; simplify_eq/=;
    repeat match goal with H : match w_pool ?w with _ => _ end = _ |- _ =>
      destruct (w_pool w); simplify_eq/= end;
    try (eexists d, _; upd_tac).
  (* [PWrite]: the message goes into the socket. *)
  pose proof (inv_daemon _ _ _ _ _ I) as Hd. cbn [phase] in Hph.
  destruct (stage_of d) eqn:Hs; try contradiction. apply stage_none in Hs. subst d.
  destruct Hd as (Hb & Hq & Hw). exists DMsg, p. destruct I. split; cbn; auto.
  rewrite Hb, Hname. split; [reflexivity|split; assumption].
Qed.



(** ** The worker's steps keep the invariant *)

(** The chunk size of the request's task is the buffer of the segment. *)
Lemma max_chunk_task0 : max_chunk task0 = segsize - sizeof_payload.
Proof.
  destruct Hreq as (_ & _ & _ & _ & _ & _ & Hs). unfold max_chunk, task0. cbn [task_segment_size].
  rewrite sizeof_payload_val in *. apply size_sub_exact; unfold in_size_t, size_t_modulus, long_max in *; lia.
Qed.

Lemma pread_task0_le c off :
  (length (pread_bytes task0 c off) <= Z.to_nat (segsize - sizeof_payload))%nat.
Proof.
  unfold pread_bytes. rewrite max_chunk_task0, length_take. rewrite sizeof_payload_val in *. lia.
Qed.

(** With the object there, a free descriptor and a non-zero size, the
    worker's attach succeeds. *)
Lemma attach_task0 w p :
  seg_payload w pseg = Some p -> (open_fds (w_dproc w) < fd_limit)%nat ->
  shm_segment_attach NoFault X segsize (w_ns w) (w_dproc w) =
  mkSegRes 0 (mkSeg (strncpy_name X) segsize (Some X) (next_fd (w_dproc w))) (w_ns w)
    (proc_map (proc_open (w_dproc w))).
Proof.
  intros Hp Hfd. unfold seg_payload in Hp. rewrite Haddr in Hp. unfold shm_segment_attach.
  destruct (w_ns w !! X); [|discriminate].
  rewrite (proj2 (Nat.leb_gt _ _) Hfd). rewrite sizeof_payload_val in Hsize.
  rewrite (proj2 (Z.eqb_neq segsize 0)) by lia. reflexivity.
Qed.

(** A step of the worker [j] that has the request. *)
Lemma inv_wupdate w w' ps ws j wj wj' p p' :
  inv w ps ws (DWork j wj) p ->
  w_backlog w' = w_backlog w -> w_queue w' = w_queue w -> w_daemon_up w' = w_daemon_up w ->
  w_pool w' = w_pool w -> seg_payload w' pseg = Some p' -> length (data p') = length (data p) ->
  fd_ok (DWork j wj') (open_fds (w_dproc w')) -> work_ok (DWork j wj') p' ->
  phase ps (stage_of (DWork j wj')) p' -> inv w' ps (<[j := wj']> ws) (DWork j wj') p'.
Proof.
  intros [Hd Hup Hp Hlen Hfd Hps Hwk Hph Hne] Hb Hq Hu Hpl Hp' Hl Hfd' Hwk' Hph'.
  destruct Hd as (Hb0 & Hq0 & Hj & Hidle).
  split; [|congruence|exact Hp'|congruence|exact Hfd'|rewrite Hpl; exact Hps|exact Hwk'|exact Hph'|].
  - rewrite Hb, Hq. split; [exact Hb0|]. split; [exact Hq0|].
    rewrite list_lookup_insert_eq by (eapply lookup_lt_Some; eauto).
    split; [reflexivity|]. rewrite list_insert_insert_eq. exact Hidle.
  - intros E. apply (f_equal length) in E. rewrite length_insert in E. destruct ws; [contradiction|discriminate].
Qed.

(** Writes and reads through the worker's mapping of [X] are those
    through [pseg]. *)
Ltac to_pseg :=
  repeat match goal with
  | Hs : seg_addr ?s = Some X |- context [write_seg ?f ?s ?w] =>
      tryif unify s pseg then fail
      else rewrite (write_seg_addr f s pseg w) by congruence
  | Hs : seg_addr ?s = Some X, H : context [seg_payload ?w ?s] |- _ =>
      tryif unify s pseg then fail
      else rewrite (seg_payload_addr w s pseg) in H by congruence
  end.

Ltac wphase_tac :=
  unfold phase, post_proxy_ready, take_cache_ready, set_sems, set_is_last, set_datalen, set_data,
    set_total in *;
  cbn [stage_of sem_proxy_ready sem_cache_ready is_last_chunk] in *;
  repeat match goal with H : (_ =? _)%nat = false |- _ => apply Nat.eqb_neq in H end;
  repeat match goal with H : (_ =? _) = true |- _ => apply Z.eqb_eq in H end;
  repeat match goal with H : (_ =? _) = false |- _ => apply Z.eqb_neq in H end;
  match goal with |- match ?ps with _ => _ end => destruct ps end; first [exact I | lia | tauto].

Ltac wsimpl :=
  unfold close_my_fd; cbn [set_dproc set_queue w_backlog w_queue w_daemon_up w_pool w_dproc];
  autorewrite with cache_simpl.

Ltac wupd_tac :=
  eapply inv_wupdate;
  [eassumption
  |wsimpl; reflexivity..
  |wsimpl; first [apply seg_payload_write; eassumption|eassumption]
  |cbn; first [reflexivity | rewrite overwrite_prefix_length; [reflexivity|];
     match goal with |- (length (pread_bytes task0 ?c ?o) <= _)%nat =>
       pose proof (pread_task0_le c o); lia end]
  |wsimpl; cbn; first [exact I|lia]
  |cbn; split; [intros ? [= <-]; reflexivity|split; [intros ? [= <-]; first [assumption|reflexivity]|]];
   first [exact I|cbn; lia]
  |wphase_tac].

Lemma engaged_inv w ps ws j wj p e wj' w' :
  inv w ps ws (DWork j wj) p -> daemon_call_ok e -> worker_step e wj w = Some (wj', w') ->
  exists p', inv w' ps (<[j := wj']> ws) (DWork j wj') p'.
Proof.
  intros I [Hf He] H. pose proof I as [Hd Hup Hp Hlen Hfd Hps Hwk Hph Hne].
  destruct Hwk as (Ht & Hsg & Hz).
  destruct wj; cbn [wtask wseg] in *;
    repeat match goal with
    | H : forall x, Some ?y = Some x -> _ |- _ => specialize (H _ eq_refl)
    | H : ?t = task0 |- _ => subst t
    end; cbn [worker_step] in H; rewrite ?Hf in H; to_pseg.
  all: try (destruct Hd as (_ & Hq & _); rewrite Hq in H; discriminate).
  all: try (change (task_shm_name task0) with X in H; change (task_segment_size task0) with segsize in H;
            rewrite He, (attach_task0 w p Hp) in H by (cbn in Hfd; lia); cbn in H).
  all: try (rewrite (proj2 (Nat.leb_gt fd_limit (open_fds (w_dproc w)))) in H by (cbn in Hfd; lia)).
  all: repeat case_match; simplify_eq/=; to_pseg;
    repeat match goal with
    | H : seg_payload ?v pseg = Some ?x, H' : seg_payload ?v pseg = Some ?y |- _ =>
        tryif unify x y then fail else (rewrite H in H'; simplify_eq)
    end.
  all: try (match goal with H : (fd_limit <=? _)%nat = true |- _ =>
              apply Nat.leb_le in H; cbn in Hfd; lia end).
  all: try (match goal with H : (length (data _) <? length (pread_bytes task0 ?c ?o))%nat = true |- _ =>
              apply Nat.ltb_lt in H; pose proof (pread_task0_le c o); lia end).
  all: eexists; wupd_tac.
Qed.


Lemma idle_blocks e w : w_queue w = [] -> worker_step e WIdle w = None.
Proof. intros Hq. cbn [worker_step]. rewrite Hq. reflexivity. Qed.

Lemma idle_at (ws : list wstate) i wi : Forall (eq WIdle) ws -> ws !! i = Some wi -> wi = WIdle.
Proof. intros Hf Hi. symmetry. exact (Forall_lookup_1 _ _ _ _ Hf Hi). Qed.

Lemma worker_inv w ps ws d p e i wi wi' w' :
  inv w ps ws d p -> daemon_call_ok e -> ws !! i = Some wi -> worker_step e wi w = Some (wi', w') ->
  exists d' p', inv w' ps (<[i := wi']> ws) d' p'.
Proof.
  intros I He Hi H. pose proof (inv_daemon _ _ _ _ _ I) as Hd.
  destruct d as [| | |j wj]; cbn [daemon_at] in Hd.
  - destruct Hd as (_ & Hq & Hw). rewrite (idle_at _ _ _ Hw Hi), idle_blocks in H by exact Hq. discriminate.
  - destruct Hd as (_ & Hq & Hw). rewrite (idle_at _ _ _ Hw Hi), idle_blocks in H by exact Hq. discriminate.
  - destruct Hd as (Hb & Hq & Hw). pose proof (idle_at _ _ _ Hw Hi) as ->.
    cbn [worker_step] in H. rewrite Hq in H. cbn in H. simplify_eq.
    exists (DWork i (WAttach task0)), p. destruct I. split; cbn; auto.
    + split; [exact Hb|]. split; [reflexivity|].
      rewrite list_lookup_insert_eq by (eapply lookup_lt_Some; eauto).
      rewrite list_insert_insert_eq, list_insert_id by exact Hi. auto.
    + split; [intros ? [= <-]; reflexivity|]. split; [discriminate|exact I].
    + intros E. apply (f_equal length) in E. rewrite length_insert in E. destruct ws; [contradiction|discriminate].
  - destruct (decide (i = j)) as [->|Hij].
    + destruct Hd as (_ & _ & Hj & _). rewrite Hj in Hi. injection Hi as <-.
      destruct (engaged_inv _ _ _ _ _ _ _ _ _ I He H) as (p' & I'). eauto.
    + destruct Hd as (_ & Hq & _ & Hw).
      assert (Hi' : <[j := WIdle]> ws !! i = Some wi) by (rewrite list_lookup_insert_ne; auto).
      rewrite (idle_at _ _ _ Hw Hi'), idle_blocks in H by exact Hq. discriminate.
Qed.

(** ** The boss's steps keep the invariant *)

Lemma boss_inv w ps ws d p e b b' w' :
  inv w ps ws d p -> daemon_call_ok e -> boss_step e b w = Some (b', w') ->
  exists d' p', inv w' ps ws d' p'.
Proof.
  intros I [Hf _] H. destruct b; cbn [boss_step] in H; rewrite Hf in H.
  - injection H as <- <-. exists d, p. destruct I. split; auto.
  - destruct (w_backlog w) as [|m ms] eqn:Hb; [discriminate|].
    pose proof (inv_daemon _ _ _ _ _ I) as Hd.
    destruct d as [| | |j wj]; cbn [daemon_at] in Hd; destruct Hd as (Hb' & Hq & Hw); try congruence.
    rewrite Hb' in Hb. injection Hb as <- <-. unfold msg0 in H.
    rewrite (accept_ok w) in H by (pose proof (inv_fds _ _ _ _ _ I) as Hfd; cbn in Hfd; lia).
    rewrite (parse_request_line _ _ _ Hreq) in H. injection H as <- <-.
    exists DTask, p. destruct I. split; cbn; auto. rewrite Hq. auto.
Qed.


(** ** Every step of the system keeps the invariant *)

Lemma ok_step_inv s s' : INV s -> ok_step segsize s s' -> INV s'.
Proof.
  intros HI Hst. destruct Hst as [e i s s' H|e t s s' He Ht H];
    destruct HI as (ps & cl & d & p & Hs & I); destruct s as [w pl ws b];
    cbn [s_proxies s_world s_workers] in *; subst pl.
  - cbn [sys_step s_proxies] in H. destruct i as [|i]; [|destruct i; discriminate].
    cbn in H. destruct (proxy_step segsize e ps cl w) as [[[ps' cl'] w']|] eqn:E; [|discriminate].
    injection H as <-. destruct (proxy_inv _ _ _ _ _ _ _ _ _ _ I E) as (d' & p' & I').
    exists ps', cl', d', p'. split; [reflexivity|exact I'].
  - destruct t as [i|i|]; [destruct (Ht i eq_refl)| |]; cbn [sys_step s_world s_workers s_boss] in H;
      rewrite (inv_up _ _ _ _ _ I) in H.
    + destruct (ws !! i) as [wi|] eqn:Hi; [|discriminate].
      destruct (worker_step e wi w) as [[wi' w']|] eqn:E; [|discriminate]. injection H as <-.
      destruct (worker_inv _ _ _ _ _ _ _ _ _ _ I He Hi E) as (d' & p' & I').
      exists ps, cl, d', p'. split; [reflexivity|exact I'].
    + destruct (boss_step e b w) as [[b' w']|] eqn:E; [|discriminate]. injection H as <-.
      destruct (boss_inv _ _ _ _ _ _ _ _ _ I He E) as (d' & p' & I').
      exists ps, cl, d', p'. split; [reflexivity|exact I'].
Qed.

Lemma rtc_ok_inv s s' : INV s -> rtc (ok_step segsize) s s' -> INV s'.
Proof. intros H Hr. induction Hr as [|x y z Hxy _ IH]; [exact H|]. exact (IH (ok_step_inv _ _ H Hxy)). Qed.

(** ** In every state of the invariant some thread can move, unless the
    handler has returned *)

Definition daemon_moves (s : sys) : Prop :=
  exists t s', (forall i, t <> TProxy i) /\ sys_step segsize EOk t s = Some s'.

Lemma worker_step_some w ps ws j wj p :
  inv w ps ws (DWork j wj) p ->
  (stage_of (DWork j wj) = SPre \/ stage_of (DWork j wj) = SCheck \/
   (stage_of (DWork j wj) = SWait /\ sem_cache_ready p <> 0%nat)) ->
  exists wj' w', worker_step EOk wj w = Some (wj', w').
Proof.
  intros I Hst. destruct I as [Hd Hup Hp Hlen Hfd Hps Hwk Hph Hne].
  destruct Hd as (_ & Hq & Hj & _). destruct Hwk as (_ & Hsg & _).
  destruct wj; cbn [stage_of wseg] in *; try (destruct Hst as [?|[?|[? ?]]]; discriminate);
    cbn [worker_step];
    repeat match goal with H : forall x, Some ?y = Some x -> _ |- _ => specialize (H _ eq_refl) end;
    rewrite ?(seg_payload_addr w _ pseg) by congruence; rewrite ?Hp;
    repeat case_match; eauto.
  match goal with H : (sem_cache_ready p =? 0)%nat = true |- _ => apply Nat.eqb_eq in H end.
  destruct Hst as [?|[?|[_ Hc]]]; [discriminate..|contradiction].
Qed.

Lemma worker_moves w pl ws b j wj p ps :
  inv w ps ws (DWork j wj) p ->
  (stage_of (DWork j wj) = SPre \/ stage_of (DWork j wj) = SCheck \/
   (stage_of (DWork j wj) = SWait /\ sem_cache_ready p <> 0%nat)) ->
  daemon_moves (mkSys w pl ws b).
Proof.
  intros I Hst. destruct (worker_step_some _ _ _ _ _ _ I Hst) as (wj' & w' & E).
  destruct I as [Hd Hup]. destruct Hd as (_ & _ & Hj & _).
  exists (TWorker j). eexists. split; [discriminate|]. cbn [sys_step s_world s_workers].
  rewrite Hup, Hj, E. reflexivity.
Qed.


Definition waiting (ps : pstate) : Prop :=
  match ps with PWaitFirst _ | PWaitNext _ _ => True | _ => False end.

(** The handler moves, unless it has returned or waits on an empty
    [sem_proxy_ready]. *)
Lemma proxy_step_some w ps ws d p cl :
  inv w ps ws d p -> (forall n, ps <> PDone n) ->
  (exists ps' cl' w', proxy_step segsize EOk ps cl w = Some (ps', cl', w')) \/
  (waiting ps /\ sem_proxy_ready p = 0%nat).
Proof.
  intros I Hd. pose proof (inv_pay _ _ _ _ _ I) as Hp. pose proof (inv_ps _ _ _ _ _ I) as Hps.
  destruct ps; cbn [ps_ok] in Hps; destruct_and?; subst; cbn [proxy_step is_fail];
    rewrite ?Hp; try (left; repeat case_match; eauto; fail).
  - destruct (w_pool w); cbn in *; simplify_eq. left. eauto.
  - destruct (sem_proxy_ready p =? 0)%nat eqn:E; [right; split; [exact Logic.I|apply Nat.eqb_eq, E]|left; eauto].
  - destruct (sem_proxy_ready p =? 0)%nat eqn:E; [right; split; [exact Logic.I|apply Nat.eqb_eq, E]|left; eauto].
  - destruct (Hd ret eq_refl).
Qed.

Lemma daemon_moves_ok s : daemon_moves s -> exists s', ok_step segsize s s'.
Proof.
  intros (t & s' & Ht & H). exists s'. apply (ok_daemon _ EOk t); [split; reflexivity|exact Ht|exact H].
Qed.

Lemma inv_progress s : INV s -> (forall n cl, s_proxies s <> [(PDone n, cl)]) -> exists s', ok_step segsize s s'.
Proof.
  intros (ps & cl & d & p & Hs & I) Hnd. destruct s as [w pl ws b]; cbn [s_proxies s_world s_workers] in *.
  subst pl. destruct (proxy_step_some _ _ _ _ _ cl I) as [(ps' & cl' & w' & E)|[Hw H0]].
  { intros n ->. exact (Hnd n cl eq_refl). }
  { exists (mkSys w' [(ps', cl')] ws b). apply (ok_proxy _ EOk 0). cbn. rewrite E. reflexivity. }
  apply daemon_moves_ok. pose proof (inv_phase _ _ _ _ _ I) as Hph.
  destruct ps; try contradiction; cbn [phase] in Hph; rewrite H0 in Hph.
  all: destruct d as [| | |j wj] eqn:Ed; [contradiction| | |].
  all: try (destruct I as [[Hb [Hq Hi]] Hup _ _ Hfd]; exists TBoss; destruct b; eexists; split; [discriminate| |discriminate|];
            cbn [sys_step s_world s_boss]; rewrite Hup; cbn [boss_step];
            rewrite ?Hb, ?(accept_ok w) by (cbn in Hfd; lia);
            unfold msg0; rewrite ?(parse_request_line _ _ _ Hreq); reflexivity).
  all: try (destruct I as [[Hb [Hq Hi]] Hup _ _ _ _ _ _ Hne]; destruct ws as [|w0 ws']; [contradiction|];
            exists (TWorker 0); eexists; split; [discriminate|];
            cbn [sys_step s_world s_workers]; rewrite Hup; cbn;
            rewrite <- (Forall_inv Hi); cbn [worker_step]; rewrite Hq; reflexivity).
  all: apply (worker_moves _ _ _ _ j wj p _ I).
  all: destruct (stage_of (DWork j wj)); intuition lia.
Qed.


(** ** Every run ends, and ends with the handler returned *)

Lemma ok_step_step s s' : ok_step segsize s s' -> step segsize s s'.
Proof. intros [e i ? ? H|e t ? ? _ _ H]; econstructor; exact H. Qed.

(** Under the invariant the boss has a descriptor for [accept] whenever
    a connection is pending: it never spins. *)
Lemma inv_no_spin s : INV s -> ~ boss_spins s.
Proof.
  intros (ps & cl & d & p & _ & I) (_ & Hbl & Ha). destruct I as [Hd _ _ _ Hfd].
  destruct d as [| | |j wj]; cbn [daemon_at] in Hd; destruct Hd as (Hb & _); try congruence.
  rewrite (accept_ok _) in Ha; [discriminate|]. cbn in Hfd. lia.
Qed.

Lemma init_inv w0 rest cl ws b p0 :
  w_pool w0 = pseg :: rest -> seg_payload w0 pseg = Some p0 ->
  sem_proxy_ready p0 = 0%nat -> sem_cache_ready p0 = 0%nat ->
  length (data p0) = Z.to_nat (segsize - sizeof_payload) ->
  w_backlog w0 = [] -> w_queue w0 = [] -> w_daemon_up w0 = true ->
  (open_fds (w_dproc w0) + 2 <= fd_limit)%nat -> ws <> [] -> Forall (eq WIdle) ws ->
  INV (mkSys w0 [(PStart path, cl)] ws b).
Proof.
  intros Hpool Hp Hpr Hcr Hlen Hb Hq Hup Hfd Hne Hidle.
  exists (PStart path), cl, DNone, p0. split; [reflexivity|].
  split; cbn; auto. rewrite Hpool. auto.
Qed.

(** C27 (liveness: the handler always returns when the daemon's calls
    succeed).  Take one request for [path] on a clean segment [pseg] at
    the head of the pool ([sem_proxy_ready] and [sem_cache_ready] at 0,
    a buffer of the agreed size), a request line that crosses the
    socket intact, no message or task in flight, idle workers, a daemon
    that is up (its boss listening or about to) with two descriptors to
    spare, and any store.  Consider the interleavings of the handler,
    the workers and the boss in which the daemon's system calls succeed
    (the handler's may fail or send short, the order is arbitrary).
    None of them is infinite, and every one that cannot go on has the
    handler returned: a hit, a miss, an empty file, a failing send and
    the race on [is_last_chunk] all end with [handle_with_cache]
    returning, and the handler waits forever only on a failure of the
    daemon ([Stalls], [Lifecycle]). *)
Theorem handler_always_returns w0 rest cl ws b p0 :
  w_pool w0 = pseg :: rest -> seg_payload w0 pseg = Some p0 ->
  sem_proxy_ready p0 = 0%nat -> sem_cache_ready p0 = 0%nat ->
  length (data p0) = Z.to_nat (segsize - sizeof_payload) ->
  w_backlog w0 = [] -> w_queue w0 = [] -> w_daemon_up w0 = true ->
  (open_fds (w_dproc w0) + 2 <= fd_limit)%nat -> ws <> [] -> Forall (eq WIdle) ws ->
  sn (ok_step segsize) (mkSys w0 [(PStart path, cl)] ws b) /\
  forall s, rtc (ok_step segsize) (mkSys w0 [(PStart path, cl)] ws b) s ->
    (forall s', ~ ok_step segsize s s') -> exists n cl', s_proxies s = [(PDone n, cl')].
Proof.
  intros Hpool Hp Hpr Hcr Hlen Hb Hq Hup Hfd Hne Hidle.
  pose proof (init_inv w0 rest cl ws b p0 Hpool Hp Hpr Hcr Hlen Hb Hq Hup Hfd Hne Hidle) as I0.
  split.
  - apply (sn_measure_inv _ potential INV); [|exact I0]. intros x y Hx H.
    split; [exact (ok_step_inv _ _ Hx H)|]. apply (step_pot segsize). split; [exact (ok_step_step _ _ H)|].
    intros ->. exact (inv_no_spin x Hx (step_stutter _ _ (ok_step_step _ _ H))).
  - intros s Hr Hstuck. pose proof (rtc_ok_inv _ _ I0 Hr) as HI.
    destruct HI as (ps & cl' & d & p & Hs & I) eqn:E. clear E.
    destruct ps; try (exists ret, cl'; exact Hs).
    all: exfalso; destruct (inv_progress s HI) as (s' & Hs'); [rewrite Hs; intros ? ? [=]|exact (Hstuck s' Hs')].
Qed.

End Live.
