(* ===== verification/Config.v ===== *)
(** * Start-up configuration of the two programs

    [Simplecached] is the option handling of the daemon's [main]
    ([src/cache/simplecached.c], lines 165-208) and the start of its
    threads (lines 218-228); [Webproxy] is the option handling of the
    front end's [main] ([src/server/webproxy.c], lines 37-97).  [getopt_long]
    is a library function: its successive return values (an option
    character, or ['?'] for an unknown option) with their arguments are
    the input; after the list it returns [-1].  Each program either
    exits with a code ([exit (__LINE__)] is the line of the call) or runs
    with the configuration it computed.  The daemon stores the return
    value of [getopt_long] in a [char] and compares it with [-1], so its
    behaviour depends on whether [char] is signed. *)

From S2P Require Import Prelude Steque CLib ShmChannel ControlProtocol World.
From S2P Require Import CacheDaemon ProxyHandler System.
From Stdlib Require Import Ascii String.

Local Open Scope Z_scope.

Import Worker Boss.

Inductive outcome (A : Type) := Exit (code : Z) | Run (cfg : A).
Arguments Exit {A} code.
Arguments Run {A} cfg.

(** The signals both programs catch ([signal.h] on Linux). *)
Definition SIGINT : Z := 2.
Definition SIGTERM : Z := 15.

(** The value of an option character. *)
Definition opt (c : ascii) : Z := Z.of_nat (nat_of_ascii c).

Module Simplecached.

Record daemon_config := mkDaemonConfig {
  nthreads : Z;
  cachedir : string;
  cache_delay : Z;   (** the global [unsigned long cache_delay] *)
}.

(** [int nthreads = 8; char *cachedir = "locals.txt";] and the global
    [cache_delay], zero. *)
Definition daemon_config0 : daemon_config := mkDaemonConfig 8 "locals.txt" 0.

(** [option_char = getopt_long (...)] stored in a [char]. *)
Definition char_of_int (signed_char : bool) (c : Z) : Z :=
  if signed_char then to_schar c else to_uchar c.

(** The [while] loop of lines 175-198. *)
Fixpoint daemon_parse_options (sc : bool) (outs : list (Z * string)) (cfg : daemon_config)
    : outcome daemon_config :=
  match outs with
  | [] => if char_of_int sc (-1) =? -1 then Run cfg else Exit 1
  | (c, arg) :: rest =>
      let ch := char_of_int sc c in
      if ch =? -1 then Run cfg
      else if ch =? opt "t" then
        daemon_parse_options sc rest (mkDaemonConfig (atoi arg) (cachedir cfg) (cache_delay cfg))
      else if ch =? opt "h" then Exit 0
      else if ch =? opt "c" then
        daemon_parse_options sc rest (mkDaemonConfig (nthreads cfg) arg (cache_delay cfg))
      else if ch =? opt "d" then
        daemon_parse_options sc rest (mkDaemonConfig (nthreads cfg) (cachedir cfg) (to_ulong (atoi arg)))
      else if (ch =? opt "i") || (ch =? opt "o") || (ch =? opt "a") then
        daemon_parse_options sc rest cfg
      else Exit 1
  end.

(** The range checks of lines 200-208. *)
Definition daemon_check (cfg : daemon_config) : outcome daemon_config :=
  if 2500000 <? cache_delay cfg then Exit 202
  else if (100 <? nthreads cfg) || (nthreads cfg <? 1) then Exit 207
  else Run cfg.

Definition daemon_main (sc : bool) (outs : list (Z * string)) : outcome daemon_config :=
  match daemon_parse_options sc outs daemon_config0 with
  | Run cfg => daemon_check cfg
  | Exit n => Exit n
  end.

(** [simplecache_init (cachedir)] (line 218): the content store, whose
    code is not in the repository, loads the files that the index
    [cachedir] names.  Its contract (spec section 6: a key resolves to
    contents or to a miss) is the loader [load], a map from keys to
    contents for each index. *)
Definition simplecache_init (load : string -> gmap string (list byte)) (dir : string) (w : world) : world :=
  mkWorld (w_ns w) (w_pool w) (w_backlog w) (w_listening w) (w_queue w) (w_dproc w) (load dir)
    (w_daemon_up w).

(** Lines 218-228: the store loaded from [cachedir], [steque_init] (an
    empty task queue), then [nthreads] detached workers, idle; the boss
    is about to bind its socket and there is no request handler yet. *)
Definition daemon_start (load : string -> gmap string (list byte)) (cfg : daemon_config) (w : world) : sys :=
  mkSys (set_queue [] (simplecache_init load (cachedir cfg) w)) [] (repeat WIdle (Z.to_nat (nthreads cfg)))
    BStart.

End Simplecached.

Module Webproxy.

Record proxy_config := mkProxyConfig {
  port : Z;              (** [unsigned short] *)
  nworkerthreads : Z;    (** [unsigned short] *)
  server : option string;
}.

Definition proxy_config0 : proxy_config :=
  mkProxyConfig 16642 8 (Some "https://raw.githubusercontent.com/gt-cs6200/image_data").

(** The [while] loop of lines 58-82; [option_char] is an [int]. *)
Fixpoint proxy_parse_options (outs : list (Z * string)) (cfg : proxy_config)
    : outcome proxy_config :=
  match outs with
  | [] => Run cfg
  | (c, arg) :: rest =>
      if c =? -1 then Run cfg
      else if (c =? opt "a") || (c =? opt "d") || (c =? opt "L") || (c =? opt "u") then
        proxy_parse_options rest cfg
      else if c =? opt "p" then
        proxy_parse_options rest (mkProxyConfig (to_ushort (atoi arg)) (nworkerthreads cfg) (server cfg))
      else if c =? opt "s" then
        proxy_parse_options rest (mkProxyConfig (port cfg) (nworkerthreads cfg) (Some arg))
      else if c =? opt "t" then
        proxy_parse_options rest (mkProxyConfig (port cfg) (to_ushort (atoi arg)) (server cfg))
      else if c =? opt "h" then Exit 0
      else Exit 1
  end.

(** The checks of lines 84-97. *)
Definition proxy_check (cfg : proxy_config) : outcome proxy_config :=
  match server cfg with
  | None => Exit 86
  | Some _ =>
      if 61286 <? port cfg then Exit 91
      else if (nworkerthreads cfg <? 1) || (80 <? nworkerthreads cfg) then Exit 96
      else Run cfg
  end.

Definition proxy_main (outs : list (Z * string)) : outcome proxy_config :=
  match proxy_parse_options outs proxy_config0 with
  | Run cfg => proxy_check cfg
  | Exit n => Exit n
  end.

End Webproxy.

(** ** The configurations the programs run with *)

Module SimplecachedFacts.
Import Simplecached.

Lemma to_ulong_nonneg z : 0 <= to_ulong z.
Proof. unfold to_ulong. apply Z.mod_pos_bound. lia. Qed.

(** The loop leaves [cache_delay] a value of [unsigned long]. *)
Lemma daemon_parse_delay sc outs : forall cfg cfg',
  0 <= cache_delay cfg -> daemon_parse_options sc outs cfg = Run cfg' -> 0 <= cache_delay cfg'.
Proof.
  induction outs as [|[c arg] outs IH]; intros cfg cfg' H0 H; simpl in H;
    repeat case_match; simplify_eq; auto; (eapply IH; [|exact H]); simpl; auto using to_ulong_nonneg.
Qed.

(** Whatever its command line, the daemon runs only with 1 to 100 worker threads and a delay
    of at most 2500000 microseconds: a negative [-d] wraps to a huge
    [unsigned long] and is refused. *)
Lemma daemon_main_bounds sc outs cfg :
  daemon_main sc outs = Run cfg ->
  1 <= nthreads cfg <= 100 /\ 0 <= cache_delay cfg <= 2500000.
Proof.
  unfold daemon_main. destruct (daemon_parse_options sc outs daemon_config0) as [n|c] eqn:E;
    [discriminate|].
  pose proof (daemon_parse_delay sc outs daemon_config0 c ltac:(simpl; lia) E) as Hd.
  unfold daemon_check. destruct (Z.ltb_spec 2500000 (cache_delay c)); [discriminate|].
  destruct (Z.ltb_spec 100 (nthreads c)), (Z.ltb_spec (nthreads c) 1); simpl; intros Hr;
    try discriminate. injection Hr as <-. lia.
Qed.

Lemma to_uchar_not_eof c : to_uchar c <> -1.
Proof. unfold to_uchar. pose proof (Z.mod_pos_bound c (2 ^ 8)). lia. Qed.

Lemma daemon_parse_unsigned outs : forall cfg,
  exists code, daemon_parse_options false outs cfg = Exit code /\ (code = 0 \/ code = 1).
Proof.
  induction outs as [|[c arg] outs IH]; intros cfg; simpl.
  - eexists. split; [reflexivity|right; reflexivity].
  - destruct (Z.eqb_spec (to_uchar c) (-1)) as [He|_]; [exfalso; exact (to_uchar_not_eof c He)|].
    repeat case_match; eauto.
Qed.

(** C29 (code bug on an ABI with an unsigned [char]).  [option_char] is a
    [char]: where [char] is unsigned, the [-1] that [getopt_long]
    returns at the end of the options becomes 255, the loop goes on and
    the [default] case exits with 1 (or [-h] with 0): the daemon never
    starts, whatever its command line. *)
Theorem daemon_unsigned_char_exits outs :
  exists code, daemon_main false outs = Exit code /\ (code = 0 \/ code = 1).
Proof.
  unfold daemon_main. destruct (daemon_parse_unsigned outs daemon_config0) as (code & -> & H).
  eauto.
Qed.

End SimplecachedFacts.

Module WebproxyFacts.
Import Webproxy.

Lemma to_ushort_range z : 0 <= to_ushort z < 2 ^ 16.
Proof. unfold to_ushort. apply Z.mod_pos_bound. lia. Qed.

Lemma proxy_parse_port outs : forall cfg cfg',
  0 <= port cfg -> proxy_parse_options outs cfg = Run cfg' -> 0 <= port cfg'.
Proof.
  induction outs as [|[c arg] outs IH]; intros cfg cfg' H0 H; simpl in H;
    repeat case_match; simplify_eq; auto; (eapply IH; [|exact H]); simpl; auto;
    apply to_ushort_range.
Qed.

(** Bounds of the front end's configuration.  The front end runs only
    with a port of at most 61286, 1 to 80 worker threads and a server. *)
Theorem proxy_main_bounds outs cfg :
  proxy_main outs = Run cfg ->
  0 <= port cfg <= 61286 /\ 1 <= nworkerthreads cfg <= 80 /\ server cfg <> None.
Proof.
  unfold proxy_main. destruct (proxy_parse_options outs proxy_config0) as [n|c] eqn:E; [discriminate|].
  pose proof (proxy_parse_port outs proxy_config0 c ltac:(simpl; lia) E) as Hp.
  unfold proxy_check. destruct (server c) as [s|] eqn:Hs; [|discriminate].
  destruct (Z.ltb_spec 61286 (port c)); [discriminate|].
  destruct (Z.ltb_spec (nworkerthreads c) 1), (Z.ltb_spec 80 (nworkerthreads c)); simpl; intros Hr;
    try discriminate. injection Hr as <-. rewrite Hs. split; [lia|split; [lia|discriminate]].
Qed.

Lemma proxy_main_bounds_witness :
  0 <= port (mkProxyConfig 8080 8 (server proxy_config0)) <= 61286 /\
  1 <= nworkerthreads (mkProxyConfig 8080 8 (server proxy_config0)) <= 80 /\
  server (mkProxyConfig 8080 8 (server proxy_config0)) <> None.
Proof. apply (proxy_main_bounds [(opt "p", "8080")]). vm_compute. reflexivity. Defined.

(** C32 (spec divergence: out-of-range options wrap).  [port] and
    [nworkerthreads] are [unsigned short]: any [-p p] and [-t t] whose
    values fit an [int] are stored modulo [2^16] before the range checks,
    so a port or a thread count of [2^16] or more whose low 16 bits are
    in range is accepted as that other value ([-p 70000] runs on port
    4464, [-t 65537] with one thread) where the checks were meant to
    refuse it. *)
Theorem proxy_options_wrap p t :
  0 <= p < 2 ^ 31 -> 0 <= t < 2 ^ 31 -> to_ushort p <= 61286 -> 1 <= to_ushort t <= 80 ->
  proxy_main [(opt "p", dec_Z p); (opt "t", dec_Z t)] =
    Run (mkProxyConfig (to_ushort p) (to_ushort t) (server proxy_config0)).
Proof.
  intros Hp Ht Hpr Htr. unfold proxy_main, proxy_parse_options, proxy_config0.
  rewrite !atoi_dec_Z by assumption.
  replace (opt "p") with 112 by reflexivity. replace (opt "t") with 116 by reflexivity.
  replace (opt "a") with 97 by reflexivity. replace (opt "d") with 100 by reflexivity.
  replace (opt "L") with 76 by reflexivity. replace (opt "u") with 117 by reflexivity.
  replace (opt "s") with 115 by reflexivity. cbn [Z.eqb Pos.eqb orb port nworkerthreads server]. unfold proxy_check. cbn [server port nworkerthreads].
  rewrite (proj2 (Z.ltb_ge _ _) Hpr), (proj2 (Z.ltb_ge _ _) (proj1 Htr)), (proj2 (Z.ltb_ge _ _) (proj2 Htr)).
  reflexivity.
Qed.

Lemma proxy_options_wrap_witness :
  (0 <= 70000 < 2 ^ 31 /\ 0 <= 65537 < 2 ^ 31 /\ to_ushort 70000 <= 61286 /\ 1 <= to_ushort 65537 <= 80) /\
  proxy_main [(opt "p", dec_Z 70000); (opt "t", dec_Z 65537)] =
    Run (mkProxyConfig (to_ushort 70000) (to_ushort 65537) (server proxy_config0)).
Proof.
  assert (H : 0 <= 70000 < 2 ^ 31 /\ 0 <= 65537 < 2 ^ 31 /\ to_ushort 70000 <= 61286 /\
              1 <= to_ushort 65537 <= 80)
    by (repeat split; first [apply Z.leb_le | apply Z.ltb_lt]; vm_compute; reflexivity).
  split; [exact H|]. destruct H as (A & B & C & D). exact (proxy_options_wrap 70000 65537 A B C D).
Defined.

End WebproxyFacts.
