(* ===== verification/Options.v ===== *)
(** * Command lines: [getopt_long] and the two option tables

    Both programs read their options with [getopt_long] from an option
    string and a table [gLongOptions] of [struct option]
    ([src/cache/simplecached.c] lines 151-158 and 175,
    [src/server/webproxy.c] lines 14-20 and 58).  [Config] takes the
    values [getopt_long] returns as its input; this file computes them
    from [argv].  [getopt_long] is glibc's ([posix/getopt.c]), not
    repository code: it is modelled as documented, with the default
    ordering (no [POSIXLY_CORRECT]: operands are skipped and scanning
    goes on), [opterr] set (its messages are output only) and an option
    string that does not start with [':'] (a missing argument returns
    ['?']).  A long option matches its exact name or, failing that, an
    abbreviation that selects one entry, or several that agree on
    [has_arg] and [val]; every [flag] of both tables is [NULL]. *)

From S2P Require Import Prelude CLib Config.
From Stdlib Require Import Ascii String.

Local Open Scope Z_scope.

(** [has_arg] of [struct option] ([getopt.h]). *)
Inductive has_arg := no_argument | required_argument | optional_argument.

#[export] Instance has_arg_eq_dec : EqDecision has_arg.
Proof. solve_decision. Defined.

(** [struct option] with [flag = NULL]: [getopt_long] returns [val]. *)
Record long_option := mkLongOption { lo_name : string; lo_has_arg : has_arg; lo_val : Z }.

(** ** [getopt_long] *)

(** What the option string says of the character [c]: [None] when it is
    not an option ([strchr] finds it nowhere, or it is [':']). *)
Fixpoint short_kind (os : string) (c : ascii) : option has_arg :=
  match os with
  | EmptyString => None
  | String d rest =>
      if Ascii.eqb d c && negb (Ascii.eqb d ":") then
        Some match rest with
             | String e (String f _) =>
                 if Ascii.eqb e ":" then (if Ascii.eqb f ":" then optional_argument else required_argument)
                 else no_argument
             | String e EmptyString => if Ascii.eqb e ":" then required_argument else no_argument
             | EmptyString => no_argument
             end
      else short_kind rest c
  end.

(** The ['?'] [getopt_long] returns on an error. *)
Definition opt_err : Z := opt "?".

(** The options of one cluster ["-abc"] after the dash, given the next
    element of [argv]: the values returned and whether that next element
    was taken as an argument.  An option that takes an argument takes
    the rest of the cluster, or else the next element. *)
Fixpoint short_cluster (os : string) (cs : string) (next : option string)
    : list (Z * string) * bool :=
  match cs with
  | EmptyString => ([], false)
  | String c cs' =>
      match short_kind os c with
      | None => let '(o, u) := short_cluster os cs' next in ((opt_err, EmptyString) :: o, u)
      | Some no_argument => let '(o, u) := short_cluster os cs' next in ((opt c, EmptyString) :: o, u)
      | Some required_argument =>
          match cs' with
          | EmptyString =>
              match next with
              | Some v => ([(opt c, v)], true)
              | None => ([(opt_err, EmptyString)], false)
              end
          | _ => ([(opt c, cs')], false)
          end
      | Some optional_argument => ([(opt c, cs')], false)
      end
  end.

(** ["name=value"] cut at its first ['=']. *)
Fixpoint split_eq (s : string) : string * option string :=
  match s with
  | EmptyString => (EmptyString, None)
  | String c s' =>
      if Ascii.eqb c "=" then (EmptyString, Some s')
      else let '(n, v) := split_eq s' in (String c n, v)
  end.

Inductive long_match := LFound (o : long_option) | LMissing | LAmbiguous.

(** The entry a long name selects: the first entry of that exact name,
    or the abbreviated ones, which must agree. *)
Definition find_long (lopts : list long_option) (name : string) : long_match :=
  match List.find (fun o => String.eqb (lo_name o) name) lopts with
  | Some o => LFound o
  | None =>
      match List.filter (fun o => String.prefix name (lo_name o)) lopts with
      | [] => LMissing
      | o :: os =>
          if forallb (fun o' => bool_decide (lo_has_arg o' = lo_has_arg o) && (lo_val o' =? lo_val o)) os
          then LFound o else LAmbiguous
      end
  end.

(** One ["--name"] or ["--name=value"] element. *)
Definition long_step (lopts : list long_option) (body : string) (next : option string)
    : list (Z * string) * bool :=
  let '(name, value) := split_eq body in
  match find_long lopts name with
  | LFound o =>
      match lo_has_arg o, value with
      | no_argument, Some _ => ([(opt_err, EmptyString)], false)
      | no_argument, None => ([(lo_val o, EmptyString)], false)
      | required_argument, Some v => ([(lo_val o, v)], false)
      | required_argument, None =>
          match next with
          | Some v => ([(lo_val o, v)], true)
          | None => ([(opt_err, EmptyString)], false)
          end
      | optional_argument, v => ([(lo_val o, default EmptyString v)], false)
      end
  | _ => ([(opt_err, EmptyString)], false)
  end.

(** An element of [argv]: an operand (["-"] is one), the end of the
    options ["--"], a long option, or a cluster of short options. *)
Inductive arg_class := Operand | EndOfOptions | Long (body : string) | Short (cs : string).

Definition classify (a : string) : arg_class :=
  match a with
  | String d a1 =>
      if Ascii.eqb d "-" then
        match a1 with
        | EmptyString => Operand
        | String d2 body =>
            if Ascii.eqb d2 "-" then
              match body with EmptyString => EndOfOptions | _ => Long body end
            else Short a1
        end
      else Operand
  | EmptyString => Operand
  end.

(** What one element of [argv] yields, given the next one. *)
Definition arg_step (os : string) (lopts : list long_option) (a : string) (next : option string)
    : list (Z * string) * bool :=
  match classify a with
  | Operand | EndOfOptions => ([], false)
  | Long body => long_step lopts body next
  | Short cs => short_cluster os cs next
  end.

(** The values [getopt_long] returns, with [optarg], until it returns
    [-1]: [argv] without the program name. *)
Fixpoint getopt_long (os : string) (lopts : list long_option) (args : list string)
    : list (Z * string) :=
  match args with
  | [] => []
  | a :: rest =>
      match classify a with
      | EndOfOptions => []
      | _ =>
          let '(outs, used) := arg_step os lopts a (head rest) in
          outs ++ (if used then match rest with [] => [] | _ :: rest' => getopt_long os lopts rest' end
                   else getopt_long os lopts rest)
      end
  end.

(** ** The two programs' tables *)

(** [gLongOptions] of [simplecached.c] (lines 151-158). *)
Definition daemon_long_options : list long_option :=
  [mkLongOption "cachedir" required_argument (opt "c");
   mkLongOption "nthreads" required_argument (opt "t");
   mkLongOption "help" no_argument (opt "h");
   mkLongOption "hidden" no_argument (opt "i");
   mkLongOption "delay" required_argument (opt "d")].

(** The option string of the daemon's [getopt_long] (line 175). *)
Definition daemon_optstring : string := "d:ic:hlt:x".

(** [gLongOptions] of [webproxy.c] (lines 14-20). *)
Definition proxy_long_options : list long_option :=
  [mkLongOption "help" no_argument (opt "h");
   mkLongOption "thread-count" required_argument (opt "t");
   mkLongOption "port" required_argument (opt "p");
   mkLongOption "server" required_argument (opt "s")].

(** The option string of the front end's [getopt_long] (line 58). *)
Definition proxy_optstring : string := "p:qs:xt:h".

(** The daemon's [main] from its command line to its configuration
    (lines 165-208): [signed_char] says whether [char] is signed. *)
Definition daemon_argv (signed_char : bool) (argv : list string) : outcome Simplecached.daemon_config :=
  Simplecached.daemon_main signed_char (getopt_long daemon_optstring daemon_long_options argv).

(** The front end's [main] from its command line (lines 37-97). *)
Definition proxy_argv (argv : list string) : outcome Webproxy.proxy_config :=
  Webproxy.proxy_main (getopt_long proxy_optstring proxy_long_options argv).

(** ** The spellings of an option *)

(** The short option a table entry stands for. *)
Definition short_of (o : long_option) : ascii := ascii_of_nat (Z.to_nat (lo_val o)).

(** The ways of giving option [o] with argument [v] on the command line:
    ["--name"] or ["-c"] without an argument; ["--name=v"], ["--name" "v"],
    ["-c" "v"] and, for a non-empty [v], ["-cv"] with one. *)
Definition spellings (o : long_option) (v : string) : list (list string) :=
  let c := short_of o in
  match lo_has_arg o with
  | no_argument => [[("--" ++ lo_name o)%string]; [String "-" (String c EmptyString)]]
  | _ =>
      [[("--" ++ lo_name o ++ String "=" v)%string]; [("--" ++ lo_name o)%string; v];
       [String "-" (String c EmptyString); v]] ++
      match v with EmptyString => [] | _ => [[String "-" (String c v)]] end
  end.

(** The [optarg] that comes with [o]. *)
Definition optarg_of (o : long_option) (v : string) : string :=
  match lo_has_arg o with no_argument => EmptyString | _ => v end.

(** An entry whose long and short spellings agree: a non-empty name
    without ['='], not an optional argument, and the short option of its
    [val] declared with the same [has_arg] in the option string. *)
Definition entry_agrees (os : string) (o : long_option) : bool :=
  negb (String.eqb (lo_name o) EmptyString) && no_char_in "=" (lo_name o) &&
  bool_decide (lo_has_arg o <> optional_argument) &&
  bool_decide (short_kind os (short_of o) = Some (lo_has_arg o)) &&
  (opt (short_of o) =? lo_val o) && negb (Ascii.eqb (short_of o) "-").

Definition table_agrees (os : string) (lopts : list long_option) : bool :=
  bool_decide (NoDup (map lo_name lopts)) && forallb (entry_agrees os) lopts.

(** ** Lemmas *)

Lemma split_eq_plain n : no_char_in "=" n = true -> split_eq n = (n, None).
Proof.
  induction n as [|c n IH]; [reflexivity|]. cbn [no_char_in split_eq mem_char].
  intros H. apply andb_prop in H as [Hc Hn]. destruct (Ascii.eqb c "=") eqn:E.
  - apply Ascii.eqb_eq in E. subst c. discriminate.
  - rewrite IH by exact Hn. reflexivity.
Qed.

Lemma split_eq_value n v : no_char_in "=" n = true -> split_eq (n ++ String "=" v)%string = (n, Some v).
Proof.
  induction n as [|c n IH]; [reflexivity|]. rewrite string_app_cons. cbn [no_char_in split_eq mem_char].
  intros H. apply andb_prop in H as [Hc Hn]. destruct (Ascii.eqb c "=") eqn:E.
  - apply Ascii.eqb_eq in E. subst c. discriminate.
  - rewrite IH by exact Hn. reflexivity.
Qed.

Lemma find_name lopts o :
  NoDup (map lo_name lopts) -> In o lopts ->
  List.find (fun o' => String.eqb (lo_name o') (lo_name o)) lopts = Some o.
Proof.
  induction lopts as [|o' lopts IH]; intros Hnd Hin; [destruct Hin|]. cbn [List.find].
  inversion Hnd as [|? ? Hnot Hnd']; subst. destruct Hin as [<-|Hin].
  - rewrite String.eqb_refl. reflexivity.
  - destruct (String.eqb (lo_name o') (lo_name o)) eqn:E.
    + apply String.eqb_eq in E. exfalso. apply Hnot. rewrite E. apply list_elem_of_In, in_map, Hin.
    + exact (IH Hnd' Hin).
Qed.

Lemma find_long_name lopts o :
  NoDup (map lo_name lopts) -> In o lopts -> find_long lopts (lo_name o) = LFound o.
Proof. intros Hnd Hin. unfold find_long. rewrite (find_name lopts o Hnd Hin). reflexivity. Qed.

Lemma classify_long n : n <> EmptyString -> classify ("--" ++ n)%string = Long n.
Proof. destruct n; [congruence|reflexivity]. Qed.

Lemma classify_short c cs : Ascii.eqb c "-" = false -> classify (String "-" (String c cs)) = Short (String c cs).
Proof. intros H. cbn [classify Ascii.eqb]. simpl. rewrite H. reflexivity. Qed.

Lemma getopt_long_cons os lopts a rest :
  classify a <> EndOfOptions ->
  getopt_long os lopts (a :: rest) =
  let '(outs, used) := arg_step os lopts a (head rest) in
  outs ++ (if used then match rest with [] => [] | _ :: rest' => getopt_long os lopts rest' end
           else getopt_long os lopts rest).
Proof. intros H. cbn [getopt_long]. destruct (classify a); [reflexivity|congruence|reflexivity..]. Qed.

Section Agree.
Variables (os : string) (lopts : list long_option).
Hypothesis Htab : table_agrees os lopts = true.

Lemma entry_facts o :
  In o lopts ->
  lo_name o <> EmptyString /\ no_char_in "=" (lo_name o) = true /\
  lo_has_arg o <> optional_argument /\ short_kind os (short_of o) = Some (lo_has_arg o) /\
  opt (short_of o) = lo_val o /\ Ascii.eqb (short_of o) "-" = false.
Proof.
  intros Hin. unfold table_agrees in Htab. apply andb_prop in Htab as [_ Hall].
  rewrite forallb_forall in Hall. specialize (Hall o Hin). unfold entry_agrees in Hall.
  repeat match goal with H : _ && _ = true |- _ => apply andb_prop in H as [? ?] end.
  repeat match goal with H : bool_decide _ = true |- _ => apply bool_decide_eq_true in H end.
  repeat match goal with H : negb _ = true |- _ => apply negb_true_iff in H end.
  repeat split; try assumption; [|lia].
  intros E. rewrite E in *. discriminate.
Qed.

Lemma table_nodup : NoDup (map lo_name lopts).
Proof. unfold table_agrees in Htab. apply andb_prop in Htab as [H _]. exact (bool_decide_eq_true_1 _ H). Qed.

(** Every spelling of an entry makes [getopt_long] return the entry's
    [val] with its argument, and go on with the rest of [argv]. *)
Lemma spelling_getopt o v sp rest :
  In o lopts -> In sp (spellings o v) ->
  getopt_long os lopts (sp ++ rest) = (lo_val o, optarg_of o v) :: getopt_long os lopts rest.
Proof.
  intros Hin Hsp. pose proof (find_long_name lopts o table_nodup Hin) as Hf.
  destruct (entry_facts o Hin) as (Hne & Heq & Hopt & Hk & Hv & Hd).
  assert (Hl : classify ("--" ++ lo_name o)%string = Long (lo_name o)) by (apply classify_long, Hne).
  assert (Hs : forall cs, classify (String "-" (String (short_of o) cs)) = Short (String (short_of o) cs))
    by (intros; apply classify_short, Hd).
  unfold spellings, optarg_of in *. destruct (lo_has_arg o) eqn:Ek; [| |congruence].
  - destruct Hsp as [<-|[<-|[]]]; cbn [app]; rewrite getopt_long_cons by (rewrite ?Hl, ?Hs; discriminate);
      unfold arg_step; rewrite ?Hl, ?Hs.
    + unfold long_step. rewrite split_eq_plain, Hf, Ek by exact Heq. reflexivity.
    + cbn [short_cluster]. rewrite Hk, Hv. reflexivity.
  - assert (Hl' : classify ("--" ++ lo_name o ++ String "=" v)%string = Long (lo_name o ++ String "=" v)%string)
      by (apply classify_long; destruct (lo_name o); [congruence|discriminate]).
    destruct Hsp as [<-|[<-|[<-|Hsp]]]; [..|destruct v; [destruct Hsp|destruct Hsp as [<-|[]]]];
      cbn [app]; rewrite getopt_long_cons by (rewrite ?Hl, ?Hl', ?Hs; discriminate);
      unfold arg_step; rewrite ?Hl, ?Hl', ?Hs; cbn [head].
    + unfold long_step. rewrite split_eq_value, Hf, Ek by exact Heq. reflexivity.
    + unfold long_step. rewrite split_eq_plain, Hf, Ek by exact Heq. reflexivity.
    + cbn [short_cluster]. rewrite Hk, Hv. reflexivity.
    + cbn [short_cluster]. rewrite Hk, Hv. reflexivity.
Qed.

End Agree.

(** ** What [getopt_long] can return *)

Lemma short_kind_mem os c k : short_kind os c = Some k -> mem_char os c = true.
Proof.
  induction os as [|d os IH]; cbn [short_kind mem_char]; [discriminate|].
  destruct (Ascii.eqb d c && negb (Ascii.eqb d ":")) eqn:E.
  - intros _. apply andb_prop in E as [E _]. apply Ascii.eqb_eq in E. subst d.
    rewrite Ascii.eqb_refl. reflexivity.
  - intros H. rewrite (IH H). destruct (Ascii.eqb c d); reflexivity.
Qed.

(** A value [getopt_long] returns: ['?'], the [val] of an entry of the
    table, or a character of the option string. *)
Definition returnable (os : string) (lopts : list long_option) (r : Z * string) : Prop :=
  r.1 = opt_err \/ (exists o, In o lopts /\ r.1 = lo_val o) \/ (exists c, mem_char os c = true /\ r.1 = opt c).

Lemma returnable_short os lopts c k v :
  short_kind os c = Some k -> returnable os lopts (opt c, v).
Proof. intros Hk. right; right. exists c. split; [exact (short_kind_mem _ _ _ Hk)|reflexivity]. Qed.

Lemma returnable_err os lopts v : returnable os lopts (opt_err, v).
Proof. left. reflexivity. Qed.

Lemma short_cluster_values os lopts cs next :
  Forall (returnable os lopts) (short_cluster os cs next).1.
Proof.
  induction cs as [|c cs IH]; cbn [short_cluster]; [constructor|].
  destruct (short_kind os c) as [[]|] eqn:Ek.
  - destruct (short_cluster os cs next) as [o u]. cbn [fst] in *.
    constructor; [exact (returnable_short _ _ _ _ _ Ek)|exact IH].
  - destruct cs; [destruct next|]; simpl; (constructor; [|constructor]);
      first [exact (returnable_short _ _ _ _ _ Ek) | apply returnable_err].
  - simpl. constructor; [exact (returnable_short _ _ _ _ _ Ek)|constructor].
  - destruct (short_cluster os cs next) as [o u]. cbn [fst] in *.
    constructor; [apply returnable_err|exact IH].
Qed.

Lemma find_long_in lopts name o : find_long lopts name = LFound o -> In o lopts.
Proof.
  unfold find_long. destruct (List.find _ lopts) eqn:Ef.
  - intros [= <-]. exact (proj1 (find_some _ _ Ef)).
  - destruct (List.filter _ lopts) as [|o' os] eqn:Eg; [discriminate|].
    case_match; [|discriminate]. intros [= <-].
    assert (Hin : In o' (List.filter (fun o => String.prefix name (lo_name o)) lopts)) by (rewrite Eg; left; reflexivity).
    exact (proj1 (proj1 (filter_In _ _ _) Hin)).
Qed.

Lemma long_step_values os lopts body next :
  Forall (returnable os lopts) (long_step lopts body next).1.
Proof.
  unfold long_step. destruct (split_eq body) as [name value].
  destruct (find_long lopts name) as [o| |] eqn:Ef; [|constructor; [apply returnable_err|constructor]..].
  pose proof (find_long_in _ _ _ Ef) as Hin.
  destruct (lo_has_arg o), value, next; simpl; (constructor; [|constructor]);
    solve [apply returnable_err | right; left; eauto].
Qed.

Lemma getopt_values os lopts args : Forall (returnable os lopts) (getopt_long os lopts args).
Proof.
  enough (H : Forall (returnable os lopts) (getopt_long os lopts args) /\
              Forall (returnable os lopts) (getopt_long os lopts (tail args))) by apply H.
  induction args as [|a rest [IH1 IH2]]; [split; constructor|]. split; [|exact IH1].
  cbn [getopt_long]. assert (Ha : Forall (returnable os lopts) (arg_step os lopts a (head rest)).1).
  { unfold arg_step. destruct (classify a);
      [constructor|constructor|apply long_step_values|apply short_cluster_values]. }
  destruct (classify a); try constructor;
    destruct (arg_step os lopts a (head rest)) as [outs []]; cbn in Ha;
    apply Forall_app; split; try assumption; destruct rest; cbn in *; assumption || constructor.
Qed.

(** A value neither in the option string, nor a [val] of the table, nor
    ['?'] is never returned. *)
Lemma getopt_never os lopts x args :
  mem_char os x = false -> Ascii.eqb x "?" = false -> Forall (fun o => lo_val o <> opt x) lopts ->
  Forall (fun r => r.1 <> opt x) (getopt_long os lopts args).
Proof.
  intros Hm Hq Hl. eapply Forall_impl; [apply getopt_values|].
  intros r [E|[(o & Hin & E)|(c & Hc & E)]]; rewrite E.
  - unfold opt_err, opt. intros Hx. apply Nat2Z.inj, (f_equal ascii_of_nat) in Hx.
    rewrite !ascii_nat_embedding in Hx. subst x. discriminate.
  - rewrite Forall_forall in Hl. apply (Hl o), list_elem_of_In, Hin.
  - unfold opt. intros Hx. apply Nat2Z.inj, (f_equal ascii_of_nat) in Hx.
    rewrite !ascii_nat_embedding in Hx. subst c. congruence.
Qed.

(** ** The two command lines *)

(** Both tables agree with their option strings: [--nthreads=4],
    [--nthreads 4], [-t 4] and [-t4] give the daemon the same values,
    and likewise for every entry of both programs. *)
Lemma long_options_agree o v sp rest :
  In sp (spellings o v) ->
  (In o daemon_long_options ->
     getopt_long daemon_optstring daemon_long_options (sp ++ rest) =
     (lo_val o, optarg_of o v) :: getopt_long daemon_optstring daemon_long_options rest) /\
  (In o proxy_long_options ->
     getopt_long proxy_optstring proxy_long_options (sp ++ rest) =
     (lo_val o, optarg_of o v) :: getopt_long proxy_optstring proxy_long_options rest).
Proof. intros Hsp. split; intros Hin; (apply spelling_getopt; [vm_compute; reflexivity|exact Hin|exact Hsp]). Qed.

(** The switch arms ['o'] and ['a'] of the daemon and ['a'], ['d'], ['L']
    and ['u'] of the front end never run: [getopt_long] never returns
    these letters.  The letters ['l'] and ['x'] of the daemon's option
    string and ['q'] and ['x'] of the front end's have no arm: they end
    in the usage message and [exit (1)]. *)
Lemma unhandled_option_letters argv :
  Forall (fun r => r.1 <> opt "o" /\ r.1 <> opt "a")
    (getopt_long daemon_optstring daemon_long_options argv) /\
  Forall (fun r => r.1 <> opt "a" /\ r.1 <> opt "d" /\ r.1 <> opt "L" /\ r.1 <> opt "u")
    (getopt_long proxy_optstring proxy_long_options argv) /\
  daemon_argv true ["-l"] = Exit 1 /\ daemon_argv true ["-x"] = Exit 1 /\
  proxy_argv ["-q"] = Exit 1 /\ proxy_argv ["-x"] = Exit 1.
Proof.
  split; [|split]; [..|vm_compute; repeat split].
  all: repeat (apply Forall_and; split); apply getopt_never; vm_compute;
    first [reflexivity | repeat constructor; discriminate].
Qed.

(** The abbreviation [--h] selects both [help] and [hidden] of the
    daemon, which differ in [val]: [getopt_long] reports it ambiguous and
    the daemon exits 1; the front end's [--h] is its [--help]. *)
Lemma help_abbreviation :
  find_long daemon_long_options "h" = LAmbiguous /\ daemon_argv true ["--h"] = Exit 1 /\
  proxy_argv ["--h"] = Exit 0.
Proof. split; [|split]; reflexivity. Qed.

Lemma to_ulong_small z : 0 <= z < 2 ^ 64 -> to_ulong z = z.
Proof. intros H. unfold to_ulong. apply Z.mod_small, H. Qed.

(** C34 (functional: the daemon's documented ranges).  Where [char] is
    signed, the daemon started with [-t n -d d] (both printed in
    decimal, as [int]s) runs with [n] threads, the delay [d] and the
    index ["locals.txt"] exactly when [d] is at most 2500000 and [n] is
    between 1 and 100, the ranges its usage text documents; otherwise it
    exits with the line of the failed check.  The default index is
    ["locals.txt"], not the ["./"] the usage text announces. *)
Theorem daemon_argv_ranges n d :
  0 <= n < 2 ^ 31 -> 0 <= d < 2 ^ 31 ->
  daemon_argv true ["-t"; dec_Z n; "-d"; dec_Z d] =
  if d <=? 2500000 then
    if (1 <=? n) && (n <=? 100) then Run (Simplecached.mkDaemonConfig n "locals.txt" d) else Exit 207
  else Exit 202.
Proof.
  intros Hn Hd. unfold daemon_argv.
  generalize (atoi_dec_Z n Hn) (atoi_dec_Z d Hd). generalize (dec_Z n) (dec_Z d). intros a b Ha Hb.
  assert (Hp : Simplecached.daemon_main true
                 (getopt_long daemon_optstring daemon_long_options ["-t"; a; "-d"; b]) =
               Simplecached.daemon_check (Simplecached.mkDaemonConfig (atoi a) "locals.txt" (to_ulong (atoi b))))
    by reflexivity.
  rewrite Hp, Ha, Hb, to_ulong_small by lia. unfold Simplecached.daemon_check.
  cbn [Simplecached.cache_delay Simplecached.nthreads].
  destruct (Z.ltb_spec 2500000 d), (Z.leb_spec d 2500000); try lia; [reflexivity|].
  destruct (Z.ltb_spec 100 n), (Z.ltb_spec n 1), (Z.leb_spec 1 n), (Z.leb_spec n 100);
    cbn; try reflexivity; lia.
Qed.

Lemma daemon_argv_ranges_witness :
  (0 <= 4 < 2 ^ 31 /\ 0 <= 1000 < 2 ^ 31) /\
  daemon_argv true ["-t"; dec_Z 4; "-d"; dec_Z 1000] = Run (Simplecached.mkDaemonConfig 4 "locals.txt" 1000).
Proof.
  split; [lia|]. rewrite (daemon_argv_ranges 4 1000) by lia. reflexivity.
Defined.
