(* ===== verification/CurlHandler.v ===== *)
(** * The curl front end's handler ([src/server/handle_with_curl.c])

    [handle_with_curl] fetches [base_url ++ path] with libcurl into a
    buffer grown by [write_callback], then sends a header and the buffer
    to the client in a loop around [gfs_send].  libcurl and the serving
    framework are libraries: what [curl_easy_perform] hands to the
    callback and reports, and what each [gfs_send] returns, are inputs
    of the model ([curl_env] and a list of [env] answers).  The handler
    touches no shared state, so it is one function from these inputs to
    its return value and the client's record. *)

From S2P Require Import Prelude CLib ShmChannel World ProxyHandler.

Local Open Scope Z_scope.

(** [CURLcode]: [CURLE_OK], the write error that a callback returning
    less than it was given causes, or another failure. *)
Inductive curl_code := CURLE_OK | CURLE_WRITE_ERROR | CURLE_OTHER (n : Z).

#[export] Instance curl_code_eq_dec : EqDecision curl_code.
Proof. solve_decision. Defined.

(** What libcurl does for one URL: the pieces of the body it passes to
    the write callback, in order, and its result code and HTTP status if
    every piece is accepted. *)
Record curl_response := mkCurlResponse {
  cr_pieces : list (list byte);
  cr_code : curl_code;
  cr_http : Z;
}.

Record curl_env := mkCurlEnv {
  ce_init_ok : bool;                     (** [curl_easy_init] returns a handle *)
  ce_fetch : string -> curl_response;    (** the network *)
  ce_oom : nat -> bool;                  (** [realloc] fails on call [i] *)
}.

(** What the handler returns: a count, or [SERVER_FAILURE]. *)
Inductive handler_ret := RetZ (z : Z) | RetServerFailure.

Definition URL_LEN : nat := 1024.

(** [write_callback] (lines 16-29) on call [i] with the piece [contents]:
    it appends the piece to [chunk.memory] and returns its size, or
    returns 0 when [realloc] fails. *)
Definition write_callback (oom : bool) (contents : list byte) (mem : list byte) : Z * list byte :=
  if oom then (0, mem) else (Z.of_nat (length contents), mem ++ contents).

(** [curl_easy_perform] calling the callback on each piece, from call
    [i]: a callback that returns less than the piece's size ends the
    transfer with [CURLE_WRITE_ERROR]. *)
Fixpoint perform (oom : nat -> bool) (i : nat) (pieces : list (list byte)) (code : curl_code)
    (mem : list byte) : curl_code * list byte :=
  match pieces with
  | [] => (code, mem)
  | b :: rest =>
      let '(n, mem') := write_callback (oom i) b mem in
      if n =? Z.of_nat (length b) then perform oom (S i) rest code mem'
      else (CURLE_WRITE_ERROR, mem')
  end.

(** The loop of lines 69-77: [None] while it has not returned when the
    answers run out. *)
Fixpoint send_all (es : list env) (buf : list byte) (total : Z) (c : client)
    : option (handler_ret * client) :=
  match buf with
  | [] => Some (RetZ total, c)
  | _ :: _ =>
      match es with
      | [] => None
      | e :: es' =>
          if is_fail e then Some (RetServerFailure, c)
          else
            let b := sent_bytes e buf in
            send_all es' (drop (length b) buf) (total + Z.of_nat (length b)) (send_body b c)
      end
  end.

(** [handle_with_curl (ctx, path, base_url)]: [e_hdr] answers the
    header's [gfs_sendheader], [es] the [gfs_send] calls. *)
Definition handle_with_curl (ce : curl_env) (base path : string) (e_hdr : env) (es : list env)
    (c : client) : option (handler_ret * client) :=
  let url := snprintf_trunc URL_LEN (base ++ path) in
  if negb (ce_init_ok ce) then Some (RetServerFailure, c)
  else
    let r := ce_fetch ce url in
    let '(res, mem) := perform (ce_oom ce) 0 (cr_pieces r) (cr_code r) [] in
    if negb (bool_decide (res = CURLE_OK)) || negb (cr_http r =? 200) then
      Some (RetZ (header_ret e_hdr), send_header_env e_hdr GF_FILE_NOT_FOUND 0 c)
    else
      send_all es mem 0 (send_header_env e_hdr GF_OK (Z.of_nat (length mem)) c).

(** ** The send loop *)

(** A [gfs_send] that makes progress: it neither fails nor sends 0 bytes. *)
Definition progress (e : env) : Prop := e <> EFail /\ e <> EShort 0.

(** [gfs_send] sends a prefix of the buffer. *)
Lemma sent_bytes_prefix e buf : sent_bytes e buf ++ drop (length (sent_bytes e buf)) buf = buf.
Proof.
  destruct e as [| |n|]; simpl; try (rewrite drop_all, app_nil_r; reflexivity).
  rewrite length_take. destruct (Nat.le_ge_cases n (length buf)).
  - rewrite Nat.min_l by lia. apply take_drop.
  - rewrite Nat.min_r, take_ge, drop_all by lia. apply app_nil_r.
Qed.

Lemma sent_bytes_progress e x xs :
  progress e -> exists b, sent_bytes e (x :: xs) = x :: b.
Proof. intros [Hf Hz]. destruct e as [| |[|k]|f]; simpl; try congruence; eauto. Qed.

(** With answers that make progress, at least one per byte, the loop
    delivers the whole buffer in order and returns its size. *)
Lemma send_all_complete es : forall buf total c,
  Forall progress es -> (length buf <= length es)%nat ->
  send_all es buf total c =
    Some (RetZ (total + Z.of_nat (length buf)), mkClient (c_headers c) (c_body c ++ buf)).
Proof.
  induction es as [|e es IH]; intros buf total c Hp Hl.
  - destruct buf; [|simpl in Hl; lia]. destruct c. simpl. rewrite app_nil_r, Z.add_0_r. reflexivity.
  - destruct buf as [|x xs].
    { destruct c. simpl. rewrite app_nil_r, Z.add_0_r. reflexivity. }
    apply Forall_cons in Hp as [He Hp]. cbn [send_all].
    destruct (is_fail e) eqn:Hf; [destruct e; simpl in Hf; try discriminate; destruct He; congruence|].
    pose proof (sent_bytes_prefix e (x :: xs)) as Hpre.
    destruct (sent_bytes_progress e x xs He) as (b & Hb). rewrite Hb in *.
    rewrite IH by (auto; rewrite length_drop; simpl in *; lia).
    unfold send_body. cbn [c_headers c_body]. rewrite <- (assoc (++)), Hpre.
    f_equal. f_equal. f_equal. apply (f_equal length) in Hpre. rewrite length_app in Hpre. lia.
Qed.

(** A [gfs_send] that keeps returning 0 never ends the loop. *)
Lemma send_all_zero n x buf total c : send_all (repeat (EShort 0) n) (x :: buf) total c = None.
Proof.
  revert total c. induction n as [|n IH]; intros total c; [reflexivity|]. apply IH.
Qed.

(** ** The transfer from libcurl *)

(** When no [realloc] fails, [curl_easy_perform] reports its own code and
    the buffer holds the pieces in order. *)
Lemma perform_ok oom i pieces code mem :
  (forall j, (i <= j < i + length pieces)%nat -> oom j = false) ->
  perform oom i pieces code mem = (code, mem ++ mjoin pieces).
Proof.
  revert i mem. induction pieces as [|b pieces IH]; intros i mem Hoom; simpl.
  - rewrite app_nil_r. reflexivity.
  - unfold write_callback. rewrite (Hoom i) by (simpl; lia). rewrite Z.eqb_refl.
    rewrite IH by (intros j Hj; apply Hoom; simpl; lia). rewrite (assoc (++)). reflexivity.
Qed.

(** [curl_easy_perform] reports the library's code or a write error. *)
Lemma perform_code oom i pieces code mem :
  fst (perform oom i pieces code mem) = code \/ fst (perform oom i pieces code mem) = CURLE_WRITE_ERROR.
Proof.
  revert i mem. induction pieces as [|b pieces IH]; intros i mem; simpl; [auto|].
  destruct (write_callback _ b mem) as [n m]. destruct (n =? _); [apply IH|auto].
Qed.

(** A failed [realloc] on a non-empty piece ends the transfer with
    [CURLE_WRITE_ERROR]. *)
Lemma perform_oom oom i pre b post code mem :
  (forall j, (i <= j < i + length pre)%nat -> oom j = false) -> oom (i + length pre)%nat = true ->
  b <> [] -> fst (perform oom i (pre ++ b :: post) code mem) = CURLE_WRITE_ERROR.
Proof.
  revert i mem. induction pre as [|a pre IH]; intros i mem Hoom Hi Hb; simpl.
  - rewrite Nat.add_0_r in Hi. unfold write_callback. rewrite Hi.
    destruct b; [congruence|reflexivity].
  - unfold write_callback. rewrite (Hoom i) by (simpl; lia). rewrite Z.eqb_refl.
    apply IH; [intros j Hj; apply Hoom; simpl in *; lia|simpl in Hi; rewrite <- Hi; f_equal; lia|exact Hb].
Qed.

Section Fetch.
Variables (ce : curl_env) (base path : string) (es : list env) (c : client).
Let url := snprintf_trunc URL_LEN (base ++ path).
Hypothesis Hinit : ce_init_ok ce = true.

(** The curl handler delivers the whole body.  When
    libcurl fetches the URL with status 200 and no allocation fails, the
    client gets a [GF_OK] header with the body's size and then the body,
    in order, even when [gfs_send] sends only part of what it is given,
    as long as each call sends something; the handler returns the size. *)
Lemma curl_delivers r :
  ce_fetch ce url = r -> cr_code r = CURLE_OK -> cr_http r = 200 ->
  (forall j, (j < length (cr_pieces r))%nat -> ce_oom ce j = false) ->
  Forall progress es -> (length (mjoin (cr_pieces r)) <= length es)%nat ->
  handle_with_curl ce base path EOk es c =
    Some (RetZ (Z.of_nat (length (mjoin (cr_pieces r)))),
          mkClient (c_headers c ++ [(GF_OK, Z.of_nat (length (mjoin (cr_pieces r))))])
                   (c_body c ++ mjoin (cr_pieces r))).
Proof.
  intros Hr Hc Hh Hoom Hp Hl. unfold handle_with_curl. fold url. rewrite Hinit, Hr.
  rewrite perform_ok by (intros j Hj; apply Hoom; lia). rewrite Hc, Hh. simpl.
  rewrite send_all_complete by assumption. reflexivity.
Qed.

(** A failed fetch is reported as not found.  A status other
    than 200, a failure of libcurl, or a [realloc] failing on the way
    (the callback returns 0 and libcurl stops with a write error), are
    all answered [GF_FILE_NOT_FOUND] with no body: an out-of-memory
    condition of the server reaches the client as a missing file. *)
Theorem curl_not_found r :
  ce_fetch ce url = r ->
  (cr_http r <> 200 \/ cr_code r <> CURLE_OK \/
   exists pre b post, cr_pieces r = pre ++ b :: post /\ b <> [] /\
     (forall j, (j < length pre)%nat -> ce_oom ce j = false) /\ ce_oom ce (length pre) = true) ->
  handle_with_curl ce base path EOk es c =
    Some (RetZ 0, mkClient (c_headers c ++ [(GF_FILE_NOT_FOUND, 0)]) (c_body c)).
Proof.
  intros Hr Hcase. unfold handle_with_curl. fold url. rewrite Hinit, Hr. simpl negb.
  destruct (perform (ce_oom ce) 0 (cr_pieces r) (cr_code r) []) as [res mem] eqn:E.
  assert (Hbad : res <> CURLE_OK \/ cr_http r <> 200).
  { destruct Hcase as [Hh|[Hc|(pre & b & post & Hp & Hb & Hok & Hoom)]]; [right; exact Hh| |].
    - left. destruct (perform_code (ce_oom ce) 0 (cr_pieces r) (cr_code r) []) as [H|H];
        rewrite E in H; simpl in H; congruence.
    - left. pose proof (perform_oom (ce_oom ce) 0 pre b post (cr_code r) [] ltac:(intros; apply Hok; lia)
                         Hoom Hb) as H. rewrite <- Hp, E in H. simpl in H. congruence. }
  destruct (bool_decide_reflect (res = CURLE_OK)), (Z.eqb_spec (cr_http r) 200); simpl;
    try reflexivity; tauto.
Qed.

(** C35 (liveness: the send loop spins on a zero-byte send).  If
    [gfs_send] keeps returning 0, [total_sent] never grows and the loop
    of lines 70-77 never ends, however many calls are made. *)
Theorem curl_send_zero_spins r n :
  ce_fetch ce url = r -> cr_code r = CURLE_OK -> cr_http r = 200 ->
  (forall j, (j < length (cr_pieces r))%nat -> ce_oom ce j = false) ->
  mjoin (cr_pieces r) <> [] ->
  handle_with_curl ce base path EOk (repeat (EShort 0) n) c = None.
Proof.
  intros Hr Hc Hh Hoom Hne. unfold handle_with_curl. fold url. rewrite Hinit, Hr.
  rewrite perform_ok by (intros j Hj; apply Hoom; lia). rewrite Hc, Hh. simpl.
  destruct (mjoin (cr_pieces r)) as [|x b]; [congruence|]. apply send_all_zero.
Qed.
End Fetch.

(** A server holding ["/a.txt"], delivered by libcurl in two pieces. *)
Definition demo_response : curl_response :=
  mkCurlResponse [[Byte.x61; Byte.x62]; [Byte.x63]] CURLE_OK 200.

Definition demo_curl : curl_env :=
  mkCurlEnv true
    (fun url => if bool_decide (url = "http://s/a.txt") then demo_response
                else mkCurlResponse [] (CURLE_OTHER 22) 404)
    (fun _ => false).

Lemma curl_not_found_witness :
  handle_with_curl demo_curl "http://s" "/missing" EOk [] client0 =
    Some (RetZ 0, mkClient (c_headers client0 ++ [(GF_FILE_NOT_FOUND, 0)]) (c_body client0)).
Proof.
  apply (curl_not_found demo_curl "http://s" "/missing" [] client0 eq_refl
           (mkCurlResponse [] (CURLE_OTHER 22) 404)); [reflexivity|left; discriminate].
Defined.

Lemma curl_send_zero_spins_witness :
  handle_with_curl demo_curl "http://s" "/a.txt" EOk (repeat (EShort 0) 5) client0 = None.
Proof.
  apply (curl_send_zero_spins demo_curl "http://s" "/a.txt" client0 eq_refl demo_response);
    first [reflexivity | intros j _; reflexivity | discriminate].
Defined.
