(* ===== verification/WebProxy.v ===== *)
(** * The front end's server ([src/server/webproxy.c], lines 99-110)

    After its option checks ([Config.Webproxy]), [main] configures the
    framework's server ([gfserver_t], whose header [gfserver.h] is not
    under [src/]; modelled from the spec as the record of the options
    [main] sets): its worker threads, the length of its listen queue,
    its port, the handler [handle_with_curl] and, for every worker
    thread, the argument the handler receives, the origin's base URL.
    [serve_request] is what the framework does with a request that a
    worker thread takes: it calls the handler with that thread's
    argument.  The theorems show that every worker thread of every
    configuration [main] accepts serves its requests from the origin
    given with [-s], through [handle_with_curl], and that
    [handle_with_file] behaves as [handle_with_curl]. *)

From S2P Require Import Prelude CLib ShmChannel World ProxyHandler Config CurlHandler.

Local Open Scope Z_scope.

Import Webproxy WebproxyFacts.

(** The server's configuration. *)
Record gfserver := mkGfserver {
  gfs_nthreads : Z;
  gfs_maxnpending : Z;
  gfs_port : Z;
  gfs_worker_args : list (option string);
}.

(** [gfserver_init (&gfs, n)]: [n] worker threads, no argument yet. *)
Definition gfserver_init (n : Z) : gfserver := mkGfserver n 0 0 (replicate (Z.to_nat n) None).

(** [gfserver_setopt (&gfs, GFS_MAXNPENDING, k)]. *)
Definition set_maxnpending (k : Z) (g : gfserver) : gfserver :=
  mkGfserver (gfs_nthreads g) k (gfs_port g) (gfs_worker_args g).

(** [gfserver_setopt (&gfs, GFS_PORT, p)]. *)
Definition set_port (p : Z) (g : gfserver) : gfserver :=
  mkGfserver (gfs_nthreads g) (gfs_maxnpending g) p (gfs_worker_args g).

(** [gfserver_setopt (&gfs, GFS_WORKER_ARG, i, arg)]. *)
Definition set_worker_arg (i : nat) (a : option string) (g : gfserver) : gfserver :=
  mkGfserver (gfs_nthreads g) (gfs_maxnpending g) (gfs_port g) (<[i := a]> (gfs_worker_args g)).

(** Lines 99-108; the [for] loop runs [i] from 0 to [nworkerthreads - 1]. *)
Definition proxy_setup (cfg : proxy_config) : gfserver :=
  let g := set_port (port cfg) (set_maxnpending 90 (gfserver_init (nworkerthreads cfg))) in
  foldl (fun g i => set_worker_arg i (server cfg) g) g (seq 0 (Z.to_nat (nworkerthreads cfg))).

(** A request for [path] taken by worker thread [i]: the framework calls
    the handler registered with [GFS_WORKER_FUNC], [handle_with_curl],
    with the thread's argument. *)
Definition serve_request (g : gfserver) (i : nat) (ce : curl_env) (path : string) (e_hdr : env)
    (es : list env) (c : client) : option (handler_ret * client) :=
  match gfs_worker_args g !! i with
  | Some (Some base) => handle_with_curl ce base path e_hdr es c
  | _ => None
  end.

(** [handle_with_file] (lines 87-89 of [src/server/handle_with_curl.c]). *)
Definition handle_with_file (ce : curl_env) (base path : string) (e_hdr : env) (es : list env)
    (c : client) : option (handler_ret * client) :=
  handle_with_curl ce base path e_hdr es c.

(** The loop sets the arguments of the threads [k .. k + n - 1]. *)
Lemma set_args_loop a n : forall k g,
  gfs_worker_args g = replicate k a ++ replicate n None ->
  gfs_worker_args (foldl (fun g i => set_worker_arg i a g) g (seq k n)) = replicate (k + n) a.
Proof.
  induction n as [|n IH]; intros k g Hg; cbn [seq foldl].
  - rewrite Hg, app_nil_r, Nat.add_0_r. reflexivity.
  - rewrite Nat.add_succ_r, <- Nat.add_succ_l. apply IH. cbn [set_worker_arg gfs_worker_args].
    rewrite Hg, insert_app_r_alt, length_replicate, Nat.sub_diag by (rewrite length_replicate; lia).
    change (replicate (S n) None) with (None :: replicate n (@None string)).
    cbn [list_insert insert]. rewrite replicate_S_end, <- (assoc (++)). reflexivity.
Qed.

(** The loop touches only the arguments. *)
Lemma set_args_fields a l : forall g,
  let g' := foldl (fun g i => set_worker_arg i a g) g l in
  gfs_nthreads g' = gfs_nthreads g /\ gfs_maxnpending g' = gfs_maxnpending g /\ gfs_port g' = gfs_port g.
Proof. induction l as [|i l IH]; intros g; [repeat split|apply (IH (set_worker_arg i a g))]. Qed.

Lemma proxy_setup_args cfg :
  gfs_worker_args (proxy_setup cfg) = replicate (Z.to_nat (nworkerthreads cfg)) (server cfg).
Proof. apply (set_args_loop _ _ 0). reflexivity. Qed.

(** Every worker thread of every configuration that [main] accepts
    answers a request for [path] as [handle_with_curl] does with the
    origin given by [-s] (or the default): the handler is registered
    once, and the loop gives each of the [nworkerthreads] threads the
    same argument. *)
Lemma webproxy_serves outs cfg i ce path e_hdr es c :
  proxy_main outs = Run cfg -> Z.of_nat i < nworkerthreads cfg ->
  exists base, server cfg = Some base /\
    serve_request (proxy_setup cfg) i ce path e_hdr es c = handle_with_curl ce base path e_hdr es c.
Proof.
  intros Hm Hi. destruct (proxy_main_bounds outs cfg Hm) as (_ & Hn & Hs).
  destruct (server cfg) as [base|] eqn:Hb; [|congruence]. exists base. split; [reflexivity|].
  unfold serve_request. rewrite proxy_setup_args, Hb, lookup_replicate_2 by lia. reflexivity.
Qed.

(** ** Signals ([webproxy.c] lines 27-32 and 47-55) *)

Section Signals.
(** The exit status [SERVER_FAILURE] of [gfserver.h], not under [src/]. *)
Variable SERVER_FAILURE : Z.

(** [signal (SIGINT, _sig_handler)] and [signal (SIGTERM, ...)]: a
    failure exits with [SERVER_FAILURE]. *)
Definition proxy_install_signals (e_int e_term : env) : outcome unit :=
  if is_fail e_int then Exit SERVER_FAILURE
  else if is_fail e_term then Exit SERVER_FAILURE
  else Run tt.

(** [main] up to [gfserver_serve] (lines 37-108): the handlers are
    installed before the options are read. *)
Definition proxy_boot (outs : list (Z * string)) (e_int e_term : env) : outcome gfserver :=
  match proxy_install_signals e_int e_term with
  | Exit n => Exit n
  | Run _ =>
      match proxy_main outs with
      | Exit n => Exit n
      | Run cfg => Run (proxy_setup cfg)
      end
  end.

(** [_sig_handler (signo)]: on [SIGINT] or [SIGTERM], [gfserver_stop]
    and [exit (signo)]; any other signal returns. *)
Definition proxy_sig_handler (signo : Z) : option Z :=
  if (signo =? SIGTERM) || (signo =? SIGINT) then Some signo else None.

(** The front end serves only with a configuration [main] accepts, and
    then every worker thread answers from the origin: [proxy_boot] is
    [proxy_setup] of a configuration of [Config.WebproxyFacts.proxy_main_bounds]. *)
Lemma proxy_boot_serves outs e_int e_term g :
  proxy_boot outs e_int e_term = Run g ->
  exists cfg, proxy_main outs = Run cfg /\ g = proxy_setup cfg /\
    gfs_maxnpending g = 90 /\ gfs_port g = port cfg /\ 0 <= port cfg <= 61286 /\
    gfs_worker_args g = replicate (Z.to_nat (nworkerthreads cfg)) (server cfg) /\
    (1 <= Z.to_nat (nworkerthreads cfg) <= 80)%nat /\ server cfg <> None.
Proof.
  unfold proxy_boot, proxy_install_signals.
  destruct (is_fail e_int), (is_fail e_term); try discriminate.
  destruct (proxy_main outs) as [n|cfg] eqn:Hm; [discriminate|]. intros [= <-].
  destruct (proxy_main_bounds outs cfg Hm) as (Hp & Hn & Hs).
  destruct (set_args_fields (server cfg) (seq 0 (Z.to_nat (nworkerthreads cfg)))
              (set_port (port cfg) (set_maxnpending 90 (gfserver_init (nworkerthreads cfg)))))
    as (_ & Hmp & Hpt).
  exists cfg. split; [reflexivity|]. split; [reflexivity|].
  split; [exact Hmp|]. split; [exact Hpt|]. split; [exact Hp|].
  split; [apply proxy_setup_args|]. split; [lia|exact Hs].
Qed.

End Signals.

