(* ===== verification/Transfer.v ===== *)
(** * One transfer, end to end

    A system with one request handler, one worker and the boss, and one
    segment in the pool: the configuration of the spec's end-to-end
    scenarios.  Under the cooperative schedule ([System.coop]) the
    handler runs until it blocks after each of its posts, so it reads the
    last-chunk flag before the worker can overwrite it.  The theorems of
    this file compute that run for every file content: the chunk loop is
    an induction on the number of full chunks, each iteration a fixed
    sequence of steps given by the step lemmas of the components. *)

From S2P Require Import Prelude Steque CLib ShmChannel ControlProtocol World.
From S2P Require Import CacheDaemon ProxyHandler System.

Local Open Scope Z_scope.

Import Worker Boss.

#[local] Arguments proxy_step : simpl never.
#[local] Arguments worker_step : simpl never.
#[local] Arguments boss_step : simpl never.

(** The unchanged parts of a world after writes through a mapping and
    updates of the pool and of the daemon's descriptors. *)
Ltac frame_tac :=
  repeat first
    [ progress autorewrite with cache_simpl
    | progress cbn [w_backlog w_queue w_pool w_dproc w_daemon_up w_store w_listening
                    set_pool set_dproc set_queue set_backlog] ];
  try assumption; try reflexivity.

(** ** What a transfer leaves alone

    The namespace [ns'] differs from [ns] at most at the object [a]
    names: a transfer writes only through the mapping of its own
    segment. *)
Definition ns_off (a : option string) (ns ns' : shm_ns) : Prop :=
  forall k, a <> Some k -> ns' !! k = ns !! k.

Lemma ns_off_refl a ns : ns_off a ns ns.
Proof. intros k _. reflexivity. Qed.

Lemma ns_off_trans a ns1 ns2 ns3 : ns_off a ns1 ns2 -> ns_off a ns2 ns3 -> ns_off a ns1 ns3.
Proof. intros H1 H2 k Hk. rewrite (H2 k Hk). exact (H1 k Hk). Qed.

Lemma ns_off_write a ns f seg w :
  seg_addr seg = a -> ns_off a ns (w_ns w) -> ns_off a ns (w_ns (write_seg f seg w)).
Proof.
  intros <- H k Hk. unfold write_seg. destruct (seg_addr seg) as [n|] eqn:E; [|exact (H k Hk)].
  cbn [w_ns set_ns]. unfold update_pay. rewrite lookup_alter_ne by congruence. exact (H k Hk).
Qed.

(** Another segment's payload is the same in both worlds. *)
Lemma ns_off_payload a w w' q :
  ns_off a (w_ns w) (w_ns w') -> seg_addr q <> a -> seg_payload w' q = seg_payload w q.
Proof.
  intros H Hq. unfold seg_payload. destruct (seg_addr q) as [k|]; [|reflexivity].
  rewrite (H k ltac:(congruence)). reflexivity.
Qed.

(** Writes through [seg] and updates of the other parts of the world. *)
Ltac ns_off_tac :=
  repeat first
    [ apply ns_off_refl
    | apply ns_off_write; [reflexivity|]
    | progress cbn [w_ns set_pool set_dproc set_queue set_backlog close_my_fd] ].

Section OneTransfer.
Variable segsize : Z.

Definition sys1 (w : world) (ps : pstate) (cl : client) (ws : wstate) : sys :=
  mkSys w [(ps, cl)] [ws] BServe.

(** The boss blocks in [accept] when no connection is pending. *)
Lemma boss_idle e w : w_backlog w = [] -> boss_step e BServe w = None.
Proof. intros H. unfold boss_step. rewrite H. reflexivity. Qed.

(** *** Which thread the cooperative schedule moves *)

Lemma coop_proxy w ps cl ws ps' cl' w' :
  proxy_step segsize EOk ps cl w = Some (ps', cl', w') ->
  coop_step segsize (sys1 w ps cl ws) = Some (sys1 w' ps' cl' ws).
Proof. intros H. unfold coop_step, sys1. simpl. rewrite H. reflexivity. Qed.

Lemma coop_boss w ps cl ws w' :
  proxy_step segsize EOk ps cl w = None -> w_daemon_up w = true ->
  boss_step EOk BServe w = Some (BServe, w') ->
  coop_step segsize (sys1 w ps cl ws) = Some (sys1 w' ps cl ws).
Proof. intros Hp Hd Hb. unfold coop_step, sys1. simpl. rewrite Hp, Hd, Hb. reflexivity. Qed.

Lemma coop_worker w ps cl ws ws' w' :
  proxy_step segsize EOk ps cl w = None -> w_daemon_up w = true -> w_backlog w = [] ->
  worker_step EOk ws w = Some (ws', w') ->
  coop_step segsize (sys1 w ps cl ws) = Some (sys1 w' ps cl ws').
Proof.
  intros Hp Hd Hb Hw. unfold coop_step, sys1. simpl. rewrite Hp, Hd, boss_idle, Hw by exact Hb.
  reflexivity.
Qed.

Lemma coop_none w ps cl ws :
  proxy_step segsize EOk ps cl w = None -> w_backlog w = [] ->
  worker_step EOk ws w = None ->
  coop_step segsize (sys1 w ps cl ws) = None.
Proof.
  intros Hp Hb Hw. unfold coop_step, sys1. simpl. rewrite Hp, boss_idle by exact Hb.
  destruct (w_daemon_up w); [rewrite Hw|]; reflexivity.
Qed.

Lemma coop_S n s s' : coop_step segsize s = Some s' -> coop segsize (S n) s = coop segsize n s'.
Proof. intros H. simpl. rewrite H. reflexivity. Qed.
End OneTransfer.

(** ** The phases of one chunk *)

Section Loop.
Variables (segsize : Z) (pseg wseg : segment) (t : task) (c : list byte) (m : nat).
(** The worker attached the proxy's segment: both map the same object. *)
Hypothesis Haddr : seg_addr wseg = seg_addr pseg.
(** Both sides use the same chunk size [m > 0], small enough for a
    [ssize_t]. *)
Hypothesis Hm : max_chunk t = Z.of_nat m.
Hypothesis Hm_pos : (0 < m)%nat.
Hypothesis Hm_small : Z.of_nat m < 2 ^ 63.
Hypothesis Hcap : proxy_capacity segsize = Z.of_nat m.

Definition chunk_at (o : nat) : list byte := take m (drop o c).
Definition last_flag (n : nat) : Z := if Z.of_nat n <? Z.of_nat m then 1 else 0.

(** The payload after the worker wrote chunk [o] and posted it. *)
Definition produced (p : payload) (o : nat) : payload :=
  let b := chunk_at o in
  post_proxy_ready (set_is_last (last_flag (length b))
    (set_datalen (Z.of_nat (length b)) (set_data (overwrite_prefix b (data p)) p))).

Definition produce_world (w : world) (p : payload) (o : nat) : world :=
  let b := chunk_at o in
  write_seg post_proxy_ready pseg (write_seg (set_is_last (last_flag (length b))) pseg
    (write_seg (set_datalen (Z.of_nat (length b))) pseg
      (write_seg (set_data (overwrite_prefix b (data p))) pseg w))).

(** The shared facts that hold at every point of the loop. *)
Definition chan (w : world) (p : payload) : Prop :=
  seg_payload w pseg = Some p /\ length (data p) = m /\ w_backlog w = [] /\
  w_daemon_up w = true.

Definition waiting (ps : pstate) : Prop :=
  ps = PWaitFirst pseg \/ exists sent, ps = PWaitNext pseg sent.

Lemma wseg_payload w : seg_payload w wseg = seg_payload w pseg.
Proof. apply seg_payload_addr, Haddr. Qed.

Lemma wseg_write f w : write_seg f wseg w = write_seg f pseg w.
Proof. apply write_seg_addr, Haddr. Qed.

Lemma chan_write f w p :
  chan w p -> length (data (f p)) = m -> chan (write_seg f pseg w) (f p).
Proof.
  intros (Hp & _ & Hb & Hd) Hl. repeat split; try assumption.
  - apply seg_payload_write, Hp.
  - by autorewrite with cache_simpl.
  - by autorewrite with cache_simpl.
Qed.

Lemma waiting_blocked ps cl w p :
  waiting ps -> seg_payload w pseg = Some p -> sem_proxy_ready p = 0%nat ->
  proxy_step segsize EOk ps cl w = None.
Proof.
  intros [-> | [sent ->]] Hp H0;
    [eapply proxy_wait_first_blocked | eapply proxy_wait_next_blocked]; eassumption.
Qed.

Lemma chunk_at_length o : (length (chunk_at o) <= m)%nat.
Proof. unfold chunk_at. rewrite length_take. lia. Qed.

Lemma overwrite_chunk p o :
  length (data p) = m -> length (overwrite_prefix (chunk_at o) (data p)) = m.
Proof. intros H. rewrite overwrite_prefix_length; [exact H|]. rewrite H. apply chunk_at_length. Qed.

Lemma chan_produced w p o : chan w p -> chan (produce_world w p o) (produced p o).
Proof.
  intros Hc. pose proof Hc as (_ & Hl & _). unfold produce_world, produced.
  repeat (apply chan_write; [|simpl; apply overwrite_chunk, Hl]). exact Hc.
Qed.

(** A worker step while the handler waits for its chunk. *)
Lemma coop_worker_waiting ps cl w p ws ws' w' n :
  waiting ps -> chan w p -> sem_proxy_ready p = 0%nat ->
  worker_step EOk ws w = Some (ws', w') ->
  coop segsize (S n) (sys1 w ps cl ws) = coop segsize n (sys1 w' ps cl ws').
Proof.
  intros Hw (Hp & _ & Hb & Hd) H0 E. apply coop_S, coop_worker; try assumption.
  eapply waiting_blocked; eassumption.
Qed.

(** The worker produces a non-empty chunk while the handler waits: four
    steps, [pread] to [sem_post] (lines 109-129). *)
Lemma produce ps cl w p (o : nat) f :
  waiting ps -> chan w p -> sem_proxy_ready p = 0%nat -> chunk_at o <> [] ->
  coop segsize (4 + f) (sys1 w ps cl (WRead t wseg c (Z.of_nat o))) =
  coop segsize f (sys1 (produce_world w p o) ps cl
                   (WWaitCache t wseg c (Z.of_nat (o + length (chunk_at o))))).
Proof.
  intros Hw Hc H0 Hne. pose proof Hc as (Hp & Hl & Hb & Hd).
  assert (Hfit : (length (chunk_at o) <= length (data p))%nat)
    by (rewrite Hl; apply chunk_at_length).
  pose proof (chan_write (set_data (overwrite_prefix (chunk_at o) (data p))) _ _ Hc
                (overwrite_chunk p o Hl)) as Hc1.
  pose proof (chan_write (set_datalen (Z.of_nat (length (chunk_at o)))) _ _ Hc1
                (overwrite_chunk p o Hl)) as Hc2.
  pose proof (chan_write (set_is_last (last_flag (length (chunk_at o)))) _ _ Hc2
                (overwrite_chunk p o Hl)) as Hc3.
  cbn [Nat.add].
  erewrite (coop_worker_waiting _ _ _ _ _ _ _ _ Hw Hc H0);
    [|exact (worker_read_chunk t wseg c w p ltac:(rewrite wseg_payload; exact Hp) o m Hm Hne Hfit)].
  rewrite !wseg_write. change (take m (drop o c)) with (chunk_at o).
  erewrite (coop_worker_waiting _ _ _ _ _ _ _ _ Hw Hc1 H0); [|reflexivity].
  rewrite !wseg_write.
  erewrite (coop_worker_waiting _ _ _ _ _ _ _ _ Hw Hc2 H0);
    [|exact (worker_set_last _ _ _ _ _ _ m Hm Hm_small)].
  rewrite !wseg_write. fold (last_flag (length (chunk_at o))).
  erewrite (coop_worker_waiting _ _ _ _ _ _ _ _ Hw Hc3 H0); [|reflexivity].
  rewrite !wseg_write.
  reflexivity.
Qed.

(** *** The handler's side of a chunk *)

Lemma next_to_body w p sent cl ws k f :
  seg_payload w pseg = Some p -> sem_proxy_ready p = S k ->
  coop segsize (S f) (sys1 w (PWaitNext pseg sent) cl ws) =
  coop segsize f (sys1 (write_seg take_proxy_ready pseg w) (PBody pseg sent) cl ws).
Proof. intros Hp Hk. apply coop_S, coop_proxy. eapply proxy_wait_next_go; eassumption. Qed.

(** The first chunk: the success header carries the total size. *)
Lemma first_to_body w p ws k f :
  seg_payload w pseg = Some p -> sem_proxy_ready p = S k -> datalen p <> 0 ->
  coop segsize (2 + f) (sys1 w (PWaitFirst pseg) client0 ws) =
  coop segsize f (sys1 (write_seg take_proxy_ready pseg w) (PBody pseg 0)
                   (send_header GF_OK (total_file_size p) client0) ws).
Proof.
  intros Hp Hk Hd. cbn [Nat.add].
  rewrite (coop_S _ _ _ _ (coop_proxy _ _ _ _ _ _ _ _
             (proxy_wait_first_go segsize pseg client0 w p Hp k Hk))).
  apply coop_S, coop_proxy.
  exact (proxy_first_ok segsize pseg client0 _ (take_proxy_ready p)
           (seg_payload_write _ _ _ _ Hp) Hd).
Qed.

(** The bytes the handler forwards from a payload holding [n] bytes. *)
Lemma forwarded_bytes (p : payload) (b : list byte) :
  take (Z.to_nat (Z.of_nat (length b))) (overwrite_prefix b (data p)) = b.
Proof. rewrite Nat2Z.id. apply overwrite_prefix_take. Qed.

(** The handler forwards the [n] bytes the payload announces. *)
Lemma proxy_forward segsize' w p b sent cl :
  seg_payload w pseg = Some p -> datalen p = Z.of_nat (length b) ->
  Z.of_nat (length b) <= proxy_capacity segsize' -> take (length b) (data p) = b ->
  proxy_step segsize' EOk (PBody pseg sent) cl w =
    Some (PPost pseg (sent + Z.of_nat (length b)), send_body b cl, w).
Proof.
  intros Hp Hd Hle Hb. rewrite (proxy_body_ok segsize' pseg cl w p Hp sent) by lia.
  rewrite Hd, Nat2Z.id, Hb. reflexivity.
Qed.

(** Forward a chunk that is not the last, post, and wait again
    (lines 91-117). *)
Lemma body_more w p b sent cl ws f :
  seg_payload w pseg = Some p -> datalen p = Z.of_nat (length b) -> (length b <= m)%nat ->
  take (length b) (data p) = b -> is_last_chunk p = 0 ->
  coop segsize (3 + f) (sys1 w (PBody pseg sent) cl ws) =
  coop segsize f (sys1 (write_seg post_cache_ready pseg w)
    (PWaitNext pseg (sent + Z.of_nat (length b))) (send_body b cl) ws).
Proof.
  intros Hp Hd Hle Hb Hl. cbn [Nat.add].
  rewrite (coop_S _ _ _ _ (coop_proxy _ _ _ _ _ _ _ _
             (proxy_forward segsize w p b sent cl Hp Hd ltac:(lia) Hb))).
  erewrite coop_S; [|apply coop_proxy; reflexivity].
  apply coop_S, coop_proxy. eapply proxy_check_more; [apply seg_payload_write, Hp|exact Hl].
Qed.

(** Forward the last chunk, post, and give the segment back
    (lines 91-112, 120-124). *)
Lemma body_last w p b sent cl ws f :
  seg_payload w pseg = Some p -> datalen p = Z.of_nat (length b) -> (length b <= m)%nat ->
  take (length b) (data p) = b -> is_last_chunk p <> 0 ->
  coop segsize (4 + f) (sys1 w (PBody pseg sent) cl ws) =
  let w' := write_seg post_cache_ready pseg w in
  coop segsize f (sys1 (set_pool (steque_enqueue (w_pool w') pseg) w')
    (PDone (sent + Z.of_nat (length b))) (send_body b cl) ws).
Proof.
  intros Hp Hd Hle Hb Hl. cbn [Nat.add].
  rewrite (coop_S _ _ _ _ (coop_proxy _ _ _ _ _ _ _ _
             (proxy_forward segsize w p b sent cl Hp Hd ltac:(lia) Hb))).
  erewrite coop_S; [|apply coop_proxy; reflexivity].
  erewrite coop_S;
    [|apply coop_proxy; eapply proxy_check_last; [apply seg_payload_write, Hp|exact Hl]].
  apply coop_S, coop_proxy. reflexivity.
Qed.

(** *** The worker's acknowledgement *)

Lemma ack_more w p o sent cl f :
  chan w p -> sem_proxy_ready p = 0%nat -> sem_cache_ready p = 1%nat -> is_last_chunk p = 0 ->
  coop segsize (2 + f) (sys1 w (PWaitNext pseg sent) cl (WWaitCache t wseg c o)) =
  coop segsize f (sys1 (write_seg take_cache_ready pseg w) (PWaitNext pseg sent) cl
                   (WRead t wseg c o)).
Proof.
  intros Hc H0 H1 Hl. pose proof Hc as (Hp & Hlen & _).
  assert (Hw : waiting (PWaitNext pseg sent)) by (right; eauto).
  cbn [Nat.add].
  erewrite (coop_worker_waiting _ _ _ _ _ _ _ _ Hw Hc H0);
    [|exact (worker_wait_go t wseg c w p ltac:(rewrite wseg_payload; exact Hp) o 0 H1)].
  rewrite wseg_write.
  erewrite (coop_worker_waiting _ _ _ _ _ _ _ _ Hw (chan_write take_cache_ready _ _ Hc Hlen) H0);
    [|exact (worker_check_more t wseg c _ (take_cache_ready p)
               ltac:(rewrite wseg_payload; apply seg_payload_write, Hp) o Hl)].
  reflexivity.
Qed.

(** A worker step after the handler has returned. *)
Lemma coop_worker_done r cl w ws ws' w' n :
  w_backlog w = [] -> w_daemon_up w = true -> worker_step EOk ws w = Some (ws', w') ->
  coop segsize (S n) (sys1 w (PDone r) cl ws) = coop segsize n (sys1 w' (PDone r) cl ws').
Proof. intros Hb Hd E. apply coop_S, coop_worker; try assumption. reflexivity. Qed.

Lemma ack_last w p o r cl f :
  chan w p -> sem_cache_ready p = 1%nat -> is_last_chunk p <> 0 ->
  coop segsize (2 + f) (sys1 w (PDone r) cl (WWaitCache t wseg c o)) =
  coop segsize f (sys1 (close_my_fd (write_seg take_cache_ready pseg w)) (PDone r) cl WIdle).
Proof.
  intros (Hp & _ & Hb & Hd) H1 Hl. cbn [Nat.add].
  erewrite coop_worker_done; [|exact Hb|exact Hd
    |exact (worker_wait_go t wseg c w p ltac:(rewrite wseg_payload; exact Hp) o 0 H1)].
  rewrite wseg_write.
  erewrite coop_worker_done;
    [|by autorewrite with cache_simpl|by autorewrite with cache_simpl
     |exact (worker_check_last t wseg c _ (take_cache_ready p)
               ltac:(rewrite wseg_payload; apply seg_payload_write, Hp) o Hl)].
  reflexivity.
Qed.

(** The world after the worker signalled an empty last chunk
    ([datalen = 0], [is_last_chunk = 1], [sem_post]), closing [my_fd]
    when it had one. *)
Definition signal_world (b : bool) (w : world) : world :=
  let w' := write_seg post_proxy_ready pseg (write_seg (set_is_last 1) pseg
              (write_seg (set_datalen 0) pseg w)) in
  if b then close_my_fd w' else w'.

Definition eof_world (w : world) : world := signal_world true w.

Definition eof_payload (p : payload) : payload :=
  post_proxy_ready (set_is_last 1 (set_datalen 0 p)).

(** The empty last chunk, signalled while the handler waits (lines
    82-86 on a miss, 117-121 at the end of the file). *)
Lemma signal_end ps cl w p b f :
  waiting ps -> chan w p -> sem_proxy_ready p = 0%nat ->
  coop segsize (3 + f) (sys1 w ps cl (WZeroLen t wseg b)) =
  coop segsize f (sys1 (signal_world b w) ps cl WIdle).
Proof.
  intros Hw Hc H0. pose proof Hc as (Hp & Hl & _).
  pose proof (chan_write (set_datalen 0) _ _ Hc Hl) as Hc1.
  pose proof (chan_write (set_is_last 1) _ _ Hc1 Hl) as Hc2.
  cbn [Nat.add].
  erewrite (coop_worker_waiting _ _ _ _ _ _ _ _ Hw Hc H0); [|reflexivity].
  rewrite !wseg_write.
  erewrite (coop_worker_waiting _ _ _ _ _ _ _ _ Hw Hc1 H0); [|reflexivity].
  rewrite !wseg_write.
  erewrite (coop_worker_waiting _ _ _ _ _ _ _ _ Hw Hc2 H0); [|reflexivity].
  rewrite !wseg_write. reflexivity.
Qed.

(** A zero-byte [pread]: the worker signals an empty last chunk and
    closes its descriptor (lines 116-121, 135). *)
Lemma produce_zero ps cl w p (o : nat) f :
  waiting ps -> chan w p -> sem_proxy_ready p = 0%nat -> drop o c = [] ->
  coop segsize (4 + f) (sys1 w ps cl (WRead t wseg c (Z.of_nat o))) =
  coop segsize f (sys1 (eof_world w) ps cl WIdle).
Proof.
  intros Hw Hc H0 He. pose proof Hc as (Hp & _). cbn [Nat.add].
  erewrite (coop_worker_waiting _ _ _ _ _ _ _ _ Hw Hc H0);
    [|exact (worker_read_eof t wseg c w p ltac:(rewrite wseg_payload; exact Hp) o m Hm He)].
  apply (signal_end _ _ _ p); assumption.
Qed.

Lemma chan_signal b w p : chan w p -> chan (signal_world b w) (eof_payload p).
Proof.
  intros Hc. pose proof Hc as (_ & Hl & _).
  assert (H : chan (write_seg post_proxy_ready pseg (write_seg (set_is_last 1) pseg
                (write_seg (set_datalen 0) pseg w))) (eof_payload p))
    by (unfold eof_payload; repeat (apply chan_write; [|exact Hl]); exact Hc).
  destruct H as (? & ? & ? & ?). unfold signal_world, close_my_fd.
  destruct b; repeat split; assumption.
Qed.

Lemma chan_eof w p : chan w p -> chan (eof_world w) (eof_payload p).
Proof. apply chan_signal. Qed.

(** An empty first chunk: the handler answers [GF_ERROR] and gives the
    segment back (lines 72-79, 126-131). *)
Lemma first_error w p ws k f :
  seg_payload w pseg = Some p -> sem_proxy_ready p = S k -> datalen p = 0 ->
  coop segsize (3 + f) (sys1 w (PWaitFirst pseg) client0 ws) =
  let w' := write_seg take_proxy_ready pseg w in
  coop segsize f (sys1 (set_pool (steque_enqueue (w_pool w') pseg) w') (PDone 0)
                   (send_header GF_ERROR 0 client0) ws).
Proof.
  intros Hp Hk Hd. cbn [Nat.add].
  rewrite (coop_S _ _ _ _ (coop_proxy _ _ _ _ _ _ _ _
             (proxy_wait_first_go segsize pseg client0 w p Hp k Hk))).
  rewrite (coop_S _ _ _ _ (coop_proxy _ _ _ _ _ _ _ _
             (proxy_first_empty segsize pseg client0 _ (take_proxy_ready p)
                (seg_payload_write _ _ _ _ Hp) EOk Hd))).
  apply coop_S, coop_proxy. reflexivity.
Qed.

(** Nothing moves once the handler has returned and the worker is idle
    with an empty queue. *)
Lemma coop_final w r cl f :
  w_backlog w = [] -> w_queue w = [] ->
  coop segsize f (sys1 w (PDone r) cl WIdle) = sys1 w (PDone r) cl WIdle.
Proof.
  intros Hb Hq. apply coop_stuck, coop_none; [reflexivity|exact Hb|].
  unfold worker_step. rewrite Hq. reflexivity.
Qed.

(** ** The loop *)

Lemma chunk_full o : (m <= length (drop o c))%nat -> length (chunk_at o) = m.
Proof. intros H. unfold chunk_at. rewrite length_take. lia. Qed.

Lemma chunk_short o : (length (drop o c) < m)%nat -> chunk_at o = drop o c.
Proof. intros H. unfold chunk_at. apply take_ge. lia. Qed.

Lemma produced_take p o :
  take (length (chunk_at o)) (data (produced p o)) = chunk_at o.
Proof. apply overwrite_prefix_take. Qed.

Lemma last_flag_full : last_flag m = 0.
Proof. unfold last_flag. rewrite Z.ltb_irrefl. reflexivity. Qed.

Lemma last_flag_short n : (n < m)%nat -> last_flag n = 1.
Proof. intros H. unfold last_flag. destruct (Z.ltb_spec (Z.of_nat n) (Z.of_nat m)); lia. Qed.

Definition iter_world (w : world) (p : payload) (o : nat) : world :=
  write_seg take_cache_ready pseg (write_seg post_cache_ready pseg
    (write_seg take_proxy_ready pseg (produce_world w p o))).

Definition iter_payload (p : payload) (o : nat) : payload :=
  take_cache_ready (post_cache_ready (take_proxy_ready (produced p o))).

Lemma chan_iter w p o : chan w p -> chan (iter_world w p o) (iter_payload p o).
Proof.
  intros Hc. pose proof (chan_produced w p o Hc) as Hc'.
  pose proof Hc' as (_ & Hl & _).
  unfold iter_world, iter_payload. do 3 (apply chan_write; [|exact Hl]). exact Hc'.
Qed.

(** One full chunk of the loop: ten steps, the handler's offset and the
    worker's advance by [m] and the chunk reaches the client. *)
Lemma iter_full w p (o : nat) sent cl f :
  chan w p -> sem_proxy_ready p = 0%nat -> sem_cache_ready p = 0%nat ->
  (m <= length (drop o c))%nat ->
  coop segsize (10 + f) (sys1 w (PWaitNext pseg sent) cl (WRead t wseg c (Z.of_nat o))) =
  coop segsize f (sys1 (iter_world w p o) (PWaitNext pseg (sent + Z.of_nat m))
                   (send_body (chunk_at o) cl) (WRead t wseg c (Z.of_nat (o + m)))).
Proof.
  intros Hc H0 H1 Hfull. pose proof (chunk_full o Hfull) as Hlen.
  assert (Hne : chunk_at o <> []) by (intros E; rewrite E in Hlen; simpl in Hlen; lia).
  pose proof (chan_produced w p o Hc) as Hc4. pose proof Hc4 as (Hp4 & Hl4 & _).
  change (10 + f)%nat with (4 + S (3 + (2 + f)))%nat.
  rewrite (produce _ _ w p o) by (try (right; eauto); assumption).
  rewrite (next_to_body _ _ _ _ _ (sem_proxy_ready p) _ Hp4) by (simpl; lia).
  rewrite (body_more _ (take_proxy_ready (produced p o)) (chunk_at o))
    by first [apply seg_payload_write, Hp4 | reflexivity | lia | apply produced_take
             | simpl; rewrite Hlen; apply last_flag_full].
  rewrite Hlen.
  rewrite (ack_more _ (post_cache_ready (take_proxy_ready (produced p o))));
    [reflexivity| |simpl; lia|simpl; lia|simpl; rewrite Hlen; apply last_flag_full].
  do 2 (apply chan_write; [|exact Hl4]). exact Hc4.
Qed.

Lemma chan_set_pool q w p : chan w p -> chan (set_pool q w) p.
Proof. intros (? & ? & ? & ?). repeat split; assumption. Qed.

(** The world after the handler forwarded the payload's chunk, posted
    and gave the segment back. *)
Definition release_world (w : world) : world :=
  let w' := write_seg post_cache_ready pseg (write_seg take_proxy_ready pseg w) in
  set_pool (steque_enqueue (w_pool w') pseg) w'.

(** ... and after the worker took the post and closed [my_fd]. *)
Definition last_world (w : world) (p : payload) (o : nat) : world :=
  close_my_fd (write_seg take_cache_ready pseg (release_world (produce_world w p o))).

Lemma chan_release w p :
  chan w p -> chan (release_world w) (post_cache_ready (take_proxy_ready p)).
Proof.
  intros Hc. pose proof Hc as (_ & Hl & _). unfold release_world.
  apply chan_set_pool. do 2 (apply chan_write; [|exact Hl]). exact Hc.
Qed.

(** The short last chunk, from the handler waiting for its next chunk. *)
Lemma iter_last w p (o : nat) sent cl f :
  chan w p -> sem_proxy_ready p = 0%nat -> sem_cache_ready p = 0%nat -> w_queue w = [] ->
  (0 < length (drop o c) < m)%nat ->
  coop segsize (11 + f) (sys1 w (PWaitNext pseg sent) cl (WRead t wseg c (Z.of_nat o))) =
  sys1 (last_world w p o) (PDone (sent + Z.of_nat (length (drop o c))))
    (send_body (drop o c) cl) WIdle.
Proof.
  intros Hc H0 H1 Hq Hr. pose proof (chunk_short o ltac:(lia)) as Hch.
  assert (Hne : chunk_at o <> []) by (rewrite Hch; intros E; rewrite E in Hr; simpl in Hr; lia).
  pose proof (chan_produced w p o Hc) as Hc4. pose proof Hc4 as (Hp4 & Hl4 & Hb4 & _).
  change (11 + f)%nat with (4 + S (4 + (2 + f)))%nat.
  rewrite (produce _ _ w p o) by (try (right; eauto); assumption).
  rewrite (next_to_body _ _ _ _ _ (sem_proxy_ready p) _ Hp4) by (simpl; lia).
  rewrite (body_last _ (take_proxy_ready (produced p o)) (chunk_at o))
    by first [apply seg_payload_write, Hp4 | reflexivity | apply chunk_at_length
             | apply produced_take
             | simpl; rewrite last_flag_short; [lia|rewrite Hch; lia]].
  cbv zeta. rewrite (ack_last _ (post_cache_ready (take_proxy_ready (produced p o))));
    [|exact (chan_release _ _ Hc4)|simpl; lia
     |simpl; rewrite last_flag_short; [lia|rewrite Hch; lia]].
  pose proof Hc as (_ & _ & Hb & _).
  rewrite coop_final;
    [|unfold last_world, release_world, produce_world, close_my_fd; frame_tac..].
  rewrite Hch. reflexivity.
Qed.

(** The world after an empty last chunk was signalled, forwarded and the
    segment given back; the worker never takes the handler's post. *)
Definition zero_world (w : world) : world := release_world (eof_world w).

(** The empty last chunk, when the content is a multiple of the chunk
    size. *)
Lemma iter_zero w p (o : nat) sent cl f :
  chan w p -> sem_proxy_ready p = 0%nat -> w_queue w = [] -> drop o c = [] ->
  coop segsize (9 + f) (sys1 w (PWaitNext pseg sent) cl (WRead t wseg c (Z.of_nat o))) =
  sys1 (zero_world w) (PDone sent) (send_body [] cl) WIdle.
Proof.
  intros Hc H0 Hq He. pose proof (chan_eof w p Hc) as Hce. pose proof Hce as (Hpe & _).
  change (9 + f)%nat with (4 + S (4 + f))%nat.
  rewrite (produce_zero _ _ w p o) by (try (right; eauto); assumption).
  rewrite (next_to_body _ _ _ _ _ (sem_proxy_ready p) _ Hpe) by (simpl; lia).
  rewrite (body_last _ (take_proxy_ready (eof_payload p)) [])
    by first [apply seg_payload_write, Hpe | reflexivity | simpl; lia].
  pose proof Hc as (_ & _ & Hb & _).
  cbv zeta. rewrite coop_final; [|unfold eof_world, signal_world, close_my_fd; frame_tac..].
  rewrite Z.add_0_r. reflexivity.
Qed.

(** What holds once the transfer is over: the segment is back in the
    pool, the worker closed [my_fd], the parts of the world the transfer
    does not touch are unchanged, and [sem_cache_ready] keeps a post
    exactly when the last chunk was empty. *)
Definition done_facts (pool : list segment) (dp : proc) (lst : bool)
    (st : gmap string (list byte)) (ns : shm_ns) (stale : bool) (w : world) : Prop :=
  w_pool w = pool ++ [pseg] /\ w_backlog w = [] /\ w_queue w = [] /\
  w_dproc w = proc_close dp /\ w_listening w = lst /\ w_store w = st /\ w_daemon_up w = true /\
  ns_off (seg_addr pseg) ns (w_ns w) /\
  exists p, seg_payload w pseg = Some p /\ length (data p) = m /\ sem_proxy_ready p = 0%nat /\
            sem_cache_ready p = (if stale then 1 else 0)%nat.

Lemma done_facts_ns pool dp lst st ns ns1 stale w :
  ns_off (seg_addr pseg) ns ns1 -> done_facts pool dp lst st ns1 stale w ->
  done_facts pool dp lst st ns stale w.
Proof.
  intros H (A & B & C & D & E & F & G & N & R).
  refine (conj A (conj B (conj C (conj D (conj E (conj F (conj G (conj _ R)))))))).
  exact (ns_off_trans _ _ _ _ H N).
Qed.

Lemma last_world_facts w p o :
  chan w p -> sem_proxy_ready p = 0%nat -> sem_cache_ready p = 0%nat -> w_queue w = [] ->
  done_facts (w_pool w) (w_dproc w) (w_listening w) (w_store w) (w_ns w) false (last_world w p o).
Proof.
  intros Hc H0 H1 Hq. pose proof Hc as (_ & Hl & Hb & Hd).
  pose proof (chan_produced w p o Hc) as (Hp4 & Hl4 & _).
  unfold done_facts, last_world, release_world, produce_world, close_my_fd.
  repeat split; frame_tac; try match goal with |- ns_off _ _ _ => ns_off_tac end.
  eexists. split; [do 3 apply seg_payload_write; exact Hp4|]. split; [exact Hl4|]. simpl. lia.
Qed.

Lemma zero_world_facts w p :
  chan w p -> sem_proxy_ready p = 0%nat -> sem_cache_ready p = 0%nat -> w_queue w = [] ->
  done_facts (w_pool w) (w_dproc w) (w_listening w) (w_store w) (w_ns w) true (zero_world w).
Proof.
  intros Hc H0 H1 Hq. pose proof (chan_eof w p Hc) as (Hpe & Hle & Hb & _).
  pose proof Hc as (_ & _ & Hb0 & Hd0).
  unfold done_facts, zero_world, release_world, eof_world, signal_world, close_my_fd in *.
  repeat split; frame_tac; try match goal with |- ns_off _ _ _ => ns_off_tac end.
  eexists. split; [do 2 apply seg_payload_write; exact Hpe|]. split; [exact Hle|]. simpl. lia.
Qed.

Lemma drop_mod_step o :
  (m <= length (drop o c))%nat ->
  (length (drop (o + m) c) mod m = length (drop o c) mod m)%nat.
Proof.
  intros H. rewrite !length_drop in *.
  replace (length c - o)%nat with ((length c - (o + m)) + 1 * m)%nat by lia.
  rewrite Nat.Div0.mod_add. reflexivity.
Qed.

(** The rest of the transfer from the top of the loop, by induction on
    the number [q] of full chunks left. *)
(** The end of the loop: fewer than [m] bytes left. *)
Lemma loop_end (o : nat) w p hs f :
  (o <= length c)%nat -> (length (drop o c) < m)%nat ->
  chan w p -> sem_proxy_ready p = 0%nat -> sem_cache_ready p = 0%nat -> w_queue w = [] ->
  let stale := (length (drop o c) mod m =? 0)%nat in
  exists w',
    coop segsize (10 * 0 + (if stale then 9 else 11) + f)
      (sys1 w (PWaitNext pseg (Z.of_nat o)) (mkClient hs (take o c)) (WRead t wseg c (Z.of_nat o))) =
    sys1 w' (PDone (Z.of_nat (length c))) (mkClient hs c) WIdle /\
    done_facts (w_pool w) (w_dproc w) (w_listening w) (w_store w) (w_ns w) stale w'.
Proof.
  intros Ho Hq Hc H0 H1 Hqu stale.
  destruct (length (drop o c)) as [|r] eqn:Er.
  - assert (He : drop o c = []) by (apply length_zero_iff_nil; exact Er).
    assert (Hoc : o = length c) by (rewrite length_drop in Er; lia).
    subst stale. rewrite Nat.Div0.mod_0_l, Nat.eqb_refl. simpl Nat.mul.
    exists (zero_world w). split; [|exact (zero_world_facts w p Hc H0 H1 Hqu)].
    rewrite (iter_zero w p o _ _ f Hc H0 Hqu He). unfold send_body. simpl.
    rewrite app_nil_r, take_ge, Hoc by lia. reflexivity.
  - assert (Hr : (S r < m)%nat) by lia.
    subst stale. rewrite Nat.mod_small, Nat.eqb_sym by exact Hr. simpl Nat.eqb. simpl Nat.mul.
    exists (last_world w p o). split; [|exact (last_world_facts w p o Hc H0 H1 Hqu)].
    rewrite (iter_last w p o _ _ f Hc H0 H1 Hqu) by lia. unfold send_body. simpl.
    rewrite take_drop, length_drop.
    replace (Z.of_nat o + Z.of_nat (length c - o)) with (Z.of_nat (length c)) by lia.
    reflexivity.
Qed.

Lemma loop_rest q : forall (o : nat) w p hs f,
  (o <= length c)%nat -> (q * m <= length (drop o c) < S q * m)%nat ->
  chan w p -> sem_proxy_ready p = 0%nat -> sem_cache_ready p = 0%nat -> w_queue w = [] ->
  let stale := (length (drop o c) mod m =? 0)%nat in
  exists w',
    coop segsize (10 * q + (if stale then 9 else 11) + f)
      (sys1 w (PWaitNext pseg (Z.of_nat o)) (mkClient hs (take o c)) (WRead t wseg c (Z.of_nat o))) =
    sys1 w' (PDone (Z.of_nat (length c))) (mkClient hs c) WIdle /\
    done_facts (w_pool w) (w_dproc w) (w_listening w) (w_store w) (w_ns w) stale w'.
Proof.
  induction q as [|q IH]; intros o w p hs f Ho Hq Hc H0 H1 Hqu stale.
  - exact (loop_end o w p hs f Ho ltac:(lia) Hc H0 H1 Hqu).
  - assert (Hfull : (m <= length (drop o c))%nat) by lia.
    replace (10 * S q + (if stale then 9 else 11) + f)%nat
      with (10 + (10 * q + (if stale then 9 else 11) + f))%nat by lia.
    rewrite (iter_full w p o _ _ _ Hc H0 H1 Hfull).
    pose proof (chan_iter w p o Hc) as Hc'.
    destruct (IH (o + m)%nat (iter_world w p o) (iter_payload p o) hs f) as (w' & E & F).
    { rewrite length_drop in Hfull. lia. }
    { rewrite length_drop in *. lia. }
    { exact Hc'. }
    { simpl. lia. }
    { simpl. lia. }
    { unfold iter_world, produce_world. frame_tac. }
    exists w'. unfold stale. rewrite <- (drop_mod_step o Hfull).
    unfold send_body. cbn [c_headers c_body].
    replace (take o c ++ chunk_at o) with (take (o + m) c)
      by (unfold chunk_at; rewrite take_take_drop; reflexivity).
    replace (Z.of_nat o + Z.of_nat m) with (Z.of_nat (o + m)) by lia.
    rewrite E. split; [reflexivity|].
    unfold iter_world, produce_world in F. revert F. frame_tac. intros F.
    eapply done_facts_ns; [|exact F]. ns_off_tac.
Qed.

(** The steps from the first wait to the end, for a non-empty file. *)
Definition transfer_steps (n : nat) : nat :=
  if (n <? m)%nat then 12 else 1 + 10 * (n / m) + (if (n mod m =? 0)%nat then 9 else 11).

Lemma transfer_steps_le n : (transfer_steps n <= 10 * (n / m) + 12)%nat.
Proof.
  unfold transfer_steps. destruct (Nat.ltb_spec n m); [lia|].
  destruct (n mod m =? 0)%nat; lia.
Qed.

(** From the first wait: the first chunk sends the header, the loop
    does the rest. *)
(** The first chunk of a non-empty file is not empty. *)
Lemma first_chunk_nonempty p :
  (0 < length c)%nat -> chunk_at 0 <> [] /\ datalen (take_proxy_ready (produced p 0)) <> 0.
Proof.
  intros Hpos. assert (Hne : chunk_at 0 <> []).
  { unfold chunk_at. rewrite drop_0. destruct c; [simpl in Hpos; lia|]. destruct m; [lia|]. discriminate. }
  split; [exact Hne|]. simpl. destruct (chunk_at 0); [congruence|]. simpl. lia.
Qed.

(** A file shorter than a chunk: one short chunk, then the handler
    releases the segment. *)
Lemma transfer_short w p f :
  chan w p -> sem_proxy_ready p = 0%nat -> sem_cache_ready p = 0%nat -> w_queue w = [] ->
  total_file_size p = Z.of_nat (length c) -> (0 < length c < m)%nat ->
  exists w',
    coop segsize (12 + f) (sys1 w (PWaitFirst pseg) client0 (WRead t wseg c 0)) =
    sys1 w' (PDone (Z.of_nat (length c))) (mkClient [(GF_OK, Z.of_nat (length c))] c) WIdle /\
    done_facts (w_pool w) (w_dproc w) (w_listening w) (w_store w) (w_ns w) (length c mod m =? 0)%nat w'.
Proof.
  intros Hc H0 H1 Hq Ht Hlt.
  pose proof (chan_produced w p 0 Hc) as Hc4. pose proof Hc4 as (Hp4 & Hl4 & _).
  destruct (first_chunk_nonempty p ltac:(lia)) as [Hne Hdl].
  pose proof (chunk_short 0 ltac:(rewrite drop_0; lia)) as Hch. rewrite drop_0 in Hch.
  change (12 + f)%nat with (4 + (2 + (4 + (2 + f))))%nat.
  rewrite (produce _ _ w p 0) by first [assumption | left; reflexivity].
  rewrite (first_to_body _ _ _ (sem_proxy_ready p) _ Hp4) by first [exact Hdl | simpl; lia].
  rewrite (body_last _ (take_proxy_ready (produced p 0)) (chunk_at 0))
    by first [apply seg_payload_write, Hp4 | reflexivity | apply chunk_at_length
             | apply produced_take
             | simpl; rewrite last_flag_short; [lia|rewrite Hch; lia]].
  cbv zeta. rewrite (ack_last _ (post_cache_ready (take_proxy_ready (produced p 0))));
    [|exact (chan_release _ _ Hc4)|simpl; lia
     |simpl; rewrite last_flag_short; [lia|rewrite Hch; lia]].
  pose proof Hc as (_ & _ & Hb & _).
  rewrite coop_final; [|unfold release_world, produce_world, close_my_fd; frame_tac..].
  exists (last_world w p 0). split.
  - rewrite Hch. change (total_file_size (produced p 0)) with (total_file_size p).
    rewrite Ht, Z.add_0_l. reflexivity.
  - rewrite Nat.mod_small by lia.
    destruct (length c) eqn:E; [lia|]. exact (last_world_facts w p 0 Hc H0 H1 Hq).
Qed.

(** A file of at least one chunk: a first full chunk, then the loop. *)
Lemma transfer_long w p f :
  chan w p -> sem_proxy_ready p = 0%nat -> sem_cache_ready p = 0%nat -> w_queue w = [] ->
  total_file_size p = Z.of_nat (length c) -> (m <= length c)%nat ->
  exists w',
    coop segsize (1 + 10 * (length c / m) + (if (length c mod m =? 0)%nat then 9 else 11) + f)
      (sys1 w (PWaitFirst pseg) client0 (WRead t wseg c 0)) =
    sys1 w' (PDone (Z.of_nat (length c))) (mkClient [(GF_OK, Z.of_nat (length c))] c) WIdle /\
    done_facts (w_pool w) (w_dproc w) (w_listening w) (w_store w) (w_ns w) (length c mod m =? 0)%nat w'.
Proof.
  intros Hc H0 H1 Hq Ht Hge.
  pose proof (chan_produced w p 0 Hc) as Hc4. pose proof Hc4 as (Hp4 & Hl4 & _).
  destruct (first_chunk_nonempty p ltac:(lia)) as [Hne Hdl].
  assert (Hfull : (m <= length (drop 0 c))%nat) by (rewrite drop_0; exact Hge).
  pose proof (chunk_full 0 Hfull) as Hlen.
  pose proof (Nat.div_mod (length c) m ltac:(lia)) as Hdm.
  pose proof (Nat.mod_upper_bound (length c) m ltac:(lia)) as Hmu.
  assert (Hd1 : (1 <= length c / m)%nat) by (apply Nat.div_le_lower_bound; lia).
  destruct (loop_rest (length c / m - 1) m (iter_world w p 0) (iter_payload p 0)
              [(GF_OK, Z.of_nat (length c))] f) as (w' & E & F);
    [lia|rewrite length_drop; nia|apply chan_iter, Hc|simpl; lia|simpl; lia
    |unfold iter_world, produce_world; frame_tac|].
  pose proof (drop_mod_step 0 Hfull) as Hmod. rewrite drop_0 in Hmod. simpl plus in Hmod.
  rewrite Hmod in E, F.
  exists w'. split;
    [|revert F; unfold iter_world, produce_world; frame_tac; intros F;
      eapply done_facts_ns; [|exact F]; ns_off_tac].
  replace (1 + 10 * (length c / m) + (if (length c mod m =? 0)%nat then 9 else 11) + f)%nat
    with (4 + (2 + (3 + (2 + (10 * (length c / m - 1)
           + (if (length c mod m =? 0)%nat then 9 else 11) + f)))))%nat by lia.
  rewrite (produce _ _ w p 0) by first [assumption | left; reflexivity].
  rewrite (first_to_body _ _ _ (sem_proxy_ready p) _ Hp4) by first [exact Hdl | simpl; lia].
  rewrite (body_more _ (take_proxy_ready (produced p 0)) (chunk_at 0))
    by first [apply seg_payload_write, Hp4 | reflexivity | lia | apply produced_take
             | simpl; rewrite Hlen; apply last_flag_full].
  rewrite Hlen.
  rewrite (ack_more _ (post_cache_ready (take_proxy_ready (produced p 0))));
    [|do 2 (apply chan_write; [|exact Hl4]); exact Hc4|simpl; lia|simpl; lia
     |simpl; rewrite Hlen; apply last_flag_full].
  rewrite <- E. unfold send_body, send_header, chunk_at. cbn [c_headers c_body client0 app].
  rewrite drop_0. change (total_file_size (produced p 0)) with (total_file_size p).
  rewrite Ht. reflexivity.
Qed.

Lemma transfer_from_first w p f :
  chan w p -> sem_proxy_ready p = 0%nat -> sem_cache_ready p = 0%nat -> w_queue w = [] ->
  total_file_size p = Z.of_nat (length c) -> (0 < length c)%nat ->
  exists w',
    coop segsize (transfer_steps (length c) + f)
      (sys1 w (PWaitFirst pseg) client0 (WRead t wseg c 0)) =
    sys1 w' (PDone (Z.of_nat (length c))) (mkClient [(GF_OK, Z.of_nat (length c))] c) WIdle /\
    done_facts (w_pool w) (w_dproc w) (w_listening w) (w_store w) (w_ns w) (length c mod m =? 0)%nat w'.
Proof.
  intros Hc H0 H1 Hq Ht Hpos. unfold transfer_steps.
  destruct (Nat.ltb_spec (length c) m).
  - apply (transfer_short w p f); auto.
  - apply (transfer_long w p f); auto.
Qed.

(** An empty first chunk, from the worker's signal to the handler's
    [GF_ERROR]: six steps, and the segment is back in the pool. *)
Lemma zero_first w p b f :
  chan w p -> sem_proxy_ready p = 0%nat -> w_queue w = [] ->
  exists w',
    coop segsize (6 + f) (sys1 w (PWaitFirst pseg) client0 (WZeroLen t wseg b)) =
    sys1 w' (PDone 0) (send_header GF_ERROR 0 client0) WIdle /\
    w_pool w' = w_pool w ++ [pseg].
Proof.
  intros Hc H0 Hq. pose proof (chan_signal b w p Hc) as (Hps & _ & Hb & _).
  pose proof Hc as (_ & _ & Hb0 & _).
  change (6 + f)%nat with (3 + (3 + f))%nat.
  rewrite (signal_end _ _ w p) by (try (left; reflexivity); assumption).
  rewrite (first_error _ (eof_payload p) _ (sem_proxy_ready p)) by first [exact Hps|simpl; lia].
  cbv zeta. eexists. split.
  - apply coop_final; unfold signal_world, close_my_fd; destruct b; frame_tac.
  - unfold signal_world, close_my_fd; destruct b; frame_tac.
Qed.
End Loop.

(** ** The whole transfer, from the client's request *)

Section EndToEnd.
Variables (segsize : Z) (name path : string) (pseg : segment) (rest : list segment).
Variables (w0 : world) (p0 : payload).
(** The proxy's segment [pseg], first in the pool, maps the object
    [name] created at [segsize] bytes, with both semaphores at 0. *)
Hypothesis Hname : shm_name pseg = name.
Hypothesis Haddr : seg_addr pseg = Some name.
Hypothesis Hreq : request_ok name path segsize.
Hypothesis Hsize : sizeof_payload < segsize.
Hypothesis Hpool : w_pool w0 = pseg :: rest.
Hypothesis Hback : w_backlog w0 = [].
Hypothesis Hqueue : w_queue w0 = [].
Hypothesis Hlisten : w_listening w0 = true.
Hypothesis Hup : w_daemon_up w0 = true.
Hypothesis Hp0 : seg_payload w0 pseg = Some p0.
Hypothesis Hpr0 : sem_proxy_ready p0 = 0%nat.
Hypothesis Hcr0 : sem_cache_ready p0 = 0%nat.
Hypothesis Hlen0 : length (data p0) = Z.to_nat (segsize - sizeof_payload).
(** The daemon has descriptors left for [shm_open] and [dup]. *)
Hypothesis Hfd : (S (open_fds (w_dproc w0)) < fd_limit)%nat.

Definition chunk_size : nat := Z.to_nat (segsize - sizeof_payload).
Definition the_task : task := mkTask name path segsize.
Definition worker_seg : segment :=
  mkSeg (strncpy_name name) segsize (Some name) (next_fd (w_dproc w0)).

Lemma chunk_size_spec : max_chunk the_task = Z.of_nat chunk_size.
Proof using Hreq Hsize.
  pose proof Hreq as (_ & _ & _ & _ & _ & _ & Hs). pose proof Hsize as Hz.
  revert Hs Hz. unfold max_chunk, chunk_size. simpl.
  unfold in_size_t, size_t_modulus, long_max. rewrite sizeof_payload_val. intros Hs Hz.
  clear -Hs Hz.
  rewrite size_sub_exact, Z2Nat.id; unfold in_size_t, size_t_modulus;
    rewrite ?sizeof_payload_val; lia.
Qed.

(** The handler asks, the boss accepts the connection (a descriptor
    it closes again) and queues the task, the worker pops it: five
    steps. *)
Lemma setup5 f :
  exists w5,
    coop segsize (5 + f) (sys1 w0 (PStart path) client0 WIdle) =
    coop segsize f (sys1 w5 (PWaitFirst pseg) client0 (WAttach the_task)) /\
    seg_payload w5 pseg = Some p0 /\ w_backlog w5 = [] /\ w_queue w5 = [] /\
    w_pool w5 = rest /\ w_daemon_up w5 = true /\ w_store w5 = w_store w0 /\
    w_dproc w5 = w_dproc w0 /\ w_listening w5 = true /\ w_ns w5 = w_ns w0.
Proof using Hname Haddr Hreq Hpool Hback Hqueue Hlisten Hup Hp0 Hpr0 Hfd.
  clear Hcr0 Hlen0 Hsize.
  cbn [Nat.add].
  erewrite coop_S; [|apply coop_proxy; unfold proxy_step; rewrite Hpool; reflexivity].
  erewrite coop_S; [|apply coop_proxy; unfold proxy_step; simpl; rewrite Hlisten; reflexivity].
  erewrite coop_S; [|apply coop_proxy; unfold proxy_step; reflexivity].
  erewrite coop_S.
  2:{ apply coop_boss.
      - apply (proxy_wait_first_blocked _ _ _ _ p0); [exact Hp0|exact Hpr0].
      - exact Hup.
      - unfold boss_step. simpl. rewrite Hback. simpl. rewrite (accept_ok _) by (cbn; lia).
        rewrite Hname, parse_request_line by exact Hreq. reflexivity. }
  erewrite coop_S.
  2:{ apply coop_worker.
      - apply (proxy_wait_first_blocked _ _ _ _ p0); [exact Hp0|exact Hpr0].
      - exact Hup.
      - reflexivity.
      - unfold worker_step. simpl. rewrite Hqueue. reflexivity. }
  eexists. split; [reflexivity|]. repeat split; simpl; try assumption; try reflexivity.
Qed.

(** ... and the worker attaches the segment: six steps. *)
Lemma setup f :
  exists w6,
    coop segsize (6 + f) (sys1 w0 (PStart path) client0 WIdle) =
    coop segsize f (sys1 w6 (PWaitFirst pseg) client0 (WGet the_task worker_seg)) /\
    seg_payload w6 pseg = Some p0 /\ w_backlog w6 = [] /\ w_queue w6 = [] /\
    w_pool w6 = rest /\ w_daemon_up w6 = true /\ w_store w6 = w_store w0 /\
    w_dproc w6 = proc_map (proc_open (w_dproc w0)) /\ w_listening w6 = true /\
    w_ns w6 = w_ns w0.
Proof using Hname Haddr Hreq Hsize Hpool Hback Hqueue Hlisten Hup Hp0 Hpr0 Hfd.
  clear Hcr0 Hlen0.
  assert (Hns : exists o, w_ns w0 !! name = Some o).
  { unfold seg_payload in Hp0. rewrite Haddr in Hp0.
    destruct (w_ns w0 !! name) as [o|]; [eauto|discriminate]. }
  destruct Hns as [o Ho].
  pose proof Hsize as Hs'. rewrite sizeof_payload_val in Hs'.
  destruct (setup5 (1 + f)) as (w5 & E5 & Hp5 & Hb5 & Hq5 & Hpool5 & Hup5 & Hst5 & Hd5 & Hl5 & Hns5).
  change (6 + f)%nat with (5 + (1 + f))%nat. rewrite E5. cbn [Nat.add].
  erewrite coop_S.
  2:{ apply coop_worker.
      - apply (proxy_wait_first_blocked _ _ _ _ p0); [exact Hp5|exact Hpr0].
      - exact Hup5.
      - exact Hb5.
      - unfold worker_step. simpl. rewrite Hns5, Hd5, (attach_ok _ _ _ _ o Ho) by (simpl; lia).
        reflexivity. }
  eexists. split; [reflexivity|]. repeat split; simpl; try assumption; try reflexivity.
Qed.

Lemma chunk_size_pos : (0 < chunk_size)%nat.
Proof using Hsize.
  pose proof Hsize as Hz. revert Hz. unfold chunk_size. rewrite sizeof_payload_val.
  clear. lia.
Qed.

Lemma chunk_size_small : Z.of_nat chunk_size < 2 ^ 63.
Proof using Hreq Hsize.
  pose proof Hreq as (_ & _ & _ & _ & _ & _ & Hs). pose proof Hsize as Hz.
  revert Hs Hz. unfold chunk_size, long_max. rewrite sizeof_payload_val. clear. lia.
Qed.

Lemma chunk_size_cap : proxy_capacity segsize = Z.of_nat chunk_size.
Proof using Hreq Hsize. exact chunk_size_spec. Qed.

(** The daemon's descriptors after a transfer: the [shm_open] of the
    attach and its mapping stay, [my_fd] was closed. *)
Definition dproc_after (d : proc) : proc := proc_close (proc_open (proc_map (proc_open d))).

(** The first six steps leave the worker about to look the key up. *)
Lemma after_setup_blocked w :
  seg_payload w pseg = Some p0 ->
  proxy_step segsize EOk (PWaitFirst pseg) client0 w = None.
Proof using Hpr0. intros Hp. eapply proxy_wait_first_blocked; eassumption. Qed.

(** The worker finds the file, records its size and is about to read the
    first chunk: eight steps from the request. *)
Lemma transfer_prepare c f :
  w_store w0 !! path = Some c ->
  exists w p,
    coop segsize (8 + f) (sys1 w0 (PStart path) client0 WIdle) =
    coop segsize f (sys1 w (PWaitFirst pseg) client0 (WRead the_task worker_seg c 0)) /\
    chan pseg chunk_size w p /\ sem_proxy_ready p = 0%nat /\
    sem_cache_ready p = sem_cache_ready p0 /\
    w_queue w = [] /\ total_file_size p = Z.of_nat (length c) /\ w_pool w = rest /\
    w_dproc w = proc_open (proc_map (proc_open (w_dproc w0))) /\
    w_listening w = true /\ w_store w = w_store w0 /\ ns_off (seg_addr pseg) (w_ns w0) (w_ns w).
Proof using Hname Haddr Hreq Hsize Hpool Hback Hqueue Hlisten Hup Hp0 Hpr0 Hlen0 Hfd.
  clear Hcr0.
  intros Hc.
  destruct (setup (2 + f))
    as (w6 & E6 & Hp6 & Hb6 & Hq6 & Hpool6 & Hup6 & Hst6 & Hd6 & Hl6 & Hns6).
  change (8 + f)%nat with (6 + (2 + f))%nat. rewrite E6. cbn [Nat.add].
  assert (Haddr' : seg_addr worker_seg = seg_addr pseg) by (rewrite Haddr; reflexivity).
  erewrite coop_S.
  2:{ apply coop_worker; [apply after_setup_blocked; exact Hp6|exact Hup6|exact Hb6|].
      assert (Hlim : (fd_limit <=? open_fds (proc_map (proc_open (w_dproc w0))))%nat = false)
        by (apply Nat.leb_gt; cbn [open_fds proc_map proc_open]; lia).
      unfold worker_step, the_task, simplecache_get. cbn [task_key]. rewrite Hst6, Hc, Hd6, Hlim.
      reflexivity. }
  erewrite coop_S.
  2:{ apply coop_worker; [apply after_setup_blocked; exact Hp6|exact Hup6|exact Hb6|reflexivity]. }
  rewrite (write_seg_addr _ _ _ _ Haddr').
  eexists. exists (set_total (Z.of_nat (length c)) p0). split; [reflexivity|].
  repeat split; [apply seg_payload_write, Hp6|exact Hlen0|frame_tac..|].
  apply ns_off_write; [reflexivity|]. cbn [w_ns set_dproc]. rewrite Hns6. apply ns_off_refl.
Qed.

(** A request for a non-empty file of the store, under the cooperative
    schedule. *)
Lemma transfer_run c f :
  w_store w0 !! path = Some c -> c <> [] ->
  exists w',
    coop segsize (8 + transfer_steps chunk_size (length c) + f)
      (sys1 w0 (PStart path) client0 WIdle) =
    sys1 w' (PDone (Z.of_nat (length c))) (mkClient [(GF_OK, Z.of_nat (length c))] c) WIdle /\
    done_facts pseg chunk_size rest (proc_open (proc_map (proc_open (w_dproc w0)))) true
      (w_store w0) (w_ns w0) (length c mod chunk_size =? 0)%nat w'.
Proof.
  intros Hc Hne.
  destruct (transfer_prepare c (transfer_steps chunk_size (length c) + f) Hc)
    as (w & p & E & Hch & H0 & H1 & Hq & Ht & Hpw & Hd & Hl & Hst & Hns).
  rewrite Hcr0 in H1. rewrite <- Nat.add_assoc, E.
  destruct (transfer_from_first segsize pseg worker_seg the_task c chunk_size
              ltac:(rewrite Haddr; reflexivity) chunk_size_spec chunk_size_pos chunk_size_small
              chunk_size_cap w p f Hch H0 H1 Hq Ht ltac:(destruct c; [congruence|simpl; lia]))
    as (w' & E' & F).
  exists w'. split; [exact E'|]. rewrite Hpw, Hd, Hl, Hst in F. eapply done_facts_ns; [exact Hns|exact F].
Qed.

(** The same with the fuel bounded by the explicit bound of
    [transfer_steps_le]: any fuel from [10 * (size / chunk) + 20] on
    reaches the final state. *)
Lemma transfer_run_fuel c fuel :
  w_store w0 !! path = Some c -> c <> [] ->
  (10 * (length c / chunk_size) + 20 <= fuel)%nat ->
  exists w',
    coop segsize fuel (sys1 w0 (PStart path) client0 WIdle) =
    sys1 w' (PDone (Z.of_nat (length c))) (mkClient [(GF_OK, Z.of_nat (length c))] c) WIdle /\
    done_facts pseg chunk_size rest (proc_open (proc_map (proc_open (w_dproc w0)))) true
      (w_store w0) (w_ns w0) (length c mod chunk_size =? 0)%nat w'.
Proof.
  intros Hc Hne Hf. pose proof (transfer_steps_le chunk_size chunk_size_pos (length c)) as Hle.
  replace fuel with (8 + transfer_steps chunk_size (length c)
                     + (fuel - 8 - transfer_steps chunk_size (length c)))%nat by lia.
  exact (transfer_run c _ Hc Hne).
Qed.

(** C1 (functional, end to end).  A client's request for a non-empty
    file of the store, sent through a segment the daemon can attach,
    is answered under the cooperative schedule with one [GF_OK] header
    carrying the file's size followed by exactly the file's bytes; the
    handler returns the size and the segment is back at the end of the
    pool.  [10 * (size / chunk) + 20] steps are enough. *)
Theorem transfer_delivers_file c fuel :
  w_store w0 !! path = Some c -> c <> [] ->
  (10 * (length c / chunk_size) + 20 <= fuel)%nat ->
  exists w',
    coop segsize fuel (sys1 w0 (PStart path) client0 WIdle) =
    sys1 w' (PDone (Z.of_nat (length c))) (mkClient [(GF_OK, Z.of_nat (length c))] c) WIdle /\
    w_pool w' = rest ++ [pseg].
Proof.
  intros Hc Hne Hf. destruct (transfer_run_fuel c fuel Hc Hne Hf) as (w' & E & Hpool' & _).
  exists w'. split; [exact E|exact Hpool'].
Qed.

(** The cooperative run of a request for a non-empty file of the
    store ends: after [8 + transfer_steps]
    steps it reaches a state in which no thread of either process can
    move, and any more fuel leaves it there. *)
Theorem transfer_terminates c :
  w_store w0 !! path = Some c -> c <> [] ->
  exists s, coop_step segsize s = None /\
    forall fuel, (8 + transfer_steps chunk_size (length c) <= fuel)%nat ->
      coop segsize fuel (sys1 w0 (PStart path) client0 WIdle) = s.
Proof.
  intros Hc Hne. destruct (transfer_run c 0 Hc Hne) as (w' & E & _ & Hb & Hq & _).
  rewrite Nat.add_0_r in E.
  assert (Hs : coop_step segsize
                 (sys1 w' (PDone (Z.of_nat (length c)))
                    (mkClient [(GF_OK, Z.of_nat (length c))] c) WIdle) = None).
  { apply coop_none; [reflexivity|exact Hb|unfold worker_step; rewrite Hq; reflexivity]. }
  eexists. split; [exact Hs|]. intros fuel Hf.
  replace fuel with (8 + transfer_steps chunk_size (length c)
                     + (fuel - (8 + transfer_steps chunk_size (length c))))%nat by lia.
  rewrite coop_after_stuck; rewrite E; [reflexivity|exact Hs].
Qed.

(** C6 (invariant violated: a stale post).  Every cooperative run of a
    request for a non-empty file of the store, given the fuel of
    [transfer_delivers_file], ends with the handler returned, the
    client served and the segment back in the pool; on that segment
    [sem_proxy_ready] is 0, and the handler's last
    [sem_post (sem_cache_ready)] has been consumed by the worker unless
    the file's size is a multiple of the chunk size: then the worker
    ends on the zero-byte read without waiting, and [sem_cache_ready]
    keeps a post that the next transfer on the segment will find. *)
Theorem transfer_stale_post c fuel :
  w_store w0 !! path = Some c -> c <> [] ->
  (10 * (length c / chunk_size) + 20 <= fuel)%nat ->
  exists w' p',
    coop segsize fuel (sys1 w0 (PStart path) client0 WIdle) =
    sys1 w' (PDone (Z.of_nat (length c))) (mkClient [(GF_OK, Z.of_nat (length c))] c) WIdle /\
    w_pool w' = rest ++ [pseg] /\
    seg_payload w' pseg = Some p' /\ sem_proxy_ready p' = 0%nat /\
    sem_cache_ready p' = (if (length c mod chunk_size =? 0)%nat then 1 else 0)%nat.
Proof.
  intros Hc Hne Hf.
  destruct (transfer_run_fuel c fuel Hc Hne Hf)
    as (w' & E & Hpool' & _ & _ & _ & _ & _ & _ & _ & p' & Hp' & _ & H0 & H1).
  exists w', p'. do 4 (split; [assumption|]).
  rewrite H1. destruct (length c mod chunk_size =? 0)%nat; reflexivity.
Qed.

(** C16 (resource leak).  Every cooperative run of a request for a
    non-empty file of the store, given the fuel of
    [transfer_delivers_file], leaves the daemon with one more open
    descriptor and one more mapping than it had: the worker's
    [shm_segment_attach] is never undone ([_worker_thread] never calls
    [munmap] or [close] on the segment); only [my_fd] is closed. *)
Theorem transfer_leaks_descriptor c fuel :
  w_store w0 !! path = Some c -> c <> [] ->
  (10 * (length c / chunk_size) + 20 <= fuel)%nat ->
  exists w',
    coop segsize fuel (sys1 w0 (PStart path) client0 WIdle) =
    sys1 w' (PDone (Z.of_nat (length c))) (mkClient [(GF_OK, Z.of_nat (length c))] c) WIdle /\
    open_fds (w_dproc w') = S (open_fds (w_dproc w0)) /\
    mappings (w_dproc w') = S (mappings (w_dproc w0)).
Proof.
  intros Hc Hne Hf. destruct (transfer_run_fuel c fuel Hc Hne Hf) as (w' & E & _ & _ & _ & Hd & _).
  exists w'. split; [exact E|]. rewrite Hd. split; reflexivity.
Qed.

(** C10 (error path; the spec asks for a not-found response).  A request
    for a key the store does not hold is answered with a [GF_ERROR]
    header and no body: the daemon's miss signal (an empty last chunk)
    reaches the handler's error path ([goto error]), which sends
    [GF_ERROR] rather than [GF_FILE_NOT_FOUND]; the segment is given
    back to the pool. *)
Theorem transfer_miss fuel :
  w_store w0 !! path = None -> (13 <= fuel)%nat ->
  exists w',
    coop segsize fuel (sys1 w0 (PStart path) client0 WIdle) =
    sys1 w' (PDone 0) (mkClient [(GF_ERROR, 0)] []) WIdle /\
    w_pool w' = rest ++ [pseg].
Proof.
  intros Hc Hf.
  destruct (setup (7 + (fuel - 13)))
    as (w6 & E6 & Hp6 & Hb6 & Hq6 & Hpool6 & Hup6 & Hst6 & Hd6 & Hl6 & _).
  replace fuel with (6 + (7 + (fuel - 13)))%nat by lia. rewrite E6. cbn [Nat.add].
  erewrite coop_S.
  2:{ apply coop_worker; [apply after_setup_blocked; exact Hp6|exact Hup6|exact Hb6|].
      unfold worker_step, the_task, simplecache_get. cbn [task_key]. rewrite Hst6, Hc. reflexivity. }
  assert (Haddr' : seg_addr worker_seg = seg_addr pseg) by (rewrite Haddr; reflexivity).
  destruct (zero_first segsize pseg worker_seg the_task chunk_size Haddr' chunk_size_pos w6 p0 false
              (fuel - 13)) as (w' & E & Hpool').
  - repeat split; assumption.
  - exact Hpr0.
  - exact Hq6.
  - exists w'. split; [exact E|]. rewrite Hpool', Hpool6. reflexivity.
Qed.

(** C23 (error path; a case the spec leaves open).  A request for an
    empty file of the store is answered exactly like a miss: the first
    [pread] returns 0, the worker signals an empty last chunk, and the
    handler cannot tell it from a miss; the client gets [GF_ERROR]. *)
Theorem transfer_empty_file fuel :
  w_store w0 !! path = Some [] -> (15 <= fuel)%nat ->
  exists w',
    coop segsize fuel (sys1 w0 (PStart path) client0 WIdle) =
    sys1 w' (PDone 0) (mkClient [(GF_ERROR, 0)] []) WIdle /\
    w_pool w' = rest ++ [pseg].
Proof.
  intros Hc Hf.
  destruct (setup (9 + (fuel - 15)))
    as (w6 & E6 & Hp6 & Hb6 & Hq6 & Hpool6 & Hup6 & Hst6 & Hd6 & Hl6 & _).
  replace fuel with (6 + (9 + (fuel - 15)))%nat by lia. rewrite E6. cbn [Nat.add].
  assert (Hlim : (fd_limit <=? open_fds (proc_map (proc_open (w_dproc w0))))%nat = false)
    by (apply Nat.leb_gt; cbn [open_fds proc_map proc_open]; lia).
  erewrite coop_S.
  2:{ apply coop_worker; [apply after_setup_blocked; exact Hp6|exact Hup6|exact Hb6|].
      unfold worker_step, the_task, simplecache_get. cbn [task_key]. rewrite Hst6, Hc, Hd6, Hlim.
      reflexivity. }
  assert (Haddr' : seg_addr worker_seg = seg_addr pseg) by (rewrite Haddr; reflexivity).
  erewrite coop_S.
  2:{ apply coop_worker; [apply after_setup_blocked; exact Hp6|exact Hup6|exact Hb6|].
      reflexivity. }
  rewrite (write_seg_addr _ _ _ _ Haddr').
  pose proof (seg_payload_write (set_total (Z.of_nat (length (@nil byte)))) pseg
                (set_dproc (proc_open (proc_map (proc_open (w_dproc w0)))) w6) p0 Hp6) as Hp8.
  erewrite coop_S.
  2:{ apply coop_worker; [eapply proxy_wait_first_blocked; [exact Hp8|exact Hpr0]|frame_tac
                         |frame_tac|].
      exact (worker_read_eof the_task worker_seg [] _ _
               ltac:(rewrite (seg_payload_addr _ _ _ Haddr'); exact Hp8) 0 chunk_size
               chunk_size_spec eq_refl). }
  destruct (zero_first segsize pseg worker_seg the_task chunk_size Haddr' chunk_size_pos
              _ _ true (fuel - 15) ltac:(repeat split; [exact Hp8|exact Hlen0|frame_tac..])
              Hpr0 ltac:(frame_tac)) as (w' & E & Hpool').
  exists w'. split; [exact E|]. rewrite Hpool'. frame_tac. rewrite Hpool6. reflexivity.
Qed.
End EndToEnd.
