(* ===== verification/FrontEnds.v ===== *)
(** * The two front ends answer a hit alike

    The repository has two handlers for the same [gfserver] callback:
    [handle_with_cache] ([src/cache/handle_with_cache.c]), which fetches
    through the cache daemon over a shared-memory segment, and
    [handle_with_curl] ([src/server/handle_with_curl.c]), which fetches
    from the origin server with libcurl.  [src/server/webproxy.c]
    registers [handle_with_curl] ([WebProxy]); the proxy of the cache
    registers [handle_with_cache] in its place (that [main] is not under
    [src/]), so what a client sees should not depend on which of the two
    serves it.  This file states what a client sees of each (the handler's
    return value and the headers and body it received) and shows that
    the two agree on a file that the cache holds and the origin serves
    with status 200, and that the answer is the file under a [GF_OK]
    header: the cache's shared-memory channel is a faithful stand-in for
    the network fetch.  On a miss the two differ ([Transfer.transfer_miss]
    against [CurlHandler.curl_not_found]). *)

From S2P Require Import Prelude Steque CLib ShmChannel ControlProtocol World.
From S2P Require Import CacheDaemon ProxyHandler System CurlHandler Transfer.

Local Open Scope Z_scope.

Import Worker.

(** What the client of [handle_with_cache] sees once the cooperative run
    of the request has ended: the handler's return value and the
    client's record, or nothing while the handler has not returned. *)
Definition cache_answer (segsize : Z) (fuel : nat) (w0 : world) (path : string) : option (Z * client) :=
  match s_proxies (coop segsize fuel (sys1 w0 (PStart path) client0 WIdle)) with
  | [(PDone n, cl)] => Some (n, cl)
  | _ => None
  end.

(** What the client of [handle_with_curl] sees, from the same fresh
    client record, the header being sent with success. *)
Definition curl_answer (ce : curl_env) (base path : string) (es : list env) : option (Z * client) :=
  match handle_with_curl ce base path EOk es client0 with
  | Some (RetZ n, cl) => Some (n, cl)
  | _ => None
  end.

(** The answer of a handler that served [c] in full. *)
Definition served (c : list byte) : option (Z * client) :=
  Some (Z.of_nat (length c), mkClient [(GF_OK, Z.of_nat (length c))] c).

(** The curl handler serves in full a body that libcurl fetches with
    status 200, when no [realloc] fails and every [gfs_send] makes
    progress. *)
Lemma curl_answer_hit ce base path es r :
  ce_init_ok ce = true ->
  ce_fetch ce (snprintf_trunc URL_LEN (base ++ path)) = r -> cr_code r = CURLE_OK -> cr_http r = 200 ->
  (forall j, (j < length (cr_pieces r))%nat -> ce_oom ce j = false) ->
  Forall progress es -> (length (mjoin (cr_pieces r)) <= length es)%nat ->
  curl_answer ce base path es = served (mjoin (cr_pieces r)).
Proof.
  intros Hinit Hr Hc Hh Hoom Hp Hl. unfold curl_answer, handle_with_curl. rewrite Hinit, Hr.
  rewrite perform_ok by (intros j Hj; apply Hoom; lia). rewrite Hc, Hh. simpl.
  rewrite send_all_complete by assumption. reflexivity.
Qed.

Section Agree.
Variables (segsize : Z) (name path : string) (pseg : segment) (rest : list segment).
Variables (w0 : world) (p0 : payload).
Hypothesis Hname : shm_name pseg = name.
Hypothesis Haddr : seg_addr pseg = Some name.
Hypothesis Hreq : request_ok name path segsize.
Hypothesis Hsize : sizeof_payload < segsize.
Hypothesis Hpool : w_pool w0 = pseg :: rest.
Hypothesis Hback : w_backlog w0 = [].
Hypothesis Hqueue : w_queue w0 = [].
Hypothesis Hlisten : w_listening w0 = true.
Hypothesis Hup : w_daemon_up w0 = true.
Hypothesis Hp0 : seg_payload w0 pseg = Some p0.
Hypothesis Hpr0 : sem_proxy_ready p0 = 0%nat.
Hypothesis Hcr0 : sem_cache_ready p0 = 0%nat.
Hypothesis Hlen0 : length (data p0) = Z.to_nat (segsize - sizeof_payload).
Hypothesis Hfd : (S (open_fds (w_dproc w0)) < fd_limit)%nat.

Variables (ce : curl_env) (base : string) (es : list env).
Hypothesis Hinit : ce_init_ok ce = true.

(** The cache handler's run, given enough fuel, serves a file of the
    store in full. *)
Lemma cache_answer_hit c fuel :
  w_store w0 !! path = Some c -> c <> [] ->
  (8 + transfer_steps (chunk_size segsize) (length c) <= fuel)%nat ->
  cache_answer segsize fuel w0 path = served c.
Proof.
  intros Hc Hne Hf. unfold cache_answer.
  edestruct (transfer_run segsize name path pseg rest w0 p0) as (w' & E & _);
    [eassumption..|].
  replace fuel with (8 + transfer_steps (chunk_size segsize) (length c)
                     + (fuel - 8 - transfer_steps (chunk_size segsize) (length c)))%nat by lia.
  rewrite E. reflexivity.
Qed.

(** C26 (equivalence of the two front ends on a hit).  When the cache
    holds a non-empty file under the requested path and the origin
    server sends the same bytes with status 200, the client of
    [handle_with_cache] (after the cooperative run has ended) and the
    client of [handle_with_curl] (with no failed allocation and sends
    that make progress) see the same answer: the handler returns the
    file's size and the client receives one [GF_OK] header with that
    size followed by exactly the file. *)
Theorem front_ends_agree c r fuel :
  w_store w0 !! path = Some c -> c <> [] ->
  (8 + transfer_steps (chunk_size segsize) (length c) <= fuel)%nat ->
  ce_fetch ce (snprintf_trunc URL_LEN (base ++ path)) = r -> cr_code r = CURLE_OK -> cr_http r = 200 ->
  mjoin (cr_pieces r) = c ->
  (forall j, (j < length (cr_pieces r))%nat -> ce_oom ce j = false) ->
  Forall progress es -> (length c <= length es)%nat ->
  cache_answer segsize fuel w0 path = curl_answer ce base path es /\
  curl_answer ce base path es = served c.
Proof.
  intros Hc Hne Hf Hr Hcode Hh Hj Hoom Hp Hl. subst c.
  rewrite (cache_answer_hit _ fuel Hc Hne Hf), (curl_answer_hit ce base path es r); auto.
Qed.

End Agree.
