(* ===== verification/Concurrency.v ===== *)
(** * Several requests at once

    The spec's concurrency property (section 8): "N simultaneous
    transfers through a pool of exactly N channels all complete".  The
    proxy's pool holds [N] segments; [N] handlers of
    [src/cache/handle_with_cache.c] start together.  This file lifts the
    run of one handler ([Transfer.transfer_run], a system with a single
    handler) into a system of [N] handlers, where the others do not move
    ([embed], [rtc_embed]: the steps of [System.sys_step] read and write
    only the moving thread's entry of the list of handlers), and uses
    the frame fact of [Transfer.done_facts] (a transfer writes only its
    own shared-memory object) to keep the other segments ready.  The
    interleaving it builds first lets every handler take its segment
    (the pool is then empty: all [N] channels are checked out at once),
    then runs the transfers one after the other; every client gets its
    whole file and the pool ends as it started.  The race of [Race]
    shows that other interleavings of the same requests go wrong. *)

From S2P Require Import Prelude Steque CLib ShmChannel ControlProtocol World.
From S2P Require Import CacheDaemon ProxyHandler System Transfer.

Local Open Scope Z_scope.

Import Worker Boss.

(** ** One handler's run inside a system of several *)

(** The handlers [pre] before it and [post] after it do not move. *)
Definition embed (pre post : list (pstate * client)) (s : sys) : sys :=
  mkSys (s_world s) (pre ++ s_proxies s ++ post) (s_workers s) (s_boss s).

Definition shift_tid (k : nat) (t : tid) : tid :=
  match t with TProxy i => TProxy (k + i) | _ => t end.

Lemma sys_step_embed segsize e t s s' pre post :
  sys_step segsize e t s = Some s' ->
  sys_step segsize e (shift_tid (length pre) t) (embed pre post s) = Some (embed pre post s').
Proof.
  destruct s as [w ps ws b]. destruct t as [i|i|]; cbn [sys_step shift_tid embed s_proxies s_world
    s_workers s_boss]; intros H.
  - destruct (ps !! i) as [[p c]|] eqn:Hi; [|discriminate].
    pose proof (lookup_lt_Some _ _ _ Hi) as Hlt.
    rewrite lookup_app_r, Nat.add_sub', lookup_app_l, Hi by lia.
    destruct (proxy_step segsize e p c w) as [[[p' c'] w']|]; [|discriminate].
    injection H as <-. unfold embed. cbn [s_world s_proxies s_workers s_boss].
    rewrite insert_app_r, insert_app_l by exact Hlt. reflexivity.
  - repeat case_match; simplify_eq; reflexivity.
  - repeat case_match; simplify_eq; reflexivity.
Qed.

Lemma rtc_embed segsize pre post s s' :
  rtc (step segsize) s s' -> rtc (step segsize) (embed pre post s) (embed pre post s').
Proof.
  induction 1 as [|x y z [e t ? ? Hxy] _ IH]; [reflexivity|].
  eapply rtc_l; [|exact IH]. econstructor. exact (sys_step_embed _ _ _ _ _ _ _ Hxy).
Qed.

(** ** The requests *)

(** A request: the segment its handler will take, the path, and the
    file the store holds under it. *)
Definition request : Type := segment * string * list byte.

Definition req_seg (r : request) : segment := r.1.1.
Definition req_path (r : request) : string := r.1.2.
Definition req_file (r : request) : list byte := r.2.

Definition starting (r : request) : pstate * client := (PStart (req_path r), client0).
Definition holding (r : request) : pstate * client := (PConnect (req_path r) (req_seg r) 0, client0).
Definition finished (r : request) : pstate * client :=
  let n := Z.of_nat (length (req_file r)) in (PDone n, mkClient [(GF_OK, n)] (req_file r)).

(** The segment maps an object created at [segsize] bytes, with both
    semaphores at 0. *)
Definition fresh_seg (segsize : Z) (w : world) (q : segment) : Prop :=
  match seg_payload w q with
  | Some p => sem_proxy_ready p = 0%nat /\ sem_cache_ready p = 0%nat /\
              length (data p) = Z.to_nat (segsize - sizeof_payload)
  | None => False
  end.

(** What the single-transfer theorems ask of a request. *)
Definition req_ready (segsize : Z) (w : world) (r : request) : Prop :=
  seg_addr (req_seg r) = Some (shm_name (req_seg r)) /\
  request_ok (shm_name (req_seg r)) (req_path r) segsize /\
  w_store w !! req_path r = Some (req_file r) /\ req_file r <> [] /\
  fresh_seg segsize w (req_seg r).

Lemma set_pool_eta w : set_pool (w_pool w) w = w.
Proof. destruct w. reflexivity. Qed.

Lemma fresh_seg_frame segsize w w' q a :
  ns_off a (w_ns w) (w_ns w') -> seg_addr q <> a -> fresh_seg segsize w q -> fresh_seg segsize w' q.
Proof. intros H Hq. unfold fresh_seg. rewrite (ns_off_payload a w w' q H Hq). exact id. Qed.

Section Concurrent.
Variable segsize : Z.
Hypothesis Hsize : sizeof_payload < segsize.

(** Every handler takes the segment at the head of the pool, in order. *)
Lemma checkout (rs : list request) : forall pre w,
  w_pool w = map req_seg rs ->
  rtc (step segsize) (mkSys w (pre ++ map starting rs) [WIdle] BServe)
                     (mkSys (set_pool [] w) (pre ++ map holding rs) [WIdle] BServe).
Proof.
  induction rs as [|r rs IH]; intros pre w Hp; cbn [map].
  - assert (E : set_pool [] w = w) by (destruct w; cbn in *; subst; reflexivity).
    rewrite E. reflexivity.
  - eapply rtc_l.
    + apply (step_at _ EOk (TProxy (length pre))). cbn [sys_step s_proxies s_world s_workers s_boss].
      rewrite lookup_app_r, Nat.sub_diag by lia. cbn [lookup list_lookup starting].
      unfold proxy_step. rewrite Hp. cbn [steque_isempty steque_pop list_steque map negb].
      rewrite insert_app_r_alt, Nat.sub_diag by lia. reflexivity.
    + cbn [list_insert insert]. specialize (IH (pre ++ [holding r]) (set_pool (map req_seg rs) w)).
      rewrite <- !(assoc (++)) in IH. exact (IH eq_refl).
Qed.

(** The transfer of one handler holding its segment, while the others
    wait: from [PConnect] to [PDone], with the facts of [done_facts]. *)
Lemma serve_one r w :
  req_ready segsize w r -> w_backlog w = [] -> w_queue w = [] -> w_listening w = true ->
  w_daemon_up w = true -> (S (open_fds (w_dproc w)) < fd_limit)%nat ->
  exists w',
    rtc (step segsize) (sys1 w (fst (holding r)) client0 WIdle) (sys1 w' (fst (finished r)) (snd (finished r)) WIdle) /\
    w_pool w' = w_pool w ++ [req_seg r] /\ w_backlog w' = [] /\ w_queue w' = [] /\
    open_fds (w_dproc w') = S (open_fds (w_dproc w)) /\ w_listening w' = true /\
    w_store w' = w_store w /\ w_daemon_up w' = true /\
    ns_off (seg_addr (req_seg r)) (w_ns w) (w_ns w').
Proof.
  destruct r as [[q path] c]. unfold req_ready, fresh_seg, holding, finished, req_seg, req_path, req_file.
  cbn [fst snd]. intros (Haddr & Hreq & Hc & Hne & Hfresh) Hb Hq Hl Hup Hfd.
  destruct (seg_payload w q) as [p0|] eqn:Hp0; [|contradiction]. destruct Hfresh as (H0 & H1 & Hlen).
  destruct (transfer_run segsize (shm_name q) path q (w_pool w) (set_pool (q :: w_pool w) w) p0
              eq_refl Haddr Hreq Hsize eq_refl Hb Hq Hl Hup Hp0 H0 H1 Hlen Hfd c 0 Hc Hne)
    as (w' & E & Hpool' & Hb' & Hq' & Hd' & Hl' & Hst' & Hup' & Hns' & _).
  assert (Hstep : coop_step segsize (sys1 (set_pool (q :: w_pool w) w) (PStart path) client0 WIdle) =
                   Some (sys1 w (PConnect path q 0) client0 WIdle)).
  { apply coop_proxy. unfold proxy_step. cbn. destruct w. reflexivity. }
  replace (8 + transfer_steps (chunk_size segsize) (length c) + 0)%nat
    with (S (7 + transfer_steps (chunk_size segsize) (length c)))%nat in E by lia.
  rewrite (coop_S _ _ _ _ Hstep) in E.
  exists w'. split; [rewrite <- E; apply coop_reachable|].
  repeat split; try assumption. rewrite Hd'. cbn. lia.
Qed.

(** A transfer on another object leaves a request ready. *)
Lemma req_ready_frame w w1 r r' :
  ns_off (seg_addr (req_seg r)) (w_ns w) (w_ns w1) -> w_store w1 = w_store w ->
  seg_addr (req_seg r') <> seg_addr (req_seg r) -> req_ready segsize w r' -> req_ready segsize w1 r'.
Proof.
  intros Hns Hst Hne (A & B & C & D & E). rewrite <- Hst in C.
  exact (conj A (conj B (conj C (conj D (fresh_seg_frame _ _ _ _ _ Hns Hne E))))).
Qed.

(** The handlers holding their segments are finished one after the other;
    those finished already and those still waiting do not move. *)
Lemma serve_all (rs : list request) : forall dones w,
  Forall (req_ready segsize w) rs -> NoDup (map (fun r => seg_addr (req_seg r)) rs) ->
  w_backlog w = [] -> w_queue w = [] -> w_listening w = true -> w_daemon_up w = true ->
  (open_fds (w_dproc w) + length rs < fd_limit)%nat ->
  exists w',
    rtc (step segsize) (mkSys w (map finished dones ++ map holding rs) [WIdle] BServe)
                       (mkSys w' (map finished (dones ++ rs)) [WIdle] BServe) /\
    w_pool w' = w_pool w ++ map req_seg rs.
Proof.
  induction rs as [|r rs IH]; intros dones w Hr Hd Hb Hq Hl Hup Hfd.
  - exists w. cbn [map]. rewrite !app_nil_r. split; reflexivity.
  - apply Forall_cons in Hr as [Hr0 Hrs]. apply NoDup_cons in Hd as [Hnin Hd].
    cbn [length] in Hfd.
    destruct (serve_one r w Hr0 Hb Hq Hl Hup ltac:(lia))
      as (w1 & R & Hp1 & Hb1 & Hq1 & Hfd1 & Hl1 & Hst1 & Hup1 & Hns1).
    destruct (IH (dones ++ [r]) w1) as (w' & R' & Hp');
      [|exact Hd|exact Hb1|exact Hq1|exact Hl1|exact Hup1|rewrite Hfd1; lia|].
    { apply Forall_forall. intros r' Hin. apply (req_ready_frame w w1 r r' Hns1 Hst1).
      - intros E. apply Hnin, list_elem_of_In, in_map_iff. exists r'.
        split; [exact E|apply list_elem_of_In, Hin].
      - exact (proj1 (Forall_forall _ _) Hrs r' Hin). }
    exists w'. split.
    + assert (R1 : rtc (step segsize) (mkSys w (map finished dones ++ map holding (r :: rs)) [WIdle] BServe)
                     (mkSys w1 (map finished dones ++ finished r :: map holding rs) [WIdle] BServe))
        by exact (rtc_embed segsize (map finished dones) (map holding rs) _ _ R).
      etransitivity; [exact R1|].
      replace (dones ++ r :: rs) with ((dones ++ [r]) ++ rs) by (rewrite <- (assoc (++)); reflexivity).
      replace (map finished dones ++ finished r :: map holding rs)
        with (map finished (dones ++ [r]) ++ map holding rs)
        by (rewrite map_app, <- (assoc (++)); reflexivity).
      exact R'.
    + rewrite Hp', Hp1, <- (assoc (++)). reflexivity.
Qed.

(** C19 (functional: the spec's concurrency property).  [N] requests
    for non-empty files of the store, through a pool of exactly [N]
    distinct fresh segments, all complete: there is an interleaving in
    which every handler first takes its segment (the pool is then empty,
    every channel checked out at once) and after which every client has
    received one [GF_OK] header with its file's size and exactly its
    file, and the pool holds the [N] segments again, in their order.
    The daemon needs one free descriptor per transfer, as each one leaks
    a descriptor ([Transfer.transfer_leaks_descriptor]). *)
Theorem concurrent_transfers_complete w0 (reqs : list request) :
  w_pool w0 = map req_seg reqs -> Forall (req_ready segsize w0) reqs ->
  NoDup (map (fun r => seg_addr (req_seg r)) reqs) ->
  w_backlog w0 = [] -> w_queue w0 = [] -> w_listening w0 = true -> w_daemon_up w0 = true ->
  (open_fds (w_dproc w0) + length reqs < fd_limit)%nat ->
  exists s1 s2,
    rtc (step segsize) (mkSys w0 (map starting reqs) [WIdle] BServe) s1 /\
    w_pool (s_world s1) = [] /\ s_proxies s1 = map holding reqs /\
    rtc (step segsize) s1 s2 /\
    s_proxies s2 = map finished reqs /\ w_pool (s_world s2) = map req_seg reqs.
Proof.
  intros Hpool Hr Hd Hb Hq Hl Hup Hfd.
  destruct (serve_all reqs [] (set_pool [] w0) Hr Hd Hb Hq Hl Hup Hfd) as (w' & R & Hp').
  exists (mkSys (set_pool [] w0) (map holding reqs) [WIdle] BServe), (mkSys w' (map finished reqs) [WIdle] BServe).
  split; [exact (checkout reqs [] w0 Hpool)|].
  split; [reflexivity|]. split; [reflexivity|]. split; [exact R|]. split; [reflexivity|exact Hp'].
Qed.

End Concurrent.
