(* ===== verification/Lifecycle.v ===== *)
(** * The daemon's signals: start-up wiring and shutdown

    [main] of [src/cache/simplecached.c] installs [_sig_handler] for
    [SIGINT] and [SIGTERM] (lines 209-216) before it starts the workers;
    the handler (lines 44-52) removes the socket's name, closes the
    listening socket, tears the content store down and exits with the
    signal's number.  The spec (section 6, process lifecycle) asks for
    exactly this clean-up.  This file models both, composes the signal
    installation with the option handling of [Config] and the start of
    the threads, and follows a shutdown that arrives in the middle of a
    transfer: nothing in either process can post [sem_proxy_ready]
    again, so a handler waiting for its next chunk waits forever unless
    its [sem_wait] is interrupted (spec section 9: no timeout on chunk
    waits). *)

From S2P Require Import Prelude Steque CLib ShmChannel ControlProtocol World.
From S2P Require Import CacheDaemon ProxyHandler System Config Transfer.

Local Open Scope Z_scope.

Import Worker Boss Simplecached.

(** [CACHE_FAILURE] (lines 21-24). *)
Definition CACHE_FAILURE : Z := -1.

(** ** Start-up *)

(** [signal (SIGINT, _sig_handler)] and [signal (SIGTERM, ...)]
    (lines 209-216): a failure ([SIG_ERR]) exits with
    [CACHE_FAILURE]. *)
Definition daemon_install_signals (e_int e_term : env) : outcome unit :=
  if is_fail e_int then Exit CACHE_FAILURE
  else if is_fail e_term then Exit CACHE_FAILURE
  else Run tt.

(** [main] up to the accept loop (lines 165-228): the options and their
    checks, the signal handlers, then the workers and the boss. *)
Definition daemon_boot (load : string -> gmap string (list byte)) (sc : bool) (outs : list (Z * string))
    (e_int e_term : env) (w : world) : outcome sys :=
  match daemon_main sc outs with
  | Exit n => Exit n
  | Run cfg =>
      match daemon_install_signals e_int e_term with
      | Exit n => Exit n
      | Run _ => Run (daemon_start load cfg w)
      end
  end.

(** What a successful start leaves: [1 .. 100] idle workers, an empty
    queue, the store of the index of the command line, the rest of the
    world as it was, and the boss about to bind. *)
Lemma daemon_boot_run load sc outs e_int e_term w s :
  daemon_boot load sc outs e_int e_term w = Run s ->
  exists cfg, daemon_main sc outs = Run cfg /\
    s_proxies s = [] /\ s_boss s = BStart /\
    s_workers s = repeat WIdle (Z.to_nat (nthreads cfg)) /\ (1 <= Z.to_nat (nthreads cfg) <= 100)%nat /\
    s_world s = set_queue [] (simplecache_init load (cachedir cfg) w).
Proof.
  unfold daemon_boot. destruct (daemon_main sc outs) as [n|cfg] eqn:Hm; [discriminate|].
  unfold daemon_install_signals. destruct (is_fail e_int), (is_fail e_term); try discriminate.
  intros [= <-]. destruct (SimplecachedFacts.daemon_main_bounds sc outs cfg Hm) as (Hn & _).
  exists cfg. repeat split; try reflexivity; lia.
Qed.

(** ** Shutdown *)

(** The process exits: its threads stop, the pending connections of its
    socket are dropped and its task queue is lost. *)
Definition exit_daemon (w : world) : world :=
  mkWorld (w_ns w) (w_pool w) [] false [] (w_dproc w) (w_store w) false.

(** [simplecache_destroy ()]: the content store's state is gone. *)
Definition simplecache_destroy (w : world) : world :=
  mkWorld (w_ns w) (w_pool w) (w_backlog w) (w_listening w) (w_queue w) (w_dproc w) ∅ (w_daemon_up w).

(** [_sig_handler (signo)] (lines 44-52), with the value of the global
    [server_fd]: the new world and the exit status, or [None] when the
    handler returns because the signal is another one. *)
Definition daemon_sig_handler (server_fd signo : Z) (w : world) : option (world * Z) :=
  if (signo =? SIGTERM) || (signo =? SIGINT) then
    let w1 := set_listening false w in
    let w2 := if 0 <? server_fd then set_dproc (proc_close (w_dproc w1)) w1 else w1 in
    let w3 := simplecache_destroy w2 in
    Some (exit_daemon w3, signo)
  else None.

(** The signal delivered to the daemon while the system runs. *)
Definition daemon_signal (server_fd signo : Z) (s : sys) : option (sys * Z) :=
  match daemon_sig_handler server_fd signo (s_world s) with
  | Some (w', code) => Some (mkSys w' (s_proxies s) (s_workers s) (s_boss s), code)
  | None => None
  end.

(** ** No post on [sem_proxy_ready] without the daemon *)

(** Every object of [ns'] was in [ns] with at least as many posts
    pending on [sem_proxy_ready]. *)
Definition spr_bound (ns ns' : shm_ns) : Prop :=
  forall k o', ns' !! k = Some o' ->
    exists o, ns !! k = Some o /\ (sem_proxy_ready (obj_pay o') <= sem_proxy_ready (obj_pay o))%nat.

Lemma spr_bound_refl ns : spr_bound ns ns.
Proof. intros k o H. exists o. split; [exact H|lia]. Qed.

Lemma spr_bound_trans ns1 ns2 ns3 : spr_bound ns1 ns2 -> spr_bound ns2 ns3 -> spr_bound ns1 ns3.
Proof.
  intros H12 H23 k o3 H3. destruct (H23 k o3 H3) as (o2 & H2 & L2).
  destruct (H12 k o2 H2) as (o1 & H1 & L1). exists o1. split; [exact H1|lia].
Qed.

(** A write through a mapping that posts nothing on [sem_proxy_ready]. *)
Lemma spr_bound_write f seg w :
  (forall p, (sem_proxy_ready (f p) <= sem_proxy_ready p)%nat) ->
  spr_bound (w_ns w) (w_ns (write_seg f seg w)).
Proof.
  intros Hf k o' H. unfold write_seg in H. destruct (seg_addr seg) as [n|]; [|exists o'; split; [exact H|lia]].
  cbn [w_ns set_ns] in H. unfold update_pay in H. destruct (decide (n = k)) as [<-|Hne].
  - rewrite lookup_alter, decide_True in H by reflexivity. apply fmap_Some in H as (o & E & ->).
    exists o. split; [exact E|cbn; apply Hf].
  - rewrite lookup_alter_ne in H by exact Hne. exists o'. split; [exact H|lia].
Qed.

(** Writes that post nothing on [sem_proxy_ready], and updates of the
    other parts of the world. *)
Ltac spr_tac :=
  cbn [w_ns set_pool set_backlog set_dproc set_queue set_listening];
  first
    [ apply spr_bound_refl
    | match goal with
      | |- spr_bound ?a (w_ns (write_seg ?f ?seg ?w')) =>
          apply (spr_bound_trans a (w_ns w')); [spr_tac|apply spr_bound_write; intros ?; cbn; lia]
      end ].

(** A handler never posts [sem_proxy_ready]. *)
Lemma proxy_step_spr segsize e ps c w ps' c' w' :
  proxy_step segsize e ps c w = Some (ps', c', w') -> spr_bound (w_ns w) (w_ns w').
Proof. destruct ps; cbn [proxy_step]; intros H; repeat case_match; simplify_eq/=; spr_tac. Qed.

Lemma proxy_step_daemon segsize e ps c w ps' c' w' :
  proxy_step segsize e ps c w = Some (ps', c', w') -> w_daemon_up w' = w_daemon_up w.
Proof.
  destruct ps; cbn [proxy_step]; intros H; repeat case_match; simplify_eq/=;
    rewrite ?write_seg_daemon_up; reflexivity.
Qed.

(** With the daemon down only handlers move, and none of them posts
    [sem_proxy_ready] or brings the daemon back. *)
Lemma sys_step_down segsize e t s s' :
  w_daemon_up (s_world s) = false -> sys_step segsize e t s = Some s' ->
  spr_bound (w_ns (s_world s)) (w_ns (s_world s')) /\ w_daemon_up (s_world s') = false.
Proof.
  intros Hd. destruct t as [i|i|]; cbn [sys_step]; rewrite ?Hd; [|discriminate..].
  intros H. repeat case_match; simplify_eq/=.
  rename select (proxy_step _ _ _ _ _ = Some _) into Hs.
  split; [exact (proxy_step_spr _ _ _ _ _ _ _ _ Hs)|rewrite (proxy_step_daemon _ _ _ _ _ _ _ _ Hs); exact Hd].
Qed.

Lemma rtc_down segsize s s' :
  w_daemon_up (s_world s) = false -> rtc (step segsize) s s' ->
  spr_bound (w_ns (s_world s)) (w_ns (s_world s')) /\ w_daemon_up (s_world s') = false.
Proof.
  intros Hd R. induction R as [x|x y z [e t ? ? Hxy] _ IH]; [split; [apply spr_bound_refl|exact Hd]|].
  destruct (sys_step_down _ _ _ _ _ Hd Hxy) as [B Hy]. destruct (IH Hy) as [B' Hz].
  split; [exact (spr_bound_trans _ _ _ B B')|exact Hz].
Qed.

(** ** A shutdown in the middle of a transfer *)

(** What [_sig_handler] leaves: the objects of the namespace as they
    were, the daemon gone with its socket, its queue and its store. *)
Lemma daemon_sig_handler_spec server_fd signo w w' code :
  daemon_sig_handler server_fd signo w = Some (w', code) ->
  code = signo /\ w_ns w' = w_ns w /\ w_daemon_up w' = false /\ w_listening w' = false /\
  w_pool w' = w_pool w /\ w_backlog w' = [] /\ w_queue w' = [] /\ w_store w' = ∅.
Proof.
  unfold daemon_sig_handler. destruct (_ || _); [|discriminate].
  intros [= <- <-]. destruct (0 <? server_fd); repeat split.
Qed.

Lemma first_step_some segsize ts s s' :
  first_step segsize ts s = Some s' -> exists t, sys_step segsize EOk t s = Some s'.
Proof.
  induction ts as [|t ts IH]; cbn [first_step]; [discriminate|].
  destruct (sys_step segsize EOk t s) eqn:E; [intros [= <-]; eauto|exact IH].
Qed.

(** A step of another thread leaves the [i]-th handler as it was. *)
Lemma sys_step_other_proxy segsize e t s s' i :
  sys_step segsize e t s = Some s' -> t <> TProxy i -> s_proxies s' !! i = s_proxies s !! i.
Proof.
  destruct t as [j|j|]; cbn [sys_step]; intros H Hne; repeat case_match; simplify_eq/=; try reflexivity.
  apply list_lookup_insert_ne. congruence.
Qed.

(** Under the cooperative schedule, a handler that cannot move in any
    state of an invariant [P] keeps its state for ever. *)
Lemma coop_keeps_blocked segsize (P : sys -> Prop) i x :
  (forall s s', P s -> step segsize s s' -> P s') ->
  (forall s, P s -> s_proxies s !! i = Some x -> sys_step segsize EOk (TProxy i) s = None) ->
  forall fuel s, P s -> s_proxies s !! i = Some x -> s_proxies (coop segsize fuel s) !! i = Some x.
Proof.
  intros Hinv Hblk fuel. induction fuel as [|fuel IH]; intros s Hs Hi; [exact Hi|].
  cbn [coop]. destruct (coop_step segsize s) as [s'|] eqn:E; [|exact Hi].
  destruct (first_step_some _ _ _ _ E) as (t & Ht).
  assert (Hne : t <> TProxy i) by (intros ->; rewrite (Hblk s Hs Hi) in Ht; discriminate).
  apply IH; [exact (Hinv s s' Hs (step_at _ _ _ _ _ Ht))|].
  rewrite (sys_step_other_proxy _ _ _ _ _ _ Ht Hne). exact Hi.
Qed.

(** C31 (liveness violated: a shutdown strands a waiting handler).  When
    [SIGINT] or [SIGTERM] reaches the daemon while a handler of the proxy
    waits for a chunk that has not been posted, the daemon exits with
    the signal's number and its socket's name removed; then, along every
    interleaving of the threads that remain, with any answers of the
    system calls, [sem_proxy_ready] of that segment stays at 0, and under
    the cooperative schedule the handler never leaves its [sem_wait]:
    the client never gets its answer and the segment never goes back to
    the pool. *)
Theorem daemon_exit_strands_handler segsize server_fd signo s s1 code i ps cl seg p :
  daemon_signal server_fd signo s = Some (s1, code) ->
  s_proxies s !! i = Some (ps, cl) -> waiting seg ps ->
  seg_payload (s_world s) seg = Some p -> sem_proxy_ready p = 0%nat ->
  code = signo /\ w_listening (s_world s1) = false /\
  (forall s', rtc (step segsize) s1 s' ->
     forall p', seg_payload (s_world s') seg = Some p' -> sem_proxy_ready p' = 0%nat) /\
  forall fuel, s_proxies (coop segsize fuel s1) !! i = Some (ps, cl).
Proof.
  unfold daemon_signal. destruct (daemon_sig_handler server_fd signo (s_world s)) as [[w1 c1]|] eqn:Eh;
    [|discriminate].
  intros [= <- <-] Hi Hw Hp H0.
  destruct (daemon_sig_handler_spec _ _ _ _ _ Eh) as (-> & Hns & Hdown & Hl & _).
  set (s1 := mkSys w1 (s_proxies s) (s_workers s) (s_boss s)).
  assert (Hzero : forall s', rtc (step segsize) s1 s' ->
            forall p', seg_payload (s_world s') seg = Some p' -> sem_proxy_ready p' = 0%nat).
  { intros s' R p' Hp'. destruct (rtc_down segsize s1 s' Hdown R) as [B _].
    unfold seg_payload in Hp, Hp'. destruct (seg_addr seg) as [n|]; [|discriminate].
    apply fmap_Some in Hp' as (o' & Ho' & ->). destruct (B n o' Ho') as (o & Ho & L).
    cbn [s1 s_world] in Ho. rewrite Hns in Ho. rewrite Ho in Hp. injection Hp as <-. lia. }
  split; [reflexivity|]. split; [exact Hl|]. split; [exact Hzero|].
  intros fuel. apply (coop_keeps_blocked segsize (rtc (step segsize) s1)); [| |reflexivity|exact Hi].
  - intros x y Rx Hxy. eapply rtc_r; eassumption.
  - intros x Rx Hx. cbn [sys_step]. rewrite Hx.
    destruct (seg_payload (s_world x) seg) as [px|] eqn:Hpx.
    + rewrite (waiting_blocked segsize seg ps cl (s_world x) px Hw Hpx (Hzero x Rx px Hpx)). reflexivity.
    + destruct Hw as [-> | [sent ->]]; cbn [proxy_step]; rewrite Hpx; reflexivity.
Qed.
