(* ===== verification/Startup.v ===== *)
(** * From the start-up of both processes to an answered request

    The proxy creates its pool of segments at start-up
    ([create_n_segments], [src/cache/shm_channel.c] lines 10-24); the
    daemon parses its options, installs its signal handlers, loads the
    store, empties its task queue and starts its workers
    ([daemon_boot], [src/cache/simplecached.c] lines 165-228).  This file
    composes these start-ups with [Liveness]: the state they leave
    satisfies the hypotheses of [Liveness.handler_always_returns], so a
    request that arrives right after start-up is answered, whatever the
    interleaving, as long as the daemon's calls succeed. *)

From S2P Require Import Prelude Steque CLib ShmChannel ControlProtocol World.
From S2P Require Import CacheDaemon ProxyHandler System Tokens Termination Liveness Config Lifecycle.

Local Open Scope Z_scope.

Import Worker Boss Simplecached.

(** The first segment [create_n_segments] puts in the pool. *)
Definition first_seg (segsize : Z) (fd0 : nat) : segment := expected_seg segsize 0 fd0.

(** The world both processes leave: the proxy's namespace and pool, an
    empty socket, the daemon's descriptors, an empty store until
    [simplecache_init] loads it, and the daemon up. *)
Definition started_world (ns : shm_ns) (pool : list segment) (dp : proc) : world :=
  mkWorld ns pool [] false [] dp ∅ true.

Lemma pool_head n segsize fd0 :
  (1 <= n)%nat ->
  (fun j => expected_seg segsize j (fd0 + j)) <$> seq 0 n =
  first_seg segsize fd0 :: ((fun j => expected_seg segsize j (fd0 + j)) <$> seq 1 (n - 1)).
Proof.
  intros Hn. destruct n as [|n]; [lia|]. cbn [seq fmap list_fmap]. unfold first_seg.
  rewrite Nat.add_0_r, Nat.sub_1_r. reflexivity.
Qed.

Lemma repeat_idle k : (1 <= k)%nat -> repeat WIdle k <> [] /\ Forall (eq WIdle) (repeat WIdle k).
Proof.
  intros Hk. split; [destruct k; [lia|discriminate]|].
  clear Hk. induction k as [|k IH]; constructor; auto.
Qed.

(** C33 (composition: start-up, then a request).  The proxy has made
    [n >= 1] segments with no failing call ([create_n_segments]); the
    daemon has started with any command line it accepts, its signal
    handlers installed, its store loaded by [simplecache_init], its
    queue emptied and its [1 .. 100] workers idle ([daemon_boot]); a
    request for [path] then reaches a handler, whose line crosses the
    socket intact.  Along every interleaving in which the daemon's calls
    succeed the run is finite and ends with the handler returned: the
    start-up of the two processes establishes what [Liveness] needs. *)
Theorem startup_request_returns load sc outs e_int e_term n segsize path ns pp dp cl ns' pp' pool s_d :
  (1 <= n)%nat -> sizeof_payload < segsize -> (open_fds pp + n <= fd_limit)%nat ->
  request_ok (segment_name 0) path segsize -> (open_fds dp + 2 <= fd_limit)%nat ->
  create_n_segments (fun _ => NoFault) n segsize ns pp [] = (ns', pp', pool) ->
  daemon_boot load sc outs e_int e_term (started_world ns' pool dp) = Run s_d ->
  sn (ok_step segsize) (mkSys (s_world s_d) [(PStart path, cl)] (s_workers s_d) (s_boss s_d)) /\
  forall s, rtc (ok_step segsize) (mkSys (s_world s_d) [(PStart path, cl)] (s_workers s_d) (s_boss s_d)) s ->
    (forall s', ~ ok_step segsize s s') -> exists r cl', s_proxies s = [(PDone r, cl')].
Proof.
  intros Hn Hsize Hfd Hreq Hdfd Hcreate Hboot.
  assert (Hs0 : segsize <> 0) by (rewrite sizeof_payload_val in Hsize; lia).
  pose proof (create_n_segments_ok n segsize ns pp Hs0 Hfd) as C. rewrite Hcreate in C.
  destruct C as (Hpool & _ & _ & Hobj). destruct (Hobj 0%nat ltac:(lia)) as (o & Ho & Hsz & Hpr & Hcr & _ & Hlen).
  destruct (daemon_boot_run _ _ _ _ _ _ _ Hboot) as (cfg & _ & _ & _ & Hws & Hnt & Hw).
  destruct (repeat_idle _ (proj1 Hnt)) as (Hne & Hidle).
  rewrite pool_head in Hpool by exact Hn.
  rewrite Hw, Hws.
  eapply (handler_always_returns segsize (segment_name 0) path (first_seg segsize (open_fds pp))
           eq_refl eq_refl Hreq Hsize _ _ cl _ (s_boss s_d) (obj_pay o)); try assumption; try reflexivity.
  all: first [exact Hpool | unfold seg_payload; cbn; rewrite Ho; reflexivity].
Qed.
