(* ===== verification/Race.v ===== *)
(** * The race on [is_last_chunk], for every file

    The handler of [src/cache/handle_with_cache.c] posts
    [sem_cache_ready] (line 107) before it reads
    [payload->is_last_chunk] (line 109).  Between the two, the worker of
    [src/cache/simplecached.c] may take the post, read the next chunk and
    set the flag (lines 109-129).  When that next chunk is the file's
    last, short one, the handler reads the flag of a chunk it never
    forwarded and returns.  This file builds that interleaving for every
    file whose size is above the chunk size and not a multiple of it:
    the cooperative schedule of [Transfer] up to the chunk before the
    last, then single steps of [System.step] in the racy order. *)

From S2P Require Import Prelude Steque CLib ShmChannel ControlProtocol World.
From S2P Require Import CacheDaemon ProxyHandler System Transfer.

Local Open Scope Z_scope.

Import Worker Boss.

#[local] Arguments proxy_step : simpl never.
#[local] Arguments worker_step : simpl never.

(** ** Single steps of the one-handler system *)

Section Steps1.
Variable segsize : Z.

Lemma step_proxy w ps cl ws ps' cl' w' :
  proxy_step segsize EOk ps cl w = Some (ps', cl', w') ->
  step segsize (sys1 w ps cl ws) (sys1 w' ps' cl' ws).
Proof. intros H. apply (step_at _ EOk (TProxy 0)). unfold sys_step, sys1. simpl. rewrite H. reflexivity. Qed.

Lemma step_worker_env e w ps cl ws ws' w' :
  w_daemon_up w = true -> worker_step e ws w = Some (ws', w') ->
  step segsize (sys1 w ps cl ws) (sys1 w' ps cl ws').
Proof.
  intros Hd H. apply (step_at _ e (TWorker 0)). unfold sys_step, sys1. simpl.
  rewrite Hd, H. reflexivity.
Qed.

Lemma step_worker w ps cl ws ws' w' :
  w_daemon_up w = true -> worker_step EOk ws w = Some (ws', w') ->
  step segsize (sys1 w ps cl ws) (sys1 w' ps cl ws').
Proof. apply step_worker_env. Qed.

Lemma coop_rtc n s s' : coop segsize n s = s' -> rtc (step segsize) s s'.
Proof. intros <-. apply coop_reachable. Qed.

End Steps1.

(** ** The racy order, from the chunk before the last *)

Section RaceLoop.
Variables (segsize : Z) (pseg wseg : segment) (t : task) (c : list byte) (m : nat).
Hypothesis Haddr : seg_addr wseg = seg_addr pseg.
Hypothesis Hm : max_chunk t = Z.of_nat m.
Hypothesis Hm_pos : (0 < m)%nat.
Hypothesis Hm_small : Z.of_nat m < 2 ^ 63.
Hypothesis Hcap : proxy_capacity segsize = Z.of_nat m.

Local Abbreviation chan := (chan pseg m).
Local Abbreviation chunk_at := (chunk_at c m).
Local Abbreviation produced := (produced c m).
Local Abbreviation produce_world := (produce_world pseg c m).
Local Abbreviation iter_world := (iter_world pseg c m).
Local Abbreviation iter_payload := (iter_payload c m).

(** The handler about to forward chunk [o], a full one, with [hs] sent
    as headers and the first [o] bytes as body; the worker waits for
    the handler's post. *)
Definition body_state (w : world) (p : payload) (o : nat) (hs : list (gfstatus * Z)) : sys :=
  sys1 (write_seg take_proxy_ready pseg (produce_world w p o)) (PBody pseg (Z.of_nat o))
    (mkClient hs (take o c)) (WWaitCache t wseg c (Z.of_nat (o + m))).

(** The shared facts at the top of an iteration. *)
Definition fresh (w : world) (p : payload) : Prop :=
  chan w p /\ sem_proxy_ready p = 0%nat /\ sem_cache_ready p = 0%nat.

Lemma fresh_iter w p o : fresh w p -> fresh (iter_world w p o) (iter_payload p o).
Proof. intros (Hc & H0 & H1). split; [exact (chan_iter pseg c m Hm_pos w p o Hc)|simpl; lia]. Qed.

Lemma wseg_write' f w : write_seg f wseg w = write_seg f pseg w.
Proof. exact (wseg_write pseg wseg Haddr f w). Qed.

(** The worker's four steps from [pread] to [sem_post], whatever the
    handler does meanwhile. *)
Lemma produce_steps ps cl w p (o : nat) :
  chan w p -> chunk_at o <> [] ->
  rtc (step segsize) (sys1 w ps cl (WRead t wseg c (Z.of_nat o)))
    (sys1 (produce_world w p o) ps cl (WWaitCache t wseg c (Z.of_nat (o + length (chunk_at o))))).
Proof.
  intros Hc Hne. pose proof Hc as (Hp & Hl & _ & Hd).
  assert (Hfit : (length (chunk_at o) <= length (data p))%nat)
    by (rewrite Hl; exact (chunk_at_length c m Hm_pos o)).
  eapply rtc_l.
  { apply step_worker; [exact Hd|].
    exact (worker_read_chunk t wseg c w p
             ltac:(rewrite (wseg_payload pseg wseg Haddr); exact Hp) o m Hm Hne Hfit). }
  rewrite wseg_write'. change (take m (drop o c)) with (chunk_at o).
  eapply rtc_l; [apply step_worker; [by autorewrite with cache_simpl|reflexivity]|].
  rewrite wseg_write'.
  eapply rtc_l;
    [apply step_worker; [by autorewrite with cache_simpl
                        |exact (worker_set_last _ _ _ _ _ _ m Hm Hm_small)]|].
  rewrite wseg_write'. fold (last_flag m (length (chunk_at o))).
  eapply rtc_l; [apply step_worker; [by autorewrite with cache_simpl|reflexivity]|].
  rewrite wseg_write'. apply rtc_refl.
Qed.

(** The first chunk, a full one: the worker produces it and the handler
    sends the success header (six steps of the cooperative schedule). *)
Lemma to_body_first w p :
  fresh w p -> (m <= length c)%nat ->
  coop segsize 6 (sys1 w (PWaitFirst pseg) client0 (WRead t wseg c 0)) =
  body_state w p 0 [(GF_OK, total_file_size p)].
Proof.
  intros (Hc & H0 & H1) Hge.
  pose proof (chan_produced pseg c m Hm_pos w p 0 Hc) as (Hp4 & _).
  pose proof (chunk_full c m Hm_pos 0 ltac:(rewrite drop_0; exact Hge)) as Hlen.
  assert (Hne : chunk_at 0 <> []) by (intros E; rewrite E in Hlen; simpl in Hlen; lia).
  change 6%nat with (4 + (2 + 0))%nat.
  rewrite (produce segsize pseg wseg t c m Haddr Hm Hm_pos Hm_small _ _ w p 0)
    by first [left; reflexivity | assumption].
  rewrite (first_to_body segsize pseg _ (produced p 0) _ (sem_proxy_ready p)) by
    first [exact Hp4 | simpl; lia | simpl; rewrite Hlen; lia].
  unfold body_state. rewrite Hlen. reflexivity.
Qed.

(** One iteration from a full chunk to the next full chunk, in the
    cooperative order: forward, post, the worker's acknowledgement, the
    next chunk, the handler's wake-up (ten steps). *)
Lemma to_body_next w p (o : nat) hs :
  fresh w p -> (m <= length (drop o c))%nat -> (m <= length (drop (o + m) c))%nat ->
  coop segsize 10 (body_state w p o hs) =
  body_state (iter_world w p o) (iter_payload p o) (o + m) hs.
Proof.
  intros Hf Hfull Hfull'. pose proof Hf as (Hc & H0 & H1).
  pose proof (chan_produced pseg c m Hm_pos w p o Hc) as Hc4. pose proof Hc4 as (Hp4 & Hl4 & _).
  pose proof (chunk_full c m Hm_pos o Hfull) as Hlen.
  pose proof (chunk_full c m Hm_pos (o + m) Hfull') as Hlen'.
  assert (Hne : chunk_at (o + m) <> []) by (intros E; rewrite E in Hlen'; simpl in Hlen'; lia).
  pose proof (fresh_iter w p o Hf) as (Hci & H0i & _). pose proof Hci as (Hpi & _).
  change 10%nat with (3 + (2 + (4 + (1 + 0))))%nat. unfold body_state.
  rewrite (body_more segsize pseg m Hm_pos Hcap _ (take_proxy_ready (produced p o)) (chunk_at o))
    by first [apply seg_payload_write, Hp4 | reflexivity | lia
             | exact (produced_take c m p o) | simpl; rewrite Hlen; apply last_flag_full].
  rewrite Hlen.
  rewrite (ack_more segsize pseg wseg t c m Haddr _ (post_cache_ready (take_proxy_ready (produced p o))));
    [|do 2 (apply chan_write; [|exact Hl4]); exact Hc4|simpl; lia|simpl; lia
     |simpl; rewrite Hlen; apply last_flag_full].
  fold (iter_world w p o).
  rewrite (produce segsize pseg wseg t c m Haddr Hm Hm_pos Hm_small _ _ _ (iter_payload p o) (o + m))
    by first [right; eauto | assumption].
  rewrite (next_to_body segsize pseg _ (produced (iter_payload p o) (o + m)) _ _ _
             (sem_proxy_ready (iter_payload p o)))
    by first [exact (proj1 (chan_produced pseg c m Hm_pos _ _ (o + m) Hci)) | simpl; lia].
  unfold send_body. cbn [c_headers c_body]. rewrite Hlen'.
  replace (take o c ++ chunk_at o) with (take (o + m) c)
    by (unfold Transfer.chunk_at; rewrite take_take_drop; reflexivity).
  replace (Z.of_nat o + Z.of_nat m) with (Z.of_nat (o + m)) by lia.
  reflexivity.
Qed.

(** Every full chunk [k] is reached with the handler about to forward
    it, by induction on [k]. *)
Lemma reach_body w p (k : nat) :
  fresh w p -> (S k * m <= length c)%nat ->
  exists w' p',
    rtc (step segsize) (sys1 w (PWaitFirst pseg) client0 (WRead t wseg c 0))
      (body_state w' p' (k * m) [(GF_OK, total_file_size p)]) /\
    fresh w' p' /\ w_pool w' = w_pool w /\ w_queue w' = w_queue w /\
    ns_off (seg_addr pseg) (w_ns w) (w_ns w').
Proof.
  intros Hf. induction k as [|k IH]; intros Hk.
  - exists w, p. split; [|split; [exact Hf|split; [|split]; [reflexivity|reflexivity|apply ns_off_refl]]].
    apply (coop_rtc segsize 6). apply to_body_first; [exact Hf|lia].
  - destruct IH as (w' & p' & R & Hf' & Hpool & Hq & Hns); [lia|].
    exists (iter_world w' p' (k * m)), (iter_payload p' (k * m)).
    split; [|split; [exact (fresh_iter w' p' _ Hf')|split; [|split]]].
    + etransitivity; [exact R|]. apply (coop_rtc segsize 10).
      replace (S k * m)%nat with (k * m + m)%nat by lia.
      apply to_body_next; [exact Hf'|rewrite length_drop; lia|rewrite length_drop; lia].
    + unfold Transfer.iter_world, Transfer.produce_world. frame_tac; try exact Hpool.
    + unfold Transfer.iter_world, Transfer.produce_world. frame_tac; try exact Hq.
    + apply (ns_off_trans _ _ _ _ Hns). unfold Transfer.iter_world, Transfer.produce_world. ns_off_tac.
Qed.

(** The world after the race: the worker wrote the last chunk and
    posted it, the handler gave the segment back. *)
Definition race_world (w : world) (p : payload) (o : nat) : world :=
  let w5 := produce_world (iter_world w p o) (iter_payload p o) (o + m) in
  set_pool (steque_enqueue (w_pool w5) pseg) w5.

(** The race writes the shared objects only through [pseg]. *)
Lemma race_world_ns w p o : ns_off (seg_addr pseg) (w_ns w) (w_ns (race_world w p o)).
Proof. unfold race_world, Transfer.produce_world, Transfer.iter_world. ns_off_tac. Qed.

(** The hand-over of a full chunk: the handler forwards it and posts
    [sem_cache_ready]; the worker takes the post and, the chunk being
    full, goes back to [pread]. *)
Lemma race_handoff w p (o : nat) hs :
  fresh w p -> (m <= length (drop o c))%nat ->
  rtc (step segsize) (body_state w p o hs)
    (sys1 (iter_world w p o) (PCheckLast pseg (Z.of_nat o + Z.of_nat m))
       (send_body (chunk_at o) (mkClient hs (take o c))) (WRead t wseg c (Z.of_nat (o + m)))).
Proof.
  intros Hf Hr. pose proof Hf as (Hc & H0 & H1).
  pose proof (chan_produced pseg c m Hm_pos w p o Hc) as (Hp4 & Hl4 & Hb4 & Hd4).
  pose proof (chunk_full c m Hm_pos o Hr) as Hlen.
  pose proof (fresh_iter w p o Hf) as (Hci & _ & _). pose proof Hci as (Hpi & _ & _ & _).
  unfold body_state.
  eapply rtc_l.
  { apply step_proxy.
    apply (proxy_forward pseg m Hm_pos segsize _ (take_proxy_ready (produced p o)) (chunk_at o));
      [apply seg_payload_write, Hp4|reflexivity|rewrite Hcap, Hlen; lia
      |exact (produced_take c m p o)]. }
  eapply rtc_l; [apply step_proxy; reflexivity|].
  eapply rtc_l.
  { apply step_worker; [by autorewrite with cache_simpl|].
    eapply (worker_wait_go t wseg c _ (post_cache_ready (take_proxy_ready (produced p o))));
      [rewrite (wseg_payload pseg wseg Haddr); do 2 apply seg_payload_write; exact Hp4|reflexivity]. }
  rewrite wseg_write', Hlen.
  eapply rtc_l; [|apply rtc_refl].
  apply step_worker; [by autorewrite with cache_simpl|].
  apply (worker_check_more t wseg c _ (iter_payload p o));
    [rewrite (wseg_payload pseg wseg Haddr); exact Hpi|simpl; rewrite Hlen; apply last_flag_full].
Qed.

(** From the chunk before the last, a short last chunk remaining: the
    handler forwards and posts; the worker takes the post, reads the last
    chunk and sets [is_last_chunk]; the handler then reads the flag of
    the chunk it never forwarded and returns. *)
Lemma race_tail w p (o : nat) hs :
  fresh w p -> (m < length (drop o c) < 2 * m)%nat ->
  rtc (step segsize) (body_state w p o hs)
    (sys1 (race_world w p o) (PDone (Z.of_nat (o + m))) (mkClient hs (take (o + m) c))
       (WWaitCache t wseg c (Z.of_nat (length c)))).
Proof.
  intros Hf Hr. pose proof (fresh_iter w p o Hf) as (Hci & _ & _).
  assert (Hdrop : (length (drop (o + m) c) < m)%nat) by (rewrite length_drop in *; lia).
  pose proof (chunk_short c m Hm_pos (o + m) Hdrop) as Hsh.
  assert (Hne : chunk_at (o + m) <> [])
    by (rewrite Hsh; intros E; rewrite length_drop in Hr; apply (f_equal length) in E;
        rewrite length_drop in E; simpl in E; lia).
  pose proof (chan_produced pseg c m Hm_pos _ _ (o + m) Hci) as (Hp5 & _).
  etransitivity; [exact (race_handoff w p o hs Hf ltac:(lia))|].
  etransitivity; [exact (produce_steps _ _ _ (iter_payload p o) (o + m) Hci Hne)|].
  eapply rtc_l.
  { apply step_proxy.
    apply (proxy_check_last segsize pseg _ _ (produced (iter_payload p o) (o + m)) Hp5).
    simpl. rewrite last_flag_short; [lia|exact Hm_pos|rewrite Hsh; exact Hdrop]. }
  eapply rtc_l; [apply step_proxy; reflexivity|].
  unfold send_body. cbn [c_headers c_body].
  replace (take o c ++ chunk_at o) with (take (o + m) c)
    by (unfold Transfer.chunk_at; rewrite take_take_drop; reflexivity).
  replace (Z.of_nat o + Z.of_nat m) with (Z.of_nat (o + m)) by lia.
  rewrite Hsh, length_drop. replace (o + m + (length c - (o + m)))%nat with (length c) by (rewrite length_drop in Hr; lia).
  apply rtc_refl.
Qed.

(** The segment comes back to the pool with the last chunk's post still
    pending on [sem_proxy_ready], and the worker's [sem_wait] on
    [sem_cache_ready] blocks. *)
Lemma race_world_facts w p o :
  fresh w p ->
  w_pool (race_world w p o) = w_pool w ++ [pseg] /\
  exists p', seg_payload (race_world w p o) pseg = Some p' /\
    sem_proxy_ready p' = 1%nat /\ sem_cache_ready p' = 0%nat /\
    worker_step EOk (WWaitCache t wseg c (Z.of_nat (length c))) (race_world w p o) = None.
Proof.
  intros Hf. pose proof Hf as (_ & H0 & H1). pose proof (fresh_iter w p o Hf) as (Hci & _).
  pose proof (chan_produced pseg c m Hm_pos _ _ (o + m) Hci) as (Hp5 & _).
  split.
  { unfold race_world, Transfer.produce_world, Transfer.iter_world. frame_tac.
    unfold Transfer.produce_world. frame_tac. }
  exists (produced (iter_payload p o) (o + m)).
  assert (Hp' : seg_payload (race_world w p o) pseg = Some (produced (iter_payload p o) (o + m)))
    by (unfold race_world; frame_tac).
  split; [exact Hp'|]. split; [simpl; lia|]. split; [simpl; lia|].
  apply (worker_wait_blocked t wseg c _ (produced (iter_payload p o) (o + m)));
    [rewrite (wseg_payload pseg wseg Haddr); exact Hp'|simpl; lia].
Qed.

End RaceLoop.

(** ** The race from the client's request *)

Section RaceEndToEnd.
Variables (segsize : Z) (name path : string) (pseg : segment) (rest : list segment).
Variables (w0 : world) (p0 : payload).
(** The assumptions of [Transfer]'s end-to-end theorems: [pseg], first
    in the pool, maps the object [name] of [segsize] bytes with both
    semaphores at 0, the daemon listens and has descriptors left. *)
Hypothesis Hname : shm_name pseg = name.
Hypothesis Haddr : seg_addr pseg = Some name.
Hypothesis Hreq : request_ok name path segsize.
Hypothesis Hsize : sizeof_payload < segsize.
Hypothesis Hpool : w_pool w0 = pseg :: rest.
Hypothesis Hback : w_backlog w0 = [].
Hypothesis Hqueue : w_queue w0 = [].
Hypothesis Hlisten : w_listening w0 = true.
Hypothesis Hup : w_daemon_up w0 = true.
Hypothesis Hp0 : seg_payload w0 pseg = Some p0.
Hypothesis Hpr0 : sem_proxy_ready p0 = 0%nat.
Hypothesis Hcr0 : sem_cache_ready p0 = 0%nat.
Hypothesis Hlen0 : length (data p0) = Z.to_nat (segsize - sizeof_payload).
Hypothesis Hfd : (S (open_fds (w_dproc w0)) < fd_limit)%nat.

Local Abbreviation m := (chunk_size segsize).
Local Abbreviation wstuck c := (WWaitCache (the_task segsize name path) (worker_seg segsize name w0) c).

(** The race, with the frame of the whole run: only the object of
    [pseg] has changed. *)
Lemma race_run c :
  w_store w0 !! path = Some c -> (m < length c)%nat -> (length c mod m <> 0)%nat ->
  exists w' p',
    rtc (step segsize) (sys1 w0 (PStart path) client0 WIdle)
      (sys1 w' (PDone (Z.of_nat (length c - length c mod m)))
         (mkClient [(GF_OK, Z.of_nat (length c))] (take (length c - length c mod m) c))
         (wstuck c (Z.of_nat (length c)))) /\
    w_pool w' = rest ++ [pseg] /\ seg_payload w' pseg = Some p' /\
    sem_proxy_ready p' = 1%nat /\ sem_cache_ready p' = 0%nat /\
    worker_step EOk (wstuck c (Z.of_nat (length c))) w' = None /\
    ns_off (seg_addr pseg) (w_ns w0) (w_ns w').
Proof.
  intros Hc Hgt Hr.
  pose proof (chunk_size_pos segsize Hsize) as Hm_pos.
  pose proof (Nat.div_mod (length c) m ltac:(lia)) as Hdm.
  pose proof (Nat.mod_upper_bound (length c) m ltac:(lia)) as Hmu.
  assert (Hq : (1 <= length c / m)%nat) by (apply Nat.div_le_lower_bound; lia).
  assert (Haddr' : seg_addr (worker_seg segsize name w0) = seg_addr pseg)
    by (rewrite Haddr; reflexivity).
  destruct (transfer_prepare segsize name path pseg rest w0 p0 Hname Haddr Hreq Hsize Hpool Hback
              Hqueue Hlisten Hup Hp0 Hpr0 Hlen0 Hfd c 0 Hc)
    as (w & p & E & Hch & H0 & H1 & _ & Ht & Hpw & _ & _ & _ & Hns).
  rewrite Hcr0 in H1.
  destruct (reach_body segsize pseg (worker_seg segsize name w0) (the_task segsize name path) c m
              Haddr' (chunk_size_spec segsize name path Hreq Hsize)
              Hm_pos (chunk_size_small segsize name path Hreq Hsize)
              (chunk_size_cap segsize name path Hreq Hsize)
              w p (length c / m - 1) ltac:(split; [exact Hch|split; assumption])
              ltac:(nia))
    as (w' & p' & R & Hf' & Hpw' & _ & Hns').
  pose proof (race_tail segsize pseg (worker_seg segsize name w0) (the_task segsize name path) c m
                Haddr' (chunk_size_spec segsize name path Hreq Hsize)
                Hm_pos (chunk_size_small segsize name path Hreq Hsize)
                (chunk_size_cap segsize name path Hreq Hsize)
                w' p' ((length c / m - 1) * m) [(GF_OK, total_file_size p)] Hf'
                ltac:(rewrite length_drop; nia)) as T.
  destruct (race_world_facts pseg (worker_seg segsize name w0) (the_task segsize name path) c m
              Haddr' Hm_pos w' p' ((length c / m - 1) * m) Hf') as (Hpool'' & p'' & Hrest).
  replace ((length c / m - 1) * m + m)%nat with (length c - length c mod m)%nat in T by nia.
  rewrite Ht in R, T.
  exists (race_world pseg c m w' p' ((length c / m - 1) * m)), p''.
  destruct Hrest as (Hp'' & Hrest).
  split; [|rewrite Hpool'', Hpw', Hpw; split; [reflexivity|split; [exact Hp''|split; [tauto|split; [tauto|split; [tauto|]]]]]].
  2: { apply (ns_off_trans _ _ _ _ Hns), (ns_off_trans _ _ _ _ Hns'). apply race_world_ns. }
  etransitivity; [apply (coop_rtc segsize 8); exact E|].
  etransitivity; [exact R|exact T].
Qed.


(** C4 (safety violated: the race on [is_last_chunk], for every file).
    For every file of the store whose size is above the chunk size and
    not a multiple of it, there is an interleaving in which the handler
    returns after the chunk before the last: the client gets the
    [GF_OK] header announcing the whole size but only the bytes up to
    the last multiple of the chunk size.  The handler has given the
    segment back with the last chunk's post still pending on
    [sem_proxy_ready], and the worker is blocked in [sem_wait] on
    [sem_cache_ready]. *)
Theorem is_last_race_truncates c :
  w_store w0 !! path = Some c -> (m < length c)%nat -> (length c mod m <> 0)%nat ->
  exists w' p',
    rtc (step segsize) (sys1 w0 (PStart path) client0 WIdle)
      (sys1 w' (PDone (Z.of_nat (length c - length c mod m)))
         (mkClient [(GF_OK, Z.of_nat (length c))] (take (length c - length c mod m) c))
         (wstuck c (Z.of_nat (length c)))) /\
    w_pool w' = rest ++ [pseg] /\ seg_payload w' pseg = Some p' /\
    sem_proxy_ready p' = 1%nat /\ sem_cache_ready p' = 0%nat /\
    worker_step EOk (wstuck c (Z.of_nat (length c))) w' = None.
Proof.
  intros Hc Hgt Hr. destruct (race_run c Hc Hgt Hr) as (w' & p' & R & Hpool' & Hp' & Hpr & Hcr & Hst & _).
  exists w', p'. tauto.
Qed.

End RaceEndToEnd.
