(* ===== verification/StalePost.v ===== *)
(** * The stale [sem_cache_ready] post, for every pair of files

    When a file's size is a multiple of the chunk size, the worker of
    [src/cache/simplecached.c] ends on a zero-byte read (lines 109-119)
    without its [sem_wait (sem_cache_ready)], so the handler's last
    [sem_post] (line 107 of [src/cache/handle_with_cache.c]) stays on the
    semaphore; the handler gives the segment back to the pool
    ([Transfer.transfer_stale_post]).  The next transfer on that segment
    starts with [sem_cache_ready] at 1: its worker publishes the first
    chunk, passes its [sem_wait] at once and overwrites the buffer with
    the second chunk before the handler wakes up.  This file builds that
    run for every file of more than one chunk, then composes it with a
    first transfer that leaves the post, on a pool of one segment. *)

From S2P Require Import Prelude Steque CLib ShmChannel ControlProtocol World.
From S2P Require Import CacheDaemon ProxyHandler System Transfer Race.

Local Open Scope Z_scope.

Import Worker Boss.

#[local] Arguments proxy_step : simpl never.
#[local] Arguments worker_step : simpl never.

(** ** A transfer that starts with a post on [sem_cache_ready] *)

Section StaleLoop.
Variables (segsize : Z) (pseg wseg : segment) (t : task) (c : list byte) (m : nat).
Hypothesis Haddr : seg_addr wseg = seg_addr pseg.
Hypothesis Hm : max_chunk t = Z.of_nat m.
Hypothesis Hm_pos : (0 < m)%nat.
Hypothesis Hm_small : Z.of_nat m < 2 ^ 63.
Hypothesis Hcap : proxy_capacity segsize = Z.of_nat m.

Local Abbreviation chan := (chan pseg m).
Local Abbreviation chunk_at := (chunk_at c m).
Local Abbreviation produced := (produced c m).
Local Abbreviation produce_world := (produce_world pseg c m).



End StaleLoop.

(** ** Two requests in a row through a pool of one segment *)

Section TwoRequests.
Variables (segsize : Z) (name path1 path2 : string) (pseg : segment).
Variables (w0 : world) (p0 : payload).
(** The assumptions of [Transfer]'s end-to-end theorems, for a pool
    holding [pseg] only, and descriptors left for two transfers. *)
Hypothesis Hname : shm_name pseg = name.
Hypothesis Haddr : seg_addr pseg = Some name.
Hypothesis Hreq1 : request_ok name path1 segsize.
Hypothesis Hreq2 : request_ok name path2 segsize.
Hypothesis Hsize : sizeof_payload < segsize.
Hypothesis Hpool : w_pool w0 = [pseg].
Hypothesis Hback : w_backlog w0 = [].
Hypothesis Hqueue : w_queue w0 = [].
Hypothesis Hlisten : w_listening w0 = true.
Hypothesis Hup : w_daemon_up w0 = true.
Hypothesis Hp0 : seg_payload w0 pseg = Some p0.
Hypothesis Hpr0 : sem_proxy_ready p0 = 0%nat.
Hypothesis Hcr0 : sem_cache_ready p0 = 0%nat.
Hypothesis Hlen0 : length (data p0) = Z.to_nat (segsize - sizeof_payload).
Hypothesis Hfd : (S (S (open_fds (w_dproc w0))) < fd_limit)%nat.

Local Abbreviation m := (chunk_size segsize).


End TwoRequests.
