(* ===== verification/Scenarios.v ===== *)
(** * Concrete runs of the whole system

    A pool made by [create_n_segments] of segments of 4088 bytes each (a
    4000-byte buffer after the 88-byte header), a daemon whose boss
    listens and whose one worker is idle, and a store holding ["a.txt"]
    (10000 bytes), ["b.txt"] (8000 bytes, a multiple of the chunk size),
    ["c.txt"] (10000 bytes whose three chunks differ) and ["empty.txt"]
    (no bytes).  The end-to-end theorems of [Transfer], [Race] and
    [StalePost] and the invariants of [System] are applied to these
    states, and explicit schedules of [System.run] exhibit runs in which
    a worker's error, descriptor exhaustion or a crashed boss leave a
    handler blocked or failing. *)

From S2P Require Import Prelude Steque CLib ShmChannel ControlProtocol World.
From S2P Require Import CacheDaemon WorkerChunks ProxyHandler System Config Tokens Termination Liveness.
From S2P Require Import CurlHandler Transfer FrontEnds Concurrency Lifecycle Startup Race WorkerLoss.
From S2P Require Import StalePost Stalls.

Local Open Scope Z_scope.

Import Worker Boss.

Definition demo_segsize : Z := 4088.

(** The proxy's start-up: [n] segments, no call failing. *)
Definition demo_created (n : nat) : shm_ns * proc * list segment :=
  create_n_segments (fun _ => NoFault) n demo_segsize ∅ (mkProc 3 0) [].

Definition file_a : list byte := repeat Byte.x61 (10 * 1000).
Definition file_b : list byte := repeat Byte.x62 (8 * 1000).
Definition file_c : list byte :=
  repeat Byte.x61 (4 * 1000) ++ repeat Byte.x62 (4 * 1000) ++ repeat Byte.x63 (2 * 1000).

Definition demo_store : gmap string (list byte) :=
  <["a.txt" := file_a]> (<["b.txt" := file_b]> (<["c.txt" := file_c]> (<["empty.txt" := []]> ∅))).

(** The daemon has its three standard descriptors and the listening
    socket open. *)
Definition demo_world (n : nat) : world :=
  mkWorld (demo_created n).1.1 (demo_created n).2 [] true [] (mkProc 4 0) demo_store true.

(** One handler per path, all about to start, and one idle worker. *)
Definition demo_sys (n : nat) (paths : list string) : sys :=
  mkSys (demo_world n) (map (fun p => (PStart p, client0)) paths) [WIdle] BServe.

Definition demo_w0 : world := demo_world 2.
Definition demo_seg0 : segment := nth 0 (w_pool demo_w0) (mkSeg "" 0 None (-1)).
Definition demo_seg1 : segment := nth 1 (w_pool demo_w0) (mkSeg "" 0 None (-1)).
Definition demo_p0 : payload := default (zero_payload 0) (seg_payload demo_w0 demo_seg0).

(** A schedule given as runs of steps of one thread, every call
    succeeding. *)
Definition sched (l : list (nat * tid)) : list (env * tid) :=
  mjoin (map (fun '(n, t) => repeat (EOk, t) n) l).

(** The state a schedule reaches, or the start state when it blocks. *)
Definition after (sched : list (env * tid)) (s : sys) : sys :=
  default s (run demo_segsize sched s).

(** Discharges a hypothesis of the end-to-end theorems on a concrete
    state by evaluation. *)
Ltac demo_hyp :=
  first
    [ reflexivity
    | discriminate
    | apply Nat.ltb_lt; vm_compute; reflexivity
    | apply Z.ltb_lt; vm_compute; reflexivity
    | repeat split; first [discriminate | vm_compute; reflexivity | apply Nat.ltb_lt;
        vm_compute; reflexivity | vm_compute; discriminate] ].

(** ** The end-to-end theorems on the concrete state *)

Lemma transfer_delivers_file_witness :
  exists w',
    coop demo_segsize 60 (sys1 demo_w0 (PStart "a.txt") client0 WIdle) =
    sys1 w' (PDone (Z.of_nat (length file_a)))
      (mkClient [(GF_OK, Z.of_nat (length file_a))] file_a) WIdle /\
    w_pool w' = [demo_seg1] ++ [demo_seg0].
Proof.
  apply (transfer_delivers_file demo_segsize "/proxy_shm_0" "a.txt" demo_seg0 [demo_seg1]
           demo_w0 demo_p0); demo_hyp.
Defined.

Lemma transfer_stale_post_witness :
  exists w' p',
    coop demo_segsize 60 (sys1 demo_w0 (PStart "b.txt") client0 WIdle) =
    sys1 w' (PDone (Z.of_nat (length file_b)))
      (mkClient [(GF_OK, Z.of_nat (length file_b))] file_b) WIdle /\
    w_pool w' = [demo_seg1] ++ [demo_seg0] /\
    seg_payload w' demo_seg0 = Some p' /\ sem_proxy_ready p' = 0%nat /\
    sem_cache_ready p' =
      (if (length file_b mod chunk_size demo_segsize =? 0)%nat then 1 else 0)%nat.
Proof.
  apply (transfer_stale_post demo_segsize "/proxy_shm_0" "b.txt" demo_seg0 [demo_seg1]
           demo_w0 demo_p0); demo_hyp.
Defined.

Lemma transfer_leaks_descriptor_witness :
  exists w',
    coop demo_segsize 60 (sys1 demo_w0 (PStart "a.txt") client0 WIdle) =
    sys1 w' (PDone (Z.of_nat (length file_a)))
      (mkClient [(GF_OK, Z.of_nat (length file_a))] file_a) WIdle /\
    open_fds (w_dproc w') = S (open_fds (w_dproc demo_w0)) /\
    mappings (w_dproc w') = S (mappings (w_dproc demo_w0)).
Proof.
  apply (transfer_leaks_descriptor demo_segsize "/proxy_shm_0" "a.txt" demo_seg0 [demo_seg1]
           demo_w0 demo_p0); demo_hyp.
Defined.

Lemma transfer_miss_witness :
  exists w',
    coop demo_segsize 13 (sys1 demo_w0 (PStart "missing.txt") client0 WIdle) =
    sys1 w' (PDone 0) (mkClient [(GF_ERROR, 0)] []) WIdle /\
    w_pool w' = [demo_seg1] ++ [demo_seg0].
Proof.
  apply (transfer_miss demo_segsize "/proxy_shm_0" "missing.txt" demo_seg0 [demo_seg1]
           demo_w0 demo_p0); demo_hyp.
Defined.

Lemma transfer_empty_file_witness :
  exists w',
    coop demo_segsize 15 (sys1 demo_w0 (PStart "empty.txt") client0 WIdle) =
    sys1 w' (PDone 0) (mkClient [(GF_ERROR, 0)] []) WIdle /\
    w_pool w' = [demo_seg1] ++ [demo_seg0].
Proof.
  apply (transfer_empty_file demo_segsize "/proxy_shm_0" "empty.txt" demo_seg0 [demo_seg1]
           demo_w0 demo_p0); demo_hyp.
Defined.

(** ** The segment pool on concrete runs *)

(** Two handlers take the two segments. *)
Definition take_both : list (env * tid) := sched [(1, TProxy 0); (1, TProxy 1)]%nat.

Lemma pool_conserved_witness :
  pool_and_held (after take_both (demo_sys 2 ["a.txt"; "b.txt"])) ≡ₚ
  pool_and_held (demo_sys 2 ["a.txt"; "b.txt"]).
Proof.
  apply (pool_conserved demo_segsize). apply (run_reachable _ take_both).
  vm_compute. reflexivity.
Defined.

Lemma channel_exclusive_witness :
  0%nat = 0%nat /\ demo_seg0 ∉ w_pool (s_world (after take_both (demo_sys 2 ["a.txt"; "b.txt"]))).
Proof.
  eapply (channel_exclusive demo_segsize (demo_sys 2 ["a.txt"; "b.txt"]) _ 0 0).
  - apply (run_reachable _ take_both). vm_compute. reflexivity.
  - apply (bool_decide_eq_true_1 _). vm_compute. reflexivity.
  - vm_compute. reflexivity.
  - vm_compute. reflexivity.
  - vm_compute. reflexivity.
  - vm_compute. reflexivity.
Defined.

(** Three requests, two segments: after the first two handlers took
    both, the third gets [GF_ERROR] at once. *)
Definition three_sys : sys := demo_sys 2 ["a.txt"; "b.txt"; "c.txt"].

Lemma pool_exhausted_fails_fast_witness :
  sys_step demo_segsize EOk (TProxy 2) (after take_both three_sys) =
    Some (mkSys (s_world (after take_both three_sys))
            (<[2%nat := (PDone 0, send_header GF_ERROR 0 client0)]>
               (s_proxies (after take_both three_sys)))
            (s_workers (after take_both three_sys)) (s_boss (after take_both three_sys))).
Proof.
  apply (pool_exhausted_fails_fast demo_segsize three_sys _ 2 "c.txt" client0).
  - apply (run_reachable _ take_both). vm_compute. reflexivity.
  - vm_compute. reflexivity.
  - vm_compute. reflexivity.
Defined.

(** ** Interleavings the cooperative schedule does not take *)

(** The race on [is_last_chunk] for ["a.txt"]: the handler returns
    after 8000 of the 10000 bytes it announced. *)
Lemma is_last_race_truncates_witness :
  exists w' p',
    rtc (step demo_segsize) (sys1 demo_w0 (PStart "a.txt") client0 WIdle)
      (sys1 w' (PDone (Z.of_nat (length file_a - length file_a mod chunk_size demo_segsize)))
         (mkClient [(GF_OK, Z.of_nat (length file_a))]
            (take (length file_a - length file_a mod chunk_size demo_segsize) file_a))
         (WWaitCache (the_task demo_segsize "/proxy_shm_0" "a.txt")
            (worker_seg demo_segsize "/proxy_shm_0" demo_w0) file_a (Z.of_nat (length file_a)))) /\
    w_pool w' = [demo_seg1] ++ [demo_seg0] /\ seg_payload w' demo_seg0 = Some p' /\
    sem_proxy_ready p' = 1%nat /\ sem_cache_ready p' = 0%nat /\
    worker_step EOk (WWaitCache (the_task demo_segsize "/proxy_shm_0" "a.txt")
      (worker_seg demo_segsize "/proxy_shm_0" demo_w0) file_a (Z.of_nat (length file_a))) w' = None.
Proof.
  apply (is_last_race_truncates demo_segsize "/proxy_shm_0" "a.txt" demo_seg0 [demo_seg1]
           demo_w0 demo_p0); demo_hyp.
Defined.





(** ** The handler's error paths on the concrete state *)

(** The segment as a misbehaving writer leaves it: [datalen] beyond the
    4000-byte buffer. *)
Definition overflow_w : world := write_seg (set_datalen 5000) demo_seg0 demo_w0.

Lemma proxy_overflow_aborts_witness :
  proxy_step demo_segsize EOk (PBody demo_seg0 0) client0 overflow_w =
    Some (PError demo_seg0, client0, overflow_w) /\
  proxy_step demo_segsize EOk (PError demo_seg0) client0 overflow_w =
    Some (PDone 0, send_header GF_ERROR 0 client0, set_pool (w_pool overflow_w ++ [demo_seg0]) overflow_w).
Proof. apply (proxy_overflow_aborts _ _ _ _ _ _ (set_datalen 5000 demo_p0)); vm_compute; reflexivity. Defined.

(** A full first chunk in the segment, after the [GF_OK] header. *)
Definition chunk_w : world := write_seg (set_datalen 4000) demo_seg0 demo_w0.
Definition header_sent : client := send_header GF_OK 10000 client0.

Lemma proxy_send_fail_second_header_witness :
  proxy_step demo_segsize EFail (PBody demo_seg0 0) header_sent chunk_w =
    Some (PError demo_seg0, header_sent, chunk_w) /\
  proxy_step demo_segsize EOk (PError demo_seg0) header_sent chunk_w =
    Some (PDone 0, mkClient (c_headers header_sent ++ [(GF_ERROR, 0)]) (c_body header_sent),
          set_pool (w_pool chunk_w ++ [demo_seg0]) chunk_w).
Proof.
  apply (proxy_send_fail_second_header _ _ _ _ _ (set_datalen 4000 demo_p0));
    [vm_compute; reflexivity|split; vm_compute; discriminate].
Defined.

Lemma proxy_partial_send_witness :
  proxy_step demo_segsize (EShort 1000) (PBody demo_seg0 0) header_sent chunk_w =
    Some (PPost demo_seg0 (0 + Z.of_nat (length (take 1000 (take (Z.to_nat 4000) (data demo_p0))))),
          send_body (take 1000 (take (Z.to_nat 4000) (data demo_p0))) header_sent, chunk_w).
Proof.
  apply (proxy_partial_send _ _ _ _ _ (set_datalen 4000 demo_p0));
    [vm_compute; reflexivity|split; vm_compute; discriminate].
Defined.

(** ** A worker's error path stalls the handler *)


(** ** The chunks of the spec's scenario *)

(** The task the boss makes of the request for ["a.txt"] on segment 0. *)
Definition demo_task (path : string) : task := mkTask "/proxy_shm_0" path demo_segsize.

Lemma worker_refines_chunks_witness :
  worker_chunks 30 (WRead (demo_task "a.txt") demo_seg0 file_a 0) demo_w0 =
  if (length file_a mod 4000 =? 0)%nat then map unflag (spec_chunks 4000 file_a) ++ [mkChunk [] true]
  else spec_chunks 4000 file_a.
Proof.
  apply (worker_refines_chunks _ _ _ _ _ demo_p0);
    first [vm_compute; reflexivity | apply Nat.ltb_lt; vm_compute; reflexivity
          | apply Z.ltb_lt; vm_compute; reflexivity | apply Nat.leb_le; vm_compute; reflexivity
          | repeat split; vm_compute; reflexivity].
Defined.

Lemma worker_chunks_reassemble_witness :
  concat (map ch_bytes (worker_chunks 30 (WRead (demo_task "b.txt") demo_seg0 file_b 0) demo_w0)) = file_b /\
  map ch_last (worker_chunks 30 (WRead (demo_task "b.txt") demo_seg0 file_b 0) demo_w0) =
    repeat false (length file_b / 4000) ++ [true].
Proof.
  apply (worker_chunks_reassemble _ _ _ _ _ demo_p0);
    first [vm_compute; reflexivity | apply Nat.ltb_lt; vm_compute; reflexivity
          | apply Z.ltb_lt; vm_compute; reflexivity | apply Nat.leb_le; vm_compute; reflexivity
          | repeat split; vm_compute; reflexivity].
Defined.

(** The spec's chunking scenario: with a 4000-byte
    buffer the worker publishes the 10000 bytes of ["a.txt"] as chunks of
    4000, 4000 and 2000 bytes flagged false, false, true, as the spec's
    end-to-end scenario expects; the 8000 bytes of ["b.txt"] take three
    chunks too, the last one empty. *)
Theorem spec_scenario_chunks :
  map (fun ch => (length (ch_bytes ch), ch_last ch))
      (worker_chunks 30 (WRead (demo_task "a.txt") demo_seg0 file_a 0) demo_w0) =
    [(4000%nat, false); (4000%nat, false); (2000%nat, true)] /\
  map (fun ch => (length (ch_bytes ch), ch_last ch))
      (worker_chunks 30 (WRead (demo_task "b.txt") demo_seg0 file_b 0) demo_w0) =
    [(4000%nat, false); (4000%nat, false); (0%nat, true)].
Proof. split; vm_compute; reflexivity. Qed.

(** ** Consequences of the leak and of the crash *)

(** The daemon after about a thousand transfers: every descriptor of its
    table is taken (each transfer leaks one). *)
Definition exhausted_w : world := set_dproc (mkProc 1024 1020) (demo_world 2).

Lemma fd_exhaustion_stalls_witness :
  exists s, rtc (step demo_segsize) (sys1 exhausted_w (PStart "a.txt") client0 WIdle) s /\
    stalled demo_segsize demo_seg0 s /\ boss_spins s /\
    forall s', step demo_segsize s s' -> s' = s \/ s_proxies s' = [(PError demo_seg0, client0)].
Proof.
  apply (fd_exhaustion_stalls demo_segsize "/proxy_shm_0" "a.txt" demo_seg0 [demo_seg1]
           exhausted_w demo_p0); first [demo_hyp | apply Nat.leb_le; vm_compute; reflexivity].
Defined.

(** A message without a blank waits in the daemon's socket. *)
Definition crashed_w : world := set_backlog ["garbage"] (demo_world 2).

Lemma boss_crash_fails_requests_witness :
  exists s, rtc (step demo_segsize) (sys1 crashed_w (PStart "a.txt") client0 WIdle) s /\
    w_daemon_up (s_world s) = false /\
    s_proxies s = [(PDone 0, mkClient [(GF_ERROR, 0)] [])] /\
    w_pool (s_world s) = [demo_seg1] ++ [demo_seg0].
Proof.
  apply (boss_crash_fails_requests demo_segsize "a.txt" "garbage" demo_seg0 [demo_seg1] crashed_w);
    first [demo_hyp | apply Nat.ltb_lt; reflexivity].
Defined.

(** ** Tokens of a channel on a concrete run *)

(** Twenty steps of the cooperative schedule on the request for
    ["a.txt"]: the transfer is under way. *)
Definition token_run : sys := coop demo_segsize 20%nat (demo_sys 2 ["a.txt"]).

Lemma tokens_never_increase_witness :
  (tokens "/proxy_shm_0" token_run <= tokens "/proxy_shm_0" (demo_sys 2 ["a.txt"]))%nat.
Proof. apply tokens_never_increase with (segsize := demo_segsize). apply coop_reachable. Defined.

Lemma one_chunk_in_flight_witness :
  (sems "/proxy_shm_0" (s_world token_run) <= 1 /\
  forall i j ps cl' ws, s_proxies token_run !! i = Some (ps, cl') -> s_workers token_run !! j = Some ws ->
    proxy_tok "/proxy_shm_0" ps + worker_tok "/proxy_shm_0" ws <= 1)%nat.
Proof.
  apply (one_chunk_in_flight "/proxy_shm_0" demo_segsize (demo_sys 2 ["a.txt"]) token_run
           "a.txt" client0); try (vm_compute; reflexivity).
  - repeat constructor.
  - apply coop_reachable.
Defined.



(** An origin server that serves the bytes of ["a.txt"] for every URL,
    in one piece. *)
Definition origin_curl : curl_env :=
  mkCurlEnv true (fun _ => mkCurlResponse [file_a] CURLE_OK 200) (fun _ => false).

Lemma front_ends_agree_witness :
  cache_answer demo_segsize 60 demo_w0 "a.txt" =
    curl_answer origin_curl "http://s/" "a.txt" (replicate (length file_a) EOk) /\
  curl_answer origin_curl "http://s/" "a.txt" (replicate (length file_a) EOk) = served file_a.
Proof.
  eapply (front_ends_agree demo_segsize "/proxy_shm_0" "a.txt" demo_seg0 [demo_seg1] demo_w0 demo_p0);
    first [demo_hyp | intros j _; reflexivity | apply Forall_replicate; split; discriminate
          | rewrite length_replicate; lia | simpl; rewrite app_nil_r; reflexivity].
Defined.

(** Two requests at once, for ["a.txt"] and ["b.txt"], through the two
    segments of the pool. *)
Definition demo_reqs : list request :=
  [((demo_seg0, "a.txt"%string), file_a) : request; ((demo_seg1, "b.txt"%string), file_b) : request].

Lemma concurrent_transfers_complete_witness :
  exists s1 s2,
    rtc (step demo_segsize) (mkSys demo_w0 (map starting demo_reqs) [WIdle] BServe) s1 /\
    w_pool (s_world s1) = [] /\ s_proxies s1 = map holding demo_reqs /\
    rtc (step demo_segsize) s1 s2 /\
    s_proxies s2 = map finished demo_reqs /\ w_pool (s_world s2) = map req_seg demo_reqs.
Proof.
  apply (concurrent_transfers_complete demo_segsize ltac:(apply Z.ltb_lt; vm_compute; reflexivity)
           demo_w0 demo_reqs);
    [vm_compute; reflexivity
    |repeat constructor; unfold req_ready, fresh_seg, request_ok;
       repeat split; first [discriminate | vm_compute; reflexivity | apply Nat.ltb_lt; vm_compute; reflexivity]
    |apply (bool_decide_unpack _); vm_compute; reflexivity
    |reflexivity..|apply Nat.ltb_lt; vm_compute; reflexivity].
Defined.

(** The daemon receives [SIGTERM] while the handler of ["a.txt"] waits
    for its first chunk. *)
Definition strand_state : sys := coop demo_segsize 6 (sys1 demo_w0 (PStart "a.txt") client0 WIdle).
Definition strand_after : sys :=
  match daemon_signal 3 SIGTERM strand_state with Some (s1, _) => s1 | None => strand_state end.

Lemma daemon_exit_strands_handler_witness :
  SIGTERM = SIGTERM /\ w_listening (s_world strand_after) = false /\
  (forall s', rtc (step demo_segsize) strand_after s' ->
     forall p', seg_payload (s_world s') demo_seg0 = Some p' -> sem_proxy_ready p' = 0%nat) /\
  forall fuel, s_proxies (coop demo_segsize fuel strand_after) !! 0%nat = Some (PWaitFirst demo_seg0, client0).
Proof.
  apply (daemon_exit_strands_handler demo_segsize 3 SIGTERM strand_state strand_after SIGTERM 0
           (PWaitFirst demo_seg0) client0 demo_seg0 demo_p0);
    [vm_compute; reflexivity|vm_compute; reflexivity|left; reflexivity|vm_compute; reflexivity
    |vm_compute; reflexivity].
Defined.

(** A request for ["a.txt"] on the first segment of the pool: whatever
    the order of the steps, as long as the daemon's calls succeed, the
    handler returns. *)
Definition live_start : sys := mkSys demo_w0 [(PStart "a.txt", client0)] [WIdle] BServe.

Lemma handler_always_returns_witness :
  sn (ok_step demo_segsize) live_start /\
  forall s, rtc (ok_step demo_segsize) live_start s ->
    (forall s', ~ ok_step demo_segsize s s') -> exists n cl', s_proxies s = [(PDone n, cl')].
Proof.
  unfold live_start.
  apply (handler_always_returns demo_segsize "/proxy_shm_0" "a.txt" demo_seg0
           ltac:(vm_compute; reflexivity) ltac:(vm_compute; reflexivity)
           ltac:(unfold request_ok; repeat split; first [discriminate | vm_compute; reflexivity
                   | apply Nat.ltb_lt; vm_compute; reflexivity])
           ltac:(apply Z.ltb_lt; vm_compute; reflexivity)
           demo_w0 [demo_seg1] client0 [WIdle] BServe demo_p0);
    first [discriminate | vm_compute; reflexivity | apply Nat.leb_le; vm_compute; reflexivity
          | repeat constructor].
Defined.

(** The proxy makes two segments of 4088 bytes; the daemon starts with
    no option, its store loaded from ["locals.txt"]; a request for
    ["a.txt"] follows. *)
Definition demo_boot : outcome sys :=
  daemon_boot (fun _ => demo_store) true [] EOk EOk
    (started_world (demo_created 2).1.1 (demo_created 2).2 (mkProc 4 0)).

Definition demo_booted : sys := match demo_boot with Run s => s | Exit _ => demo_sys 2 [] end.

Lemma startup_request_returns_witness :
  sn (ok_step demo_segsize) (mkSys (s_world demo_booted) [(PStart "a.txt", client0)]
                               (s_workers demo_booted) (s_boss demo_booted)) /\
  forall s, rtc (ok_step demo_segsize) (mkSys (s_world demo_booted) [(PStart "a.txt", client0)]
                                          (s_workers demo_booted) (s_boss demo_booted)) s ->
    (forall s', ~ ok_step demo_segsize s s') -> exists r cl', s_proxies s = [(PDone r, cl')].
Proof.
  apply (startup_request_returns (fun _ => demo_store) true [] EOk EOk 2 demo_segsize "a.txt" ∅
           (mkProc 3 0) (mkProc 4 0) client0 (demo_created 2).1.1 (demo_created 2).1.2 (demo_created 2).2);
    first [ apply Nat.leb_le; vm_compute; reflexivity | apply Z.ltb_lt; vm_compute; reflexivity
          | unfold request_ok; repeat split; first [discriminate | vm_compute; reflexivity
              | apply Nat.ltb_lt; vm_compute; reflexivity]
          | vm_compute; reflexivity ].
Defined.
